(* ===== verification/_CoqProject ===== *)
-Q . S2P
Prelude.v
Framed.v
GoStrings.v
GoTime.v
Metrics.v
GoSort.v
GoPaths.v
ServeMux.v
JsonText.v
Json.v
JsonWf.v
Env.v
Sha256.v
Messaging.v
EventJson.v
Retry.v
Breaker.v
HttpTransport.v
Metered.v
Storage.v
StorageProps.v
StorageQueries.v
OutboxWorker.v
PostgresWorker.v
WorkerProgress.v
Http.v
RateLimit.v
Jwt.v
JwtFrame.v
TCache.v
Coord.v
FileStores.v
RequestJson.v
FilesApi.v
SearchJson.v
SearchClient.v
SearchSim.v
MessagesApi.v
OpenApi.v
Template.v
ApiDocs.v
AuditLogs.v
GrpcServer.v
PostgresStore.v
StatusApi.v
Brokers.v
BrokerProps.v
BrokerWorker.v
Consumers.v
Readers.v
ReadersProps.v
Cassandra.v
ReadersSim.v
StatusPage.v
Gateway.v
Connect.v
Startup.v
StartupProps.v
StartupSim.v
ChaosProxy.v
ChaosProps.v
ChaosSim.v
Pipeline.v
PipelineProps.v
PipelineLive.v
PipelineCode.v
PipelineSim.v
Router.v
RouterProps.v
RouterSim.v
MetricsProps.v
MetricsSim.v
