(* ===== verification/Prelude.v ===== *)
(** * otus-app: a verification library

    A model, in executable Rocq definitions, of the message service under [src/],
    with the theorems that make its parts correct.

    ** The program

    [cmd/app] serves messages over HTTP ([internal/handlers]) and gRPC
    ([internal/grpcserver]).  A message is validated ([internal/domain/messaging],
    [internal/application/messages]), stored in PostgreSQL together with one
    outbox row per configured broker in a single transaction
    ([internal/storage]), and published afterwards by one worker per broker that
    leases rows, publishes and completes or postpones them ([internal/outbox]).
    [cmd/consumer] supervises one consumer loop per broker ([internal/broker]),
    which saves events to Cassandra ([internal/cstore]) and indexes them in
    Elasticsearch ([internal/search]), and acknowledges them after that.  Requests
    are routed by [http.ServeMux] and pass a rate limiter over Valkey
    ([internal/ratelimit]) and JWT authentication with keys fetched from a JWKS
    endpoint ([internal/security]); lists are cached in Tarantool
    ([internal/tcache]); the rate limit and the lock around migrations live in
    etcd ([internal/coord]); files are kept in S3 or HDFS ([internal/blobstore],
    [internal/hdfsstore]); created messages are noted in an audit log in MongoDB
    ([internal/audit]).  Outgoing calls are guarded by retries with jittered
    backoff and a circuit breaker ([internal/resilience]).  [cmd/gateway] is an
    HTTP front to both interfaces, [cmd/chaosproxy] a proxy that injects faults.
    What each process connects, serves and releases is decided by the environment
    ([os.Getenv], a function here); all but PostgreSQL is optional.

    ** How the code is modelled

    A function with effects is an action of the monad [GoM W] below: a state
    [W], and [None] for a panic.  What the code reads from its surroundings (the
    clock, contexts, timers, random numbers, metrics) is the class [Runtime W],
    with the laws its clients rely on in [RuntimeLaws W]; [sim] is a concrete
    world that keeps them, on which the examples run.  Dependencies outside the
    repository (the PostgreSQL server, etcd, Valkey, Tarantool, MinIO, HDFS,
    Cassandra, MongoDB, Elasticsearch, the JWT library, the brokers' clients, the
    network of the proxies) are classes of operations over the world;
    classes of laws state the documented behaviour a theorem needs, and each such
    theorem has a witness over a concrete instance.  Integers are [Z] with
    wrap-around written out ([wrap64], [wrapu64]) where the code could reach it,
    instants and durations are nanoseconds, strings are byte strings, SQL and CQL
    tables are finite maps with one function per statement.  Logging is left out.

    JSON is computed: [encoding/json] is a pair of definitions, a printer and a
    parser of texts ([JsonText], [Json]), and each struct that is encoded or decoded
    has its own definitions with the names of its tags: the event on the queues and
    in the outbox ([EventJson]), request bodies ([RequestJson]), the documents,
    queries and answers of the search ([SearchJson]), the key set ([Jwt]), the error
    object of the chaos proxy.  Times in them are RFC 3339 ([GoTime]); the local
    time zone is the class [LocalZone].  What PostgreSQL's JSONB column gives back
    is a parameter that keeps the value ([EventCodec]), and a text column takes
    valid UTF-8 without zero characters ([pg_text]).

    Loops that need fuel: [jitter_loop] runs at most 64 times, since the delay
    doubles from at least 1 below a 64-bit limit; [Do_loop] has as many steps as
    the policy has attempts.  Both bounds are proved to be enough
    ([jitter_delay_exponential], [Policy_Do_bounded]).  The copying loops of the
    chaos proxy take the number of reads; one more than the body has bytes is
    enough, and [copyThrottled_exact] proves that they then end.  The scanner of
    [Template] takes the length of its input, each step consuming a byte, and the
    template of the program is parsed by computation ([statusTmpl_parses]).  The
    parser of JSON takes one more than the length of its text, which [parse_print]
    proves enough for everything that was printed, and refuses nesting beyond 10000
    as the library does.  Loops
    that run forever by design ([run] of the worker, the consumers, [supervise],
    [WatchInt]) take the number of iterations after which they are observed, and
    their theorems hold for every number.

    ** The whole program

    Three groups of theorems put the components together.  [Pipeline] is the way of
    a message through PostgreSQL, the outbox workers, the brokers and the consumers
    as a step relation with every interleaving and fault; nothing is invented and
    nothing lost on the way, the runs refine a specification without queues, leases
    and faults, and from every reachable state every message can reach its stores
    ([PipelineProps], [PipelineLive]); the loops of the worker and of the consumers,
    run over that pipeline as their world, take only its steps ([PipelineCode]).
    [Router] is a request on its way through the mux, the middlewares and the
    handlers; nothing changes without a verified token, over gRPC too.
    [StartupProps] follows what the processes open and release.

    ** Files

    - [Prelude]: errors, machine integers, the monad, runtimes, triples, and the
      lemmas on lists shared by the components.
    - [GoStrings], [GoPaths], [Sha256], [GoTime]: the parts of Go's [strings],
      [strconv], [net], [path], [crypto/sha256] and [time] that the code uses; a
      formatted time is read back.
    - [JsonText], [Json], [JsonWf]: [encoding/json]: strings with their escapes and
      UTF-8, values, the filling of structs; what is printed is read back, and what
      is read can be printed.
    - [Framed]: what every run of a program keeps, with the automation that walks
      through programs.  [Metrics], [Metered]: the registered metrics, and the
      updates of [internal/resilience].  [MetricsProps]: every update the loops and
      the application make is of a registered metric, with its labels.
      [MetricsSim]: the witnesses.
    - [GoSort], [ServeMux]: [sort.Strings] and the mux of [net/http]: patterns,
      conflicts, matching, redirects; what it finds does not depend on the order of
      registration.
    - [Env]: the settings read from the environment.
    - [Messaging]: [internal/domain/messaging/message.go] and
      [internal/application/messages/service.go].  [EventJson]: the JSON of events
      and messages; an event is read back as it was written.
    - [Retry], [Breaker], [HttpTransport]: [internal/resilience].  The delay is
      the capped exponential, retries are bounded and their result explained; in
      every interleaving of callers the half-open breaker admits one probe, it
      trips on exactly three failures in a row and refuses calls while open; the
      HTTP transport repeats only safe requests and leaks no response body.
    - [Storage]: [internal/storage], its tables, transactions and faults.
      [StorageProps]: the invariant of the tables over all operations and faults,
      atomicity and idempotency of [Create], exclusive and fenced leases, no lost
      outbox row, the order of claims.  [StorageQueries]: listing and migration.
    - [OutboxWorker]: [internal/outbox/worker.go] against the interface
      [OutboxSpec]: at-least-once delivery.  [PostgresWorker]: the tables of
      [Storage], with other clients and faults interfering, implement that
      interface.  [WorkerProgress]: when nothing fails the worker empties the
      outbox.
    - [Http]: requests and replies.  [RateLimit], [Jwt]: the two middlewares and
      the components behind them; the limit is exact, only verified tokens pass.
      [JwtFrame]: checking a token changes nothing but the cache of keys.
    - [TCache], [Coord]: the cache and the etcd coordinator; round trip and
      freshness, locking brackets, gap-free watching.
    - [FileStores]: the S3 and HDFS clients.  [RequestJson]: the bodies of requests.
      [FilesApi]:
      [internal/handlers/storage.go]; ranges, names, tags, downloads.
    - [SearchJson]: the JSON of [internal/search].  [SearchClient]: the client;
      indexing under the message's identifier makes redelivery harmless, a file
      search is exactly the filtered index, so that an indexed file is found by its
      tags.
      [SearchSim]: a simulated Elasticsearch with the witnesses.
    - [AuditLogs]: [internal/audit]; a created message shows up in [GET /audit].
    - [OpenApi], [ApiDocs]: the embedded interface description, its reader and the
      route tables, which agree.  [StatusApi]: the data of the status page and the
      wrapper that counts requests.  [Template]: the fragment of [html/template]
      that the page uses, and a reader of HTML tags.  [StatusPage]: the page; no
      value can add a tag to it.
    - [MessagesApi]: [internal/handlers/handlers.go].  [GrpcServer]:
      [internal/grpcserver].  [PostgresStore]: both over the tables of [Storage],
      with end-to-end idempotency of a POST, its failure for a zero character and
      the effect of a gRPC batch.
    - [Brokers]: the publishers, constructors and connections of
      [internal/broker].  [BrokerProps]: a publication that reports success was
      taken by the broker, nothing is leaked, RabbitMQ survives the loss of a
      node.  [BrokerWorker]: the publishers behind the outbox worker, so that
      at-least-once delivery holds of the whole chain.
    - [Consumers]: the loops of [internal/broker]; nothing is acknowledged before
      it was processed.  [Readers]: the consumers with their connections, and the
      supervisor of [cmd/consumer].  [ReadersProps]: a supervised consumer
      acknowledges only what was processed, leaves nothing open and gives up only
      when its context is done.  [ReadersSim]: a simulated broker with the
      witnesses.  [Cassandra]: [internal/cstore] and the handler of [cmd/consumer]; the
      tables depend only on which events were saved.
    - [Gateway]: [cmd/gateway]; the HTTP proxy passes requests and answers on
      faithfully, the rate limiter sees the same client through it, and a
      message created over its gRPC path ends as over HTTP.

    - [Connect]: the constructors that connect clients ([coord.New],
      [storage.New], [blobstore.New], [hdfsstore.New], [cstore.New],
      [SetupTracing]) and the TLS settings.  [Startup]: [run] of the four
      commands, [httpserver.Run], [outbox.Start] and the options of the API.
      [StartupProps]: over a trace of what is opened, released and served, every
      process releases what it manages in the reverse order, whatever fails;
      [cmd/app] serves whenever PostgreSQL does; with a CA file the services
      authenticate each other.  [StartupSim]: the processes in a simulated
      environment.
    - [ChaosProxy]: [cmd/chaosproxy].  [ChaosProps]: its settings stay sane, a
      throttled copy ends, is exact and keeps to the rate, and a repeated POST
      stores one message.  [ChaosSim]: a simulated network with the witnesses.
    - [Pipeline], [PipelineProps], [PipelineLive], [PipelineCode], [PipelineSim]:
      the way of a message through the system, see above.
    - [Router]: the routes of the four processes and the way of a request to its
      handler.  [RouterProps]: every route is reached with the values the client
      escaped, and nothing changes without a token.  [RouterSim]: the application
      over the tables of [Storage], with the witnesses.

    ** Not modelled

    Generated protobuf code, the format of log lines and tracing spans, and the
    [main] functions, which call [run] and exit.  Of [html/template] and [net/http]
    only what the program uses is modelled (one template with [if] and fields; no
    host patterns and no trailing wildcards).  Goroutines are started and joined by
    name in [Startup]; their bodies are the definitions of the components, and
    their interleavings are modelled where they share state ([Breaker],
    [StorageProps], [PostgresWorker], [Pipeline]).  The mutex around RabbitMQ's
    connection is taken by one caller at a time.  [envList] and [envOr] are copied
    in several packages with the same text and modelled once.  The replies of the
    handlers are kept as values, not encoded; JSON is written out where a program
    reads the bytes (requests, the cache, the queues, the search).  The settings of the faults that the proxy's control
    interface decodes are given as a value, since one of them is a float.  Not
    proved: the round trip of [SpecRoutes] on documents other than the embedded one,
    and a fairness under which the pipeline does what it is proved able to do. *)

From stdpp Require Import base option list strings gmap.
From Stdlib Require Import ZArith Lia.

#[export] Set Default Goal Selector "!".

(** ** Go errors

    The error values the code distinguishes.  Sentinels are constructors;
    [ErrText] is [errors.New] with the text, [Wrapped] is [fmt.Errorf] with a
    [%w] verb, [NetError] any error implementing [net.Error]. *)
Inductive error :=
| ErrEmptyText
| ErrIdempotencyConflict
| ErrLeaseLost
| ErrOpen
| ErrTemporaryHTTP
| ErrCanceled
| ErrDeadlineExceeded
| ErrEOF
| ErrUnexpectedEOF
| ErrNoRows
| ErrNotConfigured
| NetError (text : string)
| ErrText (text : string)
| Wrapped (text : string) (inner : error).

#[export] Instance error_eq_dec : EqDecision error.
Proof. solve_decision. Defined.

(** A stream being read: its bytes, and the error it ends with, if any. *)
Record stream := mkStream { s_bytes : string; s_err : option error }.

(** [errors.Is(err, target)] for a sentinel [target]: walk the [%w] chain. *)
Fixpoint errors_is (err target : error) : bool :=
  bool_decide (err = target) ||
  match err with
  | Wrapped _ inner => errors_is inner target
  | _ => false
  end.

(** [errors.Is] on a possibly nil error. *)
Definition is_err (err : option error) (target : error) : bool :=
  match err with
  | Some e => errors_is e target
  | None => false
  end.

(** [errors.As(err, &netErr)] with [netErr net.Error].  The documented
    [net.Error] implementations among the values above are [NetError] and
    [context.DeadlineExceeded], which has [Timeout] and [Temporary] methods. *)
Fixpoint as_net_error (err : error) : bool :=
  match err with
  | NetError _ | ErrDeadlineExceeded => true
  | Wrapped _ inner => as_net_error inner
  | _ => false
  end.

(** ** Prometheus metrics

    Counters, gauges and histograms are recorded as the sequence of updates the
    code performs (durations in nanoseconds); log lines are left out. *)
Inductive metric :=
| MInc (name : string) (labels : list string)
| MAdd (name : string) (labels : list string) (v : Z)
| MSet (name : string) (labels : list string) (v : Z)
| MObserve (name : string) (labels : list string) (v : Z).

#[export] Instance metric_eq_dec : EqDecision metric.
Proof. solve_decision. Defined.

(** ** Machine integers

    [int], [int64] and [time.Duration] are 64-bit two's complement. *)
Definition max_int64 : Z := 9223372036854775807.
Definition min_int64 : Z := -9223372036854775808.

Definition wrap64 (z : Z) : Z :=
  (z + 9223372036854775808) `mod` 18446744073709551616 - 9223372036854775808.
Definition wrapu64 (z : Z) : Z := z `mod` 18446744073709551616.
Definition in_int64 (z : Z) : Prop := (min_int64 <= z <= max_int64)%Z.

(** Durations, in nanoseconds. *)
Definition Millisecond : Z := 1000000.
Definition Second : Z := 1000000000.
Definition Minute : Z := 60000000000.

(** ** The effect monad

    An effectful Go call over a world [W]: [None] is a panic. *)
Definition GoM (W A : Type) : Type := W → option (A * W).

#[export] Instance gom_ret {W} : MRet (GoM W) := λ A (a : A) (w : W), Some (a, w).
#[export] Instance gom_bind {W} : MBind (GoM W) := λ A B (f : A → GoM W B) (m : GoM W A) (w : W),
  match m w with
  | Some (a, w') => f a w'
  | None => None
  end.

Definition gets {W A} (f : W → A) : GoM W A := λ w, Some (f w, w).
Definition modify {W} (f : W → W) : GoM W unit := λ w, Some ((), f w).
Definition panic {W A} : GoM W A := λ _, None.
Definition lift_state {W A} (f : W → A * W) : GoM W A := λ w, Some (f w).

(** Run [m] on the first component of a pair of states. *)
Definition on_fst {W L A} (m : GoM W A) : GoM (W * L) A := λ wl,
  match m wl.1 with
  | Some (a, w') => Some (a, (w', wl.2))
  | None => None
  end.

(** ** Contexts and the runtime

    [context.Context] values as the code builds them. *)
Inductive ctx :=
| Background
| RequestCtx (id : nat)
| WithTimeout (parent : ctx) (deadline : Z)
| WithCancel (parent : ctx) (id : nat).

(** What the Go runtime provides: the clock, the random source, the state of
    contexts, the [select] between a context and a timer, the metrics
    registry. *)
Class Runtime (W : Type) := {
  now : W → Z;
  ctx_err : ctx → W → option error;
  (** a uniformly distributed value below the (positive) argument *)
  draw : Z → W → Z * W;
  (** [true] when the timer's channel was chosen, [false] for [ctx.Done()] *)
  select_timer : ctx → Z → W → bool * W;
  emit : metric → W → W
}.

(** [context.WithTimeout(c, d)] *)
Definition with_timeout `{Runtime W} (c : ctx) (d : Z) (w : W) : ctx :=
  WithTimeout c (now w + d).

(** Documented behaviour of the runtime. *)
Class RuntimeLaws (W : Type) `{Runtime W} := {
  draw_range : ∀ n w, (0 < n)%Z → (0 <= (draw n w).1 < n)%Z;
  select_done : ∀ c d w, (select_timer c d w).1 = false → ctx_err c (select_timer c d w).2 ≠ None;
  background_alive : ∀ w, ctx_err Background w = None;
  ctx_err_kind : ∀ c w e, ctx_err c w = Some e → e = ErrCanceled ∨ e = ErrDeadlineExceeded;
  emit_now : ∀ m w, now (emit m w) = now w;
  emit_ctx : ∀ m c w, ctx_err c (emit m w) = ctx_err c w
}.

(** A runtime with a component of local variables added to its world. *)
#[export] Instance runtime_pair {W L} `{Runtime W} : Runtime (W * L) := {
  now wl := now wl.1;
  ctx_err c wl := ctx_err c wl.1;
  draw n wl := let '(z, w') := draw n wl.1 in (z, (w', wl.2));
  select_timer c d wl := let '(b, w') := select_timer c d wl.1 in (b, (w', wl.2));
  emit m wl := (emit m wl.1, wl.2)
}.

#[export] Instance runtime_pair_laws {W L} `{RuntimeLaws W} : RuntimeLaws (W * L).
Proof.
  split; cbn.
  - intros n [w l] Hn. pose proof (draw_range n w Hn). cbn. by destruct (draw n w).
  - intros c d [w l]; cbn. pose proof (select_done c d w). by destruct (select_timer c d w).
  - intros [w l]. apply background_alive.
  - intros c [w l] e. apply ctx_err_kind.
  - intros m [w l]. apply emit_now.
  - intros m c [w l]. apply emit_ctx.
Defined.

(** A relation between worlds that every runtime operation respects: what a
    component keeps while it waits, draws or reports metrics. *)
Class Frame {W} `{Runtime W} (R : W → W → Prop) := {
  frame_refl : ∀ w, R w w;
  frame_trans : ∀ w1 w2 w3, R w1 w2 → R w2 w3 → R w1 w3;
  frame_emit : ∀ m w, R w (emit m w);
  frame_draw : ∀ n w, R w (draw n w).2;
  frame_select : ∀ c d w, R w (select_timer c d w).2
}.

(** The local component of a pair is framed, and frames lift to pairs. *)
Definition same_snd {W L} (wl wl' : W * L) : Prop := wl'.2 = wl.2.
Definition on_first {W L} (R : W → W → Prop) (wl wl' : W * L) : Prop := R wl.1 wl'.1.

#[export] Instance frame_same_snd {W L} `{Runtime W} : Frame (@same_snd W L).
Proof.
  split; unfold same_snd; cbn; [done|congruence|done|..].
  - intros n [w l]; cbn. by destruct (draw n w).
  - intros c d [w l]; cbn. by destruct (select_timer c d w).
Defined.

#[export] Instance frame_on_first {W L} `{Runtime W} (R : W → W → Prop) `{!Frame R} :
  Frame (@on_first W L R).
Proof.
  split; unfold on_first; cbn.
  - intros w. apply frame_refl.
  - intros w1 w2 w3. apply frame_trans.
  - intros m w. apply frame_emit.
  - intros n [w l]; cbn. pose proof (frame_draw n w). by destruct (draw n w).
  - intros c d [w l]; cbn. pose proof (frame_select c d w). by destruct (select_timer c d w).
Defined.

(** ** A simulated runtime

    A virtual clock, cancelled request ids, a linear-congruential random
    source and a metrics log: the concrete world the witnesses run in. *)
Record sim := mkSim {
  sim_clock : Z;
  sim_cancelled : list nat;
  sim_seed : Z;
  sim_metrics : list metric
}.

Fixpoint sim_ctx_err (c : ctx) (s : sim) : option error :=
  match c with
  | Background => None
  | RequestCtx id => if bool_decide (id ∈ sim_cancelled s) then Some ErrCanceled else None
  | WithTimeout p dl =>
      match sim_ctx_err p s with
      | Some e => Some e
      | None => if (dl <=? sim_clock s)%Z then Some ErrDeadlineExceeded else None
      end
  | WithCancel p id =>
      match sim_ctx_err p s with
      | Some e => Some e
      | None => if bool_decide (id ∈ sim_cancelled s) then Some ErrCanceled else None
      end
  end.

Definition sim_draw (n : Z) (s : sim) : Z * sim :=
  (sim_seed s `mod` n,
   mkSim (sim_clock s) (sim_cancelled s)
     ((sim_seed s * 1103515245 + 12345) `mod` 2147483648) (sim_metrics s))%Z.

Definition sim_advance (d : Z) (s : sim) : sim :=
  mkSim (sim_clock s + d) (sim_cancelled s) (sim_seed s) (sim_metrics s).

Definition sim_select (c : ctx) (d : Z) (s : sim) : bool * sim :=
  let s' := sim_advance (Z.max 0 d) s in
  (match sim_ctx_err c s' with None => true | Some _ => false end, s').

#[export] Instance sim_runtime : Runtime sim := {
  now := sim_clock;
  ctx_err := sim_ctx_err;
  draw := sim_draw;
  select_timer := sim_select;
  emit m s := mkSim (sim_clock s) (sim_cancelled s) (sim_seed s) (sim_metrics s ++ [m])
}.

#[export] Instance sim_laws : RuntimeLaws sim.
Proof.
  split; cbn.
  - intros n s Hn. by apply Z.mod_pos_bound.
  - intros c d s. by destruct (sim_ctx_err c _).
  - done.
  - intros c s. induction c as [|id|p IH dl|p IH id]; cbn; intros e; repeat case_match; naive_solver.
  - done.
  - intros m c s. induction c as [|id|p IH dl|p IH id]; cbn; [done|done|..]; by rewrite IH.
Defined.

Definition sim0 : sim := mkSim 0 [] 7 [].

(** ** Generic lemmas *)

Create HintDb otus.

Lemma gom_bind_Some {W A B} (m : GoM W A) (f : A → GoM W B) w b w' :
  (m ≫= f) w = Some (b, w') ↔ ∃ a w1, m w = Some (a, w1) ∧ f a w1 = Some (b, w').
Proof.
  unfold mbind, gom_bind. split.
  - destruct (m w) as [[a w1]|]; [eauto|done].
  - by intros (a & w1 & -> & ?).
Qed.

Lemma gom_bind_run {W A B} (m : GoM W A) (f : A → GoM W B) w a w1 :
  m w = Some (a, w1) → (m ≫= f) w = f a w1.
Proof. unfold mbind, gom_bind. by intros ->. Qed.

Lemma gom_gets_bind {W A B} (g : W → A) (f : A → GoM W B) w : (gets g ≫= f) w = f (g w) w.
Proof. done. Qed.

Lemma gom_modify_bind {W B} (g : W → W) (f : () → GoM W B) w : (modify g ≫= f) w = f () (g w).
Proof. done. Qed.

Lemma gom_ret_bind {W A B} (a : A) (f : A → GoM W B) (w : W) : (mret a ≫= f) w = f a w.
Proof. done. Qed.

Lemma gom_lift_bind {W A B} (g : W → A * W) (f : A → GoM W B) w :
  (lift_state g ≫= f) w = f (g w).1 (g w).2.
Proof. unfold mbind, gom_bind, lift_state. by destruct (g w). Qed.

(** Rewriting a run forward, one call at a time. *)
#[export] Hint Rewrite @gom_gets_bind @gom_modify_bind @gom_ret_bind @gom_lift_bind : otus_run.

Lemma wrap64_id z : in_int64 z → wrap64 z = z.
Proof.
  unfold in_int64, wrap64, min_int64, max_int64. intros ?.
  rewrite Z.mod_small; lia.
Qed.

Lemma wrap64_range z : in_int64 (wrap64 z).
Proof.
  unfold in_int64, wrap64, min_int64, max_int64.
  pose proof (Z.mod_pos_bound (z + 9223372036854775808) 18446744073709551616). lia.
Qed.

Lemma wrapu64_id z : (0 <= z < 18446744073709551616)%Z → wrapu64 z = z.
Proof. apply Z.mod_small. Qed.

#[export] Hint Resolve wrap64_range : otus.

(** Filtering a list all of whose elements pass, or none. *)
Lemma list_filter_all {A} (P : A → Prop) `{∀ x, Decision (P x)} (l : list A) :
  Forall P l → filter P l = l.
Proof.
  induction 1 as [|x l Hx _ IH]; [done|]. rewrite filter_cons_True by done. by rewrite IH.
Qed.

Lemma list_filter_none {A} (P : A → Prop) `{∀ x, Decision (P x)} (l : list A) :
  Forall (λ x, ¬ P x) l → filter P l = [].
Proof.
  induction 1 as [|x l Hx _ IH]; [done|]. by rewrite filter_cons_False.
Qed.

(** Decompose a run of the monad in a hypothesis. *)
Ltac gom_inv :=
  repeat match goal with
  | H : (_ ≫= _) _ = Some _ |- _ =>
      apply gom_bind_Some in H; destruct H as (? & ? & ? & ?)
  | H : mret _ _ = Some _ |- _ => unfold mret, gom_ret in H; simplify_eq
  | H : gets _ _ = Some _ |- _ => unfold gets in H; simplify_eq
  | H : modify _ _ = Some _ |- _ => unfold modify in H; simplify_eq
  | H : lift_state _ _ = Some _ |- _ => unfold lift_state in H; simplify_eq
  | H : panic _ = Some _ |- _ => discriminate H
  end.

(** ** Total correctness

    [triple P m Q]: started where [P] holds, [m] does not panic and ends where
    [Q] holds of its result. *)
Definition triple {W A} (P : W → Prop) (m : GoM W A) (Q : A → W → Prop) : Prop :=
  ∀ w, P w → ∃ a w', m w = Some (a, w') ∧ Q a w'.

Section Triples.
Context {W : Type}.

Lemma triple_ret {A} (a : A) (Q : A → W → Prop) : triple (Q a) (mret a) Q.
Proof. intros w HQ. by exists a, w. Qed.

Lemma triple_bind {A B} (P : W → Prop) (R : A → W → Prop) (Q : B → W → Prop) (m : GoM W A) (f : A → GoM W B) :
  triple P m R → (∀ a, triple (R a) (f a) Q) → triple P (m ≫= f) Q.
Proof.
  intros Hm Hf w HP. destruct (Hm w HP) as (a & w1 & E & HR).
  destruct (Hf a w1 HR) as (b & w2 & E2 & HQ). exists b, w2. by rewrite (gom_bind_run _ _ _ _ _ E).
Qed.

Lemma triple_conseq {A} (P P' : W → Prop) (Q Q' : A → W → Prop) (m : GoM W A) :
  triple P m Q → (∀ w, P' w → P w) → (∀ a w, Q a w → Q' a w) → triple P' m Q'.
Proof. intros Hm HP HQ w Hw. destruct (Hm w (HP w Hw)) as (a & w' & ? & ?). eauto. Qed.

Lemma triple_gets {A} (f : W → A) (Q : A → W → Prop) : triple (λ w, Q (f w) w) (gets f) Q.
Proof. intros w HQ. by exists (f w), w. Qed.

Lemma triple_modify (f : W → W) (Q : unit → W → Prop) : triple (λ w, Q () (f w)) (modify f) Q.
Proof. intros w HQ. by exists (), (f w). Qed.

Lemma triple_pre {A} (P : W → Prop) (Q : A → W → Prop) (m : GoM W A) :
  (∀ w, P w → triple (λ w', w' = w) m Q) → triple P m Q.
Proof. intros Hm w HP. by apply (Hm w HP). Qed.

End Triples.

(** The same from one world: [wp m Q w]. *)
Definition wp {W A} (m : GoM W A) (Q : A → W → Prop) (w : W) : Prop := ∃ a w', m w = Some (a, w') ∧ Q a w'.

Section WP.
Context {W : Type}.

Lemma wp_ret {A} (a : A) (Q : A → W → Prop) w : Q a w → wp (mret a) Q w.
Proof. intros HQ. by exists a, w. Qed.

Lemma wp_bind {A B} (m : GoM W A) (f : A → GoM W B) (Q : B → W → Prop) w :
  wp m (λ a, wp (f a) Q) w → wp (m ≫= f) Q w.
Proof.
  intros (a & w1 & E & b & w2 & E2 & HQ). exists b, w2. by rewrite (gom_bind_run _ _ _ _ _ E).
Qed.

Lemma wp_gets {A} (f : W → A) (Q : A → W → Prop) w : Q (f w) w → wp (gets f) Q w.
Proof. intros HQ. by exists (f w), w. Qed.

Lemma wp_modify (f : W → W) (Q : unit → W → Prop) w : Q () (f w) → wp (modify f) Q w.
Proof. intros HQ. by exists (), (f w). Qed.

Lemma wp_conseq {A} (m : GoM W A) (Q Q' : A → W → Prop) w :
  wp m Q w → (∀ a w', Q a w' → Q' a w') → wp m Q' w.
Proof. intros (a & w' & E & HQ) HQQ. exists a, w'. auto. Qed.

Lemma wp_on_fst {L A} (m : GoM W A) (Q : A → W * L → Prop) w l :
  wp m (λ a w', Q a (w', l)) w → wp (on_fst m) Q (w, l).
Proof. intros (a & w' & E & HQ). exists a, (w', l). unfold on_fst; cbn. by rewrite E. Qed.

End WP.

(** Run the next call of the goal by its specification [H], binding result and
    world; the side conditions of [H] come first. *)
Tactic Notation "wp_call" uconstr(H) "as" simple_intropattern(a) simple_intropattern(w) simple_intropattern(P) :=
  apply wp_bind; try apply wp_on_fst; eapply wp_conseq; [eapply H|intros a w P].

(** Run the pure steps at the head of the goal. *)
Ltac wp_pure :=
  repeat first
    [ progress cbv beta iota zeta
    | match goal with
      | |- wp (gets _ ≫= _) _ _ => apply wp_bind, wp_gets
      | |- wp (modify _ ≫= _) _ _ => apply wp_bind, wp_modify
      | |- wp (mret _ ≫= _) _ _ => apply wp_bind, wp_ret
      | |- wp (mret _) _ _ => apply wp_ret
      | |- wp (gets _) _ _ => apply wp_gets
      | |- wp (modify _) _ _ => apply wp_modify
      end ].

Lemma triple_on_fst {W L A} (P : W → Prop) (Q : A → W → Prop) (m : GoM W A)
    (P' : W * L → Prop) (Q' : A → W * L → Prop) :
  triple P m Q → (∀ w l, P' (w, l) → P w) → (∀ a w l w', P' (w, l) → Q a w' → Q' a (w', l)) →
  triple P' (on_fst m) Q'.
Proof.
  intros Hm HP HQ [w l] Hw. destruct (Hm w (HP _ _ Hw)) as (a & w' & E & Ha).
  exists a, (w', l). unfold on_fst; cbn. rewrite E. eauto.
Qed.

(** Case analysis on the first boolean or match of the goal. *)
Ltac split_if :=
  repeat match goal with
  | |- context [if ?b then _ else _] => destruct b eqn:?
  end.

Lemma length_omap_le {A B} (f : A → option B) (l : list A) : (length (omap f l) ≤ length l)%nat.
Proof. induction l as [|x l IH]; cbn; [done|]. destruct (f x); cbn; lia. Qed.
