(* ===== verification/Framed.v ===== *)
(** * Framed: what every run of a program keeps

    [framed R m]: every run of [m] ends in a world related by [R] to where it
    began.  Programs are walked through call by call: a hint database knows the
    calls, a tactic the control structure. *)

From stdpp Require Import base option list strings.
From S2P Require Import Prelude.

Definition framed {W A} (R : W → W → Prop) (m : GoM W A) : Prop := ∀ w x w', m w = Some (x, w') → R w w'.

Create HintDb framed.

(** Frames are preorders, also next to local variables. *)
#[export] Instance frame_preorder {W} `{Runtime W} (R : W → W → Prop) `{!Frame R} : PreOrder R.
Proof. split; [intros w; apply frame_refl|intros w1 w2 w3; apply frame_trans]. Qed.

#[export] Instance on_first_preorder {W L} (R : W → W → Prop) `{!PreOrder R} : PreOrder (on_first (L := L) R).
Proof. unfold on_first. split; [by intros w|]. intros w1 w2 w3 H1 H2. by etransitivity. Qed.

Section Framed.
Context {W : Type} (R : W → W → Prop) `{!PreOrder R}.

Lemma framed_ret {A} (x : A) : framed R (mret x).
Proof. by intros w y w' [= <- <-]. Qed.

Lemma framed_bind {A B} (m : GoM W A) (f : A → GoM W B) :
  framed R m → (∀ x, framed R (f x)) → framed R (m ≫= f).
Proof. intros Hm Hf w y w' (x & w1 & E & E')%gom_bind_Some. etransitivity; [by eapply Hm|by eapply Hf]. Qed.

Lemma framed_gets {A} (f : W → A) : framed R (gets f).
Proof. by intros w y w' [= <- <-]. Qed.

Lemma framed_panic {A} : framed (A := A) R panic.
Proof. done. Qed.

Lemma framed_modify f : (∀ w, R w (f w)) → framed R (modify f).
Proof. intros Hf w y w' [= <- <-]. apply Hf. Qed.

Lemma framed_on_fst {L A} (m : GoM W A) : framed R m → framed (on_first (L := L) R) (on_fst m).
Proof.
  intros Hm [w l] x w'. unfold on_fst, on_first. cbn. destruct (m w) as [[y w1]|] eqn:E; [|done].
  intros [= <- <-]. by eapply Hm.
Qed.

End Framed.

Lemma framed_emit `{Runtime W} (R : W → W → Prop) `{!Frame R} mt : framed R (modify (emit mt)).
Proof. apply framed_modify. intros w. apply frame_emit. Qed.

#[export] Hint Resolve framed_ret framed_gets framed_panic framed_emit framed_on_fst : framed.
#[export] Hint Extern 0 (PreOrder _) => typeclasses eauto : framed.
#[export] Hint Extern 0 (Frame _) => typeclasses eauto : framed.

(** Walk through a program, call by call. *)
Ltac framed_go :=
  repeat first
    [ solve [eauto with framed]
    | apply framed_bind; [typeclasses eauto|..|intros ?]
    | match goal with
      | |- framed _ (match ?x with _ => _ end) => destruct x
      | |- framed _ (let '(_, _) := ?x in _) => destruct x
      end
    | progress cbn beta iota zeta ].
