(* ===== verification/GoStrings.v ===== *)
(** * GoStrings: the parts of [strings], [strconv], [path] and [net] the code uses

    Go strings are byte sequences, and so is [string]: a UTF-8 literal in this
    development is the byte sequence Go has for it. *)

From stdpp Require Import base option list strings gmap.
From Stdlib Require Import ZArith Lia Ascii.
From S2P Require Import Prelude.

(** ** Bytes *)

Definition byte_val (c : ascii) : Z := Z.of_N (N_of_ascii c).

Definition digit_char (d : Z) : ascii := ascii_of_N (Z.to_N (48 + d)).

(** ** [strings.TrimSpace]

    [unicode.IsSpace] holds of the six ASCII blanks and of U+0085, U+00A0,
    U+1680, U+2000..U+200A, U+2028, U+2029, U+202F, U+205F and U+3000; below
    are their UTF-8 encodings by length. *)

Definition space1 (c : ascii) : bool :=
  let b := byte_val c in ((9 <=? b) && (b <=? 13) || (b =? 32))%Z.

Definition space2 (c1 c2 : ascii) : bool :=
  (byte_val c1 =? 194)%Z && ((byte_val c2 =? 133) || (byte_val c2 =? 160))%Z.

Definition space3 (c1 c2 c3 : ascii) : bool :=
  let b1 := byte_val c1 in let b2 := byte_val c2 in let b3 := byte_val c3 in
  (((b1 =? 225) && (b2 =? 154) && (b3 =? 128))
   || ((b1 =? 226) && (b2 =? 128) &&
       (((128 <=? b3) && (b3 <=? 138)) || (b3 =? 168) || (b3 =? 169) || (b3 =? 175)))
   || ((b1 =? 226) && (b2 =? 129) && (b3 =? 159))
   || ((b1 =? 227) && (b2 =? 128) && (b3 =? 128)))%Z.

(** Drop leading white space runes ([TrimLeftFunc(s, unicode.IsSpace)]). *)
Fixpoint trim_left (s : string) : string :=
  match s with
  | "" => ""
  | String c1 s1 =>
      if space1 c1 then trim_left s1 else
      match s1 with
      | "" => s
      | String c2 s2 =>
          if space2 c1 c2 then trim_left s2 else
          match s2 with
          | "" => s
          | String c3 s3 => if space3 c1 c2 c3 then trim_left s3 else s
          end
      end
  end.

(** The same on a reversed string: the last rune's bytes come first, in
    reverse ([utf8.DecodeLastRuneInString]). *)
Fixpoint trim_left_rev (s : string) : string :=
  match s with
  | "" => ""
  | String c1 s1 =>
      if space1 c1 then trim_left_rev s1 else
      match s1 with
      | "" => s
      | String c2 s2 =>
          if space2 c2 c1 then trim_left_rev s2 else
          match s2 with
          | "" => s
          | String c3 s3 => if space3 c3 c2 c1 then trim_left_rev s3 else s
          end
      end
  end.

Definition trim_right (s : string) : string := String.rev (trim_left_rev (String.rev s)).

Definition TrimSpace (s : string) : string := trim_right (trim_left s).

(** A string made of white space runes only. *)
Inductive Blank : string → Prop :=
| Blank_nil : Blank ""
| Blank_1 c s : space1 c = true → Blank s → Blank (String c s)
| Blank_2 c1 c2 s : space2 c1 c2 = true → Blank s → Blank (String c1 (String c2 s))
| Blank_3 c1 c2 c3 s : space3 c1 c2 c3 = true → Blank s →
    Blank (String c1 (String c2 (String c3 s))).

(** ** Searching and cutting *)

(** [strings.IndexByte] / [strings.LastIndexByte] *)
Fixpoint index_byte (c : ascii) (s : string) : option nat :=
  match s with
  | "" => None
  | String a s' => if bool_decide (a = c) then Some 0 else S <$> index_byte c s'
  end.

Fixpoint last_index_byte (c : ascii) (s : string) : option nat :=
  match s with
  | "" => None
  | String a s' =>
      match last_index_byte c s' with
      | Some i => Some (S i)
      | None => if bool_decide (a = c) then Some 0 else None
      end
  end.

(** [s[:n]] and [s[n:]] *)
Fixpoint str_take (n : nat) (s : string) : string :=
  match n, s with
  | S n', String a s' => String a (str_take n' s')
  | _, _ => ""
  end.

Fixpoint str_drop (n : nat) (s : string) : string :=
  match n, s with
  | S n', String _ s' => str_drop n' s'
  | _, _ => s
  end.

(** [strings.Cut(s, sep)] for a one-byte separator *)
Fixpoint Cut (s : string) (sep : ascii) : string * string * bool :=
  match s with
  | "" => ("", "", false)
  | String a s' =>
      if bool_decide (a = sep) then ("", s', true)
      else let '(b, r, ok) := Cut s' sep in (String a b, r, ok)
  end.

(** [strings.Split(s, sep)] for a one-byte separator *)
Fixpoint Split (s : string) (sep : ascii) : list string :=
  match s with
  | "" => [""]
  | String a s' =>
      if bool_decide (a = sep) then "" :: Split s' sep
      else match Split s' sep with
           | p :: ps => String a p :: ps
           | [] => [String a ""]
           end
  end.

(** [strings.CutPrefix] *)
Fixpoint CutPrefix (s prefix : string) : string * bool :=
  match prefix with
  | "" => (s, true)
  | String p prefix' =>
      match s with
      | String a s' =>
          if bool_decide (a = p) then
            let '(r, ok) := CutPrefix s' prefix' in
            if ok then (r, true) else (s, false)
          else (s, false)
      | "" => (s, false)
      end
  end.

(** [strings.Contains] *)
Fixpoint Contains (s needle : string) : bool :=
  String.prefix needle s ||
  match s with
  | EmptyString => false
  | String _ s' => Contains s' needle
  end.

(** [strings.Trim(s, "c")] for a one-byte cutset *)
Fixpoint trim_left_byte (c : ascii) (s : string) : string :=
  match s with
  | String a s' => if bool_decide (a = c) then trim_left_byte c s' else s
  | "" => ""
  end.

Definition TrimByte (s : string) (c : ascii) : string :=
  String.rev (trim_left_byte c (String.rev (trim_left_byte c s))).

(** [strings.TrimRight(s, "c")] for a one-byte cutset *)
Definition TrimRightByte (s : string) (c : ascii) : string :=
  String.rev (trim_left_byte c (String.rev s)).

(** ** [strings.EqualFold] with an ASCII second argument

    Simple case folding maps two non-ASCII runes to ASCII letters: U+017F to
    [s] and U+212A to [k]. *)
Definition lower_ascii (c : ascii) : ascii :=
  let b := byte_val c in
  if ((65 <=? b) && (b <=? 90))%Z then ascii_of_N (Z.to_N (b + 32)) else c.

Fixpoint fold_string (s : string) : string :=
  match s with
  | "" => ""
  | String c1 s1 =>
      match s1 with
      | String c2 s2 =>
          if (byte_val c1 =? 197)%Z && (byte_val c2 =? 191)%Z then String "s" (fold_string s2) else
          match s2 with
          | String c3 s3 =>
              if ((byte_val c1 =? 226) && (byte_val c2 =? 132) && (byte_val c3 =? 170))%Z
              then String "k" (fold_string s3)
              else String (lower_ascii c1) (fold_string s1)
          | "" => String (lower_ascii c1) (fold_string s1)
          end
      | "" => String (lower_ascii c1) ""
      end
  end.

Definition EqualFold (s t : string) : bool := bool_decide (fold_string s = fold_string t).

(** ** [strconv] *)

Inductive num_error := ErrSyntax | ErrRange.

#[export] Instance num_error_eq_dec : EqDecision num_error.
Proof. solve_decision. Defined.

Definition max_uint64 : Z := 18446744073709551615.

Definition digit_val (c : ascii) : option Z :=
  let b := byte_val c in
  if ((48 <=? b) && (b <=? 57))%Z then Some (b - 48)%Z else None.

(** The loop of [strconv.ParseUint(s, 10, 64)]: a syntax error at the first
    non-digit, a range error as soon as the value leaves the range, whichever
    comes first. *)
Fixpoint parse_uint_loop (n : Z) (s : string) : Z + num_error :=
  match s with
  | "" => inl n
  | String c s' =>
      match digit_val c with
      | None => inr ErrSyntax
      | Some d =>
          if (max_uint64 / 10 + 1 <=? n)%Z then inr ErrRange
          else let n1 := (n * 10 + d)%Z in
               if (max_uint64 <? n1)%Z then inr ErrRange else parse_uint_loop n1 s'
      end
  end.

(** [strconv.ParseUint(s, 10, 64)] *)
Definition ParseUint (s : string) : Z * option num_error :=
  match s with
  | "" => (0%Z, Some ErrSyntax)
  | _ => match parse_uint_loop 0 s with
         | inl n => (n, None)
         | inr ErrSyntax => (0%Z, Some ErrSyntax)
         | inr ErrRange => (max_uint64, Some ErrRange)
         end
  end.

(** [strconv.ParseInt(s, 10, 64)] *)
Definition ParseInt (s : string) : Z * option num_error :=
  match s with
  | "" => (0%Z, Some ErrSyntax)
  | String c s' =>
      let neg := bool_decide (c = "-"%char) in
      let body := if neg || bool_decide (c = "+"%char) then s' else s in
      let '(un, err) := ParseUint body in
      if bool_decide (err = Some ErrSyntax) then (0%Z, Some ErrSyntax)
      else if negb neg && (9223372036854775808 <=? un)%Z then (max_int64, Some ErrRange)
      else if neg && (9223372036854775808 <? un)%Z then (min_int64, Some ErrRange)
      else (if neg then (- un)%Z else un, None)
  end.

(** [strconv.Atoi] on a 64-bit platform *)
Definition Atoi : string → Z * option num_error := ParseInt.

Fixpoint format_loop (fuel : nat) (n : Z) (acc : string) : string :=
  match fuel with
  | O => acc
  | S fuel' =>
      let acc' := String (digit_char (n `mod` 10)) acc in
      if (n <? 10)%Z then acc' else format_loop fuel' (n / 10) acc'
  end.

(** [strconv.FormatInt(n, 10)]: twenty digits hold any 64-bit value. *)
Definition FormatInt (n : Z) : string :=
  if (n <? 0)%Z then String "-" (format_loop 20 (- n) "") else format_loop 20 n "".

(** ** [path.Base] *)
Definition path_Base (p : string) : string :=
  if bool_decide (p = "") then "." else
  let stripped := TrimRightByte p "/" in
  let base := match last_index_byte "/" stripped with
              | Some i => str_drop (S i) stripped
              | None => stripped
              end in
  if bool_decide (base = "") then "/" else base.

(** ** [net.SplitHostPort] *)
Definition SplitHostPort (hostport : string) : option (string * string) :=
  match last_index_byte ":" hostport with
  | None => None
  | Some i =>
      let finish (host : string) (j k : nat) : option (string * string) :=
        if bool_decide (index_byte "[" (str_drop j hostport) ≠ None) then None
        else if bool_decide (index_byte "]" (str_drop k hostport) ≠ None) then None
        else Some (host, str_drop (S i) hostport) in
      match hostport with
      | String "[" _ =>
          match index_byte "]" hostport with
          | None => None
          | Some e =>
              if bool_decide (S e = i)
              then finish (str_drop 1 (str_take e hostport)) 1 (S e)
              else None
          end
      | _ =>
          let host := str_take i hostport in
          if bool_decide (index_byte ":" host ≠ None) then None else finish host 0 0
      end
  end.

(** ** Lemmas on bytes and digits *)

Lemma byte_val_range c : (0 <= byte_val c < 256)%Z.
Proof. unfold byte_val. pose proof (N_ascii_bounded c). lia. Qed.

Lemma digit_val_digit_char d : (0 <= d < 10)%Z → digit_val (digit_char d) = Some d.
Proof.
  intros ?. unfold digit_val, digit_char, byte_val.
  rewrite N_ascii_embedding by lia.
  rewrite Z2N.id by lia.
  replace ((48 <=? 48 + d)%Z && (48 + d <=? 57)%Z) with true by lia.
  f_equal. lia.
Qed.

Lemma digit_val_range c d : digit_val c = Some d → (0 <= d < 10)%Z.
Proof.
  unfold digit_val. destruct ((48 <=? byte_val c)%Z && (byte_val c <=? 57)%Z) eqn:E; [|done].
  intros [= <-]. lia.
Qed.

(** ** Formatting then parsing an integer *)

Lemma parse_format_loop fuel n acc :
  (0 <= n < 10 ^ Z.of_nat fuel)%Z → (n <= max_uint64)%Z → (0 < fuel)%nat →
  parse_uint_loop 0 (format_loop fuel n acc) = parse_uint_loop n acc.
Proof.
  revert n acc. induction fuel as [|fuel IH]; intros n acc Hn Hmax Hf; [lia|].
  cbn [format_loop].
  assert (0 <= n `mod` 10 < 10)%Z as Hmod by (apply Z.mod_pos_bound; lia).
  pose proof (Z.div_mod n 10 ltac:(lia)) as Hdm.
  assert (∀ m, (0 <= m)%Z → (m * 10 + n `mod` 10 = n)%Z →
    parse_uint_loop m (String (digit_char (n `mod` 10)) acc) = parse_uint_loop n acc) as Hstep.
  { intros m Hm0 Hm. cbn [parse_uint_loop]. rewrite digit_val_digit_char by lia.
    unfold max_uint64 in *.
    replace (18446744073709551615 / 10 + 1 <=? m)%Z with false
      by (change (18446744073709551615 / 10 + 1)%Z with 1844674407370955162%Z; lia).
    rewrite Hm. by replace (18446744073709551615 <? n)%Z with false by lia. }
  destruct (Z.ltb_spec n 10) as [Hlt|Hge].
  - apply Hstep; lia.
  - rewrite IH.
    + apply Hstep; lia.
    + rewrite Nat2Z.inj_succ, Z.pow_succ_r in Hn by lia. lia.
    + lia.
    + destruct fuel; [cbn in Hn; lia|lia].
Qed.

Lemma format_loop_head fuel n acc :
  (0 < fuel)%nat → (0 <= n)%Z →
  ∃ d rest, format_loop fuel n acc = String (digit_char d) rest ∧ (0 <= d < 10)%Z.
Proof.
  revert n acc. induction fuel as [|fuel IH]; intros n acc Hf Hn; [lia|]. cbn [format_loop].
  assert (0 <= n `mod` 10 < 10)%Z by (apply Z.mod_pos_bound; lia).
  destruct (n <? 10)%Z eqn:E; [eauto|].
  destruct fuel as [|fuel]; [cbn; eauto|]. apply IH; [lia|]. apply Z.div_pos; lia.
Qed.

Lemma ParseUint_format n :
  (0 <= n <= max_uint64)%Z → ParseUint (format_loop 20 n "") = (n, None).
Proof.
  intros Hn. unfold ParseUint.
  destruct (format_loop_head 20 n "") as (d & rest & Hd & _); [lia..|].
  rewrite Hd, <- Hd, parse_format_loop; [done| |lia..].
  change (10 ^ Z.of_nat 20)%Z with 100000000000000000000%Z. unfold max_uint64 in *. lia.
Qed.

Lemma digit_char_not_sign d : (0 <= d < 10)%Z → digit_char d ≠ "-"%char ∧ digit_char d ≠ "+"%char.
Proof.
  intros Hd. pose proof (digit_val_digit_char d Hd) as Hv.
  split; intros Heq; rewrite Heq in Hv; discriminate Hv.
Qed.

(** [strconv.ParseInt] reads back what [strconv.FormatInt] writes, for every
    64-bit integer. *)
Lemma ParseInt_FormatInt n : in_int64 n → ParseInt (FormatInt n) = (n, None).
Proof.
  unfold in_int64, min_int64, max_int64. intros Hn. unfold FormatInt.
  destruct (Z.ltb_spec n 0) as [Hneg|Hpos]; cbn [ParseInt].
  - rewrite bool_decide_true by done. cbn [orb negb andb].
    rewrite ParseUint_format by (unfold max_uint64; lia). cbn.
    replace (9223372036854775808 <? - n)%Z with false by lia.
    f_equal. lia.
  - destruct (format_loop_head 20 n "") as (d & rest & Hd & Hr); [lia..|].
    destruct (digit_char_not_sign d Hr) as [Hm Hp].
    rewrite Hd. cbn [ParseInt]. rewrite !bool_decide_false by done. cbn [orb negb andb].
    rewrite <- Hd, ParseUint_format by (unfold max_uint64; lia).
    cbn. by replace (9223372036854775808 <=? n)%Z with false by lia.
Qed.

Lemma FormatInt_inj n m : in_int64 n → in_int64 m → FormatInt n = FormatInt m → n = m.
Proof.
  intros Hn Hm Heq. pose proof (ParseInt_FormatInt n Hn) as H1.
  rewrite Heq, (ParseInt_FormatInt m Hm) in H1. congruence.
Qed.

Lemma parse_uint_loop_range n s m :
  (0 <= n <= max_uint64)%Z → parse_uint_loop n s = inl m → (0 <= m <= max_uint64)%Z.
Proof.
  revert n. induction s as [|c s IH]; cbn; intros n Hn; [by intros [= <-]|].
  destruct (digit_val c) as [d|] eqn:Hd; [|done].
  apply digit_val_range in Hd.
  case_match; [done|]. case_match; [done|]. intros. eapply IH; [|done]. lia.
Qed.

Lemma ParseUint_range s n err : ParseUint s = (n, err) → (0 <= n <= max_uint64)%Z.
Proof.
  unfold ParseUint, max_uint64. destruct s as [|c s]; [intros [= <- _]; lia|].
  destruct (parse_uint_loop 0 (String c s)) as [m|[]] eqn:E; intros [= <- _]; [|lia..].
  apply parse_uint_loop_range in E; unfold max_uint64 in *; lia.
Qed.

(** Whatever the input, [strconv.ParseInt] returns a 64-bit value. *)
Lemma ParseInt_range s : in_int64 (ParseInt s).1.
Proof.
  unfold in_int64, min_int64, max_int64. destruct s as [|c s]; cbn [ParseInt fst]; [lia|].
  destruct (ParseUint _) as [un err] eqn:E. apply ParseUint_range in E.
  destruct (bool_decide (err = Some ErrSyntax)); [cbn; lia|].
  destruct (bool_decide (c = "-"%char)); cbn.
  - case_match; cbn; unfold min_int64; lia.
  - case_match; cbn; unfold max_int64; lia.
Qed.

#[export] Hint Resolve ParseInt_range : otus.

(** ** Reversal and concatenation of strings *)

Lemma str_app_nil_r s : s +:+ "" = s.
Proof. induction s as [|c s IH]; [done|]. change (String c (s +:+ "") = String c s). by rewrite IH. Qed.

Lemma str_app_cons c a b : String c a +:+ b = String c (a +:+ b).
Proof. reflexivity. Qed.

Lemma str_length_app a b : String.length (a +:+ b) = (String.length a + String.length b)%nat.
Proof.
  induction a as [|x a IH]; [done|]. change (String x a +:+ b) with (String x (a +:+ b)).
  cbn [String.length]. by rewrite IH.
Qed.

Lemma str_app_assoc a b c : (a +:+ b) +:+ c = a +:+ (b +:+ c).
Proof.
  induction a as [|x a IH]; [done|].
  change (String x ((a +:+ b) +:+ c) = String x (a +:+ (b +:+ c))). by rewrite IH.
Qed.

Lemma str_rev_app_spec a b : String.rev_app a b = String.rev a +:+ b.
Proof.
  revert b. induction a as [|x a IH]; intros b; [done|].
  unfold String.rev. cbn. rewrite !IH, str_app_assoc. done.
Qed.

Lemma str_rev_cons x a : String.rev (String x a) = String.rev a +:+ String x "".
Proof. unfold String.rev at 1. cbn. apply str_rev_app_spec. Qed.

Lemma str_rev_append a b : String.rev (a +:+ b) = String.rev b +:+ String.rev a.
Proof.
  induction a as [|x a IH].
  - change (String.rev b = String.rev b +:+ ""). by rewrite str_app_nil_r.
  - change (String x a +:+ b) with (String x (a +:+ b)).
    by rewrite !str_rev_cons, IH, str_app_assoc.
Qed.

Lemma str_rev_involutive a : String.rev (String.rev a) = a.
Proof. induction a as [|x a IH]; [done|]. rewrite str_rev_cons, str_rev_append, IH. done. Qed.

Lemma str_rev_nil_inv a : String.rev a = "" → a = "".
Proof. intros H. rewrite <- (str_rev_involutive a), H. done. Qed.

Lemma string_length_ind (P : string → Prop) :
  (∀ s, (∀ t, (String.length t < String.length s)%nat → P t) → P s) → ∀ s, P s.
Proof.
  intros Hs s. remember (String.length s) as n eqn:Hn. revert s Hn.
  induction (lt_wf n) as [n _ IH]. intros s ->. apply Hs. intros t Ht. by eapply IH.
Qed.

(** ** White space *)

Lemma space2_not1 c1 c2 : space2 c1 c2 = true → space1 c1 = false.
Proof. unfold space1, space2. lia. Qed.

Lemma space3_not1 c1 c2 c3 : space3 c1 c2 c3 = true → space1 c1 = false.
Proof. unfold space1, space3. lia. Qed.

Lemma space3_not2 c1 c2 c3 : space3 c1 c2 c3 = true → space2 c1 c2 = false.
Proof. unfold space2, space3. lia. Qed.

#[export] Hint Resolve space2_not1 space3_not1 space3_not2 : otus.
#[export] Hint Constructors Blank : otus.

Lemma Blank_app a b : Blank a → Blank b → Blank (a +:+ b).
Proof. induction 1; intros ?; [done|apply Blank_1|apply Blank_2|apply Blank_3]; auto. Qed.

Lemma Blank_trim_left s : Blank s → trim_left s = "".
Proof.
  induction 1 as [|c s Hc ? IH|c1 c2 s Hc ? IH|c1 c2 c3 s Hc ? IH]; cbn; [done|..].
  - by rewrite Hc.
  - by rewrite (space2_not1 _ _ Hc), Hc.
  - by rewrite (space3_not1 _ _ _ Hc), (space3_not2 _ _ _ Hc), Hc.
Qed.

Lemma trim_left_Blank s : trim_left s = "" → Blank s.
Proof.
  induction s as [s IH] using string_length_ind. destruct s as [|c1 s1]; [constructor|]. cbn.
  destruct (space1 c1) eqn:E1; [intros; apply Blank_1, IH; [done|cbn; lia|done]|].
  destruct s1 as [|c2 s2]; [done|].
  destruct (space2 c1 c2) eqn:E2; [intros; apply Blank_2, IH; [done|cbn; lia|done]|].
  destruct s2 as [|c3 s3]; [done|].
  destruct (space3 c1 c2 c3) eqn:E3; [intros; apply Blank_3, IH; [done|cbn; lia|done]|done].
Qed.

Lemma trim_left_idemp s : trim_left (trim_left s) = trim_left s.
Proof.
  induction s as [s IH] using string_length_ind. destruct s as [|c1 s1]; [done|].
  cbn [trim_left]. destruct (space1 c1) eqn:E1; [apply IH; cbn; lia|].
  destruct s1 as [|c2 s2]; [cbn; by rewrite E1|].
  destruct (space2 c1 c2) eqn:E2; [apply IH; cbn; lia|].
  destruct s2 as [|c3 s3]; [cbn; by rewrite E1, E2|].
  destruct (space3 c1 c2 c3) eqn:E3; [apply IH; cbn; lia|]. cbn. by rewrite E1, E2, E3.
Qed.

Lemma trim_left_rev_Blank s : trim_left_rev s = "" → Blank (String.rev s).
Proof.
  induction s as [s IH] using string_length_ind. destruct s as [|c1 s1]; [constructor|].
  cbn [trim_left_rev].
  destruct (space1 c1) eqn:E1.
  { intros H. rewrite str_rev_cons. apply Blank_app; [apply IH; [cbn; lia|done]|]. auto with otus. }
  destruct s1 as [|c2 s2]; [done|].
  destruct (space2 c2 c1) eqn:E2.
  { intros H. rewrite !str_rev_cons, str_app_assoc.
    apply Blank_app; [apply IH; [cbn; lia|done]|]. apply Blank_2; [done|constructor]. }
  destruct s2 as [|c3 s3]; [done|].
  destruct (space3 c3 c2 c1) eqn:E3; [|done].
  intros H. rewrite !str_rev_cons, !str_app_assoc.
  apply Blank_app; [apply IH; [cbn; lia|done]|]. apply Blank_3; [done|constructor].
Qed.

(** [strings.TrimSpace(s) == ""] exactly when [s] is made of white space. *)
Lemma TrimSpace_empty s : TrimSpace s = "" ↔ Blank s.
Proof.
  unfold TrimSpace, trim_right. split.
  - intros H%str_rev_nil_inv%trim_left_rev_Blank. rewrite str_rev_involutive in H.
    apply Blank_trim_left in H. rewrite trim_left_idemp in H. by apply trim_left_Blank.
  - intros H%Blank_trim_left. by rewrite H.
Qed.

(** ** Cutting and splitting *)

Lemma CutPrefix_true s p r : CutPrefix s p = (r, true) ↔ s = p +:+ r.
Proof.
  revert s r. induction p as [|c p IH]; intros s r.
  { change ("" +:+ r) with r. destruct s; cbn; split; congruence. }
  destruct s as [|a s]; [done|]. cbn [CutPrefix].
  change (String c p +:+ r) with (String c (p +:+ r)).
  destruct (bool_decide (a = c)) eqn:E.
  - apply bool_decide_eq_true in E as ->. pose proof (IH s r) as IH'.
    destruct (CutPrefix s p) as [r' []].
    + split; [intros [= ->]; f_equal; by apply IH'|intros [= H]; f_equal; apply IH' in H; congruence].
    + split; [done|]. intros [= H%IH']. congruence.
  - apply bool_decide_eq_false in E. split; [done|]. by intros [= ? ?].
Qed.

Lemma Cut_true s c b r : Cut s c = (b, r, true) → s = b +:+ String c r.
Proof.
  revert b r. induction s as [|a s IH]; [done|]. intros b r. cbn [Cut].
  destruct (bool_decide (a = c)) eqn:E.
  - apply bool_decide_eq_true in E as ->. intros [= <- <-]. done.
  - destruct (Cut s c) as [[b' r'] ok]. intros [= <- <- ->].
    change (String a b' +:+ String c r') with (String a (b' +:+ String c r')).
    f_equal. by apply IH.
Qed.

Lemma Split_nonempty s c : Split s c ≠ [].
Proof. destruct s; cbn; [done|]. repeat case_match; done. Qed.
