(* ===== verification/GoTime.v ===== *)
(** * GoTime: the calendar and RFC 3339

    What the code uses of [time] beyond instants: dates of the proleptic Gregorian
    calendar, and times as [encoding/json] writes and reads them
    ([Time.MarshalJSON], [Time.UnmarshalJSON]).  Instants are nanoseconds since
    1 January 1970. *)

From stdpp Require Import base option list strings.
From Stdlib Require Import ZArith Lia Ascii.
From S2P Require Import Prelude GoStrings.
Local Open Scope Z_scope.

(** ** Dates *)

(** Year, month and day of a day counted from 1 January 1970.  The years of the
    computation begin in March: [yoe] and [doy] are a year of its 400-year era and
    a day of that year. *)
Definition year_of_era (doe : Z) : Z := (doe - doe / 1460 + doe / 36524 - doe / 146096) / 365.
Definition year_start (yoe : Z) : Z := 365 * yoe + yoe / 4 - yoe / 100.

Definition civil (days : Z) : Z * Z * Z :=
  let z := days + 719468 in
  let era := z / 146097 in
  let doe := z mod 146097 in
  let yoe := year_of_era doe in
  let doy := doe - year_start yoe in
  let mp := (5 * doy + 2) / 153 in
  let m := if mp <? 10 then mp + 3 else mp - 9 in
  (yoe + era * 400 + (if m <=? 2 then 1 else 0), m, doy - (153 * mp + 2) / 5 + 1).

(** The day of a date. *)
Definition days_of (y m d : Z) : Z :=
  let y := if m <=? 2 then y - 1 else y in
  let mp := if m <=? 2 then m + 9 else m - 3 in
  y / 400 * 146097 + year_start (y mod 400) + (153 * mp + 2) / 5 + d - 1 - 719468.

Definition is_leap (y : Z) : bool := (y mod 4 =? 0) && (negb (y mod 100 =? 0) || (y mod 400 =? 0)).

(** [daysIn] *)
Definition daysIn (m y : Z) : Z :=
  if m =? 2 then if is_leap y then 29 else 28
  else if (m =? 4) || (m =? 6) || (m =? 9) || (m =? 11) then 30 else 31.

(** ** Numbers of fixed width *)

Fixpoint digits (w : nat) (n : Z) (rest : string) : string :=
  match w with
  | O => rest
  | S w' => digits w' (n / 10) (String (digit_char (n mod 10)) rest)
  end.

(** [w] digits at the beginning of a string. *)
Fixpoint read_digits (w : nat) (n : Z) (s : string) : option (Z * string) :=
  match w with
  | O => Some (n, s)
  | S w' =>
      match s with
      | String c s' => d ← digit_val c; read_digits w' (10 * n + d) s'
      | EmptyString => None
      end
  end.

(** The fraction of [n] out of [10^k], without trailing zeros; and reading one,
    of which digits past the [k]-th are ignored. *)
Fixpoint frac_digits (k : nat) (n : Z) : string :=
  match k with
  | O => ""
  | S k' => if n =? 0 then "" else String (digit_char (n / 10 ^ Z.of_nat k')) (frac_digits k' (n mod 10 ^ Z.of_nat k'))
  end.

Fixpoint read_frac (k : nat) (n : Z) (s : string) : Z * string :=
  match s with
  | String c s' =>
      match digit_val c with
      | Some d => match k with O => read_frac O n s' | S k' => read_frac k' (10 * n + d) s' end
      | None => (n * 10 ^ Z.of_nat k, s)
      end
  | EmptyString => (n * 10 ^ Z.of_nat k, s)
  end.

(** ** RFC 3339 *)

(** [Time.MarshalJSON] without the quotes, in a zone [zone] minutes east of UTC:
    an error for years and zones that RFC 3339 cannot express. *)
Definition format_rfc3339 (zone t : Z) : option string :=
  let secs := t / Second + zone * 60 in
  let '(y, m, d) := civil (secs / 86400) in
  let s := secs mod 86400 in
  let nsec := t mod Second in
  let zone_text :=
    if zone =? 0 then "Z"
    else String (if zone <? 0 then "-"%char else "+"%char)
           (digits 2 (Z.abs zone / 60) (String ":"%char (digits 2 (Z.abs zone mod 60) ""))) in
  let frac := if nsec =? 0 then "" else String "."%char (frac_digits 9 nsec) in
  let clock := digits 2 (s / 3600) (String ":"%char (digits 2 (s / 60 mod 60) (String ":"%char
                 (digits 2 (s mod 60) (frac +:+ zone_text))))) in
  if (y <? 0) || (9999 <? y) || (1440 <=? Z.abs zone) then None
  else Some (digits 4 y (String "-"%char (digits 2 m (String "-"%char (digits 2 d (String "T"%char clock)))))).

Definition skip (c : ascii) (s : string) : option string :=
  match s with String c' s' => if bool_decide (c' = c) then Some s' else None | EmptyString => None end.

(** One or two digits. *)
Definition read_hour (s : string) : option (Z * string) :=
  match read_digits 2 0 s with Some r => Some r | None => read_digits 1 0 s end.

(** The fraction of a second: a period or comma followed by a digit. *)
Definition read_nanos (s : string) : Z * string :=
  match s with
  | String c (String d _ as s') =>
      if (bool_decide (c = "."%char) || bool_decide (c = ","%char)) && bool_decide (is_Some (digit_val d))
      then read_frac 9 0 s' else (0, s)
  | _ => (0, s)
  end.

(** The offset in seconds, which is all that is left. *)
Definition read_zone (s : string) : option Z :=
  match s with
  | String c s' =>
      if bool_decide (c = "Z"%char) then if bool_decide (s' = "") then Some 0 else None
      else
        '(h, s1) ← read_digits 2 0 s';
        s2 ← skip ":"%char s1;
        '(m, s3) ← read_digits 2 0 s2;
        if bool_decide (s3 = "") && (h <=? 24) && (m <=? 60) then
          if bool_decide (c = "+"%char) then Some (h * 3600 + m * 60)
          else if bool_decide (c = "-"%char) then Some (- (h * 3600 + m * 60)) else None
        else None
  | EmptyString => None
  end.

(** [time.Parse(time.RFC3339, s)], which [Time.UnmarshalJSON] falls back to for
    texts that are not strictly RFC 3339; on those that are it agrees. *)
Definition parse_rfc3339 (s : string) : option Z :=
  '(y, s) ← read_digits 4 0 s; s ← skip "-"%char s;
  '(m, s) ← read_digits 2 0 s; s ← skip "-"%char s;
  '(d, s) ← read_digits 2 0 s; s ← skip "T"%char s;
  '(h, s) ← read_hour s; s ← skip ":"%char s;
  '(mi, s) ← read_digits 2 0 s; s ← skip ":"%char s;
  '(se, s) ← read_digits 2 0 s;
  let '(nsec, s) := read_nanos s in
  off ← read_zone s;
  if (1 <=? m) && (m <=? 12) && (1 <=? d) && (d <=? daysIn m y) && (h <? 24) && (mi <? 60) && (se <? 60)
  then Some ((days_of y m d * 86400 + h * 3600 + mi * 60 + se - off) * Second + nsec) else None.

(** ** Facts *)

Ltac div_lia := Z.to_euclidean_division_equations; lia.

(** Decide the comparisons of constants. *)
Ltac const_eqb :=
  repeat match goal with |- context [?a =? ?b] => let v := eval vm_compute in (a =? b) in change (a =? b) with v end; cbn [orb].

Lemma year_of_era_spec doe :
  0 <= doe < 146097 → let y := year_of_era doe in
  0 <= y < 400 ∧ year_start y <= doe ∧ (y < 399 → doe < year_start (y + 1)).
Proof.
  intros H y. unfold y, year_of_era, year_start.
  assert (doe / 36524 = 0 ∨ doe / 36524 = 1 ∨ doe / 36524 = 2 ∨ doe / 36524 = 3 ∨ doe / 36524 = 4) as Hc by div_lia.
  assert (doe / 146096 = if doe =? 146096 then 1 else 0) as Hb by (destruct (Z.eqb_spec doe 146096); div_lia).
  destruct (Z.eqb_spec doe 146096) as [->|Hn]; [vm_compute; intuition congruence|]. rewrite Hb.
  destruct Hc as [E|[E|[E|[E|E]]]]; rewrite E; (split; [div_lia|]); split; div_lia.
Qed.

(** The length of a year that begins in March is that of the February at its
    end. *)
Lemma year_length y doy doe :
  0 <= y < 400 → 0 <= doe < 146097 → doy = doe - year_start y → 0 <= doy → (y < 399 → doe < year_start (y + 1)) →
  doy <= (if is_leap (y + 1) then 365 else 364).
Proof.
  intros Hy Hd -> H0 Hlt. unfold year_start, is_leap in *.
  destruct (Z.eqb_spec ((y + 1) mod 4) 0), (Z.eqb_spec ((y + 1) mod 100) 0), (Z.eqb_spec ((y + 1) mod 400) 0); cbn [andb orb negb];
    div_lia.
Qed.

Lemma is_leap_era y era : is_leap (y + era * 400) = is_leap y.
Proof.
  unfold is_leap. replace (y + era * 400) with (y + (era * 100) * 4) at 1 by lia.
  replace (y + era * 400) with (y + (era * 4) * 100) at 1 by lia. by rewrite !Z_mod_plus_full.
Qed.

(** A date is valid, and its day the one it came from. *)
Lemma civil_spec days y m d :
  civil days = (y, m, d) → 1 <= m <= 12 ∧ 1 <= d <= daysIn m y ∧ days_of y m d = days.
Proof.
  unfold civil. set (z := days + 719468). set (era := z / 146097). set (doe := z mod 146097).
  assert (0 <= doe < 146097) as Hdoe by (apply Z.mod_pos_bound; lia).
  destruct (year_of_era_spec doe Hdoe) as (Hy & Hs & Hn). set (yoe := year_of_era doe) in *.
  set (doy := doe - year_start yoe). pose proof (year_length yoe doy doe Hy Hdoe eq_refl ltac:(lia) Hn) as Hlen.
  assert (0 <= doy <= 365) as Hdoy by (destruct (is_leap (yoe + 1)); lia).
  set (mp := (5 * doy + 2) / 153). assert (0 <= mp <= 11) as Hmp by (unfold mp; div_lia).
  intros [= <- <- <-]. set (mm := if mp <? 10 then mp + 3 else mp - 9).
  assert (days = era * 146097 + doe - 719468) as Hdays by (unfold era, doe, z; div_lia).
  assert ((mm <=? 2) = negb (mp <? 10)) as Hm2 by (unfold mm; destruct (mp <? 10) eqn:E; lia).
  split; [unfold mm; destruct (mp <? 10) eqn:E; lia|]. split.
  - unfold daysIn. rewrite Hm2. destruct (mp <? 10) eqn:E; cbn [negb].
    + assert (mp = 0 ∨ mp = 1 ∨ mp = 2 ∨ mp = 3 ∨ mp = 4 ∨ mp = 5 ∨ mp = 6 ∨ mp = 7 ∨ mp = 8 ∨ mp = 9) as Hc by lia.
      unfold mm. destruct_or! Hc; rewrite Hc; const_eqb; unfold mp in Hc; clearbody doy; div_lia.
    + replace (yoe + era * 400 + 1) with (yoe + 1 + era * 400) by lia. rewrite is_leap_era.
      assert (mp = 10 ∨ mp = 11) as Hc by lia.
      unfold mm. destruct Hc as [Hc|Hc]; rewrite Hc; const_eqb; unfold mp in Hc; [|destruct (is_leap (yoe + 1))]; clearbody doy; div_lia.
  - unfold days_of. rewrite Hm2. destruct (mp <? 10) eqn:E; cbn [negb].
    + assert (mm - 3 = mp) as -> by (unfold mm; lia). rewrite Z.add_0_r, Z_mod_plus_full, Z.mod_small by lia.
      rewrite Z.div_add by lia. rewrite Z.div_small by lia. unfold doy in *. lia.
    + assert (mm + 9 = mp) as -> by (unfold mm; lia).
      replace (yoe + era * 400 + 1 - 1) with (yoe + era * 400) by lia. rewrite Z_mod_plus_full, Z.mod_small by lia.
      rewrite Z.div_add by lia. rewrite Z.div_small by lia. unfold doy in *. lia.
Qed.

Lemma read_digits_digits w n m rest :
  0 <= m < 10 ^ Z.of_nat w → read_digits w n (digits w m rest) = Some (n * 10 ^ Z.of_nat w + m, rest).
Proof.
  assert (∀ k m n s, 0 <= m < 10 ^ Z.of_nat w →
    read_digits (w + k) n (digits w m s) = read_digits k (n * 10 ^ Z.of_nat w + m) s) as Hgen.
  2:{ intros Hm. rewrite <- (Nat.add_0_r w) at 1. by rewrite Hgen. }
  clear. induction w as [|w IH]; intros k m n s Hm; [cbn in *; f_equal; lia|].
  rewrite Nat2Z.inj_succ, Z.pow_succ_r in Hm by lia. cbn [digits]. replace (S w + k)%nat with (w + S k)%nat by lia.
  rewrite IH by div_lia. cbn [read_digits]. rewrite digit_val_digit_char by (apply Z.mod_pos_bound; lia).
  cbn [mbind option_bind]. f_equal. rewrite Nat2Z.inj_succ, Z.pow_succ_r by lia. rewrite (Z.div_mod m 10) at 3 by lia. lia.
Qed.

(** What follows a number does not begin with a digit. *)
Definition no_digit (s : string) : Prop := match s with String c _ => digit_val c = None | EmptyString => True end.

Lemma read_frac_digits k n m rest :
  0 <= m < 10 ^ Z.of_nat k → no_digit rest → read_frac k n (frac_digits k m +:+ rest) = (n * 10 ^ Z.of_nat k + m, rest).
Proof.
  revert n m. induction k as [|k IH]; intros n m Hm Hr; cbn [frac_digits].
  - assert (m = 0) as -> by (cbn in Hm; lia). change ("" +:+ rest) with rest. change (10 ^ Z.of_nat 0) with 1.
    destruct rest as [|c rest]; cbn [read_frac]; [|cbn in Hr; rewrite Hr]; change (10 ^ Z.of_nat 0) with 1; f_equal; lia.
  - rewrite Nat2Z.inj_succ, Z.pow_succ_r in * by lia. pose proof (Z.pow_pos_nonneg 10 (Z.of_nat k) ltac:(lia) ltac:(lia)).
    destruct (Z.eqb_spec m 0) as [->|Hm0].
    + change ("" +:+ rest) with rest. destruct rest as [|c rest]; cbn [read_frac]; [|cbn in Hr; rewrite Hr];
        rewrite Nat2Z.inj_succ, Z.pow_succ_r by lia; f_equal; lia.
    + change (String ?c ?a +:+ rest) with (String c (a +:+ rest)). cbn [read_frac]. rewrite digit_val_digit_char by (split; [apply Z.div_pos; lia|apply Z.div_lt_upper_bound; lia]).
      rewrite IH by (done || (apply Z.mod_pos_bound; lia)). f_equal. rewrite (Z.div_mod m (10 ^ Z.of_nat k)) at 3 by lia. lia.
Qed.

Lemma skip_eq c s : skip c (String c s) = Some s.
Proof. cbn. by rewrite bool_decide_true. Qed.

Lemma read_zone_format zone :
  Z.abs zone < 1440 →
  read_zone (if zone =? 0 then "Z"
    else String (if zone <? 0 then "-"%char else "+"%char) (digits 2 (Z.abs zone / 60) (String ":"%char (digits 2 (Z.abs zone mod 60) "")))) =
  Some (zone * 60).
Proof.
  intros Hz. destruct (Z.eqb_spec zone 0) as [->|Hn]; [done|]. unfold read_zone.
  rewrite (bool_decide_false (_ = "Z"%char)) by (by destruct (zone <? 0)).
  rewrite read_digits_digits by (cbn; div_lia). cbn [mbind option_bind]. rewrite skip_eq. cbn [mbind option_bind].
  rewrite read_digits_digits by (cbn; div_lia). cbn [mbind option_bind]. rewrite bool_decide_true by done. cbn [andb].
  rewrite (proj2 (Z.leb_le _ 24)), (proj2 (Z.leb_le _ 60)) by div_lia. cbn [andb].
  destruct (zone <? 0) eqn:E; cbn; f_equal; div_lia.
Qed.

Lemma zone_no_digit zone rest :
  no_digit (if zone =? 0 then "Z" else String (if zone <? 0 then "-"%char else "+"%char) rest).
Proof. destruct (zone =? 0); [done|]. by destruct (zone <? 0). Qed.

Lemma read_nanos_format nsec rest :
  0 <= nsec < Second → no_digit rest → (∀ s, rest ≠ String "."%char s ∧ rest ≠ String ","%char s) →
  read_nanos ((if nsec =? 0 then "" else String "."%char (frac_digits 9 nsec)) +:+ rest) = (nsec, rest).
Proof.
  intros Hn Hr Hp. destruct (Z.eqb_spec nsec 0) as [->|H0].
  - change ("" +:+ rest) with rest. destruct rest as [|c [|d rest]]; [done..|]. cbn.
    destruct (Hp (String d rest)) as [H1 H2].
    rewrite (bool_decide_false (c = "."%char)), (bool_decide_false (c = ","%char)) by congruence. done.
  - pose proof (read_frac_digits 9 0 nsec rest ltac:(cbn; unfold Second in Hn; lia) Hr) as Hf.
    change (String "."%char (frac_digits 9 nsec) +:+ rest) with (String "."%char (frac_digits 9 nsec +:+ rest)).
    cbn [frac_digits] in Hf |- *. rewrite (proj2 (Z.eqb_neq nsec 0)) in Hf |- * by done.
    change (String ?c ?a +:+ rest) with (String c (a +:+ rest)) in Hf |- *. cbn [read_nanos].
    rewrite digit_val_digit_char by (unfold Second in Hn; cbn; div_lia). cbn [andb orb].
    rewrite (bool_decide_true (is_Some _)) by done. exact Hf.
Qed.

(** What [MarshalJSON] writes, [UnmarshalJSON] reads back as the same instant. *)
Lemma parse_format_rfc3339 zone t s : format_rfc3339 zone t = Some s → parse_rfc3339 s = Some t.
Proof.
  unfold format_rfc3339. set (secs := t / Second + zone * 60). destruct (civil (secs / 86400)) as [[y m] d] eqn:Ec.
  apply civil_spec in Ec as (Hm & Hd & Hdays). set (sod := secs mod 86400). assert (0 <= sod < 86400) as Hsod by (apply Z.mod_pos_bound; lia).
  destruct ((y <? 0) || (9999 <? y) || (1440 <=? Z.abs zone)) eqn:Hbad; [done|].
  intros Hs. apply (inj Some) in Hs. rewrite <- Hs. clear Hs.
  assert (0 <= y <= 9999 ∧ Z.abs zone < 1440) as [Hy Hz] by lia. assert (daysIn m y <= 31) as H31
    by (unfold daysIn; repeat case_match; lia).
  unfold parse_rfc3339. do 3 (rewrite read_digits_digits by (cbn; lia); cbn [mbind option_bind]; rewrite skip_eq; cbn [mbind option_bind]).
  unfold read_hour. rewrite read_digits_digits by (cbn; div_lia). cbn [mbind option_bind]. rewrite skip_eq. cbn [mbind option_bind].
  rewrite read_digits_digits by (cbn; div_lia). cbn [mbind option_bind]. rewrite skip_eq. cbn [mbind option_bind].
  rewrite read_digits_digits by (cbn; div_lia). cbn [mbind option_bind].
  rewrite read_nanos_format; [|apply Z.mod_pos_bound; done|apply zone_no_digit|].
  2:{ intros r. split; intros Hx; destruct (zone =? 0); [done| |done|]; by destruct (zone <? 0). }
  rewrite read_zone_format by done. cbn [mbind option_bind]. rewrite !Z.mul_0_l, !Z.add_0_l.
  match goal with |- context [if ?b then _ else _] => assert (b = true) as -> end.
  { rewrite !andb_true_iff, !Z.leb_le, !Z.ltb_lt. split_and!; try lia; div_lia. }
  f_equal. rewrite Hdays. unfold sod, secs. clear. unfold Second. div_lia.
Qed.
