(* ===== verification/Metrics.v ===== *)
(** * Metrics: the metrics and their use

    The metrics registered by [internal/observability/metrics.go],
    [internal/broker/broker.go], [internal/outbox/worker.go],
    [internal/resilience/metrics.go] and [cmd/chaosproxy/main.go].  Registering
    panics on a bad or repeated description, and [WithLabelValues] on a wrong
    number of values: neither happens. *)

From stdpp Require Import base option list strings gmap.
From Stdlib Require Import ZArith Lia Ascii.
From S2P Require Import Prelude Framed GoStrings.
Local Open Scope Z_scope.

(** ** Descriptions *)

(** Buckets are in thousandths. *)
Inductive mkind := Count | Gauge | Histogram (buckets : list Z).

Record desc := mkDesc { ds_name : string; ds_kind : mkind; ds_labels : list string }.

Definition DefBuckets : list Z := [5; 10; 25; 50; 100; 250; 500; 1000; 2500; 5000; 10000].

(** [internal/observability] *)
Definition http_metrics : list desc := [
  mkDesc "otus_http_requests_total" Count ["method"; "route"; "status"];
  mkDesc "otus_http_request_duration_seconds" (Histogram DefBuckets) ["method"; "route"];
  mkDesc "otus_messages_created_total" Count [];
  mkDesc "otus_storage_ops_total" Count ["backend"; "op"; "result"];
  mkDesc "otus_storage_op_duration_seconds" (Histogram [5; 10; 25; 50; 100; 250; 500; 1000; 2500; 5000; 10000; 30000]) ["backend"; "op"]].

(** [internal/broker] *)
Definition broker_metrics : list desc := [
  mkDesc "otus_broker_published_total" Count ["broker"; "result"];
  mkDesc "otus_broker_publish_duration_seconds" (Histogram [5; 10; 25; 50; 100; 250; 500; 1000; 2500; 5000; 10000]) ["broker"];
  mkDesc "otus_broker_consumed_total" Count ["broker"; "result"];
  mkDesc "otus_broker_lag_seconds" (Histogram [10; 50; 100; 250; 500; 1000; 2500; 5000; 10000; 30000]) ["broker"]].

(** [internal/outbox] *)
Definition outbox_metrics : list desc := [
  mkDesc "otus_outbox_pending" Gauge ["target"];
  mkDesc "otus_outbox_oldest_pending_seconds" Gauge ["target"];
  mkDesc "otus_outbox_deliveries_total" Count ["target"; "result"];
  mkDesc "otus_outbox_storage_errors_total" Count ["target"]].

(** [internal/resilience] *)
Definition resilience_metrics : list desc := [
  mkDesc "otus_retry_attempts_total" Count ["dependency"; "operation"];
  mkDesc "otus_retry_exhausted_total" Count ["dependency"; "operation"];
  mkDesc "otus_circuit_breaker_calls_total" Count ["dependency"; "result"];
  mkDesc "otus_circuit_breaker_trips_total" Count ["dependency"];
  mkDesc "otus_circuit_breaker_transitions_total" Count ["dependency"; "from"; "to"];
  mkDesc "otus_circuit_breaker_state" Gauge ["dependency"]].

(** [cmd/chaosproxy] *)
Definition proxy_metrics : list desc := [
  mkDesc "otus_proxy_traffic_bytes_total" Count ["direction"];
  mkDesc "otus_proxy_requests_total" Count ["result"];
  mkDesc "otus_proxy_faults_total" Count ["type"]].

(** What the programs register, all of it and the proxy. *)
Definition all_metrics : list desc :=
  http_metrics ++ broker_metrics ++ outbox_metrics ++ resilience_metrics ++ proxy_metrics.

(** ** Registering *)

Definition name_start (c : ascii) : bool :=
  let n := byte_val (lower_ascii c) in ((97 <=? n) && (n <=? 122)) || bool_decide (c = "_"%char).
Definition name_byte (c : ascii) : bool := let n := byte_val c in name_start c || ((48 <=? n) && (n <=? 57)).

Fixpoint all_bytes (p : ascii → bool) (s : string) : bool :=
  match s with EmptyString => true | String c rest => p c && all_bytes p rest end.

Definition valid_name (s : string) : bool :=
  match s with EmptyString => false | String c rest => name_start c && all_bytes name_byte rest end.

Fixpoint increasing (l : list Z) : bool :=
  match l with
  | x :: ((y :: _) as rest) => (x <? y) && increasing rest
  | _ => true
  end.

(** A description the library accepts: names of the right form, labels distinct and
    not reserved (a leading double underscore, and [le] for a histogram, which adds
    that label itself), a histogram's buckets in increasing order. *)
Definition valid_label (s : string) : bool :=
  valid_name s && match s with String "_"%char (String "_"%char _) => false | _ => true end.

Definition valid_desc (d : desc) : bool :=
  valid_name (ds_name d) && forallb valid_label (ds_labels d) && bool_decide (NoDup (ds_labels d)) &&
  match ds_kind d with
  | Histogram buckets => increasing buckets && negb (bool_decide ("le" ∈ ds_labels d))
  | _ => true
  end.

(** [promauto.New...]: [None] is the panic. *)
Definition register_metric (reg : gmap string desc) (d : desc) : option (gmap string desc) :=
  if valid_desc d && bool_decide (reg !! ds_name d = None) then Some (<[ds_name d := d]> reg) else None.

Fixpoint register_metrics (reg : gmap string desc) (ds : list desc) : option (gmap string desc) :=
  match ds with
  | [] => Some reg
  | d :: rest => reg' ← register_metric reg d; register_metrics reg' rest
  end.

(** ** Updates *)

(** An update that the library carries out: of a registered metric, with a method of
    its kind and a value for each of its labels. *)
Definition describes (d : desc) (m : metric) : bool :=
  match m with
  | MInc n ls | MAdd n ls _ =>
      bool_decide (ds_name d = n) && bool_decide (length (ds_labels d) = length ls) &&
      match ds_kind d with Count => true | _ => false end
  | MSet n ls _ =>
      bool_decide (ds_name d = n) && bool_decide (length (ds_labels d) = length ls) &&
      match ds_kind d with Gauge => true | _ => false end
  | MObserve n ls _ =>
      bool_decide (ds_name d = n) && bool_decide (length (ds_labels d) = length ls) &&
      match ds_kind d with Histogram _ => true | _ => false end
  end.

Definition described (m : metric) : bool := existsb (λ d, describes d m) all_metrics.

(** What valid updates, the clock, the random source and timers keep. *)
Class Metered {W} `{Runtime W} (R : W → W → Prop) := {
  mt_pre :: PreOrder R;
  mt_emit : ∀ m w, described m = true → R w (emit m w);
  mt_draw : ∀ n w, R w (draw n w).2;
  mt_select : ∀ c d w, R w (select_timer c d w).2
}.

#[export] Instance frame_metered {W} `{Runtime W} (R : W → W → Prop) `{!Frame R} : Metered R.
Proof. split; [apply _|intros m w _; apply frame_emit|apply frame_draw|apply frame_select]. Qed.

#[export] Instance metered_on_first {W L} `{Runtime W} (R : W → W → Prop) `{!Metered R} : Metered (on_first (L := L) R).
Proof.
  split; unfold on_first; cbn.
  - apply on_first_preorder, _.
  - intros m w Hm. by apply mt_emit.
  - intros n [w l]; cbn. pose proof (mt_draw n w). by destruct (draw n w).
  - intros c d [w l]; cbn. pose proof (mt_select c d w). by destruct (select_timer c d w).
Qed.

(** The log of a runtime that records the updates. *)
Definition logged (s s' : sim) : Prop := ∃ l, sim_metrics s' = sim_metrics s ++ l ∧ Forall (λ m, described m = true) l.

#[export] Instance logged_metered : Metered logged.
Proof.
  split.
  - split; [intros s; exists []; by rewrite app_nil_r|]. intros s1 s2 s3 (l1 & E1 & H1) (l2 & E2 & H2). exists (l1 ++ l2).
    rewrite E2, E1, app_assoc. split; [done|]. by apply Forall_app.
  - intros m w Hm. exists [m]. split; [done|]. by repeat constructor.
  - intros n w. exists []. cbn. by rewrite app_nil_r.
  - intros c d w. exists []. rewrite app_nil_r. split; [|done]. cbn. unfold sim_select. by repeat case_match.
Qed.

Section Metered.
Context `{Runtime W} (R : W → W → Prop) `{!Metered R}.

Lemma metered_emit m : described m = true → framed R (modify (emit m)).
Proof. intros Hm. apply framed_modify. intros w. by apply mt_emit. Qed.

Lemma metered_draw n : framed R (lift_state (draw n)).
Proof. intros w x w' [= E]. pose proof (mt_draw n w) as Hd. by rewrite E in Hd. Qed.

Lemma metered_select c d : framed R (lift_state (select_timer c d)).
Proof. intros w x w' [= E]. pose proof (mt_select c d w) as Hd. by rewrite E in Hd. Qed.

End Metered.

#[export] Hint Resolve metered_draw metered_select : framed.
#[export] Hint Extern 1 (framed _ (modify (emit _))) => apply metered_emit; [typeclasses eauto|reflexivity] : framed.
#[export] Hint Extern 0 (Metered _) => typeclasses eauto : framed.

(** ** Registration *)

Lemma register_metrics_sub ds reg :
  forallb valid_desc ds = true → NoDup (ds_name <$> ds) → (∀ d, d ∈ ds → reg !! ds_name d = None) →
  is_Some (register_metrics reg ds).
Proof.
  revert reg. induction ds as [|d ds IH]; intros reg Hv Hn Hf; [by eexists|]. cbn in Hv, Hn |- *.
  apply andb_true_iff in Hv as [Hv1 Hv2]. apply NoDup_cons in Hn as [Hn1 Hn2].
  unfold register_metric. rewrite Hv1, bool_decide_true by (apply Hf; by left). cbn.
  apply IH; [done..|]. intros d' Hd'. rewrite lookup_insert_ne; [apply Hf; by right|].
  intros E. apply Hn1. rewrite E. by apply list_elem_of_fmap_2.
Qed.

Lemma names_inj d1 d2 : d1 ∈ all_metrics → d2 ∈ all_metrics → ds_name d1 = ds_name d2 → d1 = d2.
Proof.
  intros [i Hi]%list_elem_of_lookup [j Hj]%list_elem_of_lookup E.
  assert (NoDup (ds_name <$> all_metrics)) as Hnd by (apply (bool_decide_eq_true_1 _); vm_compute; reflexivity).
  assert (i = j) as ->; [|congruence].
  eapply NoDup_lookup; [exact Hnd|by apply list_lookup_fmap_Some_2|]. rewrite E. by apply list_lookup_fmap_Some_2.
Qed.

(** The metrics can be registered: whatever packages a program links, in whatever
    order they are initialised, no registration panics. *)
Theorem metrics_register (linked : list desc) :
  NoDup linked → linked ⊆ all_metrics → is_Some (register_metrics ∅ linked).
Proof.
  intros Hnd Hsub. apply register_metrics_sub; [| |by intros].
  - apply forallb_forall. intros d Hd%list_elem_of_In. apply Hsub in Hd.
    assert (Forall (λ d, valid_desc d = true) all_metrics) as Hall by (repeat constructor).
    rewrite Forall_forall in Hall. by apply Hall.
  - apply NoDup_fmap_2_strong; [|done]. intros d1 d2 H1%Hsub H2%Hsub. by apply names_inj.
Qed.
