(* ===== verification/GoSort.v ===== *)
(** * GoSort: [sort.Strings]

    Sorting by the byte order of strings; the result depends only on which
    strings were given, not on their order. *)

From stdpp Require Import base option list strings sorting.
From Stdlib Require Import ZArith Lia Ascii.
From S2P Require Import Prelude.

(** [sort.Strings]: by insertion. *)
Fixpoint insert_string (s : string) (l : list string) : list string :=
  match l with
  | [] => [s]
  | x :: l' => if String.leb s x then s :: l else x :: insert_string s l'
  end.
Definition sort_Strings : list string → list string := foldr insert_string [].

Definition str_le (s t : string) : Prop := String.leb s t = true.

#[export] Instance str_le_antisymm : AntiSymm (=) str_le.
Proof. intros s t Hs Ht. by apply String.leb_antisym. Qed.

Lemma str_le_total s t : str_le s t ∨ str_le t s.
Proof. apply String.leb_total. Qed.

#[export] Instance str_le_trans : Transitive str_le.
Proof.
  unfold str_le. intros x. induction x as [|a x IH]; intros [|b y] [|c z]; try done.
  unfold String.leb in *. cbn [String.compare]. unfold Ascii.compare.
  destruct (N.compare_spec (N_of_ascii a) (N_of_ascii b)), (N.compare_spec (N_of_ascii b) (N_of_ascii c)),
    (N.compare_spec (N_of_ascii a) (N_of_ascii c)); try done; try lia. apply IH.
Qed.

Lemma insert_string_perm s l : insert_string s l ≡ₚ s :: l.
Proof. induction l as [|x l IH]; cbn; [done|]. destruct (String.leb s x); [done|]. rewrite IH. apply Permutation_swap. Qed.

Lemma sort_Strings_perm l : sort_Strings l ≡ₚ l.
Proof. induction l as [|s l IH]; cbn; [done|]. rewrite insert_string_perm. by f_equiv. Qed.

Lemma sort_Strings_sorted l : StronglySorted str_le (sort_Strings l).
Proof.
  induction l as [|s l IH]; cbn; [constructor|]. change (foldr insert_string [] l) with (sort_Strings l).
  induction IH as [|x k Hk IH' Hx]; cbn [insert_string]; [repeat constructor|].
  destruct (String.leb s x) eqn:E.
  - constructor; [by constructor|]. constructor; [done|]. eapply Forall_impl; [exact Hx|]. intros y. by apply str_le_trans.
  - constructor; [done|]. rewrite insert_string_perm. constructor; [|done]. by destruct (str_le_total s x); [unfold str_le in *; congruence|].
Qed.

(** Sorting forgets the order it was given. *)
Lemma sort_Strings_proper l1 l2 : l1 ≡ₚ l2 → sort_Strings l1 = sort_Strings l2.
Proof.
  intros Hp. apply (StronglySorted_unique str_le); [apply sort_Strings_sorted..|]. by rewrite !sort_Strings_perm.
Qed.
