(* ===== verification/GoPaths.v ===== *)
(** * GoPaths: [path.Clean] and [path.Join], and facts on formatted numbers

    The lexical path functions of the standard library, and the lemmas on
    cutting and trimming strings that are made of given bytes only. *)

From stdpp Require Import base option list strings.
From Stdlib Require Import ZArith Lia Ascii.
From S2P Require Import Prelude GoStrings.

(** ** [path.Clean] and [path.Join] *)

(** The elements kept so far, the last one first. *)
Definition clean_step (rooted : bool) (out : list string) (seg : string) : list string :=
  if bool_decide (seg = "") || bool_decide (seg = ".") then out
  else if bool_decide (seg = "..") then
    match out with
    | [] => if rooted then [] else [".."]
    | top :: rest => if bool_decide (top = "..") then ".." :: out else rest
    end
  else seg :: out.

Definition join_slash (segs : list string) : string :=
  match segs with
  | [] => ""
  | s :: rest => foldl (λ acc x, acc +:+ "/" +:+ x) s rest
  end.

Definition path_Clean (p : string) : string :=
  let rooted := match p with String c _ => bool_decide (c = "/"%char) | _ => false end in
  let segs := rev (foldl (clean_step rooted) [] (Split p "/"%char)) in
  if rooted then "/" +:+ join_slash segs
  else if bool_decide (segs = []) then "." else join_slash segs.

(** [path.Join(dir, name)] *)
Definition path_Join (dir name : string) : string :=
  if bool_decide (dir = "") then (if bool_decide (name = "") then "" else path_Clean name)
  else if bool_decide (name = "") then path_Clean dir
  else path_Clean (dir +:+ "/" +:+ name).

(** ** Strings over given bytes *)

Fixpoint str_all (f : ascii → bool) (s : string) : bool :=
  match s with
  | "" => true
  | String c s' => f c && str_all f s'
  end.

Definition not_byte (c : ascii) (x : ascii) : bool := negb (bool_decide (x = c)).
Definition is_digit (c : ascii) : bool := bool_decide (is_Some (digit_val c)).

Lemma str_all_impl (f g : ascii → bool) s :
  (∀ c, f c = true → g c = true) → str_all f s = true → str_all g s = true.
Proof. intros Hfg. induction s as [|c s IH]; cbn; [done|]. rewrite !andb_true_iff. naive_solver. Qed.

Lemma str_all_app f a b : str_all f (a +:+ b) = str_all f a && str_all f b.
Proof.
  induction a as [|c a IH]; [done|]. change (String c a +:+ b) with (String c (a +:+ b)). cbn.
  by rewrite IH, andb_assoc.
Qed.

Lemma str_all_rev f s : str_all f (String.rev s) = str_all f s.
Proof.
  induction s as [|c s IH]; [done|]. rewrite str_rev_cons, str_all_app, IH. cbn.
  rewrite andb_true_r. apply andb_comm.
Qed.

Lemma Cut_found a c r : str_all (not_byte c) a = true → Cut (a +:+ String c r) c = (a, r, true).
Proof.
  induction a as [|x a IH].
  - intros _. change ("" +:+ String c r) with (String c r). cbn [Cut]. by rewrite bool_decide_true.
  - cbn [str_all]. intros [Hx Ha]%andb_true_iff.
    change (String x a +:+ String c r) with (String x (a +:+ String c r)).
    cbn [Cut]. unfold not_byte in Hx. apply negb_true_iff in Hx. by rewrite Hx, (IH Ha).
Qed.

Lemma Split_one a c : str_all (not_byte c) a = true → Split a c = [a].
Proof.
  induction a as [|x a IH]; [done|]. cbn [str_all Split]. intros [Hx Ha]%andb_true_iff.
  unfold not_byte in Hx. apply negb_true_iff in Hx. by rewrite Hx, (IH Ha).
Qed.

Lemma Split_cons a c r : str_all (not_byte c) a = true → Split (a +:+ String c r) c = a :: Split r c.
Proof.
  induction a as [|x a IH].
  - intros _. change ("" +:+ String c r) with (String c r). cbn [Split]. by rewrite bool_decide_true.
  - cbn [str_all]. intros [Hx Ha]%andb_true_iff.
    change (String x a +:+ String c r) with (String x (a +:+ String c r)).
    cbn [Split]. unfold not_byte in Hx. apply negb_true_iff in Hx. by rewrite Hx, (IH Ha).
Qed.

Lemma last_index_None c s : str_all (not_byte c) s = true → last_index_byte c s = None.
Proof.
  induction s as [|x s IH]; [done|]. cbn [str_all last_index_byte]. intros [Hx Hs]%andb_true_iff. rewrite (IH Hs).
  unfold not_byte in Hx. apply negb_true_iff in Hx. by rewrite Hx.
Qed.

Lemma last_index_app a c r :
  str_all (not_byte c) r = true → last_index_byte c (a +:+ String c r) = Some (String.length a).
Proof.
  intros Hr. induction a as [|x a IH].
  - change ("" +:+ String c r) with (String c r). cbn [last_index_byte String.length].
    by rewrite (last_index_None _ _ Hr), bool_decide_true.
  - change (String x a +:+ String c r) with (String x (a +:+ String c r)).
    cbn [last_index_byte String.length]. by rewrite IH.
Qed.

Lemma last_index_None_inv c s : last_index_byte c s = None → str_all (not_byte c) s = true.
Proof.
  induction s as [|y s IH]; [done|]. cbn [last_index_byte str_all]. destruct (last_index_byte c s); [done|].
  unfold not_byte at 1. destruct (bool_decide (y = c)); [done|]. intros _. by rewrite IH.
Qed.

Lemma last_index_spec c s i :
  last_index_byte c s = Some i → str_all (not_byte c) (str_drop (S i) s) = true.
Proof.
  revert i. induction s as [|x s IH]; intros i; [done|]. cbn [last_index_byte].
  destruct (last_index_byte c s) as [j|] eqn:E.
  - intros [= <-]. exact (IH j eq_refl).
  - destruct (bool_decide (x = c)); [|done]. intros [= <-]. exact (last_index_None_inv _ _ E).
Qed.

Lemma str_drop_app a b : str_drop (String.length a) (a +:+ b) = b.
Proof. induction a as [|x a IH]; [by destruct b|]. exact IH. Qed.

(** ** Trimming *)

(** Bytes that neither are nor start or end a white space rune. *)
Definition solid (c : ascii) : bool := ((33 <=? byte_val c) && (byte_val c <=? 126))%Z.

Lemma solid_spaces c : solid c = true →
  space1 c = false ∧ (∀ d, space2 c d = false ∧ space2 d c = false) ∧
  (∀ d e, space3 c d e = false ∧ space3 e d c = false).
Proof.
  unfold solid. intros [H1 H2]%andb_true_iff. apply Z.leb_le in H1, H2.
  unfold space1, space2, space3. split; [lia|]. split.
  - intros d. split; lia.
  - intros d e. split; lia.
Qed.

Lemma trim_left_solid s : str_all solid s = true → trim_left s = s.
Proof.
  destruct s as [|c s]; [done|]. cbn. intros [(H1 & H2 & H3)%solid_spaces _]%andb_true_iff. rewrite H1.
  destruct s as [|d s]; [done|]. rewrite (proj1 (H2 d)). destruct s as [|e s]; [done|].
  by rewrite (proj1 (H3 d e)).
Qed.

Lemma trim_left_rev_solid s : str_all solid s = true → trim_left_rev s = s.
Proof.
  destruct s as [|c s]; [done|]. cbn. intros [(H1 & H2 & H3)%solid_spaces _]%andb_true_iff. rewrite H1.
  destruct s as [|d s]; [done|]. rewrite (proj2 (H2 d)). destruct s as [|e s]; [done|].
  by rewrite (proj2 (H3 d e)).
Qed.

Lemma TrimSpace_solid s : str_all solid s = true → TrimSpace s = s.
Proof.
  intros Hs. unfold TrimSpace, trim_right. rewrite (trim_left_solid _ Hs).
  rewrite trim_left_rev_solid; [apply str_rev_involutive|by rewrite str_all_rev].
Qed.

(** ** Formatted numbers *)

Lemma is_digit_char d : (0 <= d < 10)%Z → is_digit (digit_char d) = true.
Proof. intros Hd. unfold is_digit. rewrite digit_val_digit_char by done. by apply bool_decide_true. Qed.

Lemma format_loop_digits fuel n acc :
  (0 <= n)%Z → str_all is_digit acc = true → str_all is_digit (format_loop fuel n acc) = true.
Proof.
  revert n acc. induction fuel as [|fuel IH]; intros n acc Hn Ha; [done|]. cbn [format_loop].
  assert (str_all is_digit (String (digit_char (n `mod` 10)) acc) = true) as Hd.
  { cbn. rewrite is_digit_char by (apply Z.mod_pos_bound; lia). done. }
  destruct (n <? 10)%Z; [done|]. apply IH; [apply Z.div_pos; lia|done].
Qed.

Lemma FormatInt_digits n : (0 <= n)%Z → str_all is_digit (FormatInt n) = true.
Proof.
  intros Hn. unfold FormatInt. replace (n <? 0)%Z with false by lia. by apply format_loop_digits.
Qed.

Lemma digit_solid c : is_digit c = true → solid c = true.
Proof.
  unfold is_digit, solid, digit_val. rewrite bool_decide_eq_true.
  destruct ((48 <=? byte_val c)%Z && (byte_val c <=? 57)%Z) eqn:E; [lia|by intros []].
Qed.

Lemma digit_not_byte b c : digit_val b = None → is_digit c = true → not_byte b c = true.
Proof.
  unfold is_digit, not_byte. rewrite bool_decide_eq_true. intros Hb [d Hd].
  rewrite bool_decide_false; [done|]. congruence.
Qed.

Lemma FormatInt_nonempty n : (0 <= n)%Z → FormatInt n ≠ "".
Proof.
  intros Hn. unfold FormatInt. replace (n <? 0)%Z with false by lia.
  destruct (format_loop_head 20 n "") as (d & rest & -> & _); [lia..|]. done.
Qed.

Lemma TrimSpace_FormatInt n : (0 <= n)%Z → TrimSpace (FormatInt n) = FormatInt n.
Proof.
  intros Hn. apply TrimSpace_solid. eapply str_all_impl; [apply digit_solid|by apply FormatInt_digits].
Qed.

Lemma FormatInt_no_byte n b : (0 <= n)%Z → digit_val b = None → str_all (not_byte b) (FormatInt n) = true.
Proof.
  intros Hn Hb. eapply str_all_impl; [intros c; by apply digit_not_byte|by apply FormatInt_digits].
Qed.

(** ** Paths below a directory *)

Lemma TrimRightByte_cases s c : TrimRightByte s c = "" ∨ TrimRightByte s c ≠ "".
Proof. destruct (TrimRightByte s c); [by left|by right]. Qed.

(** [path.Base] yields a single element, or "/" for a string of slashes. *)
Lemma path_Base_element p :
  path_Base p = "/" ∨ (path_Base p ≠ "" ∧ str_all (not_byte "/"%char) (path_Base p) = true).
Proof.
  unfold path_Base. case_bool_decide; [by right|].
  destruct (last_index_byte "/"%char (TrimRightByte p "/"%char)) as [i|] eqn:E.
  - case_bool_decide; [by left|]. right. split; [done|]. by apply last_index_spec.
  - case_bool_decide; [by left|]. right. split; [done|]. by apply last_index_None_inv.
Qed.

(** An element of a clean path. *)
Definition element (s : string) : Prop :=
  s ≠ "" ∧ s ≠ "." ∧ s ≠ ".." ∧ str_all (not_byte "/"%char) s = true.

(** The absolute path of a list of elements. *)
Definition abs_path (segs : list string) : string := foldr (λ s acc, "/" +:+ s +:+ acc) "" segs.

Lemma abs_path_app l1 l2 : abs_path (l1 ++ l2) = abs_path l1 +:+ abs_path l2.
Proof.
  induction l1 as [|s l1 IH]; [done|]. cbn [abs_path foldr app].
  change (foldr _ "" (l1 ++ l2)) with (abs_path (l1 ++ l2)). rewrite IH.
  change (foldr _ "" l1) with (abs_path l1). by rewrite !str_app_assoc.
Qed.

Lemma clean_elements rooted segs out :
  Forall element segs → foldl (clean_step rooted) out segs = rev segs ++ out.
Proof.
  intros Hs. revert out. induction Hs as [|s segs (H1 & H2 & H3 & _) _ IH]; intros out; [done|]. cbn.
  unfold clean_step at 2. rewrite !bool_decide_false by done. cbn. rewrite IH. by rewrite <- app_assoc.
Qed.

Lemma Split_abs_path s segs :
  Forall element (s :: segs) → Split (s +:+ abs_path segs) "/"%char = s :: segs.
Proof.
  revert s. induction segs as [|t segs IH]; intros s [(_ & _ & _ & Hs) Hr]%Forall_cons.
  - cbn. rewrite str_app_nil_r. by apply Split_one.
  - cbn [abs_path foldr]. change (foldr _ "" segs) with (abs_path segs).
    change ("/" +:+ t +:+ abs_path segs) with (String "/"%char (t +:+ abs_path segs)).
    by rewrite (Split_cons _ _ _ Hs), IH.
Qed.

Lemma join_slash_abs s segs acc :
  foldl (λ a x, a +:+ "/" +:+ x) (acc +:+ s) segs = acc +:+ s +:+ abs_path segs.
Proof.
  revert s. induction segs as [|t segs IH]; intros s; cbn [foldl].
  - cbn. by rewrite str_app_nil_r.
  - rewrite str_app_assoc, IH. by rewrite !str_app_assoc.
Qed.

Lemma path_Clean_abs segs : Forall element segs → segs ≠ [] → path_Clean (abs_path segs) = abs_path segs.
Proof.
  intros Hs Hne. destruct segs as [|s segs]; [done|]. unfold path_Clean.
  change (abs_path (s :: segs)) with (String "/"%char (s +:+ abs_path segs)).
  cbv beta iota zeta. cbn [Split]. rewrite !(bool_decide_true ("/"%char = "/"%char)) by done.
  rewrite Split_abs_path by done.
  change (foldl (clean_step true) [] ("" :: s :: segs)) with (foldl (clean_step true) [] (s :: segs)).
  rewrite (clean_elements true (s :: segs) [] Hs), app_nil_r, rev_involutive. cbn [join_slash].
  pose proof (join_slash_abs s segs "") as E2. exact (f_equal (String "/"%char) E2).
Qed.

(** Joining an element to an absolute directory stays directly below it. *)
Lemma path_Join_below dir name :
  Forall element dir → dir ≠ [] → element name →
  path_Join (abs_path dir) name = abs_path (dir ++ [name]).
Proof.
  intros Hd Hne Hn. unfold path_Join. rewrite bool_decide_false by (by destruct dir).
  rewrite bool_decide_false by (by destruct Hn).
  rewrite <- (path_Clean_abs (dir ++ [name])).
  - rewrite abs_path_app. cbn. by rewrite str_app_nil_r.
  - apply Forall_app. by split; [|constructor].
  - by destruct dir.
Qed.
