(* ===== verification/ServeMux.v ===== *)
(** * ServeMux: routing requests by pattern

    What the servers of the source use of [net/http]'s [ServeMux]: patterns
    "METHOD /path" with [{name}] and [{$}] segments and trailing slashes,
    matching by specificity, redirects to clean paths, and the answers when
    nothing matches.  Patterns with a host or a named rest ([{name...}]) do not
    occur.  The theorems relate the search through the tree of patterns to the
    documented rule, that the most specific matching pattern is taken. *)

From stdpp Require Import base option list strings gmap.
From Stdlib Require Import ZArith Lia Ascii.
From S2P Require Import Prelude GoStrings GoSort GoPaths.
Local Open Scope Z_scope.

(** ** Percent-encoding of path segments *)

Definition hex_val (c : ascii) : option Z :=
  let b := byte_val c in
  if (48 <=? b) && (b <=? 57) then Some (b - 48)
  else if (97 <=? b) && (b <=? 102) then Some (b - 87)
  else if (65 <=? b) && (b <=? 70) then Some (b - 55)
  else None.

Definition byte_of (b : Z) : ascii := ascii_of_N (Z.to_N b).

(** [url.PathUnescape]; [None] for a malformed escape. *)
Fixpoint PathUnescape (s : string) : option string :=
  match s with
  | "" => Some ""
  | String "%" rest =>
      match rest with
      | String h (String l rest') =>
          match hex_val h, hex_val l with
          | Some h, Some l => String (byte_of (h * 16 + l)) <$> PathUnescape rest'
          | _, _ => None
          end
      | _ => None
      end
  | String c rest => String c <$> PathUnescape rest
  end.

(** [pathUnescape] of the mux: a malformed segment stays as it is. *)
Definition unescaped (s : string) : string := default s (PathUnescape s).

Definition hex_digit (d : Z) : ascii := byte_of (if d <? 10 then d + 48 else d + 55).

(** The bytes [url.PathEscape] leaves alone: letters, digits, [-_.~$&+:=@]. *)
Definition plain_byte (c : ascii) : bool :=
  let b := byte_val c in
  ((48 <=? b) && (b <=? 57)) || ((65 <=? b) && (b <=? 90)) || ((97 <=? b) && (b <=? 122)) ||
  bool_decide (b ∈ [45; 95; 46; 126; 36; 38; 43; 58; 61; 64]).

(** [url.PathEscape]: how a client writes a segment. *)
Fixpoint PathEscape (s : string) : string :=
  match s with
  | "" => ""
  | String c rest =>
      if plain_byte c then String c (PathEscape rest)
      else String "%" (String (hex_digit (byte_val c / 16)) (String (hex_digit (byte_val c mod 16)) (PathEscape rest)))
  end.

(** ** Patterns *)

(** A segment: a literal ([{$}] is the literal "/"), a wildcard, or the rest of
    the path behind a trailing slash. *)
Inductive seg := Lit (s : string) | Wild (name : string) | Multi.

#[export] Instance seg_eq_dec : EqDecision seg.
Proof. solve_decision. Defined.

Record pattern := mkPattern { pt_str : string; pt_method : string; pt_segs : list seg }.

(** [cleanPath] *)
Definition cleanPath (p : string) : string :=
  match p with
  | "" => "/"
  | String c _ =>
      let p := if bool_decide (c = "/"%char) then p else "/" +:+ p in
      let np := path_Clean p in
      if bool_decide (last_index_byte "/"%char p = Some (String.length p - 1)%nat) && negb (bool_decide (np = "/"))
      then np +:+ "/" else np
  end.

(** [s] without the bytes [{] and [}] around a name. *)
Definition wildcard_name (s : string) : option string :=
  match s with
  | String "{" rest =>
      match String.rev rest with
      | String "}" name => Some (String.rev name)
      | _ => None
      end
  | _ => None
  end.

(** The segments of a pattern's path, given the pieces between its slashes. *)
Fixpoint parse_segs (pieces : list string) : option (list seg) :=
  match pieces with
  | [] => Some []
  | [""] => Some [Multi]
  | piece :: rest =>
      match index_byte "{"%char piece with
      | None => (λ segs, Lit (unescaped piece) :: segs) <$> parse_segs rest
      | Some _ =>
          match wildcard_name piece with
          | None | Some "" => None
          | Some "$" => match rest with [] => Some [Lit "/"] | _ => None end
          | Some name => (λ segs, Wild name :: segs) <$> parse_segs rest
          end
      end
  end.

Definition wild_names (segs : list seg) : list string :=
  omap (λ s, match s with Wild n => Some n | _ => None end) segs.

(** [parsePattern] for "METHOD /path"; [None] is the error with which [Handle]
    panics. *)
Definition parsePattern (s : string) : option pattern :=
  let '(method, path, found) := Cut s " "%char in
  match path with
  | String "/" rest =>
      if found && bool_decide (path = cleanPath path) then
        match parse_segs (Split rest "/"%char) with
        | Some segs => if bool_decide (NoDup (wild_names segs)) then Some (mkPattern s method segs) else None
        | None => None
        end
      else None
  | _ => None
  end.

(** ** Conflicts between patterns *)

Inductive relationship := Equivalent | MoreGeneral | MoreSpecific | Disjoint | Overlaps.

#[export] Instance relationship_eq_dec : EqDecision relationship.
Proof. solve_decision. Defined.

Definition combine_rel (r1 r2 : relationship) : relationship :=
  match r1, r2 with
  | Equivalent, _ => r2
  | Disjoint, _ => Disjoint
  | Overlaps, Disjoint => Disjoint
  | Overlaps, _ => Overlaps
  | _, Equivalent => r1
  | MoreGeneral, MoreSpecific | MoreSpecific, MoreGeneral => Overlaps
  | _, _ => r2
  end.

Definition compare_methods (m1 m2 : string) : relationship :=
  if bool_decide (m1 = m2) then Equivalent
  else if bool_decide (m1 = "GET") && bool_decide (m2 = "HEAD") then MoreGeneral
  else if bool_decide (m1 = "HEAD") && bool_decide (m2 = "GET") then MoreSpecific
  else Disjoint.

Definition compare_segs (s1 s2 : seg) : relationship :=
  match s1, s2 with
  | Multi, Multi => Equivalent
  | Multi, _ => MoreGeneral
  | _, Multi => MoreSpecific
  | Wild _, Wild _ => Equivalent
  | Wild _, Lit s => if bool_decide (s = "/") then Disjoint else MoreGeneral
  | Lit s, Wild _ => if bool_decide (s = "/") then Disjoint else MoreSpecific
  | Lit s, Lit t => if bool_decide (s = t) then Equivalent else Disjoint
  end.

(** [comparePaths], segment by segment; [last1] and [last2] tell whether the
    patterns end in a trailing slash. *)
Fixpoint compare_paths (last1 last2 : bool) (rel : relationship) (p1 p2 : list seg) : relationship :=
  match rel with
  | Disjoint => Disjoint
  | _ =>
      match p1, p2 with
      | [], [] => rel
      | [], _ :: _ => if last1 then combine_rel rel MoreGeneral else Disjoint
      | _ :: _, [] => if last2 then combine_rel rel MoreSpecific else Disjoint
      | s1 :: p1', s2 :: p2' => compare_paths last1 last2 (combine_rel rel (compare_segs s1 s2)) p1' p2'
      end
  end.

Definition ends_multi (p : list seg) : bool := bool_decide (last p = Some Multi).

Definition conflicts (p1 p2 : pattern) : bool :=
  let mrel := compare_methods (pt_method p1) (pt_method p2) in
  let rel := if bool_decide (mrel = Disjoint) then Disjoint
             else combine_rel mrel
                    (compare_paths (ends_multi (pt_segs p1)) (ends_multi (pt_segs p2)) Equivalent (pt_segs p1) (pt_segs p2)) in
  bool_decide (rel = Equivalent) || bool_decide (rel = Overlaps).

(** A mux: the registered patterns with their handlers. *)
Definition mux (A : Type) : Type := list (pattern * A).

(** [mux.Handle]; a bad or conflicting pattern panics. *)
Definition Handle {A} (s : string) (h : A) (m : mux A) : option (mux A) :=
  match parsePattern s with
  | None => None
  | Some p => if existsb (λ x : pattern * A, conflicts p x.1) m then None else Some (m ++ [(p, h)])
  end.

Fixpoint register {A} (routes : list (string * A)) (m : mux A) : option (mux A) :=
  match routes with
  | [] => Some m
  | (s, h) :: rest => match Handle s h m with None => None | Some m' => register rest m' end
  end.

(** ** Matching *)

(** The pieces of a path that the search looks at: segments unescaped, and "/"
    for a trailing slash. *)
Fixpoint pieces_segs (pieces : list string) : list string :=
  match pieces with
  | [] => []
  | [""] => ["/"]
  | piece :: rest => unescaped piece :: pieces_segs rest
  end.

Definition path_segs (path : string) : list string :=
  match path with
  | String _ rest => pieces_segs (Split rest "/"%char)
  | "" => []
  end.

(** The subtrees below a node of the tree, kept as the patterns that pass
    through it. *)
Definition lit_child {A} (s : string) (ps : list (list seg * A)) : list (list seg * A) :=
  omap (λ p : list seg * A, match p.1 with Lit x :: t => if bool_decide (x = s) then Some (t, p.2) else None | _ => None end) ps.
Definition wild_child {A} (ps : list (list seg * A)) : list (list seg * A) :=
  omap (λ p : list seg * A, match p.1 with Wild _ :: t => Some (t, p.2) | _ => None end) ps.
Definition multi_child {A} (ps : list (list seg * A)) : option A :=
  head (omap (λ p : list seg * A, match p.1 with [Multi] => Some p.2 | _ => None end) ps).
Definition leaf {A} (ps : list (list seg * A)) : option A :=
  head (omap (λ p : list seg * A, match p.1 with [] => Some p.2 | _ => None end) ps).

(** [routingNode.matchPath]: a literal, then a wildcard, then the rest. *)
Fixpoint matchPath {A} (ps : list (list seg * A)) (path matches : list string) : option (A * list string) :=
  match path with
  | [] => (λ a, (a, matches)) <$> leaf ps
  | s :: rest =>
      match matchPath (lit_child s ps) rest matches with
      | Some x => Some x
      | None =>
          match (if bool_decide (s = "/") then None else matchPath (wild_child ps) rest (matches ++ [s])) with
          | Some x => Some x
          | None => (λ a, (a, matches)) <$> multi_child ps
          end
      end
  end.

(** The patterns of a method. *)
Definition of_method {A} (method : string) (m : mux A) : list (list seg * (pattern * A)) :=
  (λ x, (pt_segs x.1, x)) <$> filter (λ x : pattern * A, pt_method x.1 = method) m.

(** [matchMethodAndPath]: the pattern, its handler and the values matched. *)
Definition match_mux {A} (m : mux A) (method path : string) : option (pattern * A * list string) :=
  match matchPath (of_method method m) (path_segs path) [] with
  | Some x => Some x
  | None => if bool_decide (method = "HEAD") then matchPath (of_method "GET" m) (path_segs path) [] else None
  end.

Definition ends_slash (p : string) : bool :=
  bool_decide (last_index_byte "/"%char p = Some (String.length p - 1)%nat).

Definition count_slashes (p : string) : nat := length (Split p "/"%char) - 1.

Definition exactMatch {A} (x : option (pattern * A * list string)) (path : string) : bool :=
  match x with
  | None => false
  | Some (p, _, _) =>
      if negb (ends_multi (pt_segs p)) then true
      else if negb (bool_decide (path = "")) && negb (ends_slash path) then false
      else bool_decide (length (pt_segs p) = count_slashes path)
  end.

(** What the mux answers with: a handler, with the pattern and the values of its
    wildcards, or one of its own answers.  [pattern] is the [r.Pattern] left
    behind. *)
Inductive found (A : Type) :=
| Serve (h : A) (pattern : string) (values : list (string * string))
| Redirect (path pattern : string)
| NotAllowed (allow : list string)
| NotFound.
Arguments Serve {A} h pattern values. Arguments Redirect {A} path pattern.
Arguments NotAllowed {A} allow. Arguments NotFound {A}.

(** [matchingMethods]: those of patterns that match the path, or the path with a
    slash. *)
Definition matching_methods {A} (m : mux A) (path : string) : list string :=
  let methods := remove_dups ((λ x : pattern * A, pt_method x.1) <$> m) in
  let hits := filter (λ method, is_Some (matchPath (of_method method m) (path_segs path) []) ∨
                (ends_slash path = false ∧ is_Some (matchPath (of_method method m) (path_segs (path +:+ "/")) []))) methods in
  sort_Strings (if bool_decide ("GET" ∈ hits) && negb (bool_decide ("HEAD" ∈ hits)) then "HEAD" :: hits else hits).

(** [findHandler], on [r.URL.EscapedPath()]; the path of CONNECT is not cleaned. *)
Definition findHandler {A} (m : mux A) (method escapedPath : string) : found A :=
  let path := if bool_decide (method = "CONNECT") then escapedPath else cleanPath escapedPath in
  let n := match_mux m method path in
  if negb (exactMatch n path) && negb (ends_slash path) && exactMatch (match_mux m method (path +:+ "/")) (path +:+ "/")
  then Redirect (path +:+ "/") (path +:+ "/")
  else if negb (bool_decide (path = escapedPath))
  then Redirect path (match n with Some (p, _, _) => pt_str p | None => "" end)
  else match n with
  | Some (p, h, values) => Serve h (pt_str p) (zip (wild_names (pt_segs p)) values)
  | None => match matching_methods m path with [] => NotFound | ms => NotAllowed ms end
  end.

(** ** What a pattern matches *)

(** The documented meaning of patterns: which paths they match, with the values
    of their wildcards. *)
Inductive pat_match : list seg → list string → list string → Prop :=
| pm_end : pat_match [] [] []
| pm_lit s p path vs : pat_match p path vs → pat_match (Lit s :: p) (s :: path) vs
| pm_wild n s p path vs : s ≠ "/" → pat_match p path vs → pat_match (Wild n :: p) (s :: path) (s :: vs)
| pm_multi s path : pat_match [Multi] (s :: path) [].

#[export] Hint Constructors pat_match : otus.

(** [p] is at least as general as [q]. *)
Definition subsumes (p q : list seg) : Prop := ∀ path vs, pat_match q path vs → ∃ vs', pat_match p path vs'.

(** The order in which the tree is searched. *)
Definition seg_rank (s : seg) : nat := match s with Lit _ => 0 | Wild _ => 1 | Multi => 2 end.

Fixpoint ahead (p q : list seg) : Prop :=
  match p, q with
  | s :: p', t :: q' => (seg_rank s < seg_rank t)%nat ∨ (seg_rank s = seg_rank t ∧ ahead p' q')
  | _, _ => True
  end.

(** Patterns up to the names of wildcards. *)
Definition shape (p : list seg) : list seg := (λ s, match s with Wild _ => Wild "" | s => s end) <$> p.

Ltac ahead_tail :=
  match goal with
  | H : (_ < _)%nat ∨ _ ∧ ahead ?p ?q |- ahead ?p ?q => destruct H as [?|[_ H]]; [lia|exact H]
  end.

Lemma ahead_antisym p q path vs vs' :
  pat_match p path vs → pat_match q path vs' → ahead p q → ahead q p → shape p = shape q ∧ vs = vs'.
Proof.
  intros Hp. revert q vs'. induction Hp as [|s p path vs Hp IH|n s p path vs Hs Hp IH|s path]; intros q vs' Hq;
    inversion Hq as [|s1 q1 path1 vs1 Hq1|n1 s1 q1 path1 vs1 Hs1 Hq1|s1 path1]; subst; cbn [ahead seg_rank];
    intros Ha1 Ha2; try lia; [done| | |done].
  - destruct (IH q1 vs') as [E <-]; [done|ahead_tail..|]. unfold shape in *. by rewrite !fmap_cons, E.
  - destruct (IH q1 vs1) as [E <-]; [done|ahead_tail..|]. unfold shape in *. by rewrite !fmap_cons, E.
Qed.

Lemma other_segment s : ∃ x, x ≠ s ∧ x ≠ "/".
Proof. destruct (decide (s = "a")) as [->|Hs]; [by exists "b"|by exists "a"]. Qed.

Lemma ahead_subsumes p q path vs vs' :
  pat_match p path vs → pat_match q path vs' → ahead p q → subsumes p q → subsumes q p.
Proof.
  intros Hp. revert q vs'. induction Hp as [|s p path vs Hp IH|n s p path vs Hs Hp IH|s path]; intros q vs' Hq;
    inversion Hq as [|s1 q1 path1 vs1 Hq1|n1 s1 q1 path1 vs1 Hs1 Hq1|s1 path1]; subst; cbn [ahead seg_rank]; intros Ha Hsub;
    try lia.
  - done.
  - assert (subsumes q1 p) as Hqp.
    { apply (IH q1 vs'); [done|ahead_tail|]. intros path' ws Hm.
      destruct (Hsub (s :: path') ws) as [ws' Hm']; [by constructor|]. inversion Hm'; subst. eauto. }
    intros path' ws Hm. inversion Hm; subst. edestruct Hqp; [done|]. eexists. by constructor.
  - exfalso. destruct (other_segment s) as (x & Hxs & Hx).
    destruct (Hsub (x :: path) (x :: vs1)) as [ws Hm]; [by constructor|]. by inversion Hm.
  - exfalso. destruct (other_segment s) as (x & Hxs & Hx).
    destruct (Hsub (x :: path) []) as [ws Hm]; [constructor|]. by inversion Hm.
  - assert (subsumes q1 p) as Hqp.
    { apply (IH q1 vs1); [done|ahead_tail|]. intros path' ws Hm.
      destruct (Hsub (s :: path') (s :: ws)) as [ws' Hm']; [by constructor|]. inversion Hm'; subst. eauto. }
    intros path' ws Hm. inversion Hm; subst. edestruct Hqp; [done|]. eexists. by constructor.
  - exfalso. destruct (Hsub ["/"] []) as [ws Hm]; [constructor|]. by inversion Hm.
  - done.
Qed.

(** ** The search is exact *)

Section Search.
Context {A : Type}.
Implicit Types ps : list (list seg * A).

Lemma elem_lit_child s p (a : A) ps : (p, a) ∈ lit_child s ps ↔ (Lit s :: p, a) ∈ ps.
Proof.
  unfold lit_child. rewrite list_elem_of_omap. split.
  - intros ([[|[x|n|] t] b] & Hin & E); cbn in E; try done. case_bool_decide; [|done]. by simplify_eq.
  - intros Hin. eexists. split; [done|]. cbn. by rewrite bool_decide_true.
Qed.

Lemma elem_wild_child p (a : A) ps : (p, a) ∈ wild_child ps ↔ ∃ n, (Wild n :: p, a) ∈ ps.
Proof.
  unfold wild_child. rewrite list_elem_of_omap. split.
  - intros ([[|[x|n|] t] b] & Hin & E); cbn in E; try done. simplify_eq. eauto.
  - intros [n Hin]. eexists. by split.
Qed.

Lemma head_omap_Some {B C} (f : B → option C) l c :
  head (omap f l) = Some c → ∃ b, b ∈ l ∧ f b = Some c.
Proof. intros Hh. apply list_elem_of_omap. destruct (omap f l); [done|]. cbn in Hh. simplify_eq. by left. Qed.

Lemma head_omap_None {B C} (f : B → option C) l b c : head (omap f l) = None → b ∈ l → f b = Some c → False.
Proof.
  intros Hh Hb Hf. assert (c ∈ omap f l) as Hc by (apply list_elem_of_omap; eauto).
  destruct (omap f l); [by apply elem_of_nil in Hc|done].
Qed.

Lemma leaf_Some ps a : leaf ps = Some a → ([], a) ∈ ps.
Proof. intros ([p b] & Hin & E)%head_omap_Some. destruct p; [|done]. cbn in E. by simplify_eq. Qed.

Lemma multi_child_Some ps a : multi_child ps = Some a → ([Multi], a) ∈ ps.
Proof. intros ([p b] & Hin & E)%head_omap_Some. destruct p as [|[] []]; cbn in E; try done. by simplify_eq. Qed.

(** The search finds a pattern whenever one matches. *)
Lemma matchPath_None ps path ms p a vs :
  matchPath ps path ms = None → (p, a) ∈ ps → ¬ pat_match p path vs.
Proof.
  revert ps ms p a vs. induction path as [|s path IH]; intros ps ms p a vs Hn Hin Hm; cbn [matchPath] in Hn.
  - inversion Hm; subst. destruct (leaf ps) eqn:E; [done|]. by eapply head_omap_None.
  - destruct (matchPath (lit_child s ps) path ms) eqn:El; [done|].
    destruct (if bool_decide (s = "/") then None else _) eqn:Ew; [done|].
    destruct (multi_child ps) eqn:Em; [done|]. inversion Hm; subst.
    + eapply IH; [exact El| |done]. by apply elem_lit_child.
    + rewrite bool_decide_false in Ew by done. eapply IH; [exact Ew| |done]. apply elem_wild_child. eauto.
    + by eapply head_omap_None.
Qed.

(** It finds one that matches, with its values, ahead of all others. *)
Lemma matchPath_Some ps path ms a ms' :
  matchPath ps path ms = Some (a, ms') →
  ∃ p vs, (p, a) ∈ ps ∧ pat_match p path vs ∧ ms' = ms ++ vs ∧
    ∀ q b ws, (q, b) ∈ ps → pat_match q path ws → ahead p q.
Proof.
  revert ps ms ms'. induction path as [|s path IH]; intros ps ms ms' Hm; cbn [matchPath] in Hm.
  - destruct (leaf ps) eqn:E; [|done]. cbn in Hm. simplify_eq. exists [], []. rewrite app_nil_r.
    split_and!; [by apply leaf_Some|constructor|done..].
  - destruct (matchPath (lit_child s ps) path ms) as [[a' r]|] eqn:El.
    { simplify_eq. apply IH in El as (p & vs & Hin & Hp & -> & Hmin).
      exists (Lit s :: p), vs. split_and!; [by apply elem_lit_child|by constructor|done|].
      intros q b ws Hq Hw. inversion Hw; subst; cbn; [right; split; [done|]|left; lia|left; lia].
      eapply Hmin; [by apply elem_lit_child|done]. }
    assert (∀ q b ws, (Lit s :: q, b) ∈ ps → ¬ pat_match q path ws) as Hnl.
    { intros q b ws Hq. eapply matchPath_None; [exact El|]. by apply elem_lit_child. }
    destruct (if bool_decide (s = "/") then None else _) as [[a' r]|] eqn:Ew.
    { simplify_eq. case_bool_decide as Hs; [done|]. apply IH in Ew as (p & vs & [n Hin]%elem_wild_child & Hp & -> & Hmin).
      exists (Wild n :: p), (s :: vs). split_and!; [done|by constructor|by rewrite <- app_assoc|].
      intros q b ws Hq Hw. inversion Hw; subst; cbn; [by edestruct Hnl|right; split; [done|]|left; lia].
      eapply Hmin; [apply elem_wild_child; eauto|done]. }
    destruct (multi_child ps) eqn:Em; [|done]. cbn in Hm. simplify_eq. exists [Multi], []. rewrite app_nil_r.
    split_and!; [by apply multi_child_Some|constructor|done|].
    intros q b ws Hq Hw. inversion Hw; subst; cbn; [by edestruct Hnl| |by right].
    rewrite bool_decide_false in Ew by done. exfalso. eapply matchPath_None; [exact Ew| |done].
    apply elem_wild_child. eauto.
Qed.

(** Two lists with the same patterns, none twice, are searched alike. *)
Lemma matchPath_proper ps ps' path ms :
  (∀ x, x ∈ ps ↔ x ∈ ps') →
  (∀ p q a b, (p, a) ∈ ps → (q, b) ∈ ps → shape p = shape q → a = b) →
  matchPath ps path ms = matchPath ps' path ms.
Proof.
  intros Hel Huniq.
  destruct (matchPath ps path ms) as [[a r]|] eqn:E, (matchPath ps' path ms) as [[a' r']|] eqn:E'; [|..|done].
  - apply matchPath_Some in E as (p & vs & Hin & Hp & -> & Hmin).
    apply matchPath_Some in E' as (q & ws & Hin' & Hq & -> & Hmin').
    destruct (ahead_antisym p q path vs ws) as [Hsh ->];
      [done|done|by eapply Hmin; [apply Hel|]|by eapply Hmin'; [apply Hel|]|].
    do 2 f_equal. eapply Huniq; [done| |done]. by apply Hel.
  - apply matchPath_Some in E as (p & vs & Hin & Hp & _). exfalso. eapply matchPath_None; [exact E'|by apply Hel|done].
  - apply matchPath_Some in E' as (p & vs & Hin & Hp & _). exfalso. eapply matchPath_None; [exact E|by apply Hel|done].
Qed.

End Search.

(** ** Registration *)

Definition inv_rel (r : relationship) : relationship :=
  match r with MoreGeneral => MoreSpecific | MoreSpecific => MoreGeneral | r => r end.

Lemma inv_combine r1 r2 : inv_rel (combine_rel r1 r2) = combine_rel (inv_rel r1) (inv_rel r2).
Proof. by destruct r1, r2. Qed.

Lemma compare_segs_inv s t : compare_segs t s = inv_rel (compare_segs s t).
Proof. destruct s, t; cbn; try done; repeat case_bool_decide; congruence || done. Qed.

Lemma compare_paths_inv b1 b2 r p q : compare_paths b2 b1 (inv_rel r) q p = inv_rel (compare_paths b1 b2 r p q).
Proof.
  revert r q. induction p as [|s p IH]; intros r [|t q]; cbn [compare_paths].
  - by destruct r.
  - destruct b1, r; done.
  - destruct b2, r; done.
  - rewrite compare_segs_inv, <- inv_combine. destruct r; cbn [inv_rel]; try done; apply IH.
Qed.

Lemma conflicts_sym p q : conflicts p q = conflicts q p.
Proof.
  unfold conflicts. set (m := compare_methods (pt_method p) (pt_method q)).
  assert (compare_methods (pt_method q) (pt_method p) = inv_rel m) as ->.
  { unfold m, compare_methods. repeat case_bool_decide; cbn; congruence || done. }
  pose proof (compare_paths_inv (ends_multi (pt_segs p)) (ends_multi (pt_segs q)) Equivalent (pt_segs p) (pt_segs q)) as E.
  change (inv_rel Equivalent) with Equivalent in E. rewrite E.
  by destruct m, (compare_paths _ _ Equivalent (pt_segs p) (pt_segs q)).
Qed.

(** Equivalent patterns of one method conflict. *)
Lemma same_shape_conflicts p q :
  pt_method p = pt_method q → shape (pt_segs p) = shape (pt_segs q) → conflicts p q = true.
Proof.
  intros Hm Hs. unfold conflicts, compare_methods. rewrite Hm, (bool_decide_true (pt_method q = _)) by done.
  cbn [combine_rel]. change (bool_decide (Equivalent = Disjoint)) with false. cbn iota.
  generalize (ends_multi (pt_segs p)), (ends_multi (pt_segs q)). intros b1 b2.
  assert (compare_paths b1 b2 Equivalent (pt_segs p) (pt_segs q) = Equivalent) as ->; [|done].
  clear Hm. revert Hs. generalize (pt_segs p), (pt_segs q). clear p q. intros p. induction p as [|s p IH]; intros [|t q]; try done.
  unfold shape. rewrite !fmap_cons. intros [= Hst Hpq]. cbn [compare_paths combine_rel].
  assert (compare_segs s t = Equivalent) as -> by (destruct s, t; cbn in *; simplify_eq; try done; by rewrite bool_decide_true).
  by apply IH.
Qed.

Lemma Forall2_permuted {B C} (R : B → C → Prop) l l' k :
  l ≡ₚ l' → Forall2 R l k → ∃ k', Forall2 R l' k' ∧ k ≡ₚ k'.
Proof.
  intros Hp. revert k. induction Hp as [|x l l' Hp IH|x y l|l1 l2 l3 _ IH1 _ IH2]; intros k Hk; [by exists k|..].
  - apply Forall2_cons_inv_l in Hk as (z & k1 & Hz & Hk & ->). destruct (IH k1 Hk) as (k' & Hk' & Hkk).
    exists (z :: k'). split; [by constructor|by f_equiv].
  - apply Forall2_cons_inv_l in Hk as (z & k1 & Hz & Hk & ->). apply Forall2_cons_inv_l in Hk as (z' & k2 & Hz' & Hk & ->).
    exists (z' :: z :: k2). split; [by repeat constructor|apply Permutation_swap].
  - destruct (IH1 k Hk) as (k2 & Hk2 & E2). destruct (IH2 k2 Hk2) as (k3 & Hk3 & E3). exists k3. split; [done|by etrans].
Qed.

Section Register.
Context {A : Type}.
Implicit Types (m : mux A) (routes : list (string * A)).

Definition parse_route (r : string * A) : option (pattern * A) := (λ p, (p, r.2)) <$> parsePattern r.1.

(** No two patterns of a mux conflict. *)
Inductive no_conflict : mux A → Prop :=
| nc_nil : no_conflict []
| nc_cons x m : Forall (λ y, conflicts x.1 y.1 = false) m → no_conflict m → no_conflict (x :: m).

Lemma no_conflict_app m x :
  no_conflict (m ++ [x]) ↔ no_conflict m ∧ Forall (λ y, conflicts x.1 y.1 = false) m.
Proof.
  induction m as [|y m IH]; cbn.
  - split; [intros _; split; constructor|intros _; repeat constructor].
  - split.
    + intros Hn. inversion Hn as [|?? Hy Hm]; subst. apply Forall_app in Hy as [Hy Hx]. apply IH in Hm as [Hm Hxm].
      rewrite Forall_singleton in Hx. split; [by constructor|]. constructor; [by rewrite conflicts_sym|done].
    + intros [Hn [Hxy Hxm]%Forall_cons]. inversion Hn; subst. constructor; [|by apply IH].
      apply Forall_app. split; [done|]. rewrite Forall_singleton, conflicts_sym. exact Hxy.
Qed.

#[global] Instance no_conflict_perm : Proper ((≡ₚ) ==> impl) no_conflict.
Proof.
  intros m m' Hp. induction Hp as [|x m m' Hp IH|x y m|m1 m2 m3 _ IH1 _ IH2]; intros Hn; [done|..|auto].
  - inversion Hn as [|?? Hx Hm]; subst. constructor; [by rewrite <- Hp|auto].
  - inversion Hn as [|?? Hyx Hm]; subst. apply Forall_cons in Hyx as [Hyx Hy]. inversion Hm; subst.
    constructor; [by constructor; [rewrite conflicts_sym|]|by constructor].
Qed.

(** Registering succeeds exactly when all patterns parse and none conflict. *)
Lemma register_spec routes m m' :
  no_conflict m → register routes m = Some m' ↔
  ∃ ps, mapM parse_route routes = Some ps ∧ m' = m ++ ps ∧ no_conflict (m ++ ps).
Proof.
  revert m. induction routes as [|[s h] routes IH]; intros m Hm; cbn [register].
  - split; [intros [= <-]; exists []; by rewrite app_nil_r|]. intros (ps & [= <-] & -> & _). by rewrite app_nil_r.
  - unfold Handle. cbn [mapM]. change (parse_route (s, h)) with ((λ p, (p, h)) <$> parsePattern s).
    destruct (parsePattern s) as [p|]; cbn; [|split; [done|by intros (? & ? & _)]].
    destruct (existsb _ m) eqn:E.
    + split; [done|]. intros (ps & Hps & -> & Hn). exfalso.
      apply bind_Some in Hps as (qs & _ & [= <-]). change ((p, h) :: qs) with ([(p, h)] ++ qs) in Hn.
      rewrite app_assoc in Hn. assert (no_conflict (m ++ [(p, h)])) as [_ Hf]%no_conflict_app.
      { revert Hn. generalize (m ++ [(p, h)]). clear. intros l. induction l as [|x l IHl]; [constructor|]. cbn. intros Hn.
        inversion Hn as [|?? Hx Hl]; subst. apply Forall_app in Hx as [Hx _]. constructor; auto. }
      apply existsb_exists in E as (x & Hx%list_elem_of_In & Hc). rewrite Forall_forall in Hf. specialize (Hf x Hx). cbn in Hf.
      congruence.
    + assert (no_conflict (m ++ [(p, h)])) as Hn.
      { apply no_conflict_app. split; [done|]. apply Forall_forall. intros x Hx. cbn.
        destruct (conflicts p x.1) eqn:Hc; [|done]. assert (existsb (λ x, conflicts p x.1) m = true) as E'; [|congruence].
        apply existsb_exists. exists x. split; [by apply list_elem_of_In|done]. }
      rewrite (IH _ Hn). split.
      * intros (ps & Hps & -> & Hnc). exists ((p, h) :: ps). rewrite <- app_assoc in *. cbn in *. by rewrite Hps.
      * intros (ps & Hps & -> & Hnc). apply bind_Some in Hps as (qs & Hqs & [= <-]). exists qs.
        rewrite <- app_assoc. by rewrite Hqs.
Qed.

Lemma register_no_conflict routes m : register routes [] = Some m → no_conflict m.
Proof. by intros (ps & _ & -> & Hn)%register_spec; [|constructor]. Qed.

(** The order of registration decides neither success nor the set of patterns. *)
Lemma register_perm routes routes' m :
  routes ≡ₚ routes' → register routes [] = Some m → ∃ m', register routes' [] = Some m' ∧ m ≡ₚ m'.
Proof.
  intros Hp (ps & Hps & -> & Hn)%register_spec; [|constructor]. cbn [app] in *.
  assert (∃ ps', mapM parse_route routes' = Some ps' ∧ ps ≡ₚ ps') as (ps' & Hps' & Hpp).
  { setoid_rewrite mapM_Some. apply mapM_Some in Hps. by apply (Forall2_permuted _ routes). }
  exists ps'. split; [|done]. apply register_spec; [constructor|]. exists ps'. split_and!; [done..|]. cbn. by rewrite <- Hpp.
Qed.

Lemma no_conflict_uniq m x y :
  no_conflict m → x ∈ m → y ∈ m → pt_method x.1 = pt_method y.1 → shape (pt_segs x.1) = shape (pt_segs y.1) → x = y.
Proof.
  intros Hn. induction Hn as [|z m Hz Hn IH]; [by intros ?%elem_of_nil|]. rewrite Forall_forall in Hz.
  intros [->|Hx]%elem_of_cons [->|Hy]%elem_of_cons Hm Hs; [done|..|by apply IH];
    pose proof (same_shape_conflicts _ _ Hm Hs) as Hc; [|rewrite conflicts_sym in Hc]; rewrite Hz in Hc by done; done.
Qed.

Lemma elem_of_method method m p x : (p, x) ∈ of_method method m ↔ x ∈ m ∧ p = pt_segs x.1 ∧ pt_method x.1 = method.
Proof. unfold of_method. rewrite list_elem_of_fmap. setoid_rewrite list_elem_of_filter. naive_solver. Qed.

Section Permuted.
Variables m m' : mux A.
Hypothesis Hm : no_conflict m.
Hypothesis Hp : m ≡ₚ m'.

Lemma of_method_perm method path ms :
  matchPath (of_method method m) path ms = matchPath (of_method method m') path ms.
Proof.
  apply matchPath_proper.
  - intros [p x]. by rewrite !elem_of_method, Hp.
  - intros p q x y (Hx & -> & Hxm)%elem_of_method (Hy & -> & Hym)%elem_of_method Hs.
    by eapply no_conflict_uniq; [|..|congruence|].
Qed.

Lemma match_mux_perm method path : match_mux m method path = match_mux m' method path.
Proof. unfold match_mux. by rewrite !of_method_perm. Qed.

Lemma matching_methods_perm path : matching_methods m path = matching_methods m' path.
Proof.
  unfold matching_methods. set (h := filter _ _). set (h' := filter _ (remove_dups ((λ x, pt_method x.1) <$> m'))).
  assert (h ≡ₚ h') as Hh.
  { apply NoDup_Permutation; [apply NoDup_filter, NoDup_remove_dups..|]. intros method. unfold h, h'.
    rewrite !list_elem_of_filter, !elem_of_remove_dups, !of_method_perm. by rewrite Hp. }
  apply sort_Strings_proper. rewrite !(bool_decide_ext (_ ∈ h) (_ ∈ h')) by (by rewrite Hh).
  destruct (_ && _); by rewrite Hh.
Qed.

(** Nor does it decide what is found. *)
Lemma findHandler_perm method path : findHandler m method path = findHandler m' method path.
Proof. unfold findHandler. by rewrite !match_mux_perm, matching_methods_perm. Qed.

End Permuted.

(** What is served is the most specific pattern that matches: it is registered,
    for the method or for GET when that is HEAD, it matches the path with the
    values given to the handler, and no pattern of that method that matches is
    strictly more specific. *)
Lemma findHandler_serves m method path h str values :
  no_conflict m → findHandler m method path = Serve h str values →
  ∃ p vs, (p, h) ∈ m ∧ pt_str p = str ∧ (pt_method p = method ∨ method = "HEAD" ∧ pt_method p = "GET") ∧
    pat_match (pt_segs p) (path_segs path) vs ∧ values = zip (wild_names (pt_segs p)) vs ∧
    ∀ q b ws, (q, b) ∈ m → pt_method q = pt_method p → pat_match (pt_segs q) (path_segs path) ws →
      subsumes (pt_segs p) (pt_segs q) → subsumes (pt_segs q) (pt_segs p).
Proof.
  intros Hn. unfold findHandler. set (path' := if bool_decide (method = "CONNECT") then path else cleanPath path).
  destruct (negb _ && negb _ && _); [done|]. case_bool_decide as Hpath; [|done]. cbn [negb]. rewrite Hpath.
  destruct (match_mux m method path) as [[[p h'] vs]|] eqn:Hmm; [|by destruct (matching_methods m path)].
  intros [= -> <- <-].
  assert (∃ method', (method' = method ∨ method = "HEAD" ∧ method' = "GET") ∧
    matchPath (of_method method' m) (path_segs path) [] = Some ((p, h), vs)) as (method' & Hmeth & Hfound).
  { unfold match_mux in Hmm. destruct (matchPath (of_method method m) _ _) eqn:E; [|case_bool_decide; [|done]]; eauto.
    simplify_eq. eauto. }
  apply matchPath_Some in Hfound as (segs & ws & (Hin & -> & Hpm)%elem_of_method & Hmatch & -> & Hmin). cbn in *.
  exists p, ws. split_and!; [done|done|by rewrite Hpm|done|done|].
  intros q b us Hq Hqm Hqmatch. eapply ahead_subsumes; [done..|]. eapply (Hmin _ (q, b)); [|done].
  apply elem_of_method. split_and!; [done..|cbn; congruence].
Qed.

End Register.

(** ** Paths written by clients *)

Lemma PathUnescape_other c rest : c ≠ "%"%char → PathUnescape (String c rest) = String c <$> PathUnescape rest.
Proof. intros Hc. destruct c as [[] [] [] [] [] [] [] []]; try reflexivity. by destruct Hc. Qed.

Lemma hex_val_digit d : 0 <= d < 16 → hex_val (hex_digit d) = Some d.
Proof.
  intros Hd. assert (Forall (λ d, hex_val (hex_digit d) = Some d) (seqZ 0 16)) as Hall.
  { apply (bool_decide_eq_true_1 _). vm_compute. reflexivity. }
  rewrite Forall_forall in Hall. apply Hall, elem_of_seqZ. lia.
Qed.

Lemma byte_of_val c : byte_of (byte_val c) = c.
Proof. unfold byte_of, byte_val. by rewrite N2Z.id, ascii_N_embedding. Qed.

(** Escaping is undone by unescaping. *)
Lemma PathUnescape_escape s : PathUnescape (PathEscape s) = Some s.
Proof.
  induction s as [|c s IH]; [done|]. cbn [PathEscape]. destruct (plain_byte c) eqn:Hc.
  - rewrite PathUnescape_other, IH; [done|]. by intros ->.
  - pose proof (byte_val_range c) as Hr. cbn [PathUnescape].
    rewrite !hex_val_digit; [|apply Z.mod_pos_bound; lia|split; [apply Z.div_pos; lia|apply Z.div_lt_upper_bound; lia]].
    rewrite IH. cbn. do 2 f_equal.
    replace (byte_val c / 16 * 16 + byte_val c mod 16) with (byte_val c) by (pose proof (Z.div_mod (byte_val c) 16); lia).
    apply byte_of_val.
Qed.

Lemma unescaped_escape s : unescaped (PathEscape s) = s.
Proof. unfold unescaped. by rewrite PathUnescape_escape. Qed.

Lemma PathEscape_no_slash s : str_all (not_byte "/"%char) (PathEscape s) = true.
Proof.
  assert (∀ d, 0 <= d < 16 → not_byte "/"%char (hex_digit d) = true) as Hd.
  { intros d Hd. assert (Forall (λ d, not_byte "/"%char (hex_digit d) = true) (seqZ 0 16)) as Hall.
    { apply (bool_decide_eq_true_1 _). vm_compute. reflexivity. }
    rewrite Forall_forall in Hall. apply Hall, elem_of_seqZ. lia. }
  induction s as [|c s IH]; [done|]. cbn [PathEscape]. destruct (plain_byte c) eqn:Hc; cbn [str_all].
  - rewrite IH, andb_true_r. unfold not_byte. apply negb_true_iff, bool_decide_eq_false. by intros ->.
  - pose proof (byte_val_range c) as Hr.
    rewrite !Hd, IH; [done|apply Z.mod_pos_bound; lia|split; [apply Z.div_pos; lia|apply Z.div_lt_upper_bound; lia]].
Qed.

(** A segment a client can ask for: not empty, and not removed by cleaning. *)
Definition segment (s : string) : Prop := s ≠ "" ∧ s ≠ "." ∧ s ≠ "..".

Lemma PathEscape_element s : segment s → element (PathEscape s).
Proof.
  intros (H0 & H1 & H2). split_and!; [..|apply PathEscape_no_slash]; intros E; pose proof (PathUnescape_escape s) as Hu;
    rewrite E in Hu; cbn in Hu; congruence.
Qed.

Lemma pieces_segs_escaped segs : Forall segment segs → pieces_segs (PathEscape <$> segs) = segs.
Proof.
  induction 1 as [|s segs Hs Hsegs IH]; [done|]. rewrite fmap_cons.
  assert (PathEscape s ≠ "") as Hne by apply (PathEscape_element s Hs).
  assert (pieces_segs (PathEscape s :: (PathEscape <$> segs)) = unescaped (PathEscape s) :: pieces_segs (PathEscape <$> segs)) as ->.
  { destruct (PathEscape s); [done|]. by destruct (PathEscape <$> segs). }
  by rewrite unescaped_escape, IH.
Qed.

Definition client_path (segs : list string) : string := abs_path (PathEscape <$> segs).

Lemma path_segs_client segs : Forall segment segs → segs ≠ [] → path_segs (client_path segs) = segs.
Proof.
  intros Hs Hne. destruct segs as [|s segs]; [done|]. unfold client_path. rewrite fmap_cons. cbn [abs_path foldr].
  change (foldr _ "" (PathEscape <$> segs)) with (abs_path (PathEscape <$> segs)).
  change ("/" +:+ PathEscape s +:+ abs_path (PathEscape <$> segs))
    with (String "/"%char (PathEscape s +:+ abs_path (PathEscape <$> segs))). cbn [path_segs].
  rewrite Split_abs_path; [by rewrite <- fmap_cons, pieces_segs_escaped|].
  rewrite <- fmap_cons. apply Forall_fmap. eapply Forall_impl; [exact Hs|]. intros x. apply PathEscape_element.
Qed.

Lemma abs_path_not_slash segs : Forall element segs → segs ≠ [] → ends_slash (abs_path segs) = false.
Proof.
  intros Hs Hne. destruct segs as [|x l _] using rev_ind; [done|]. rewrite abs_path_app.
  apply Forall_app in Hs as [_ Hx]. rewrite Forall_singleton in Hx. destruct Hx as (Hx & _ & _ & Hn).
  cbn [abs_path foldr]. rewrite str_app_nil_r. unfold ends_slash.
  change ("/" +:+ x) with (String "/"%char x). rewrite last_index_app by done. apply bool_decide_eq_false. intros [= E].
  assert (∀ a b, String.length (a +:+ b) = (String.length a + String.length b)%nat) as Hl.
  { intros a b. induction a as [|c a IH]; [done|]. change (String c a +:+ b) with (String c (a +:+ b)). cbn. by rewrite IH. }
  rewrite Hl in E. cbn in E. destruct x; [done|]. cbn in E. lia.
Qed.

(** Such a path is served as it is. *)
Lemma client_path_clean segs : Forall segment segs → segs ≠ [] →
  cleanPath (client_path segs) = client_path segs ∧ ends_slash (client_path segs) = false.
Proof.
  intros Hs Hne. assert (Forall element (PathEscape <$> segs)) as He.
  { apply Forall_fmap. eapply Forall_impl; [exact Hs|]. intros x. apply PathEscape_element. }
  assert (PathEscape <$> segs ≠ []) as Hne' by (by destruct segs).
  pose proof (abs_path_not_slash _ He Hne') as Hslash. split; [|done].
  pose proof (path_Clean_abs _ He Hne') as Hclean. unfold client_path, cleanPath.
  destruct (abs_path (PathEscape <$> segs)) as [|c rest] eqn:E; [by destruct segs|].
  assert (c = "/"%char) as -> by (destruct segs; [done|]; by injection E).
  rewrite (bool_decide_true ("/"%char = "/"%char)) by done. rewrite Hclean. unfold ends_slash in Hslash. by rewrite Hslash.
Qed.
