(* ===== verification/JsonText.v ===== *)
(** * JsonText: UTF-8 and JSON strings

    [unicode/utf8] as far as [encoding/json] uses it, and how [encoding/json]
    writes a string between quotes and reads it back.  Strings are byte strings,
    valid UTF-8 or not. *)

From stdpp Require Import base option list strings.
From Stdlib Require Import ZArith Lia Ascii.
From S2P Require Import Prelude GoStrings GoPaths ServeMux.
Local Open Scope Z_scope.

(** ** UTF-8 *)

Definition between (lo c hi : Z) : bool := (lo <=? c) && (c <=? hi).

(** The bytes of the first rune, 0 when the string does not begin with a valid
    encoding. *)
Definition rune_len (s : string) : nat :=
  match s with
  | EmptyString => O
  | String c1 s1 =>
      let b := byte_val c1 in
      if b <? 128 then 1%nat
      else if b <? 194 then O
      else if b <? 224 then
        match s1 with
        | String c2 _ => if between 128 (byte_val c2) 191 then 2%nat else O
        | _ => O
        end
      else if b <? 240 then
        match s1 with
        | String c2 (String c3 _) =>
            if between (if b =? 224 then 160 else 128) (byte_val c2) (if b =? 237 then 159 else 191) &&
               between 128 (byte_val c3) 191 then 3%nat else O
        | _ => O
        end
      else if b <? 245 then
        match s1 with
        | String c2 (String c3 (String c4 _)) =>
            if between (if b =? 240 then 144 else 128) (byte_val c2) (if b =? 244 then 143 else 191) &&
               between 128 (byte_val c3) 191 && between 128 (byte_val c4) 191 then 4%nat else O
        | _ => O
        end
      else O
  end.

(** [utf8.ValidString], [k] bytes into which the current rune still extends. *)
Fixpoint valid_from (k : nat) (s : string) : bool :=
  match s with
  | EmptyString => bool_decide (k = O)
  | String c s' =>
      match k with
      | S k' => (128 <=? byte_val c) && valid_from k' s'
      | O => match rune_len s with O => false | S n => valid_from n s' end
      end
  end.
Definition utf8_valid (s : string) : bool := valid_from 0 s.

(** [utf8.AppendRune] *)
Definition encode_rune (r : Z) : string :=
  if r <? 128 then String (byte_of r) ""
  else if r <? 2048 then String (byte_of (192 + r / 64)) (String (byte_of (128 + r mod 64)) "")
  else if r <? 65536 then
    String (byte_of (224 + r / 4096)) (String (byte_of (128 + r / 64 mod 64)) (String (byte_of (128 + r mod 64)) ""))
  else String (byte_of (240 + r / 262144)) (String (byte_of (128 + r / 4096 mod 64))
         (String (byte_of (128 + r / 64 mod 64)) (String (byte_of (128 + r mod 64)) ""))).

(** U+FFFD *)
Definition RuneError : string := String (byte_of 239) (String (byte_of 191) (String (byte_of 189) "")).

(** ** Writing *)

Definition quote_mark : ascii := ascii_of_nat 34.
Definition backslash : ascii := ascii_of_nat 92.
Definition hex_lower (d : Z) : ascii := byte_of (if d <? 10 then d + 48 else d + 87).

Definition escape (c : ascii) : string := String backslash (String c "").

(** An ASCII byte: quotes, backslashes, control bytes and the characters that
    matter to HTML are escaped. *)
Definition quote_byte (c : ascii) : string :=
  let b := byte_val c in
  if (b =? 34) || (b =? 92) then escape c
  else if b =? 8 then escape "b"%char else if b =? 12 then escape "f"%char else if b =? 10 then escape "n"%char
  else if b =? 13 then escape "r"%char else if b =? 9 then escape "t"%char
  else if (b <? 32) || (b =? 60) || (b =? 62) || (b =? 38)
  then String backslash (String "u"%char (String "0"%char (String "0"%char (String (hex_lower (b / 16)) (String (hex_lower (b mod 16)) "")))))
  else String c "".

(** U+2028 or U+2029 at the beginning, by its last digit. *)
Definition line_sep (s : string) : option ascii :=
  match s with
  | String c1 (String c2 (String c3 _)) =>
      if (byte_val c1 =? 226) && (byte_val c2 =? 128) then
        if byte_val c3 =? 168 then Some "8"%char else if byte_val c3 =? 169 then Some "9"%char else None
      else None
  | _ => None
  end.

(** [appendString] with HTML escaping; [k] bytes of the current rune are still to
    be copied, or dropped. *)
Fixpoint quote_from (k : nat) (copy : bool) (s : string) : string :=
  match s with
  | EmptyString => ""
  | String c s' =>
      match k with
      | S k' => if copy then String c (quote_from k' copy s') else quote_from k' copy s'
      | O =>
          if byte_val c <? 128 then quote_byte c +:+ quote_from 0 true s'
          else match rune_len s with
          | O => String backslash "ufffd" +:+ quote_from 0 true s'
          | S n =>
              match line_sep s with
              | Some d => String backslash (String "u"%char (String "2"%char (String "0"%char (String "2"%char (String d (quote_from n false s'))))))
              | None => String c (quote_from n true s')
              end
          end
      end
  end.
Definition quote (s : string) : string := quote_from 0 true s.

(** ** Reading *)

Definition hex4 (h1 h2 h3 h4 : ascii) : option Z :=
  a ← hex_val h1; b ← hex_val h2; c ← hex_val h3; d ← hex_val h4; Some (((a * 16 + b) * 16 + c) * 16 + d).

(** The text of a string up to its closing quote, escapes checked but not
    resolved, and what follows. *)
Fixpoint scan_string (s : string) : option (string * string) :=
  match s with
  | EmptyString => None
  | String c s' =>
      if bool_decide (c = quote_mark) then Some ("", s')
      else if bool_decide (c = backslash) then
        match s' with
        | String e s2 =>
            if bool_decide (e = "u"%char) then
              match s2 with
              | String h1 (String h2 (String h3 (String h4 s6))) =>
                  _ ← hex4 h1 h2 h3 h4;
                  '(r, rest) ← scan_string s6;
                  Some (String c (String e (String h1 (String h2 (String h3 (String h4 r))))), rest)
              | _ => None
              end
            else if bool_decide (e ∈ [quote_mark; backslash; "/"; "b"; "f"; "n"; "r"; "t"]%char) then
              '(r, rest) ← scan_string s2; Some (String c (String e r), rest)
            else None
        | EmptyString => None
        end
      else if byte_val c <? 32 then None
      else '(r, rest) ← scan_string s'; Some (String c r, rest)
  end.

Definition simple_escape (e : ascii) : option ascii :=
  if bool_decide (e = "b"%char) then Some (byte_of 8) else if bool_decide (e = "f"%char) then Some (byte_of 12)
  else if bool_decide (e = "n"%char) then Some (byte_of 10) else if bool_decide (e = "r"%char) then Some (byte_of 13)
  else if bool_decide (e = "t"%char) then Some (byte_of 9)
  else if bool_decide (e ∈ [quote_mark; backslash; "/"; "'"]%char) then Some e else None.

Definition surrogate (r : Z) : bool := between 55296 r 57343.

(** [unquote] of a scanned text: escapes resolved, pairs of surrogates joined,
    what is no valid UTF-8 replaced. *)
Fixpoint unquote_from (k : nat) (s : string) : string :=
  match s with
  | EmptyString => ""
  | String c s' =>
      match k with
      | S k' => String c (unquote_from k' s')
      | O =>
          if bool_decide (c = backslash) then
            match s' with
            | String e s2 =>
                if bool_decide (e = "u"%char) then
                  match s2 with
                  | String h1 (String h2 (String h3 (String h4 s6))) =>
                      let r := default 0 (hex4 h1 h2 h3 h4) in
                      if surrogate r then
                        match s6 with
                        | String b (String u (String g1 (String g2 (String g3 (String g4 s12))))) =>
                            let r2 := default 0 (hex4 g1 g2 g3 g4) in
                            if bool_decide (b = backslash) && bool_decide (u = "u"%char) && (r <? 56320) && between 56320 r2 57343
                            then encode_rune ((r - 55296) * 1024 + (r2 - 56320) + 65536) +:+ unquote_from 0 s12
                            else RuneError +:+ unquote_from 0 s6
                        | _ => RuneError +:+ unquote_from 0 s6
                        end
                      else encode_rune r +:+ unquote_from 0 s6
                  | _ => ""
                  end
                else match simple_escape e with Some c => String c (unquote_from 0 s2) | None => "" end
            | EmptyString => ""
            end
          else if byte_val c <? 128 then String c (unquote_from 0 s')
          else match rune_len s with
          | O => RuneError +:+ unquote_from 0 s'
          | S n => String c (unquote_from n s')
          end
      end
  end.
Definition unquote (s : string) : string := unquote_from 0 s.

(** ** Facts *)

Ltac all_bytes c := destruct c as [[] [] [] [] [] [] [] []].

Lemma quote_byte_read c t :
  (byte_val c <? 128) = true → unquote_from 0 (quote_byte c +:+ t) = String c (unquote_from 0 t).
Proof. all_bytes c; intros H; try discriminate H; reflexivity. Qed.

Lemma quote_byte_scan c t :
  (byte_val c <? 128) = true →
  scan_string (quote_byte c +:+ t) = ('(r, rest) ← scan_string t; Some (quote_byte c +:+ r, rest)).
Proof. all_bytes c; intros H; try discriminate H; reflexivity. Qed.

(** Bytes of multi-byte runes are neither quotes nor backslashes nor control
    bytes. *)
Lemma high_byte c : (byte_val c <? 128) = false →
  bool_decide (c = quote_mark) = false ∧ bool_decide (c = backslash) = false ∧ (byte_val c <? 32) = false.
Proof. all_bytes c; intros H; try discriminate H; done. Qed.

(** Only the first bytes matter for the first rune. *)
Lemma rune_len_copy c s n :
  rune_len (String c s) = S n → (byte_val c <? 128) = false → rune_len (String c (quote_from n true s)) = S n.
Proof.
  unfold rune_len. intros H Hc. rewrite Hc in *. destruct (byte_val c <? 194); [done|].
  destruct (byte_val c <? 224).
  { destruct s as [|c2 s]; [done|]. destruct (between _ _ _) eqn:E; [|done]. injection H as <-. cbn. by rewrite E. }
  destruct (byte_val c <? 240).
  { destruct s as [|c2 [|c3 s]]; [done..|]. destruct (_ && _) eqn:E; [|done]. injection H as <-. cbn. by rewrite E. }
  destruct (byte_val c <? 245); [|done].
  destruct s as [|c2 [|c3 [|c4 s]]]; [done..|]. destruct (_ && _) eqn:E; [|done]. injection H as <-. cbn. by rewrite E.
Qed.

Lemma line_sep_bytes s d :
  line_sep s = Some d → ∃ rest, s = encode_rune (if bool_decide (d = "8"%char) then 8232 else 8233) +:+ rest ∧
    (d = "8"%char ∨ d = "9"%char).
Proof.
  destruct s as [|c1 [|c2 [|c3 s]]]; [done..|]. unfold line_sep.
  destruct ((byte_val c1 =? 226) && (byte_val c2 =? 128)) eqn:E; [|done]. apply andb_true_iff in E as [E1 E2].
  intros H. exists s. revert E1 E2. all_bytes c1; intros E1; try discriminate E1. all_bytes c2; intros E2; try discriminate E2.
  destruct (byte_val c3 =? 168) eqn:E3; [injection H as <-; all_bytes c3; try discriminate E3; split; [done|by left]|].
  destruct (byte_val c3 =? 169) eqn:E4; [injection H as <-; all_bytes c3; try discriminate E4; split; [done|by right]|done].
Qed.

Lemma quote_from_0 b s : quote_from 0 b s = quote_from 0 true s.
Proof. by destruct s. Qed.

Lemma line_sep_len s d : line_sep s = Some d → rune_len s = 3%nat.
Proof. intros (rest & -> & [-> | ->])%line_sep_bytes; reflexivity. Qed.

(** Reading a quoted string that is valid UTF-8 gives it back. *)
Lemma unquote_quote_from s k : valid_from k s = true → unquote_from k (quote_from k true s) = s.
Proof.
  revert k. induction s as [s IH] using string_length_ind. destruct s as [|c s]; [done|]. intros [|k]; cbn [valid_from quote_from].
  2:{ intros [_ Hv]%andb_true_iff. cbn [unquote_from]. f_equal. apply IH; [cbn; lia|done]. }
  destruct (rune_len (String c s)) as [|n] eqn:Hn; [done|]. intros Hv.
  destruct (byte_val c <? 128) eqn:Hc.
  { rewrite quote_byte_read by done. f_equal. apply IH; [cbn; lia|]. unfold rune_len in Hn. rewrite Hc in Hn. by injection Hn as <-. }
  destruct (line_sep (String c s)) as [d|] eqn:Hl.
  - pose proof (line_sep_len _ _ Hl) as Hn3. rewrite Hn in Hn3. injection Hn3 as ->.
    apply line_sep_bytes in Hl as (rest & E & Hd).
    destruct s as [|c2 [|c3 s]]; [by destruct Hd as [-> | ->]..|].
    assert (s = rest) as -> by (destruct Hd as [-> | ->]; by injection E).
    assert (quote_from 2 false (String c2 (String c3 rest)) = quote_from 0 true rest) as -> by apply quote_from_0.
    assert (unquote_from 0 (quote_from 0 true rest) = rest) as Hrest.
    { apply IH; [cbn; lia|]. cbn in Hv. by apply andb_true_iff in Hv as [_ [_ Hv]%andb_true_iff]. }
    destruct Hd as [-> | ->]; injection E as -> -> ->; rewrite <- Hrest at 2; reflexivity.
  - cbn [unquote_from]. destruct (high_byte c Hc) as (_ & -> & _). rewrite Hc, (rune_len_copy c s n Hn Hc). f_equal. apply IH; [cbn; lia|done].
Qed.

Lemma unquote_quote s : utf8_valid s = true → unquote (quote s) = s.
Proof. apply unquote_quote_from. Qed.

(** A quoted string ends where the scanner finds its end. *)
Lemma scan_quote_from s k rest :
  valid_from k s = true → scan_string (quote_from k true s +:+ String quote_mark rest) = Some (quote_from k true s, rest).
Proof.
  revert k. induction s as [s IH] using string_length_ind. destruct s as [|c s].
  { intros k _. cbn. reflexivity. }
  intros [|k]; cbn [valid_from quote_from].
  2:{ intros [Hc Hv]%andb_true_iff. change (String c ?a +:+ ?b) with (String c (a +:+ b)). cbn [scan_string].
      destruct (high_byte c ltac:(lia)) as (-> & -> & ->). rewrite IH by (done || cbn; lia). done. }
  destruct (rune_len (String c s)) as [|n] eqn:Hn; [done|]. intros Hv.
  destruct (byte_val c <? 128) eqn:Hc.
  { rewrite str_app_assoc, quote_byte_scan by done. rewrite IH; [done|cbn; lia|]. unfold rune_len in Hn. rewrite Hc in Hn. by injection Hn as <-. }
  destruct (line_sep (String c s)) as [d|] eqn:Hl.
  - pose proof (line_sep_len _ _ Hl) as Hn3. rewrite Hn in Hn3. injection Hn3 as ->.
    apply line_sep_bytes in Hl as (rest' & E & Hd).
    destruct s as [|c2 [|c3 s]]; [by destruct Hd as [-> | ->]..|].
    assert (s = rest') as -> by (destruct Hd as [-> | ->]; by injection E).
    assert (quote_from 2 false (String c2 (String c3 rest')) = quote_from 0 true rest') as -> by apply quote_from_0.
    assert (scan_string (quote_from 0 true rest' +:+ String quote_mark rest) = Some (quote_from 0 true rest', rest)) as Hrest.
    { apply IH; [cbn; lia|]. cbn in Hv. by apply andb_true_iff in Hv as [_ [_ Hv]%andb_true_iff]. }
    repeat change (String ?x ?a +:+ String quote_mark rest) with (String x (a +:+ String quote_mark rest)).
    destruct Hd as [-> | ->]; cbn -[String.append]; rewrite Hrest; reflexivity.
  - change (String c ?a +:+ ?b) with (String c (a +:+ b)). cbn [scan_string].
    destruct (high_byte c Hc) as (-> & -> & ->). rewrite IH by (done || cbn; lia). done.
Qed.

Lemma scan_quote s rest : utf8_valid s = true → scan_string (quote s +:+ String quote_mark rest) = Some (quote s, rest).
Proof. apply scan_quote_from. Qed.

(** What is read is valid UTF-8, whatever was between the quotes. *)
Lemma valid_ascii c t : (byte_val c <? 128) = true → valid_from 0 (String c t) = valid_from 0 t.
Proof. intros Hc. cbn [valid_from]. unfold rune_len. by rewrite Hc. Qed.

Lemma simple_escape_ascii e c : simple_escape e = Some c → (byte_val c <? 128) = true.
Proof. all_bytes e; intros H; try discriminate H; apply (inj Some) in H as <-; reflexivity. Qed.

Lemma valid_RuneError t : valid_from 0 (RuneError +:+ t) = valid_from 0 t.
Proof. reflexivity. Qed.

Lemma byte_val_of b : 0 <= b < 256 → byte_val (byte_of b) = b.
Proof. intros Hb. unfold byte_val, byte_of. rewrite N_ascii_embedding by lia. lia. Qed.

(** The Euclidean facts about the bytes of a rune. *)
Lemma split64 r : r = 64 * (r / 64) + r mod 64 ∧ 0 <= r mod 64 < 64.
Proof. split; [apply Z.div_mod; lia|apply Z.mod_pos_bound; lia]. Qed.

Lemma continuation c k t : 128 <= byte_val c → valid_from (S k) (String c t) = valid_from k t.
Proof. intros Hc. cbn [valid_from]. by replace (128 <=? byte_val c) with true by lia. Qed.

Lemma rune_step c s n : rune_len (String c s) = S n → valid_from 0 (String c s) = valid_from n s.
Proof. intros E. cbn [valid_from]. by rewrite E. Qed.
Ltac rune_len_is := unfold rune_len, between; repeat (case_match; try lia); congruence.

Lemma valid2 c1 c2 t : 194 <= byte_val c1 < 224 → 128 <= byte_val c2 <= 191 →
  valid_from 0 (String c1 (String c2 t)) = valid_from 0 t.
Proof. intros H1 H2. rewrite (rune_step _ _ 1) by rune_len_is. by rewrite continuation by lia. Qed.
Lemma valid3 c1 c2 c3 t : 224 <= byte_val c1 < 240 → 128 <= byte_val c2 <= 191 →
  (byte_val c1 = 224 → 160 <= byte_val c2) → (byte_val c1 = 237 → byte_val c2 <= 159) → 128 <= byte_val c3 <= 191 →
  valid_from 0 (String c1 (String c2 (String c3 t))) = valid_from 0 t.
Proof. intros H1 H2 Ha Hb H3. rewrite (rune_step _ _ 2) by rune_len_is. by rewrite !continuation by lia. Qed.
Lemma valid4 c1 c2 c3 c4 t : 240 <= byte_val c1 < 245 → 128 <= byte_val c2 <= 191 →
  (byte_val c1 = 240 → 144 <= byte_val c2) → (byte_val c1 = 244 → byte_val c2 <= 143) → 128 <= byte_val c3 <= 191 →
  128 <= byte_val c4 <= 191 → valid_from 0 (String c1 (String c2 (String c3 (String c4 t)))) = valid_from 0 t.
Proof. intros H1 H2 Ha Hb H3 H4. rewrite (rune_step _ _ 3) by rune_len_is. by rewrite !continuation by lia. Qed.

Lemma valid_encode_rune r t :
  0 <= r < 1114112 → surrogate r = false → valid_from 0 (encode_rune r +:+ t) = valid_from 0 t.
Proof.
  unfold surrogate, between. intros Hr Hs. apply andb_false_iff in Hs. rewrite !Z.leb_gt in Hs. unfold encode_rune.
  destruct (split64 r) as [E1 B1]. destruct (split64 (r / 64)) as [E2 B2]. destruct (split64 (r / 4096)) as [E3 B3].
  rewrite Z.div_div in E2 by lia. change (64 * 64) with 4096 in E2. rewrite Z.div_div in E3 by lia. change (4096 * 64) with 262144 in E3.
  destruct (Z.ltb_spec r 128); [apply valid_ascii; rewrite byte_val_of; lia|].
  destruct (Z.ltb_spec r 2048); [|destruct (Z.ltb_spec r 65536)]; rewrite !str_app_cons.
  - apply valid2; rewrite byte_val_of; lia.
  - apply valid3; rewrite !byte_val_of; lia.
  - apply valid4; rewrite !byte_val_of; lia.
Qed.

Lemma hex4_range h1 h2 h3 h4 : 0 <= default 0 (hex4 h1 h2 h3 h4) < 65536.
Proof.
  assert (∀ c d, hex_val c = Some d → 0 <= d < 16) as Hx.
  { intros c d. all_bytes c; intros H; try discriminate H; apply (inj Some) in H as <-; done. }
  unfold hex4. destruct (hex_val h1) as [a|] eqn:E1; [|done]. destruct (hex_val h2) as [b|] eqn:E2; [|done].
  destruct (hex_val h3) as [c|] eqn:E3; [|done]. destruct (hex_val h4) as [d|] eqn:E4; [|done].
  apply Hx in E1, E2, E3, E4. cbn. lia.
Qed.

(** A rune of several bytes is copied. *)
Lemma valid_copied c s n : rune_len (String c s) = S n → (byte_val c <? 128) = false →
  ∃ rest, (String.length rest < String.length (String c s))%nat ∧
    ∀ t, unquote_from 0 rest = t → valid_from 0 (String c (unquote_from n s)) = valid_from 0 t.
Proof.
  unfold rune_len, between. intros H Hc. rewrite Hc in H. destruct (byte_val c <? 194) eqn:H1; [done|].
  destruct (byte_val c <? 224) eqn:H2.
  { destruct s as [|c2 s]; [done|]. destruct (_ && _) eqn:E; [|done]. injection H as <-. exists s. split; [cbn; lia|].
    intros t <-. cbn [unquote_from]. apply valid2; lia. }
  destruct (byte_val c <? 240) eqn:H3.
  { destruct s as [|c2 [|c3 s]]; [done..|]. destruct (_ && _) eqn:E; [|done]. injection H as <-. exists s. split; [cbn; lia|].
    intros t <-. cbn [unquote_from]. apply valid3; repeat case_match; lia. }
  destruct (byte_val c <? 245) eqn:H4; [|done].
  destruct s as [|c2 [|c3 [|c4 s]]]; [done..|]. destruct (_ && _) eqn:E; [|done]. injection H as <-. exists s. split; [cbn; lia|].
  intros t <-. cbn [unquote_from]. apply valid4; repeat case_match; lia.
Qed.

Lemma unquote_valid s : utf8_valid (unquote s) = true.
Proof.
  unfold utf8_valid, unquote. induction s as [s IH] using string_length_ind. destruct s as [|c s]; [done|]. cbn [unquote_from].
  case_bool_decide.
  - destruct s as [|e s]; [done|]. case_bool_decide.
    + destruct s as [|h1 [|h2 [|h3 [|h4 s]]]]; try done. pose proof (hex4_range h1 h2 h3 h4) as Hr.
      destruct (surrogate _) eqn:Es; [|rewrite valid_encode_rune by (done || lia); apply IH; cbn; lia].
      assert (∀ t, valid_from 0 (unquote_from 0 t) = true → valid_from 0 (RuneError +:+ unquote_from 0 t) = true) as Hrep
        by (intros t Ht; by rewrite valid_RuneError).
      destruct s as [|b [|u [|g1 [|g2 [|g3 [|g4 s]]]]]]; try (apply Hrep, IH; cbn; lia).
      destruct (_ && _) eqn:Ep; [|apply Hrep, IH; cbn; lia].
      unfold surrogate, between in *. rewrite !andb_true_iff in Ep. rewrite valid_encode_rune; [apply IH; cbn; lia|lia|].
      unfold surrogate, between. lia.
    + destruct (simple_escape e) as [c'|] eqn:Ee; [|done]. rewrite valid_ascii by (by eapply simple_escape_ascii).
      apply IH. cbn. lia.
  - destruct (byte_val c <? 128) eqn:Hc; [rewrite valid_ascii by done; apply IH; cbn; lia|].
    destruct (rune_len (String c s)) as [|n] eqn:Hn; [rewrite valid_RuneError; apply IH; cbn; lia|].
    destruct (valid_copied _ _ _ Hn Hc) as (rest & Hlt & Hv). rewrite (Hv _ eq_refl). by apply IH.
Qed.
