(* ===== verification/Json.v ===== *)
(** * Json: values, writing and reading

    The JSON values that [encoding/json] writes and reads, and the readers of Go's
    types.  Strings and keys are kept as they are written between the quotes,
    numbers as their text, as the decoder does. *)

From stdpp Require Import base option list strings.
From Stdlib Require Import ZArith Lia Ascii.
From S2P Require Import Prelude GoStrings GoPaths ServeMux JsonText.
Local Open Scope Z_scope.

Unset Elimination Schemes.
Inductive json :=
| JNull
| JBool (b : bool)
| JNum (text : string)
| JStr (raw : string)
| JArr (l : list json)
| JObj (fields : list (string * json)).
Set Elimination Schemes.

Lemma json_ind (P : json → Prop) :
  P JNull → (∀ b, P (JBool b)) → (∀ t, P (JNum t)) → (∀ r, P (JStr r)) → (∀ l, Forall P l → P (JArr l)) →
  (∀ fs, Forall (λ f, P f.2) fs → P (JObj fs)) → ∀ v, P v.
Proof.
  intros Hn Hb Hnum Hs Ha Ho. fix go 1. intros [| | | |l|fs]; [done|apply Hb|apply Hnum|apply Hs|apply Ha|apply Ho].
  - induction l as [|v l IH]; constructor; [apply go|exact IH].
  - induction fs as [|[k v] fs IH]; constructor; [apply go|exact IH].
Qed.

(** A string and a number as values. *)
Definition jstring (s : string) : json := JStr (quote s).
Definition jint (n : Z) : json := JNum (FormatInt n).

(** ** Writing *)

Definition quoted (raw : string) : string := String quote_mark (raw +:+ String quote_mark "").

(** The elements that follow the first, or close the brackets. *)
Fixpoint print (v : json) : string :=
  match v with
  | JNull => "null"
  | JBool b => if b then "true" else "false"
  | JNum text => text
  | JStr raw => quoted raw
  | JArr [] => "[]"
  | JArr (v :: l) =>
      String "["%char (print v +:+ (fix more l := match l with [] => "]" | v :: l => String ","%char (print v +:+ more l) end) l)
  | JObj [] => "{}"
  | JObj ((k, v) :: fs) =>
      String "{"%char (quoted k +:+ String ":"%char (print v +:+
        (fix more fs := match fs with
                        | [] => "}"
                        | (k, v) :: fs => String ","%char (quoted k +:+ String ":"%char (print v +:+ more fs))
                        end) fs))
  end.

(** ** Reading *)

Definition is_ws (c : ascii) : bool := let b := byte_val c in (b =? 32) || (b =? 9) || (b =? 10) || (b =? 13).

Fixpoint skip_ws (s : string) : string :=
  match s with String c s' => if is_ws c then skip_ws s' else s | EmptyString => s end.

(** The digits at the beginning. *)
Fixpoint span_digits (s : string) : string * string :=
  match s with
  | String c s' => if is_digit c then let '(d, r) := span_digits s' in (String c d, r) else ("", s)
  | EmptyString => ("", s)
  end.

Definition one_of (cs : list ascii) (s : string) : option (ascii * string) :=
  match s with String c s' => if bool_decide (c ∈ cs) then Some (c, s') else None | EmptyString => None end.

(** A fraction and an exponent, if there is one; [None] when it has no digits. *)
Definition scan_frac (s : string) : option (string * string) :=
  match one_of ["."%char] s with
  | None => Some ("", s)
  | Some (c, s1) => let '(d, r) := span_digits s1 in if bool_decide (d = "") then None else Some (String c d, r)
  end.
Definition scan_exp (s : string) : option (string * string) :=
  match one_of ["e"; "E"]%char s with
  | None => Some ("", s)
  | Some (c, s1) =>
      let '(sign, s2) := match one_of ["+"; "-"]%char s1 with Some (g, s2) => (String g "", s2) | None => ("", s1) end in
      let '(d, r) := span_digits s2 in if bool_decide (d = "") then None else Some (String c (sign +:+ d), r)
  end.

(** The digits before the fraction: a zero stands alone. *)
Definition scan_int (s : string) : option (string * string) :=
  match s with
  | String c s' =>
      if bool_decide (c = "0"%char) then Some ("0", s')
      else let '(d, r) := span_digits s in if bool_decide (d = "") then None else Some (d, r)
  | EmptyString => None
  end.

Definition scan_number (s : string) : option (string * string) :=
  let '(sign, s1) := match one_of ["-"%char] s with Some (g, s1) => (String g "", s1) | None => ("", s) end in
  '(i, s2) ← scan_int s1;
  '(f, s3) ← scan_frac s2;
  '(e, s4) ← scan_exp s3;
  Some (sign +:+ i +:+ f +:+ e, s4).

Definition literal (word : string) (v : json) (s : string) : option (json * string) :=
  let '(r, found) := CutPrefix s word in if (found : bool) then Some (v, r) else None.

(** Nesting is limited. *)
Definition maxNestingDepth : Z := 10000.

(** A value, the elements of an array and the members of an object.  Every call
    consumes a byte, so that the length of the text is enough fuel. *)
Fixpoint parse_value (fuel : nat) (depth : Z) (s : string) : option (json * string) :=
  match fuel with
  | O => None
  | S fuel =>
      match skip_ws s with
      | EmptyString => None
      | String c s' as s =>
          if bool_decide (c = "{"%char) then
            if maxNestingDepth <? depth + 1 then None
            else match one_of ["}"%char] (skip_ws s') with
            | Some (_, r) => Some (JObj [], r)
            | None => '(fs, r) ← parse_members fuel (depth + 1) s'; Some (JObj fs, r)
            end
          else if bool_decide (c = "["%char) then
            if maxNestingDepth <? depth + 1 then None
            else match one_of ["]"%char] (skip_ws s') with
            | Some (_, r) => Some (JArr [], r)
            | None => '(l, r) ← parse_elements fuel (depth + 1) s'; Some (JArr l, r)
            end
          else if bool_decide (c = quote_mark) then '(raw, r) ← scan_string s'; Some (JStr raw, r)
          else if bool_decide (c = "t"%char) then literal "true" (JBool true) s
          else if bool_decide (c = "f"%char) then literal "false" (JBool false) s
          else if bool_decide (c = "n"%char) then literal "null" JNull s
          else '(t, r) ← scan_number s; Some (JNum t, r)
      end
  end
with parse_elements (fuel : nat) (depth : Z) (s : string) : option (list json * string) :=
  match fuel with
  | O => None
  | S fuel =>
      '(v, s1) ← parse_value fuel depth s;
      '(c, s2) ← one_of [","; "]"]%char (skip_ws s1);
      if bool_decide (c = "]"%char) then Some ([v], s2)
      else '(l, r) ← parse_elements fuel depth s2; Some (v :: l, r)
  end
with parse_members (fuel : nat) (depth : Z) (s : string) : option (list (string * json) * string) :=
  match fuel with
  | O => None
  | S fuel =>
      '(_, s1) ← one_of [quote_mark] (skip_ws s);
      '(k, s2) ← scan_string s1;
      '(_, s3) ← one_of [":"%char] (skip_ws s2);
      '(v, s4) ← parse_value fuel depth s3;
      '(c, s5) ← one_of [","; "}"]%char (skip_ws s4);
      if bool_decide (c = "}"%char) then Some ([(k, v)], s5)
      else '(fs, r) ← parse_members fuel depth s5; Some ((k, v) :: fs, r)
  end.

(** The first value of a text, as [json.Decoder.Decode] takes it, and a whole
    text, as [json.Unmarshal]. *)
Definition decode_first (s : string) : option json := fst <$> parse_value (S (String.length s)) 0 s.

Definition parse (s : string) : option json :=
  '(v, r) ← parse_value (S (String.length s)) 0 s;
  if bool_decide (skip_ws r = "") then Some v else None.

(** ** Go's types

    What a field of a type becomes when a value is stored into it; [null] leaves it
    as it is, and another type is an error. *)
Definition into_int64 (old : Z) (v : json) : option Z :=
  match v with
  | JNull => Some old
  | JNum t => match ParseInt t with (n, None) => Some n | _ => None end
  | _ => None
  end.

Definition into_string (old : string) (v : json) : option string :=
  match v with JNull => Some old | JStr raw => Some (unquote raw) | _ => None end.

(** The field a key names: by its name, or else by its name in other case. *)
Definition field_of (names : list string) (key : string) : option string :=
  if bool_decide (key ∈ names) then Some key else find (λ n, EqualFold n key) names.

(** A slice: the elements of an earlier array under the same key stay where the
    new one has null. *)
Fixpoint into_slice {A} (zero : A) (into : A → json → option A) (old : list A) (l : list json) : option (list A) :=
  match l with
  | [] => Some []
  | v :: l => x ← into (default zero (head old)) v; rest ← into_slice zero into (tail old) l; Some (x :: rest)
  end.

(** Store the members of an object into a struct, in their order. *)
Definition into_struct {A} (names : list string) (set : string → json → A → option A) (old : A) (v : json) : option A :=
  match v with
  | JNull => Some old
  | JObj fs =>
      foldl (λ acc f, a ← acc; match field_of names (unquote f.1) with Some n => set n f.2 a | None => Some a end) (Some old) fs
  | _ => None
  end.

(** [json.NewDecoder(s).Decode]: the first value of a stream.  An object or array ends with its bracket; the
    end of any other value is seen at the next byte, or at the end of the stream
    unless that is an error. *)
Definition decode_stream (s : stream) : option json :=
  '(v, rest) ← parse_value (S (String.length (s_bytes s))) 0 (s_bytes s);
  let delimited := match v with JArr _ | JObj _ => true | _ => false end in
  if delimited || negb (bool_decide (rest = "")) || bool_decide (s_err s = None) then Some v else None.

(** ** Reading back what was written *)

(** What may follow a value: nothing, or a comma or bracket. *)
Definition ends_value (rest : string) : Prop :=
  match rest with String c _ => c ∈ [","; "]"; "}"]%char | EmptyString => True end.

Lemma ends_no_digit rest : ends_value rest → span_digits rest = ("", rest).
Proof.
  destruct rest as [|c rest]; [done|]. cbn [ends_value span_digits]. rewrite !elem_of_cons, elem_of_nil.
  by intros [-> | [-> | [-> | []]]].
Qed.

Lemma span_digits_app d rest :
  str_all is_digit d = true → span_digits rest = ("", rest) → span_digits (d +:+ rest) = (d, rest).
Proof.
  intros Hd Hr. induction d as [|c d IH]; [done|]. cbn in Hd. apply andb_true_iff in Hd as [Hc Hd].
  change (String c d +:+ rest) with (String c (d +:+ rest)). cbn [span_digits]. by rewrite Hc, IH.
Qed.

Lemma ends_no_frac rest : ends_value rest → scan_frac rest = Some ("", rest) ∧ scan_exp rest = Some ("", rest).
Proof.
  destruct rest as [|c rest]; [done|]. cbn [ends_value]. rewrite !elem_of_cons, elem_of_nil.
  by intros [-> | [-> | [-> | []]]].
Qed.

Lemma format_loop_nonzero fuel n acc :
  0 < n < 10 ^ Z.of_nat fuel → ∃ d rest, format_loop fuel n acc = String (digit_char d) rest ∧ 1 <= d < 10.
Proof.
  revert n acc. induction fuel as [|fuel IH]; intros n acc Hn; [cbn in Hn; lia|].
  rewrite Nat2Z.inj_succ, Z.pow_succ_r in Hn by lia. cbn [format_loop]. destruct (Z.ltb_spec n 10).
  - rewrite Z.mod_small by lia. eauto with lia.
  - apply IH. split; [apply Z.div_str_pos; lia|apply Z.div_lt_upper_bound; lia].
Qed.

Lemma scan_int_format n rest :
  0 <= n < 10 ^ 20 → ends_value rest → scan_int (format_loop 20 n "" +:+ rest) = Some (format_loop 20 n "", rest).
Proof.
  intros Hn Hr. destruct (decide (n = 0)) as [->|H0]; [done|].
  destruct (format_loop_nonzero 20 n "") as (d & r & E & Hd); [split; [lia|exact (proj2 Hn)]|].
  pose proof (format_loop_digits 20 n "" ltac:(lia) eq_refl) as Hall.
  assert (digit_char d ≠ "0"%char) as Hz.
  { intros Hx. pose proof (digit_val_digit_char d ltac:(lia)) as Hv. rewrite Hx in Hv. change (digit_val "0"%char) with (Some 0) in Hv. simplify_eq. lia. }
  pose proof (span_digits_app _ rest Hall (ends_no_digit _ Hr)) as Hs. rewrite E in Hs |- *.
  change (String (digit_char d) r +:+ rest) with (String (digit_char d) (r +:+ rest)) in Hs |- *. unfold scan_int.
  rewrite (bool_decide_false (_ = "0"%char)) by done. by rewrite Hs.
Qed.

Lemma scan_number_format n rest :
  in_int64 n → ends_value rest → scan_number (FormatInt n +:+ rest) = Some (FormatInt n, rest).
Proof.
  unfold in_int64, min_int64, max_int64. intros Hn Hr. assert (Z.abs n < 10 ^ 20) by (transitivity (2 ^ 64); [lia|done]).
  unfold FormatInt, scan_number.
  destruct (ends_no_frac _ Hr) as [Hf He]. destruct (Z.ltb_spec n 0).
  - change (String "-"%char ?a +:+ rest) with (String "-"%char (a +:+ rest)). cbn [one_of]. rewrite bool_decide_true by (apply list_elem_of_singleton; done).
    rewrite scan_int_format by (done || lia). cbn [mbind option_bind]. rewrite Hf. cbn [mbind option_bind]. rewrite He.
    cbn [mbind option_bind]. by rewrite !str_app_nil_r.
  - destruct (format_loop_head 20 n "") as (d & r & E & Hd); [lia..|].
    assert (one_of ["-"%char] (format_loop 20 n "" +:+ rest) = None) as ->.
    { rewrite E. change (String ?c r +:+ rest) with (String c (r +:+ rest)). cbn [one_of].
      rewrite bool_decide_false; [done|]. intros ?%list_elem_of_singleton. destruct (digit_char_not_sign d Hd); congruence. }
    rewrite scan_int_format by (done || lia). cbn [mbind option_bind]. rewrite Hf. cbn [mbind option_bind]. rewrite He.
    cbn [mbind option_bind]. by rewrite !str_app_nil_r.
Qed.

Definition number_char (c : ascii) : bool := is_digit c || bool_decide (c = "-"%char).

Lemma FormatInt_head n : in_int64 n → ∃ c s, FormatInt n = String c s ∧ number_char c = true.
Proof.
  unfold in_int64, min_int64, max_int64, FormatInt, number_char. intros Hn. destruct (Z.ltb_spec n 0); [by eauto|].
  destruct (format_loop_head 20 n "") as (d & r & -> & Hd); [lia..|]. eexists _, _. split; [done|].
  by rewrite (is_digit_char d Hd).
Qed.

(** The values that are read back: numbers and strings that end where they should. *)
Definition number_ok (t : string) : Prop :=
  (∃ c s, t = String c s ∧ number_char c = true) ∧
  ∀ rest, ends_value rest → scan_number (t +:+ rest) = Some (t, rest).
Lemma number_ok_format n : in_int64 n → number_ok (FormatInt n).
Proof. intros Hn. split; [by apply FormatInt_head|]. intros rest. by apply scan_number_format. Qed.

Definition raw_ok (raw : string) : Prop := ∀ rest, scan_string (raw +:+ String quote_mark rest) = Some (raw, rest).

Inductive wf_json : json → Prop :=
| wf_null : wf_json JNull
| wf_bool b : wf_json (JBool b)
| wf_num t : number_ok t → wf_json (JNum t)
| wf_str raw : raw_ok raw → wf_json (JStr raw)
| wf_arr l : Forall wf_json l → wf_json (JArr l)
| wf_obj fs : Forall (λ f, raw_ok f.1 ∧ wf_json f.2) fs → wf_json (JObj fs).

Fixpoint nesting (v : json) : Z :=
  match v with
  | JArr l => 1 + (fix deepest l := match l with [] => 0 | v :: l => Z.max (nesting v) (deepest l) end) l
  | JObj fs => 1 + (fix deepest fs := match fs with [] => 0 | (_, v) :: fs => Z.max (nesting v) (deepest fs) end) fs
  | _ => 0
  end.

Lemma raw_ok_quote s : utf8_valid s = true → raw_ok (quote s).
Proof. intros Hs rest. by apply scan_quote. Qed.

(** The rest of a list of elements and of members, as [print] writes them. *)
Fixpoint print_elements (l : list json) : string :=
  match l with [] => "]" | v :: l => String ","%char (print v +:+ print_elements l) end.
Fixpoint print_members (fs : list (string * json)) : string :=
  match fs with
  | [] => "}"
  | (k, v) :: fs => String ","%char (quoted k +:+ String ":"%char (print v +:+ print_members fs))
  end.

Lemma print_JArr v l : print (JArr (v :: l)) = String "["%char (print v +:+ print_elements l).
Proof. reflexivity. Qed.
Lemma print_JObj k v fs :
  print (JObj ((k, v) :: fs)) = String "{"%char (quoted k +:+ String ":"%char (print v +:+ print_members fs)).
Proof. reflexivity. Qed.

(** A value begins with a byte that is neither white space nor a closing
    bracket. *)
Definition begins_value (s : string) : Prop :=
  match s with String c _ => is_ws c = false ∧ c ≠ "]"%char | EmptyString => False end.

Lemma number_begins c : number_char c = true → is_ws c = false ∧ c ≠ "]"%char.
Proof. all_bytes c; intros H; try discriminate H; done. Qed.

Lemma print_begins v rest : wf_json v → begins_value (print v +:+ rest).
Proof.
  intros [|[]|t [(c & s & -> & Hc) _]|raw _|[|u l] _|[|[k u] fs] _]; rewrite ?print_JArr, ?print_JObj; try (by split).
  by apply number_begins.
Qed.

Lemma begins_skip s : begins_value s → skip_ws s = s ∧ one_of ["]"%char] (skip_ws s) = None.
Proof.
  destruct s as [|c s]; [done|]. intros [Hw Hb]. cbn [skip_ws]. rewrite Hw. split; [done|]. cbn.
  rewrite bool_decide_false; [done|]. by intros ?%list_elem_of_singleton.
Qed.

Lemma nesting_nonneg v : 0 <= nesting v.
Proof.
  destruct v as [| | | |l|fs]; try done; cbn [nesting].
  - induction l; cbn; lia.
  - induction fs as [|[] fs IH]; cbn; lia.
Qed.
Lemma nesting_JArr l d : nesting (JArr l) + d <= maxNestingDepth → Forall (λ v, nesting v + (d + 1) <= maxNestingDepth) l.
Proof. cbn [nesting]. induction l as [|v l IH]; intros Hd; constructor; [lia|]. apply IH. lia. Qed.
Lemma nesting_JObj fs d :
  nesting (JObj fs) + d <= maxNestingDepth → Forall (λ f, nesting f.2 + (d + 1) <= maxNestingDepth) fs.
Proof. cbn [nesting]. induction fs as [|[k v] fs IH]; intros Hd; constructor; cbn in *; [lia|]. apply IH. lia. Qed.
Lemma depth_ok v d : nesting v + d <= maxNestingDepth → (maxNestingDepth <? d) = false.
Proof. pose proof (nesting_nonneg v). lia. Qed.

(** What [parse_value] must do on a value. *)
Definition reads_back (v : json) : Prop :=
  ∀ fuel d rest, wf_json v → nesting v + d <= maxNestingDepth → ends_value rest → (String.length (print v) < fuel)%nat →
    parse_value fuel d (print v +:+ rest) = Some (v, rest).

Lemma ends_cons c a rest : c ∈ [","; "]"; "}"]%char → ends_value (String c a +:+ rest).
Proof. done. Qed.
Lemma ends_elements l rest : ends_value (print_elements l +:+ rest).
Proof. destruct l; apply ends_cons; rewrite !elem_of_cons; auto. Qed.
Lemma ends_members fs rest : ends_value (print_members fs +:+ rest).
Proof. destruct fs as [|[]]; apply ends_cons; rewrite !elem_of_cons; auto. Qed.

Lemma one_of_in c cs s : c ∈ cs → is_ws c = false → one_of cs (skip_ws (String c s)) = Some (c, s).
Proof. intros Hc Hw. cbn [skip_ws]. rewrite Hw. cbn [one_of]. by rewrite bool_decide_true. Qed.

Lemma reads_elements v l : Forall reads_back (v :: l) → Forall wf_json (v :: l) → ∀ fuel d rest,
  Forall (λ v, nesting v + d <= maxNestingDepth) (v :: l) →
  (String.length (print v +:+ print_elements l) < fuel)%nat →
  parse_elements fuel d ((print v +:+ print_elements l) +:+ rest) = Some (v :: l, rest).
Proof.
  revert v. induction l as [|u l IH]; intros v [Hv Hl]%Forall_cons [Wv Wl]%Forall_cons fuel d rest [Dv Dl]%Forall_cons Hf;
    rewrite str_length_app in Hf; (destruct fuel as [|fuel]; [lia|]); cbn [parse_elements]; rewrite str_app_assoc, Hv;
    try (done || apply ends_elements || (cbn in Hf; lia)); cbn [mbind option_bind print_elements].
  rewrite str_app_cons, one_of_in by (done || rewrite !elem_of_cons; auto). cbn [mbind option_bind].
  rewrite bool_decide_false by done. cbn [print_elements String.length] in Hf. rewrite IH by (done || lia). done.
Qed.

Lemma quoted_app raw rest : quoted raw +:+ rest = String quote_mark (raw +:+ String quote_mark rest).
Proof. unfold quoted. by rewrite str_app_cons, str_app_assoc, str_app_cons. Qed.

Lemma reads_members k v fs : Forall (λ f, reads_back f.2) ((k, v) :: fs) →
  Forall (λ f, raw_ok f.1 ∧ wf_json f.2) ((k, v) :: fs) → ∀ fuel d rest,
  Forall (λ f, nesting f.2 + d <= maxNestingDepth) ((k, v) :: fs) →
  (String.length (quoted k +:+ String ":"%char (print v +:+ print_members fs)) < fuel)%nat →
  parse_members fuel d ((quoted k +:+ String ":"%char (print v +:+ print_members fs)) +:+ rest) = Some ((k, v) :: fs, rest).
Proof.
  revert k v. induction fs as [|[k' u] fs IH]; intros k v [Hv Hl]%Forall_cons [[Wk Wv] Wl]%Forall_cons fuel d rest
    [Dv Dl]%Forall_cons Hf; cbn [fst snd] in *; rewrite str_length_app in Hf; cbn [String.length] in Hf;
    rewrite str_length_app in Hf; (destruct fuel as [|fuel]; [lia|]); cbn [parse_members];
    rewrite str_app_assoc, quoted_app, one_of_in by (done || rewrite !elem_of_cons; auto); cbn [mbind option_bind];
    rewrite Wk; cbn [mbind option_bind]; rewrite str_app_cons, one_of_in by (done || rewrite !elem_of_cons; auto);
    cbn [mbind option_bind]; rewrite str_app_assoc, Hv; try (done || apply ends_members || (cbn in Hf; lia)).
  cbn [mbind option_bind print_members].
  rewrite str_app_cons, one_of_in by (done || rewrite !elem_of_cons; auto). cbn [mbind option_bind].
  rewrite bool_decide_false by done. cbn [print_members String.length] in Hf. rewrite IH by (done || lia). done.
Qed.

Lemma parse_number fuel d c s : number_char c = true →
  parse_value (S fuel) d (String c s) = ('(t, r) ← scan_number (String c s); Some (JNum t, r)).
Proof. all_bytes c; intros H; try discriminate H; reflexivity. Qed.

Lemma parse_string fuel d s :
  parse_value (S fuel) d (String quote_mark s) = ('(raw, r) ← scan_string s; Some (JStr raw, r)).
Proof. reflexivity. Qed.
Lemma parse_array fuel d s : (maxNestingDepth <? d + 1) = false → one_of ["]"%char] (skip_ws s) = None →
  parse_value (S fuel) d (String "["%char s) = ('(l, r) ← parse_elements fuel (d + 1) s; Some (JArr l, r)).
Proof.
  intros Hd Hs. cbn -[one_of maxNestingDepth is_ws]. rewrite Hd. change (is_ws "[") with false. cbn iota.
  by rewrite (bool_decide_false (_ = _)), bool_decide_true, Hs.
Qed.
Lemma parse_object fuel d s : (maxNestingDepth <? d + 1) = false → one_of ["}"%char] (skip_ws s) = None →
  parse_value (S fuel) d (String "{"%char s) = ('(fs, r) ← parse_members fuel (d + 1) s; Some (JObj fs, r)).
Proof.
  intros Hd Hs. cbn -[one_of maxNestingDepth is_ws]. rewrite Hd. change (is_ws "{") with false. cbn iota.
  by rewrite bool_decide_true, Hs.
Qed.

Lemma literal_app word v rest : literal word v (word +:+ rest) = Some (v, rest).
Proof. unfold literal. by rewrite (proj2 (CutPrefix_true _ _ _) eq_refl). Qed.

Lemma wf_reads v : reads_back v.
Proof.
  induction v as [|b|t|raw|l IH|fs IH] using json_ind; intros [|fuel] d rest W D R F; try lia; inversion W; subst.
  - apply (literal_app "null").
  - destruct b; [apply (literal_app "true")|apply (literal_app "false")].
  - cbn [print]. match goal with H : number_ok _ |- _ => destruct H as [(c & s & -> & Hc) Hs] end. specialize (Hs _ R).
    rewrite str_app_cons in Hs |- *. by rewrite parse_number, Hs.
  - cbn [print]. rewrite quoted_app, parse_string. by rewrite H0.
  - destruct l as [|v l]; [cbn -[maxNestingDepth]; rewrite (depth_ok JNull); [done|cbn [nesting] in D |- *; lia]|]. pose proof (nesting_JArr _ _ D) as DA.
    pose proof (print_begins v (print_elements l +:+ rest) (Forall_inv H0)) as B. rewrite <- str_app_assoc in B.
    destruct (begins_skip _ B) as [_ Hb]. rewrite print_JArr in F |- *. cbn [String.length] in F.
    rewrite str_app_cons, parse_array by (done || apply (depth_ok v), (Forall_inv DA)).
    rewrite reads_elements; [done|done|done|done|lia].
  - destruct fs as [|[k v] fs]; [cbn -[maxNestingDepth]; rewrite (depth_ok JNull); [done|cbn [nesting] in D |- *; lia]|]. pose proof (nesting_JObj _ _ D) as DA.
    rewrite print_JObj in F |- *. cbn [String.length] in F.
    rewrite str_app_cons, parse_object, reads_members; [done|done|done|done|lia|apply (depth_ok v), (Forall_inv DA)|].
    by rewrite str_app_assoc, quoted_app.
Qed.

(** Reading a text gives the value that was written. *)
Lemma parse_print v : wf_json v → nesting v <= maxNestingDepth → parse (print v) = Some v.
Proof.
  intros W D. unfold parse. pose proof (wf_reads v (S (String.length (print v))) 0 "" W ltac:(lia) I ltac:(lia)) as E.
  rewrite str_app_nil_r in E. by rewrite E.
Qed.

(** What every field keeps, a struct keeps. *)
Lemma into_struct_keeps {A} (P : A → Prop) names set old v a :
  P old → (∀ n v x y, P x → set n v x = Some y → P y) → into_struct names set old v = Some a → P a.
Proof.
  intros Hold Hset. destruct v as [| | | | |fs]; try done; cbn [into_struct]; [by intros [= <-]|].
  revert old Hold. induction fs as [|[k v] fs IH]; intros old Hold; cbn [foldl mbind option_bind fst snd]; [by intros [= <-]|].
  destruct (field_of names (unquote k)) as [n|]; [|by apply IH].
  destruct (set n v old) as [x|] eqn:E; [by apply IH; eapply Hset|].
  assert (∀ l : list (string * json), foldl (λ acc f, a ← acc; match field_of names (unquote f.1) with Some n => set n f.2 a | None => Some a end)
    None l = None) as -> by (induction l; done). done.
Qed.

Lemma into_string_valid old v s : utf8_valid old = true → into_string old v = Some s → utf8_valid s = true.
Proof. intros Ho. destruct v; try done; cbn; [by intros [= <-]|]. intros Hs. apply (inj Some) in Hs as <-. apply unquote_valid. Qed.

Lemma field_single n : field_of [n] n = Some n.
Proof. unfold field_of. by rewrite bool_decide_true by (apply list_elem_of_singleton; done). Qed.

(** A struct field by field. *)
Lemma into_struct_cons {A} names (set : string → json → A → option A) k v fs old new :
  unquote k = k → k ∈ names → set k v old = Some new →
  into_struct names set old (JObj ((k, v) :: fs)) = into_struct names set new (JObj fs).
Proof.
  intros Hu Hk Hs. unfold into_struct. cbn [foldl fst snd mbind option_bind]. rewrite Hu. unfold field_of.
  rewrite bool_decide_true by done. by rewrite Hs.
Qed.

Lemma into_string_jstring old s : utf8_valid s = true → into_string old (jstring s) = Some s.
Proof. intros Hs. cbn. by rewrite unquote_quote. Qed.
Lemma into_int64_jint old n : in_int64 n → into_int64 old (jint n) = Some n.
Proof. intros Hn. cbn. by rewrite ParseInt_FormatInt. Qed.

Lemma into_slice_fmap {A B} (zero : A) into (f : B → json) (g : B → A) old l :
  (∀ o x, x ∈ l → into o (f x) = Some (g x)) → into_slice zero into old (f <$> l) = Some (g <$> l).
Proof.
  revert old. induction l as [|x l IH]; intros old Hl; [done|]. cbn [fmap list_fmap into_slice].
  rewrite (Hl _ x) by (by left). cbn [mbind option_bind]. rewrite IH; [done|]. intros o y Hy. apply Hl. by right.
Qed.

Lemma into_slice_keeps {A} (P : A → Prop) zero into old l r :
  P zero → (∀ x v y, P x → into x v = Some y → P y) → Forall P old → into_slice zero into old l = Some r → Forall P r.
Proof.
  intros Hz Hi. revert old r. induction l as [|v l IH]; intros old r Ho; cbn; [by intros [= <-]|].
  intros (x & Hx & (rest & Hr & He)%bind_Some)%bind_Some. apply (inj Some) in He as <-. constructor.
  - eapply Hi; [|exact Hx]. by destruct Ho.
  - eapply IH; [|exact Hr]. by destruct Ho.
Qed.

Lemma wf_jstring s : utf8_valid s = true → wf_json (jstring s).
Proof. intros Hs. constructor. by apply raw_ok_quote. Qed.
Lemma wf_jint n : in_int64 n → wf_json (jint n).
Proof. intros Hn. constructor. by apply number_ok_format. Qed.

(** A string of plain characters needs no escapes. *)
Definition plain (c : ascii) : bool :=
  negb (bool_decide (c = quote_mark)) && negb (bool_decide (c = backslash)) && (32 <=? byte_val c).

Lemma plain_raw_ok s : str_all plain s = true → raw_ok s.
Proof.
  intros Hs rest. induction s as [|c s IH]; [done|]. cbn in Hs. apply andb_true_iff in Hs as [Hc Hs].
  rewrite str_app_cons. cbn [scan_string]. unfold plain in Hc. rewrite !andb_true_iff, !negb_true_iff in Hc.
  destruct Hc as [[-> ->] Hc]. replace (byte_val c <? 32) with false by lia. by rewrite IH.
Qed.

Lemma plain_digit c : is_digit c = true → plain c = true.
Proof. all_bytes c; intros H; try discriminate H; done. Qed.

Lemma decode_print v err : wf_json v → nesting v <= maxNestingDepth →
  match v with JArr _ | JObj _ => True | _ => err = None end → decode_stream (mkStream (print v) err) = Some v.
Proof.
  intros W D E. unfold decode_stream. cbn [s_bytes s_err].
  pose proof (wf_reads v (S (String.length (print v))) 0 "" W ltac:(lia) I ltac:(lia)) as Hr.
  rewrite str_app_nil_r in Hr. rewrite Hr. cbn [mbind option_bind]. destruct v; cbn [orb negb]; subst; done.
Qed.

(** Members with plain names. *)
Lemma members_wf fs : Forall (λ f : string * json, str_all plain f.1 = true ∧ wf_json f.2) fs → wf_json (JObj fs).
Proof. intros Hfs. constructor. eapply Forall_impl; [exact Hfs|]. intros f [Hf Hv]. split; [by apply plain_raw_ok|done]. Qed.

Lemma members_flat fs : Forall (λ f : string * json, nesting f.2 <= 1) fs → nesting (JObj fs) <= 2.
Proof. intros Hfs. cbn [nesting]. induction Hfs as [|[k v] fs Hv _ IH]; cbn in *; lia. Qed.

Ltac members :=
  repeat (apply Forall_cons_2; [split; cbn [fst snd]|]); try apply Forall_nil_2; try done;
  try (by apply wf_jstring); try (by apply wf_jint).

(** A field of a struct with one. *)
Lemma single_wf field v : str_all plain field = true → wf_json v → wf_json (JObj [(field, v)]).
Proof. intros Hf Hv. constructor. apply Forall_cons_2; [split; [by apply plain_raw_ok|done]|apply Forall_nil_2]. Qed.
