(* ===== verification/JsonWf.v ===== *)
(** * JsonWf: what is read can be written and read again

    The parser of [Json] gives only values that [print] writes so that the parser
    reads them back. *)

From stdpp Require Import base option list strings.
From Stdlib Require Import ZArith Lia Ascii.
From S2P Require Import Prelude GoStrings GoPaths ServeMux JsonText Json.
Local Open Scope Z_scope.

(** ** Numbers *)

(** The next byte, if there is one, does not continue what [f] accepts. *)
Definition first_not (f : ascii → bool) (s : string) : Prop :=
  match s with String c _ => f c = false | EmptyString => True end.

Lemma span_first_not s : first_not is_digit s → span_digits s = ("", s).
Proof. destruct s as [|c s]; [done|]. cbn. by intros ->. Qed.

Lemma span_digits_spec s d r : span_digits s = (d, r) → str_all is_digit d = true.
Proof.
  revert d r. induction s as [|c s IH]; intros d r; cbn [span_digits]; [by intros [= <- _]|].
  destruct (is_digit c) eqn:Hc; [|by intros [= <- _]]. destruct (span_digits s) as [d' r'].
  intros [= <- <-]. cbn. by rewrite Hc, (IH d' r').
Qed.

Lemma span_again d x : str_all is_digit d = true → first_not is_digit x → span_digits (d +:+ x) = (d, x).
Proof. intros Hd Hx. apply span_digits_app; [done|by apply span_first_not]. Qed.

Lemma int_again s i r : scan_int s = Some (i, r) →
  (∃ c t, i = String c t ∧ is_digit c = true) ∧ ∀ x, first_not is_digit x → scan_int (i +:+ x) = Some (i, x).
Proof.
  destruct s as [|c s]; [done|]. unfold scan_int. case_bool_decide as H0.
  { intros [= <- <-]. split; [by eexists _, _|done]. }
  destruct (span_digits (String c s)) as [d r'] eqn:E. case_bool_decide as Hd; [done|]. intros [= <- <-].
  pose proof (span_digits_spec _ _ _ E) as Ha. cbn [span_digits] in E. destruct (is_digit c) eqn:Hc; [|by injection E as <- _].
  destruct (span_digits s) as [d' r'']. injection E as <- <-. split; [by eexists _, _|]. intros x Hx.
  rewrite str_app_cons. rewrite bool_decide_false by done. rewrite <- str_app_cons, span_again by done. done.
Qed.

Lemma one_of_first cs c s : c ∈ cs → one_of cs (String c s) = Some (c, s).
Proof. intros Hc. cbn. by rewrite bool_decide_true. Qed.
Lemma one_of_none cs s : first_not (λ c, bool_decide (c ∈ cs)) s → one_of cs s = None.
Proof. destruct s as [|c s]; [done|]. cbn. by intros ->. Qed.
Lemma one_of_Some cs s c r : one_of cs s = Some (c, r) → c ∈ cs ∧ s = String c r.
Proof. destruct s as [|c' s]; [done|]. cbn. case_bool_decide; [|done]. by intros [= <- <-]. Qed.

Definition dots : list ascii := ["."%char].
Definition exps : list ascii := ["e"; "E"]%char.
Definition none_of (cs : list ascii) : string → Prop := first_not (λ c, bool_decide (c ∈ cs)).

Lemma frac_again s f r : scan_frac s = Some (f, r) →
  (f = "" ∨ ∃ t, f = String "."%char t) ∧
  ∀ x, first_not is_digit x → none_of dots x → scan_frac (f +:+ x) = Some (f, x).
Proof.
  unfold scan_frac. fold dots. destruct (one_of dots s) as [[c s1]|] eqn:E.
  - apply one_of_Some in E as [->%list_elem_of_singleton ->]. destruct (span_digits s1) as [d r'] eqn:Es.
    case_bool_decide as Hd; [done|]. intros [= <- <-]. split; [by right; eexists|]. intros x Hx _.
    rewrite str_app_cons, one_of_first, span_again by (eauto using span_digits_spec || by apply list_elem_of_singleton).
    by rewrite bool_decide_false.
  - intros [= <- <-]. split; [by left|]. intros x _ Hx. change ("" +:+ x) with x. by rewrite one_of_none.
Qed.

Lemma signed_digits d x : str_all is_digit d = true → d ≠ "" → one_of ["+"; "-"]%char (d +:+ x) = None.
Proof.
  intros Hd Hne. destruct d as [|c d]; [done|]. apply one_of_none. cbn in Hd |- *. apply andb_true_iff in Hd as [Hd _].
  revert Hd. all_bytes c; intros H; try discriminate H; done.
Qed.

Lemma exp_again s e r : scan_exp s = Some (e, r) →
  (e = "" ∨ ∃ c t, e = String c t ∧ c ∈ exps) ∧
  ∀ x, first_not is_digit x → none_of exps x → scan_exp (e +:+ x) = Some (e, x).
Proof.
  unfold scan_exp. fold exps. destruct (one_of exps s) as [[c s1]|] eqn:E.
  - apply one_of_Some in E as [Hc ->].
    destruct (one_of ["+"; "-"]%char s1) as [[g s2]|] eqn:Eg.
    + apply one_of_Some in Eg as [Hg ->].
      destruct (span_digits s2) as [d r'] eqn:Es. case_bool_decide as Hd; [done|]. intros [= <- <-].
      split; [right; by eexists _, _|]. intros x Hx _. change (String g "" +:+ d) with (String g d).
      rewrite !str_app_cons, one_of_first, one_of_first, span_again by eauto using span_digits_spec.
      by rewrite bool_decide_false.
    + destruct (span_digits s1) as [d r'] eqn:Es. case_bool_decide as Hd; [done|]. intros [= <- <-].
      split; [right; by eexists _, _|]. intros x Hx _. change ("" +:+ d) with d.
      rewrite str_app_cons, one_of_first, signed_digits, span_again by eauto using span_digits_spec.
      by rewrite bool_decide_false.
  - intros [= <- <-]. split; [by left|]. intros x _ Hx. change ("" +:+ x) with x. by rewrite one_of_none.
Qed.

Lemma ends_first rest : ends_value rest → first_not is_digit rest ∧ none_of dots rest ∧ none_of exps rest.
Proof.
  destruct rest as [|c rest]; [done|]. cbn [ends_value]. rewrite !elem_of_cons, elem_of_nil.
  by intros [-> | [-> | [-> | []]]].
Qed.

Lemma scan_number_ok s t r : scan_number s = Some (t, r) → number_ok t.
Proof.
  unfold scan_number.
  destruct (match one_of ["-"%char] s with Some (g, s1) => (String g "", s1) | None => ("", s) end) as [sign s1] eqn:Es.
  intros ([i s2] & Hi & Hs2)%bind_Some. apply bind_Some in Hs2 as ([f s3] & Hf & Hs3).
  apply bind_Some in Hs3 as ([e s4] & He & Ht). apply (inj Some) in Ht. injection Ht as <- <-.
  destruct (int_again _ _ _ Hi) as [(ci & ti & -> & Hci) Hi']. destruct (frac_again _ _ _ Hf) as [Hf1 Hf'].
  destruct (exp_again _ _ _ He) as [He1 He'].
  assert (∀ rest, ends_value rest →
    ('(i0, s2) ← scan_int ((String ci ti +:+ f +:+ e) +:+ rest); '(f0, s3) ← scan_frac s2; '(e0, s4) ← scan_exp s3;
     Some (sign +:+ i0 +:+ f0 +:+ e0, s4)) = Some (sign +:+ String ci ti +:+ f +:+ e, rest)) as Hbody.
  { intros rest Hr. destruct (ends_first _ Hr) as (Rd & Rdot & Rexp). rewrite !str_app_assoc.
    assert (first_not is_digit (e +:+ rest) ∧ none_of dots (e +:+ rest)) as [Ed Edot].
    { destruct He1 as [-> | (c & t & -> & Hc)]; [done|]. unfold exps in Hc. rewrite !elem_of_cons, elem_of_nil in Hc.
      by destruct Hc as [-> | [-> | []]]. }
    assert (first_not is_digit (f +:+ e +:+ rest)) as Fd by (by destruct Hf1 as [-> | (t & ->)]).
    rewrite Hi' by done. cbn [mbind option_bind]. rewrite Hf' by done. cbn [mbind option_bind]. by rewrite He'. }
  destruct (one_of ["-"%char] s) as [[g s1']|] eqn:Eg; injection Es as <- <-.
  - apply one_of_Some in Eg as [->%list_elem_of_singleton ->]. split; [eexists _, _; by split|]. intros rest Hr.
    unfold scan_number. change (one_of ?cs ((String ?g "" +:+ ?b) +:+ rest)) with (one_of cs (String g (b +:+ rest))).
    rewrite one_of_first by (by apply list_elem_of_singleton). by apply Hbody.
  - split; [eexists _, _; split; [by rewrite str_app_cons|]; unfold number_char; by rewrite Hci|]. intros rest Hr.
    unfold scan_number. rewrite one_of_none; [by apply Hbody|].
    cbn. revert Hci. all_bytes ci; intros H; try discriminate H; done.
Qed.

(** ** Strings *)

Lemma scan_string_ok s raw r : scan_string s = Some (raw, r) → raw_ok raw.
Proof.
  revert raw r. induction s as [s IH] using string_length_ind. intros raw r. destruct s as [|c s]; [done|]. cbn [scan_string].
  destruct (bool_decide (c = quote_mark)) eqn:Hq; [intros [= <- <-]; by intros rest|].
  destruct (bool_decide (c = backslash)) eqn:Hb.
  - destruct s as [|e s2]; [done|]. destruct (bool_decide (e = "u"%char)) eqn:Hu.
    + destruct s2 as [|h1 [|h2 [|h3 [|h4 s6]]]]; [done..|]. destruct (hex4 h1 h2 h3 h4) eqn:Hx; [|done].
      cbn [mbind option_bind]. intros ([r' rest'] & Hr & [= <- <-])%bind_Some. intros rest. rewrite !str_app_cons.
      cbn [scan_string]. rewrite Hq, Hb, Hu, Hx. cbn [mbind option_bind]. apply IH in Hr; [|cbn; lia]. by rewrite Hr.
    + destruct (bool_decide (e ∈ _)) eqn:He; [|done]. intros ([r' rest'] & Hr & [= <- <-])%bind_Some. intros rest.
      rewrite !str_app_cons. cbn [scan_string]. rewrite Hq, Hb, Hu, He. apply IH in Hr; [|cbn; lia]. by rewrite Hr.
  - destruct (byte_val c <? 32) eqn:Hc; [done|]. intros ([r' rest'] & Hr & [= <- <-])%bind_Some. intros rest.
    rewrite str_app_cons. cbn [scan_string]. rewrite Hq, Hb, Hc. apply IH in Hr; [|cbn; lia]. by rewrite Hr.
Qed.

(** ** Values *)

Lemma nesting_elements l d : d + 1 <= maxNestingDepth → Forall (λ v, nesting v + (d + 1) <= maxNestingDepth) l →
  nesting (JArr l) + d <= maxNestingDepth.
Proof. intros Hd Hl. cbn [nesting]. induction Hl as [|v l Hv _ IH]; cbn; lia. Qed.
Lemma nesting_members fs d : d + 1 <= maxNestingDepth → Forall (λ f, nesting f.2 + (d + 1) <= maxNestingDepth) fs →
  nesting (JObj fs) + d <= maxNestingDepth.
Proof. intros Hd Hl. cbn [nesting]. induction Hl as [|[k v] fs Hv _ IH]; cbn in *; lia. Qed.

Definition value_ok (d : Z) (v : json) : Prop := wf_json v ∧ nesting v + d <= maxNestingDepth.

Lemma literal_ok word u s v r d : d <= maxNestingDepth → wf_json u → nesting u = 0 → literal word u s = Some (v, r) → value_ok d v.
Proof. unfold literal. intros Hd Hu Hn. destruct (CutPrefix s word) as [r' []]; [|done]. intros [= <- _]. split; [done|lia]. Qed.

Lemma parse_value_ok fuel :
  (∀ d s v r, d <= maxNestingDepth → parse_value fuel d s = Some (v, r) → value_ok d v) ∧
  (∀ d s l r, d <= maxNestingDepth → parse_elements fuel d s = Some (l, r) → Forall (value_ok d) l) ∧
  (∀ d s fs r, d <= maxNestingDepth → parse_members fuel d s = Some (fs, r) → Forall (λ f, raw_ok f.1 ∧ value_ok d f.2) fs).
Proof.
  induction fuel as [|fuel (IHv & IHe & IHm)]; [done|]. split_and!.
  - intros d s v r Hd. cbn [parse_value]. destruct (skip_ws s) as [|c s']; [done|].
    case_bool_decide; [|case_bool_decide; [|case_bool_decide; [|case_bool_decide; [|case_bool_decide; [|case_bool_decide]]]]].
    + destruct (Z.ltb_spec maxNestingDepth (d + 1)); [done|].
      destruct (one_of _ _) as [[c' r']|]; [intros [= <- _]; split; [by constructor|by apply nesting_members]|].
      intros ([fs r'] & Hm & [= <- _])%bind_Some. apply IHm in Hm; [|done]. split.
      * constructor. eapply Forall_impl; [exact Hm|]. by intros f (? & ? & _).
      * apply nesting_members; [done|]. eapply Forall_impl; [exact Hm|]. by intros f (_ & _ & ?).
    + destruct (Z.ltb_spec maxNestingDepth (d + 1)); [done|].
      destruct (one_of _ _) as [[c' r']|]; [intros [= <- _]; split; [by constructor|by apply nesting_elements]|].
      intros ([l r'] & Hm & [= <- _])%bind_Some. apply IHe in Hm; [|done]. split.
      * constructor. eapply Forall_impl; [exact Hm|]. by intros f [? _].
      * apply nesting_elements; [done|]. eapply Forall_impl; [exact Hm|]. by intros f [_ ?].
    + intros ([raw r'] & Hs & [= <- _])%bind_Some. split; [constructor; by eapply scan_string_ok|done].
    + by apply literal_ok; [|constructor|].
    + by apply literal_ok; [|constructor|].
    + by apply literal_ok; [|constructor|].
    + intros ([t r'] & Hs & [= <- _])%bind_Some. split; [constructor; by eapply scan_number_ok|done].
  - intros d s l r Hd. cbn [parse_elements]. intros ([v s1] & Hv & ([c s2] & _ & Hrest)%bind_Some)%bind_Some.
    apply IHv in Hv; [|done]. case_bool_decide; [injection Hrest as <- _; apply Forall_cons_2; [done|apply Forall_nil_2]|].
    apply bind_Some in Hrest as ([l' r'] & Hl & [= <- _]). constructor; [done|]. by eapply IHe.
  - intros d s fs r Hd. cbn [parse_members]. intros ([c0 s1] & _ & ([k s2] & Hk & Hrest)%bind_Some)%bind_Some.
    apply bind_Some in Hrest as ([c1 s3] & _ & ([v s4] & Hv & ([c s5] & _ & Hrest)%bind_Some)%bind_Some).
    apply scan_string_ok in Hk. apply IHv in Hv; [|done]. case_bool_decide; [injection Hrest as <- _; apply Forall_cons_2; [done|apply Forall_nil_2]|].
    apply bind_Some in Hrest as ([l' r'] & Hl & [= <- _]). constructor; [done|]. by eapply IHm.
Qed.

Lemma parse_ok s v : parse s = Some v → wf_json v ∧ nesting v <= maxNestingDepth.
Proof.
  unfold parse. intros ([v' r] & Hv & Hx)%bind_Some. case_bool_decide; [|done]. injection Hx as ->.
  destruct (parse_value_ok (S (String.length s))) as [H0 _]. destruct (H0 0 s v r ltac:(done) Hv) as [? ?]. split; [done|lia].
Qed.

(** Reading, writing and reading again gives the same value. *)
Lemma parse_print_parse s v : parse s = Some v → parse (print v) = Some v.
Proof. intros [W D]%parse_ok. by apply parse_print. Qed.
