(* ===== verification/Env.v ===== *)
(** * Env: settings from the environment

    The helpers [envList] and [env] ([envOr]) that the packages of
    [src/internal] use to read their settings; [internal/broker/broker.go] has
    the copy mapped here, the other packages the same text. *)

From stdpp Require Import base option list strings.
From Stdlib Require Import ZArith Lia Ascii.
From S2P Require Import Prelude GoStrings GoPaths.

(** [os.Getenv]: the empty string for an unset variable. *)
Notation environ := (string → string).

(** The body of the loop over the comma-separated parts. *)
Definition add_part (out : list string) (p : string) : list string :=
  let p := TrimSpace p in if bool_decide (p = "") then out else out ++ [p].

Definition envList (e : environ) (key : string) : list string :=
  let raw := TrimSpace (e key) in
  if bool_decide (raw = "") then [] else foldl add_part [] (Split raw ","%char).

Definition env (e : environ) (key fallback : string) : string :=
  let v := TrimSpace (e key) in if bool_decide (v = "") then fallback else v.

(** [strconv.Atoi] with its error dropped. *)
Definition env_int (e : environ) (key fallback : string) : Z := (Atoi (env e key fallback)).1.

(** ** Facts *)

Lemma add_parts_spec out parts :
  foldl add_part out parts = out ++ filter (λ p, p ≠ "") (TrimSpace <$> parts).
Proof.
  revert out. induction parts as [|p parts IH]; intros out; cbn [foldl fmap list_fmap]; [by rewrite app_nil_r|].
  rewrite IH. unfold add_part. rewrite filter_cons. case_bool_decide as E.
  - by rewrite decide_False by (intros ?; done).
  - rewrite decide_True by done. by rewrite <- app_assoc.
Qed.

Lemma Split_no_sep s c p : p ∈ Split s c → str_all (not_byte c) p = true.
Proof.
  revert p. induction s as [|a s IH]; intros p; cbn [Split]; [by intros ->%list_elem_of_singleton|].
  case_bool_decide as E; [intros [->|Hp]%elem_of_cons; [done|by apply IH]|].
  pose proof (Split_nonempty s c) as Hne. destruct (Split s c) as [|q qs]; [done|].
  intros [->|Hp]%elem_of_cons; [|apply IH; by right].
  cbn. unfold not_byte at 1. rewrite bool_decide_false by done. cbn. apply IH. by left.
Qed.

Lemma trim_left_all f s : str_all f s = true → str_all f (trim_left s) = true.
Proof.
  induction s as [s IH] using string_length_ind. destruct s as [|c1 s1]; [done|].
  intros H. pose proof H as H'. cbn in H'. apply andb_true_iff in H' as [_ H1]. cbn [trim_left].
  destruct (space1 c1); [apply IH; [cbn; lia|done]|]. destruct s1 as [|c2 s2]; [done|].
  pose proof H1 as H2. cbn in H2. apply andb_true_iff in H2 as [_ H2].
  destruct (space2 c1 c2); [apply IH; [cbn; lia|done]|]. destruct s2 as [|c3 s3]; [done|].
  pose proof H2 as H3. cbn in H3. apply andb_true_iff in H3 as [_ H3].
  destruct (space3 c1 c2 c3); [apply IH; [cbn; lia|done]|done].
Qed.

Lemma trim_left_rev_all f s : str_all f s = true → str_all f (trim_left_rev s) = true.
Proof.
  induction s as [s IH] using string_length_ind. destruct s as [|c1 s1]; [done|].
  intros H. pose proof H as H'. cbn in H'. apply andb_true_iff in H' as [_ H1]. cbn [trim_left_rev].
  destruct (space1 c1); [apply IH; [cbn; lia|done]|]. destruct s1 as [|c2 s2]; [done|].
  pose proof H1 as H2. cbn in H2. apply andb_true_iff in H2 as [_ H2].
  destruct (space2 c2 c1); [apply IH; [cbn; lia|done]|]. destruct s2 as [|c3 s3]; [done|].
  pose proof H2 as H3. cbn in H3. apply andb_true_iff in H3 as [_ H3].
  destruct (space3 c3 c2 c1); [apply IH; [cbn; lia|done]|done].
Qed.

Lemma TrimSpace_all f s : str_all f s = true → str_all f (TrimSpace s) = true.
Proof.
  intros H. unfold TrimSpace, trim_right. rewrite str_all_rev. apply trim_left_rev_all.
  rewrite str_all_rev. by apply trim_left_all.
Qed.

Lemma envList_parts e key :
  envList e key = filter (λ p, p ≠ "") (TrimSpace <$> Split (TrimSpace (e key)) ","%char).
Proof.
  unfold envList. case_bool_decide as E; [|by rewrite add_parts_spec].
  rewrite E. cbn. done.
Qed.

(** The elements of a list setting are not empty and hold no comma. *)
Lemma envList_elements e key p :
  p ∈ envList e key → p ≠ "" ∧ str_all (not_byte ","%char) p = true.
Proof.
  rewrite envList_parts. intros [Hne (q & -> & Hq)%list_elem_of_fmap]%list_elem_of_filter.
  split; [done|]. by apply TrimSpace_all, (Split_no_sep _ _ _ Hq).
Qed.

(** [strings.Join(parts, ",")] *)
Fixpoint Join (parts : list string) (sep : ascii) : string :=
  match parts with
  | [] => ""
  | [p] => p
  | p :: rest => p +:+ String sep (Join rest sep)
  end.

Lemma Split_Join parts c :
  parts ≠ [] → Forall (λ p, str_all (not_byte c) p = true) parts → Split (Join parts c) c = parts.
Proof.
  intros Hne Hall. induction Hall as [|p rest Hp Hrest IH]; [done|].
  destruct rest as [|q rest]; [by apply Split_one|]. cbn [Join] in *. rewrite Split_cons by done. by rewrite IH.
Qed.

Lemma Join_solid parts c :
  solid c = true → Forall (λ p, str_all solid p = true) parts → str_all solid (Join parts c) = true.
Proof.
  intros Hc Hall. induction Hall as [|p rest Hp Hrest IH]; [done|]. destruct rest as [|q rest]; [done|].
  cbn [Join] in *. rewrite str_all_app, Hp. cbn. by rewrite Hc.
Qed.

(** A list setting written as addresses separated by commas is read back. *)
Lemma envList_Join e key parts :
  e key = Join parts ","%char →
  Forall (λ p, p ≠ "" ∧ str_all solid p = true ∧ str_all (not_byte ","%char) p = true) parts →
  envList e key = parts.
Proof.
  intros He Hall. rewrite envList_parts, He. destruct (decide (parts = [])) as [->|Hne]; [done|].
  assert (Forall (λ p, str_all solid p = true) parts) by (eapply Forall_impl; [exact Hall|cbn; tauto]).
  assert (Forall (λ p, str_all (not_byte ","%char) p = true) parts) by (eapply Forall_impl; [exact Hall|cbn; tauto]).
  rewrite TrimSpace_solid, Split_Join by auto using Join_solid.
  clear -Hall. induction Hall as [|p parts (Hp & Hs & _) Hall IH]; [done|].
  cbn [fmap list_fmap]. rewrite TrimSpace_solid, filter_cons_True by done. by rewrite IH.
Qed.
