(* ===== verification/Sha256.v ===== *)
(** * Sha256: [crypto/sha256] and [encoding/hex]

    FIPS 180-4 on byte lists, 32-bit words as [Z] with the wrap-around written
    out.  [internal/domain/messaging.Checksum] is the hexadecimal digest. *)

From stdpp Require Import base option list strings.
From Stdlib Require Import ZArith Lia Ascii.
From S2P Require Import Prelude GoStrings.
Local Open Scope Z_scope.

Definition wrap32 (z : Z) : Z := Z.land z 4294967295.

Definition rotr (n x : Z) : Z := wrap32 (Z.lor (Z.shiftr x n) (Z.shiftl x (32 - n))).

(** The standard's constants are the first 32 bits of the fractional parts of
    the roots of the first primes; they are computed here from that description. *)

(** The primes among [2 .. 311], 64 of them. *)
Definition primes64 : list Z :=
  filter (λ p, Forall (λ q, p `mod` q ≠ 0) (seqZ 2 (Z.sqrt p - 1))) (seqZ 2 310).

(** The largest [r + x] with [x < 2^n] and [(r + x)^3 <= z], by bits. *)
Fixpoint cube_root_bits (n : nat) (z r : Z) : Z :=
  match n with
  | O => r
  | S n' =>
      let r' := r + Z.shiftl 1 (Z.of_nat n') in
      cube_root_bits n' z (if r' * r' * r' <=? z then r' else r)
  end.

(** The cube roots of the primes below 312 are below 7, so 35 bits hold the
    root scaled by 2^32. *)
Definition K256 : list Z :=
  Eval vm_compute in (λ p, wrap32 (cube_root_bits 35 (Z.shiftl p 96) 0)) <$> primes64.

Record sha_state := mkSha { ha : Z; hb : Z; hc : Z; hd : Z; he : Z; hf : Z; hg : Z; hh : Z }.

Definition sha_init : sha_state :=
  Eval vm_compute in
  let h n := wrap32 (Z.sqrt (Z.shiftl (default 0 (primes64 !! n)) 64)) in
  mkSha (h 0%nat) (h 1%nat) (h 2%nat) (h 3%nat) (h 4%nat) (h 5%nat) (h 6%nat) (h 7%nat).

Definition word_bytes (w : Z) : list Z :=
  [Z.land (Z.shiftr w 24) 255; Z.land (Z.shiftr w 16) 255; Z.land (Z.shiftr w 8) 255; Z.land w 255].

(** Padding: one set bit, zeros up to 56 modulo 64, the bit length on 8 bytes. *)
Definition sha_pad (msg : list Z) : list Z :=
  let len := Z.of_nat (length msg) in
  let zeros := Z.to_nat ((55 - len) `mod` 64) in
  msg ++ [128] ++ replicate zeros 0 ++
  word_bytes (Z.shiftr (len * 8) 32) ++ word_bytes (len * 8).

Fixpoint words_of (bs : list Z) : list Z :=
  match bs with
  | b1 :: b2 :: b3 :: b4 :: rest =>
      (b1 * 16777216 + b2 * 65536 + b3 * 256 + b4) :: words_of rest
  | _ => []
  end.

(** The message schedule: [ws] holds the last words, newest first. *)
Fixpoint schedule (n : nat) (ws : list Z) : list Z :=
  match n with
  | O => ws
  | S n' =>
      let w i := default 0 (ws !! i) in
      let s0 := Z.lxor (Z.lxor (rotr 7 (w 14%nat)) (rotr 18 (w 14%nat))) (Z.shiftr (w 14%nat) 3) in
      let s1 := Z.lxor (Z.lxor (rotr 17 (w 1%nat)) (rotr 19 (w 1%nat))) (Z.shiftr (w 1%nat) 10) in
      schedule n' (wrap32 (w 15%nat + s0 + w 6%nat + s1) :: ws)
  end.

Definition sha_round (s : sha_state) (kw : Z * Z) : sha_state :=
  let S1 := Z.lxor (Z.lxor (rotr 6 (he s)) (rotr 11 (he s))) (rotr 25 (he s)) in
  let ch := Z.lxor (Z.land (he s) (hf s)) (Z.land (Z.lxor (he s) 4294967295) (hg s)) in
  let t1 := hh s + S1 + ch + kw.1 + kw.2 in
  let S0 := Z.lxor (Z.lxor (rotr 2 (ha s)) (rotr 13 (ha s))) (rotr 22 (ha s)) in
  let maj := Z.lxor (Z.lxor (Z.land (ha s) (hb s)) (Z.land (ha s) (hc s))) (Z.land (hb s) (hc s)) in
  mkSha (wrap32 (t1 + S0 + maj)) (ha s) (hb s) (hc s) (wrap32 (hd s + t1)) (he s) (hf s) (hg s).

Definition sha_block (s : sha_state) (block : list Z) : sha_state :=
  let ws := rev (schedule 48 (rev (words_of block))) in
  let r := foldl sha_round s (zip K256 ws) in
  mkSha (wrap32 (ha s + ha r)) (wrap32 (hb s + hb r)) (wrap32 (hc s + hc r)) (wrap32 (hd s + hd r))
        (wrap32 (he s + he r)) (wrap32 (hf s + hf r)) (wrap32 (hg s + hg r)) (wrap32 (hh s + hh r)).

Fixpoint sha_blocks (fuel : nat) (s : sha_state) (bs : list Z) : sha_state :=
  match fuel with
  | O => s
  | S fuel' => match bs with
               | [] => s
               | _ => sha_blocks fuel' (sha_block s (take 64 bs)) (drop 64 bs)
               end
  end.

(** [sha256.Sum256] *)
Definition Sum256 (msg : list Z) : list Z :=
  let padded := sha_pad msg in
  let s := sha_blocks (length padded) sha_init padded in
  concat (map word_bytes [ha s; hb s; hc s; hd s; he s; hf s; hg s; hh s]).

Fixpoint string_bytes (s : string) : list Z :=
  match s with
  | "" => []
  | String c s' => byte_val c :: string_bytes s'
  end.

Definition hex_digit (d : Z) : ascii :=
  ascii_of_N (Z.to_N (if d <? 10 then 48 + d else 87 + d)).

(** [hex.EncodeToString] *)
Fixpoint EncodeToString (bs : list Z) : string :=
  match bs with
  | [] => ""
  | b :: bs' => String (hex_digit (Z.shiftr b 4)) (String (hex_digit (Z.land b 15)) (EncodeToString bs'))
  end.

Definition is_hex (c : ascii) : bool :=
  let b := byte_val c in ((48 <=? b) && (b <=? 57)) || ((97 <=? b) && (b <=? 102)).

Fixpoint all_chars (f : ascii → bool) (s : string) : bool :=
  match s with
  | "" => true
  | String c s' => f c && all_chars f s'
  end.

(** ** The digest is 32 bytes, its encoding 64 lower-case hexadecimal digits *)

Lemma word_bytes_range w : Forall (λ b, 0 <= b < 256) (word_bytes w).
Proof.
  unfold word_bytes. repeat constructor;
    (change 255 with (Z.ones 8); rewrite Z.land_ones by lia; apply Z.mod_pos_bound; lia).
Qed.

Lemma Sum256_shape msg : length (Sum256 msg) = 32%nat ∧ Forall (λ b, 0 <= b < 256) (Sum256 msg).
Proof.
  unfold Sum256. generalize (sha_blocks (length (sha_pad msg)) sha_init (sha_pad msg)).
  intros s. split; [done|]. cbn [map concat].
  repeat apply Forall_app_2; [apply word_bytes_range..|constructor].
Qed.

Lemma is_hex_digit d : 0 <= d < 16 → is_hex (hex_digit d) = true.
Proof.
  intros Hd. unfold is_hex, hex_digit, byte_val.
  rewrite N_ascii_embedding by (case_match; lia). rewrite Z2N.id by (case_match; lia).
  case_match; lia.
Qed.

Lemma EncodeToString_shape bs :
  Forall (λ b, 0 <= b < 256) bs →
  String.length (EncodeToString bs) = (2 * length bs)%nat ∧
  all_chars is_hex (EncodeToString bs) = true.
Proof.
  induction 1 as [|b bs Hb Hbs [IHl IHc]]; [done|]. cbn. split; [rewrite IHl; lia|].
  rewrite IHc, !is_hex_digit; [done|..].
  - change 15 with (Z.ones 4). rewrite Z.land_ones by lia. apply Z.mod_pos_bound. lia.
  - rewrite Z.shiftr_div_pow2 by lia. change (2 ^ 4) with 16.
    split; [apply Z.div_pos; lia|apply Z.div_lt_upper_bound; lia].
Qed.
