(* ===== verification/Messaging.v ===== *)
(** * Messaging: the domain and the application service

    [internal/domain/messaging/message.go] and
    [internal/application/messages/service.go]. *)

From stdpp Require Import base option list strings gmap.
From Stdlib Require Import ZArith Lia.
From S2P Require Import Prelude GoStrings Sha256.

(** ** Domain *)

(** [messaging.Message]; instants are nanoseconds since the Unix epoch. *)
Record Message := mkMessage {
  m_ID : Z;
  m_Text : string;
  m_Checksum : string;
  m_ChecksumOK : bool;
  m_CreatedAt : Z
}.

(** [time.Time{}]: January 1, year 1. *)
Definition zero_time : Z := -62135596800000000000.

(** [messaging.Message{}] *)
Definition zero_Message : Message := mkMessage 0 "" "" false zero_time.

(** [messaging.MessageCreated] *)
Record MessageCreated := mkMessageCreated {
  ev_ID : Z;
  ev_Text : string;
  ev_Checksum : string;
  ev_CreatedAt : Z;
  ev_Producer : string
}.

#[export] Instance Message_eq_dec : EqDecision Message.
Proof. solve_decision. Defined.
#[export] Instance MessageCreated_eq_dec : EqDecision MessageCreated.
Proof. solve_decision. Defined.

Definition ValidateText (text : string) : option error :=
  if bool_decide (TrimSpace text = "") then Some ErrEmptyText else None.

Definition Checksum (text : string) : string := EncodeToString (Sum256 (string_bytes text)).

Definition CreatedEvent (m : Message) : MessageCreated :=
  mkMessageCreated (m_ID m) (m_Text m) (m_Checksum m) (m_CreatedAt m) "otus-app".

(** ** Application service *)

(** The ports [Commands] and [Queries] ([messages.Store]): results are Go's
    value and error pairs. *)
Class MessageStore (W : Type) := {
  store_Create : ctx → string → string → GoM W (Message * option error);
  store_List : ctx → GoM W (list Message * option error)
}.

Section Service.
Context `{Runtime W, MessageStore W}.

(** [Service.Create] *)
Definition Service_Create (c : ctx) (text key : string) : GoM W (Message * option error) :=
  match ValidateText text with
  | Some err => mret (zero_Message, Some err)
  | None => c' ← gets (with_timeout c (5 * Second)); store_Create c' text key
  end.

(** [Service.List] *)
Definition Service_List (c : ctx) : GoM W (list Message * option error) :=
  c' ← gets (with_timeout c (3 * Second)); store_List c'.

End Service.

(** ** Properties *)

Lemma ValidateText_spec text : ValidateText text = Some ErrEmptyText ↔ Blank text.
Proof. unfold ValidateText. rewrite <- TrimSpace_empty. case_bool_decide; naive_solver. Qed.

Lemma ValidateText_cases text : ValidateText text = None ∨ ValidateText text = Some ErrEmptyText.
Proof. unfold ValidateText. case_bool_decide; auto. Qed.

Lemma Checksum_shape_aux text :
  String.length (Checksum text) = 64%nat ∧ all_chars is_hex (Checksum text) = true.
Proof.
  unfold Checksum. destruct (Sum256_shape (string_bytes text)) as [Hl Hr].
  destruct (EncodeToString_shape _ Hr) as [Hl' Hc]. by rewrite Hl', Hl.
Qed.

Example Checksum_abc :
  Checksum "abc" = "ba7816bf8f01cfea414140de5dae2223b00361a396177a9cb410ff61f20015ad".
Proof. vm_compute. reflexivity. Qed.

Example Checksum_privet :
  Checksum "привет" = "e58f1e8c55fa105bdd3f40e5037eb0b039b5998d52c05e6cd98878dd2da5cab2".
Proof. vm_compute. reflexivity. Qed.

Example Checksum_empty :
  Checksum "" = "e3b0c44298fc1c149afbf4c8996fb92427ae41e4649b934ca495991b7852b855".
Proof. vm_compute. reflexivity. Qed.
