(* ===== verification/EventJson.v ===== *)
(** * EventJson: the JSON of events and messages

    [json.Marshal] and [json.Unmarshal] on [messaging.MessageCreated], as the outbox
    ([internal/storage/postgres.go], [internal/storage/outbox.go]) and the brokers
    ([encode] and [decode] of [internal/broker/broker.go]) call them, and
    [json.Marshal] on a list of [messaging.Message]. *)

From stdpp Require Import base option list strings.
From Stdlib Require Import ZArith Lia Ascii.
From S2P Require Import Prelude GoStrings GoTime GoPaths ServeMux JsonText Json Sha256 Messaging.
Local Open Scope Z_scope.

(** The offset of the local time zone at an instant, in minutes. *)
Class LocalZone := { zone : Z → Z }.

(** The fields of the struct, by their tags. *)
Definition event_fields : list string := ["id"; "text"; "checksum"; "created_at"; "producer"].

(** The event as a value, with its instant written as [created]; an empty producer
    is left out. *)
Definition event_json (created : string) (ev : MessageCreated) : json :=
  JObj ([("id", jint (ev_ID ev)); ("text", jstring (ev_Text ev)); ("checksum", jstring (ev_Checksum ev));
         ("created_at", JStr created)] ++
        if bool_decide (ev_Producer ev = "") then [] else [("producer", jstring (ev_Producer ev))]).

(** [json.Marshal(ev)]; an instant that RFC 3339 cannot express is an error. *)
Definition marshal_event `{LocalZone} (ev : MessageCreated) : option string :=
  created ← format_rfc3339 (zone (ev_CreatedAt ev)) (ev_CreatedAt ev);
  Some (print (event_json created ev)).

(** A message as a value, and [json.Marshal] of a list of them. *)
Definition message_json `{LocalZone} (m : Message) : option json :=
  created ← format_rfc3339 (zone (m_CreatedAt m)) (m_CreatedAt m);
  Some (JObj [("id", jint (m_ID m)); ("text", jstring (m_Text m)); ("checksum", jstring (m_Checksum m));
              ("checksum_ok", JBool (m_ChecksumOK m)); ("created_at", JStr created)]).

Definition marshal_list `{LocalZone} (ms : list Message) : option string := (λ l, print (JArr l)) <$> mapM message_json ms.

(** [MessageCreated{}] *)
Definition zero_event : MessageCreated := mkMessageCreated 0 "" "" zero_time "".

(** [Time.UnmarshalJSON]: the text between the quotes, escapes and all. *)
Definition into_time (old : Z) (v : json) : option Z :=
  match v with JNull => Some old | JStr raw => parse_rfc3339 raw | _ => None end.

Definition set_event_field (name : string) (v : json) (ev : MessageCreated) : option MessageCreated :=
  let '(mkMessageCreated id text sum created producer) := ev in
  if bool_decide (name = "id") then id ← into_int64 id v; Some (mkMessageCreated id text sum created producer)
  else if bool_decide (name = "text") then text ← into_string text v; Some (mkMessageCreated id text sum created producer)
  else if bool_decide (name = "checksum") then sum ← into_string sum v; Some (mkMessageCreated id text sum created producer)
  else if bool_decide (name = "created_at") then created ← into_time created v; Some (mkMessageCreated id text sum created producer)
  else producer ← into_string producer v; Some (mkMessageCreated id text sum created producer).

(** [json.Unmarshal(raw, &ev)] on a zero event. *)
Definition unmarshal_event (raw : string) : option MessageCreated :=
  v ← parse raw; into_struct event_fields set_event_field zero_event v.

(** The events JSON can carry: a string that is not UTF-8 would come back with
    replacement characters. *)
Definition event_ok (ev : MessageCreated) : Prop :=
  in_int64 (ev_ID ev) ∧ utf8_valid (ev_Text ev) = true ∧ utf8_valid (ev_Checksum ev) = true ∧
  utf8_valid (ev_Producer ev) = true.

(** The strings a TEXT or JSONB value of PostgreSQL can hold: UTF-8, without the
    character zero. *)
Definition no_nul (s : string) : bool := str_all (λ c, negb (byte_val c =? 0)) s.
Definition pg_text (s : string) : bool := utf8_valid s && no_nul s.

(** The events that the database can hold. *)
Record event_storable (ev : MessageCreated) : Prop := {
  storable_id : in_int64 (ev_ID ev);
  storable_text : pg_text (ev_Text ev) = true;
  storable_sum : pg_text (ev_Checksum ev) = true;
  storable_producer : pg_text (ev_Producer ev) = true
}.

Lemma storable_ok ev : event_storable ev → event_ok ev.
Proof. intros [Hi [Ht _]%andb_true_iff [Hs _]%andb_true_iff [Hp _]%andb_true_iff]. by split_and!. Qed.

(** ** What was written is read back *)

Lemma plain_digits w n rest : str_all plain (digits w n rest) = str_all plain rest.
Proof.
  revert n rest. induction w as [|w IH]; intros n rest; [done|]. cbn [digits]. rewrite IH. cbn [str_all].
  by rewrite plain_digit by (apply is_digit_char, Z.mod_pos_bound; lia).
Qed.
Lemma plain_frac k n : 0 <= n < 10 ^ Z.of_nat k → str_all plain (frac_digits k n) = true.
Proof.
  revert n. induction k as [|k IH]; intros n Hn; [done|]. cbn [frac_digits]. destruct (n =? 0); [done|].
  rewrite Nat2Z.inj_succ, Z.pow_succ_r in Hn by lia. assert (0 < 10 ^ Z.of_nat k) by lia. cbn [str_all].
  rewrite plain_digit, IH; [done|by apply Z.mod_pos_bound|].
  apply is_digit_char. split; [by apply Z.div_pos; lia|apply Z.div_lt_upper_bound; lia].
Qed.

Lemma format_plain zone t s : format_rfc3339 zone t = Some s → str_all plain s = true.
Proof.
  unfold format_rfc3339. destruct (civil _) as [[y m] d]. destruct (_ || _ || _); [done|]. intros Hs. apply (inj Some) in Hs as <-.
  assert (0 <= t mod Second < 10 ^ Z.of_nat 9) as Hn by (apply Z.mod_pos_bound; done). pose proof (plain_frac _ _ Hn) as Hf.
  repeat (rewrite plain_digits; cbn [str_all andb]; rewrite ?andb_true_l). rewrite str_all_app.
  destruct (t mod Second =? 0); cbn [str_all]; rewrite ?Hf; destruct (zone =? 0); try done; destruct (zone <? 0);
    cbn [str_all]; rewrite !plain_digits; cbn [str_all]; by rewrite !plain_digits.
Qed.

Lemma event_json_wf created ev : event_ok ev → str_all plain created = true → wf_json (event_json created ev).
Proof.
  intros (Hi & Ht & Hs & Hp) Hc. constructor. apply Forall_app. split; [|case_bool_decide];
    repeat (apply Forall_cons_2; [split; cbn [fst snd]|]); try apply Forall_nil_2; try (by apply plain_raw_ok);
    try (by apply wf_jstring); [by apply wf_jint|by constructor; apply plain_raw_ok].
Qed.

Ltac field_stored :=
  first [ done
        | by unfold event_fields; rewrite !elem_of_cons; auto 10
        | unfold set_event_field; rewrite ?bool_decide_false by done; rewrite ?bool_decide_true by done;
          rewrite ?into_int64_jint, ?into_string_jstring by done; (done || (cbn [into_time]; by simplify_option_eq)) ].

Lemma store_event created ev : event_ok ev → parse_rfc3339 created = Some (ev_CreatedAt ev) →
  into_struct event_fields set_event_field zero_event (event_json created ev) = Some ev.
Proof.
  destruct ev as [id text sum at_ producer]. intros (Hi & Ht & Hs & Hp) Hc. cbn [ev_ID ev_Text ev_Checksum ev_CreatedAt ev_Producer] in *.
  unfold event_json, zero_event. cbn [ev_ID ev_Text ev_Checksum ev_CreatedAt ev_Producer app].
  rewrite (into_struct_cons _ _ "id" _ _ _ (mkMessageCreated id "" "" zero_time "")) by field_stored.
  rewrite (into_struct_cons _ _ "text" _ _ _ (mkMessageCreated id text "" zero_time "")) by field_stored.
  rewrite (into_struct_cons _ _ "checksum" _ _ _ (mkMessageCreated id text sum zero_time "")) by field_stored.
  rewrite (into_struct_cons _ _ "created_at" _ _ _ (mkMessageCreated id text sum at_ "")) by field_stored.
  case_bool_decide as Hprod; [by rewrite Hprod|].
  by rewrite (into_struct_cons _ _ "producer" _ _ _ (mkMessageCreated id text sum at_ producer)) by field_stored.
Qed.

Lemma unmarshal_marshal_event `{LocalZone} ev p : event_ok ev → marshal_event ev = Some p → unmarshal_event p = Some ev.
Proof.
  intros Hev. unfold marshal_event. destruct (format_rfc3339 _ _) as [created|] eqn:Ef; [|done]. intros Hp. apply (inj Some) in Hp as <-.
  assert (nesting (event_json created ev) <= maxNestingDepth) as Hn by (unfold event_json; by case_bool_decide).
  unfold unmarshal_event. rewrite parse_print by eauto using event_json_wf, format_plain.
  by apply store_event; [|apply (parse_format_rfc3339 _ _ _ Ef)].
Qed.

(** A checksum is hexadecimal, so that the database holds it. *)
Lemma hex_pg s : all_chars is_hex s = true → pg_text s = true.
Proof.
  intros Hs. unfold pg_text, utf8_valid, no_nul. induction s as [|c s IH]; [done|].
  cbn in Hs. apply andb_true_iff in Hs as [Hc Hs]. specialize (IH Hs).
  revert Hc IH. all_bytes c; intros H; try discriminate H; done.
Qed.

Lemma Checksum_pg text : pg_text (Checksum text) = true.
Proof. apply hex_pg. by destruct (Checksum_shape_aux text). Qed.

(** Whatever is read is an event that can be written. *)
Lemma unmarshal_ok raw ev : unmarshal_event raw = Some ev → event_ok ev.
Proof.
  unfold unmarshal_event. intros (v & _ & Hv)%bind_Some. revert Hv. apply into_struct_keeps; [by split_and!|].
  intros n u [id text sum at_ producer] y (Hi & Ht & Hs & Hp). cbn [ev_ID ev_Text ev_Checksum ev_Producer] in *. unfold set_event_field.
  repeat case_bool_decide; intros (x & Hx & [= <-])%bind_Some; split_and!; cbn; eauto using into_string_valid.
  destruct u; simplify_eq/=; [done|]. destruct (ParseInt text0) as [z [e|]] eqn:E; simplify_eq/=. 
  pose proof (ParseInt_range text0) as Hr. by rewrite E in Hr.
Qed.


(** An event in Moscow time, with characters that need escapes. *)
Definition ex_json_event : MessageCreated :=
  mkMessageCreated 5 "<Привет> & пока" (Checksum "t") 1700000000123000000 "otus-app".

