(* ===== verification/Retry.v ===== *)
(** * Retry: jittered backoff and bounded retries

    [internal/resilience/retry.go] and the retry counters of
    [internal/resilience/metrics.go]. *)

From stdpp Require Import base option list strings.
From Stdlib Require Import ZArith Lia.
From S2P Require Import Prelude.
Local Open Scope Z_scope.

(** ** Delays *)

(** The doubling loop of [Jitter].  Each iteration doubles a delay of at least
    one nanosecond that stays below a 64-bit limit, so 64 units of fuel cover
    every run ([jitter_loop_spec]). *)
Fixpoint jitter_loop (fuel : nat) (n attempt delay limit : Z) : Z :=
  match fuel with
  | O => delay
  | S fuel' =>
      if (n <? attempt) && (delay <? limit) then
        if limit `quot` 2 <? delay then limit
        else jitter_loop fuel' (wrap64 (n + 1)) attempt (wrap64 (delay * 2)) limit
      else delay
  end.

(** The delay [Jitter] randomises. *)
Definition jitter_delay (attempt base limit : Z) : Z :=
  let base := Z.max base 1 in
  let limit := Z.max limit base in
  jitter_loop 64 1 attempt base limit.

#[global] Arguments jitter_delay : simpl never.
#[global] Arguments wrap64 : simpl never.

Section Retry.
Context `{Runtime W}.

(** [rand.Int64N]: panics unless its argument is positive. *)
Definition Int64N (n : Z) : GoM W Z :=
  if n <=? 0 then panic else lift_state (draw n).

Definition Jitter (attempt base limit : Z) : GoM W Z :=
  let delay := jitter_delay attempt base limit in
  let half := delay `quot` 2 in
  r ← Int64N (wrap64 (delay - half));
  mret (wrap64 (half + r)).

Definition Backoff (attempt : Z) : GoM W Z := Jitter attempt Second (30 * Second).

Definition Wait (c : ctx) (delay : Z) : GoM W bool :=
  fired ← lift_state (select_timer c delay);
  if (fired : bool) then gets (λ w, bool_decide (ctx_err c w = None)) else mret false.

(** ** Metrics *)

Definition Retried (dependency operation : string) : GoM W unit :=
  modify (emit (MInc "otus_retry_attempts_total" [dependency; operation])).

Definition Exhausted (dependency operation : string) : GoM W unit :=
  modify (emit (MInc "otus_retry_exhausted_total" [dependency; operation])).

End Retry.

(** ** Policy *)

Record Policy := mkPolicy { p_Attempts : Z; p_Base : Z; p_Max : Z }.

Section PolicyDo.
Context `{Runtime W}.
Variables (p : Policy) (c : ctx) (dependency operation : string).
Variable retryable : error → bool.
Variable call : GoM W (option error).

(** The loop of [Policy.Do] from attempt number [attempt]; running out of
    fuel is [None], which [Do_total] excludes. *)
Fixpoint Do_loop (fuel : nat) (attempt : Z) : GoM W (option error) :=
  match fuel with
  | O => panic
  | S fuel' =>
      done ← gets (ctx_err c);
      match done with
      | Some err => mret (Some err)
      | None =>
          _ ← (if 1 <? attempt then Retried dependency operation else mret ());
          err ← call;
          match err with
          | None => mret None
          | Some e =>
              if negb (retryable e) then mret (Some e) else
              done ← gets (ctx_err c);
              match done with
              | Some err => mret (Some err)
              | None =>
                  if Z.max (p_Attempts p) 1 <=? attempt then
                    _ ← Exhausted dependency operation;
                    mret (Some e)
                  else
                    d ← Jitter attempt (p_Base p) (p_Max p);
                    ok ← Wait c d;
                    if (ok : bool) then Do_loop fuel' (attempt + 1)
                    else gets (ctx_err c)
              end
          end
      end
  end.

Definition Policy_Do : GoM W (option error) := Do_loop (Z.to_nat (Z.max (p_Attempts p) 1)) 1.

End PolicyDo.

(** A call that also counts its invocations in an extra component. *)
Definition counted {W} (call : GoM W (option error)) : GoM (W * Z) (option error) := λ wn,
  match call wn.1 with
  | Some (r, w') => Some (r, (w', wn.2 + 1))
  | None => None
  end.

(** Waiting and drawing respect every frame. *)
Lemma Jitter_frame `{Runtime W} (R : W → W → Prop) `{!Frame R} attempt base limit w w' d :
  Jitter attempt base limit w = Some (d, w') → R w w'.
Proof.
  unfold Jitter. generalize (jitter_delay attempt base limit). intros delay.
  unfold Int64N. destruct (_ <=? 0); [done|]. rewrite gom_lift_bind. cbn.
  intros [= _ <-]. apply frame_draw.
Qed.

Lemma Wait_frame `{Runtime W} (R : W → W → Prop) `{!Frame R} c d w w' b :
  Wait c d w = Some (b, w') → R w w'.
Proof.
  unfold Wait. rewrite gom_lift_bind. pose proof (frame_select c d w).
  destruct (select_timer c d w) as [[] w1]; unfold gets, mret, gom_ret; cbn in *; by intros [= _ <-].
Qed.

Lemma Retried_frame `{Runtime W} (R : W → W → Prop) `{!Frame R} (b : bool) dep op w w' u :
  (if b then Retried dep op else mret ()) w = Some (u, w') → R w w'.
Proof.
  destruct b; unfold Retried, modify, mret, gom_ret; intros [= _ <-]; [apply frame_emit|apply frame_refl].
Qed.

(** ** Reference definition of the delay *)

Definition jitter_ref (attempt base limit : Z) : Z :=
  Z.min limit (base * 2 ^ Z.max 0 (attempt - 1)).

(** ** Lemmas *)

Lemma jitter_loop_spec fuel n attempt delay limit :
  1 <= n → attempt <= max_int64 → 1 <= delay <= limit → limit <= max_int64 →
  limit < delay * 2 ^ Z.of_nat fuel →
  jitter_loop fuel n attempt delay limit = Z.min limit (delay * 2 ^ Z.max 0 (attempt - n)).
Proof.
  revert n delay. induction fuel as [|fuel IH]; intros n delay Hn Ha Hd Hl Hf; [cbn in Hf; lia|].
  cbn [jitter_loop]. rewrite Z.quot_div_nonneg by lia.
  pose proof (Z.div_mod limit 2 ltac:(lia)) as Hdm.
  pose proof (Z.mod_pos_bound limit 2 ltac:(lia)) as Hmb.
  destruct (Z.ltb_spec n attempt) as [Hlt|Hge]; cbn [andb].
  - replace (Z.max 0 (attempt - n)) with (Z.succ (attempt - n - 1)) by lia.
    rewrite Z.pow_succ_r by lia.
    pose proof (Z.pow_pos_nonneg 2 (attempt - n - 1) ltac:(lia) ltac:(lia)) as Hp.
    destruct (Z.ltb_spec delay limit) as [Hdl|Hdl]; [|nia].
    destruct (Z.ltb_spec (limit / 2) delay) as [Hh|Hh]; [nia|].
    unfold max_int64 in *.
    rewrite !wrap64_id by (unfold in_int64, min_int64, max_int64; lia).
    rewrite IH; unfold max_int64; [|lia..|].
    + replace (Z.max 0 (attempt - (n + 1))) with (attempt - n - 1) by lia. f_equal. lia.
    + rewrite Nat2Z.inj_succ, Z.pow_succ_r in Hf by lia. lia.
  - replace (Z.max 0 (attempt - n)) with 0 by lia. lia.
Qed.

Lemma jitter_delay_ref attempt base limit :
  attempt <= max_int64 → base <= max_int64 → limit <= max_int64 →
  jitter_delay attempt base limit =
    jitter_ref attempt (Z.max base 1) (Z.max limit (Z.max base 1)).
Proof.
  unfold jitter_delay, jitter_ref, max_int64. intros Ha Hb Hl.
  apply jitter_loop_spec; unfold max_int64; [lia..|].
  change (2 ^ Z.of_nat 64) with 18446744073709551616. lia.
Qed.

Lemma jitter_ref_range attempt base limit :
  1 <= base <= limit → base <= jitter_ref attempt base limit <= limit.
Proof.
  unfold jitter_ref. intros Hb.
  pose proof (Z.pow_pos_nonneg 2 (Z.max 0 (attempt - 1)) ltac:(lia) ltac:(lia)). nia.
Qed.

Lemma jitter_ref_mono a b base limit :
  0 <= base → a <= b → jitter_ref a base limit <= jitter_ref b base limit.
Proof.
  unfold jitter_ref. intros Hb Hab.
  pose proof (Z.pow_le_mono_r 2 (Z.max 0 (a - 1)) (Z.max 0 (b - 1)) ltac:(lia) ltac:(lia)). nia.
Qed.

Section Laws.
Context `{RuntimeLaws W}.

Lemma Jitter_run attempt base limit (w : W) :
  attempt <= max_int64 → base <= max_int64 → limit <= max_int64 →
  ∃ r w', Jitter attempt base limit w = Some (r, w') ∧
    jitter_delay attempt base limit / 2 <= r < jitter_delay attempt base limit.
Proof.
  intros Ha Hb Hl. pose proof (jitter_delay_ref _ _ _ Ha Hb Hl) as Hd.
  pose proof (jitter_ref_range attempt (Z.max base 1) (Z.max limit (Z.max base 1)) ltac:(lia)) as Hr.
  rewrite <- Hd in Hr. unfold Jitter.
  generalize dependent (jitter_delay attempt base limit). intros delay Hd Hr. unfold max_int64 in *.
  rewrite Z.quot_div_nonneg by lia.
  pose proof (Z.div_mod delay 2 ltac:(lia)) as Hdm.
  pose proof (Z.mod_pos_bound delay 2 ltac:(lia)) as Hmb.
  rewrite wrap64_id by (unfold in_int64, min_int64, max_int64; lia).
  unfold Int64N. replace (delay - delay / 2 <=? 0) with false by lia.
  pose proof (draw_range (delay - delay / 2) w ltac:(lia)) as Hdr.
  unfold mbind, gom_bind, lift_state, mret, gom_ret.
  destruct (draw (delay - delay / 2) w) as [z w']. cbn [fst] in Hdr.
  rewrite wrap64_id by (unfold in_int64, min_int64, max_int64; lia).
  eexists _, _. split; [done|]. lia.
Qed.

Lemma Wait_total c d (w : W) : ∃ b w', Wait c d w = Some (b, w') ∧ (b = true ↔ ctx_err c w' = None).
Proof.
  unfold Wait, mbind, gom_bind, lift_state.
  pose proof (select_done c d w) as Hs.
  destruct (select_timer c d w) as [[] w']; cbn in *.
  - eexists _, _. split; [done|]. by rewrite bool_decide_eq_true.
  - eexists _, _. split; [done|]. naive_solver.
Qed.
End Laws.

Lemma counted_Some {W} (call : GoM W (option error)) wn r wn' :
  counted call wn = Some (r, wn') ↔ call wn.1 = Some (r, wn'.1) ∧ wn'.2 = wn.2 + 1.
Proof.
  unfold counted. destruct wn as [w n], wn' as [w' n']. cbn.
  destruct (call w) as [[r' w'']|]; naive_solver.
Qed.

(** ** Properties of the delay *)

(** The doubling loop computes the capped exponential delay
    [min(limit, base * 2^(attempt-1))] exactly, for every 64-bit argument and
    without overflow, after [base] is raised to one nanosecond and [limit] to
    [base]. *)
Theorem jitter_delay_exponential (attempt base limit : Z) :
  in_int64 attempt → in_int64 base → in_int64 limit →
  jitter_delay attempt base limit =
    jitter_ref attempt (Z.max base 1) (Z.max limit (Z.max base 1)) ∧
  1 <= jitter_delay attempt base limit <= max_int64.
Proof.
  unfold in_int64. intros Ha Hb Hl. rewrite jitter_delay_ref by lia.
  split; [done|].
  pose proof (jitter_ref_range attempt (Z.max base 1) (Z.max limit (Z.max base 1)) ltac:(lia)).
  unfold max_int64 in *. lia.
Qed.

Lemma jitter_delay_exponential_witness :
  jitter_delay 6 (50 * Millisecond) Second = Second ∧
  1 <= jitter_delay 6 (50 * Millisecond) Second <= max_int64.
Proof.
  apply (jitter_delay_exponential 6 (50 * Millisecond) Second);
    unfold in_int64, Millisecond, Second, min_int64, max_int64; lia.
Defined.

(** [Backoff] never panics and its delay lies between half a second and
    thirty seconds, whatever the attempt number. *)
Theorem Backoff_bounds `{RuntimeLaws W} (attempt : Z) (w : W) :
  in_int64 attempt →
  ∃ d w', Backoff attempt w = Some (d, w') ∧ 500 * Millisecond <= d < 30 * Second.
Proof.
  intros Ha. unfold Backoff.
  assert (Second <= max_int64 ∧ 30 * Second <= max_int64) as [Hs Hl]
    by (unfold Second, max_int64; lia).
  destruct (Jitter_run attempt Second (30 * Second) w) as (d & w' & Hrun & Hd);
    [unfold in_int64 in Ha; lia..|].
  exists d, w'. split; [done|].
  rewrite jitter_delay_ref in Hd by (unfold in_int64 in Ha; lia).
  pose proof (jitter_ref_range attempt (Z.max Second 1) (Z.max (30 * Second) (Z.max Second 1))
    ltac:(lia)) as Hr.
  pose proof (Z.div_le_mono Second (jitter_ref attempt (Z.max Second 1)
    (Z.max (30 * Second) (Z.max Second 1))) 2 ltac:(lia)) as Hdiv.
  unfold Second, Millisecond in *. change (1000000000 / 2) with 500000000 in Hdiv. lia.
Qed.

Lemma Backoff_bounds_witness :
  ∃ d w', Backoff 1000 sim0 = Some (d, w') ∧ 500 * Millisecond <= d < 30 * Second.
Proof. apply (Backoff_bounds 1000 sim0). unfold in_int64, min_int64, max_int64. lia. Defined.

(** ** Properties of [Policy.Do] *)

Section DoFacts.
Context `{RuntimeLaws W}.
Variables (p : Policy) (c : ctx) (dependency operation : string).
Variable retryable : error → bool.
Variable call : GoM W (option error).
Hypothesis policy_ok : in_int64 (p_Attempts p) ∧ p_Base p <= max_int64 ∧ p_Max p <= max_int64.

Lemma Do_loop_total fuel attempt (w : W) :
  (∀ w1, is_Some (call w1)) → 1 <= attempt →
  Z.max (p_Attempts p) 1 < attempt + Z.of_nat fuel →
  attempt <= Z.max (p_Attempts p) 1 →
  is_Some (Do_loop p c dependency operation retryable call fuel attempt w).
Proof.
  intros Hcall. destruct policy_ok as (Ha & Hb & Hm). unfold in_int64, max_int64 in *.
  revert attempt w. induction fuel as [|fuel IH]; intros attempt w H1 Hf Hle; [lia|].
  cbn [Do_loop]. rewrite gom_gets_bind.
  destruct (ctx_err c w) as [e|]; [by eexists|].
  assert (∃ w1, (if 1 <? attempt then Retried dependency operation else mret ()) w = Some ((), w1))
    as [w1 Hw1] by (destruct (1 <? attempt); by eexists).
  rewrite (gom_bind_run _ _ _ _ _ Hw1).
  destruct (Hcall w1) as [[r w2] Hw2]. rewrite (gom_bind_run _ _ _ _ _ Hw2).
  destruct r as [e|]; [|by eexists].
  destruct (negb (retryable e)); [by eexists|]. rewrite gom_gets_bind.
  destruct (ctx_err c w2) as [e'|]; [by eexists|].
  destruct (Z.leb_spec (Z.max (p_Attempts p) 1) attempt) as [|Hlt]; [by eexists|].
  destruct (Jitter_run attempt (p_Base p) (p_Max p) w2) as (d & w3 & Hj & _);
    [unfold max_int64; lia..|].
  rewrite (gom_bind_run _ _ _ _ _ Hj).
  destruct (Wait_total c d w3) as (b & w4 & Hw & _).
  rewrite (gom_bind_run _ _ _ _ _ Hw). destruct b; [|by eexists].
  apply IH; lia.
Qed.

End DoFacts.

(** *** A proof rule for the loop

    [I a] holds before attempt number [a], [Post] of the result; both are
    insensitive to the framed runtime steps. *)
Section DoRule.
Context `{RuntimeLaws W}.
Variables (p : Policy) (c : ctx) (dependency operation : string).
Variable retryable : error → bool.
Variable call : GoM W (option error).
Variable R : W → W → Prop.
Context `{!Frame R}.
Variable I : Z → W → Prop.
Variable Post : option error → W → Prop.
Hypothesis I_frame : ∀ a w w', I a w → R w w' → I a w'.
Hypothesis Post_emit : ∀ e m w, Post (Some e) w → Post (Some e) (emit m w).
Hypothesis I_done : ∀ a w e, I a w → ctx_err c w = Some e → Post (Some e) w.
Hypothesis I_call : ∀ a w r w', 1 <= a <= Z.max (p_Attempts p) 1 → I a w → call w = Some (r, w') →
  match r with
  | None => Post None w'
  | Some e => if retryable e
              then I (a + 1) w' ∧ (Z.max (p_Attempts p) 1 <= a → Post (Some e) w')
              else Post (Some e) w'
  end.

Lemma Do_loop_rule fuel attempt w r w' :
  1 <= attempt <= Z.max (p_Attempts p) 1 → I attempt w →
  Do_loop p c dependency operation retryable call fuel attempt w = Some (r, w') → Post r w'.
Proof.
  revert attempt w. induction fuel as [|fuel IH]; intros attempt w Ha HI Hrun; [done|].
  cbn [Do_loop] in Hrun. rewrite gom_gets_bind in Hrun.
  destruct (ctx_err c w) as [e|] eqn:Ectx; [gom_inv; eauto|].
  apply gom_bind_Some in Hrun as (u & w1 & Hret & Hrun). apply (Retried_frame R) in Hret.
  apply gom_bind_Some in Hrun as (err & w2 & Hcall & Hrun).
  apply (I_call attempt) in Hcall; [|done|by eapply I_frame].
  destruct err as [e|]; [|by gom_inv].
  destruct (retryable e); cbn [negb] in Hrun; [|by gom_inv]. destruct Hcall as [HI2 Hexh].
  rewrite gom_gets_bind in Hrun. destruct (ctx_err c w2) as [e'|] eqn:E; [gom_inv; eauto|].
  destruct (Z.leb_spec (Z.max (p_Attempts p) 1) attempt) as [Hle|Hgt].
  { apply gom_bind_Some in Hrun as ([] & w3 & Hex & Hrun). unfold Exhausted in Hex. gom_inv.
    by apply Post_emit, Hexh. }
  apply gom_bind_Some in Hrun as (d & w3 & Hj & Hrun). apply (Jitter_frame R) in Hj.
  apply gom_bind_Some in Hrun as (b & w4 & Hw & Hrun). pose proof (Wait_frame R _ _ _ _ _ Hw) as Hr4.
  assert (I (attempt + 1) w4) as HI4 by (eapply I_frame; [by eapply I_frame|done]).
  destruct b; [eapply IH; [|done..]; lia|]. unfold gets in Hrun. injection Hrun as <- <-.
  destruct (Wait_total c d w3) as (b & w5 & Hw' & Hb). rewrite Hw in Hw'. injection Hw' as <- <-.
  destruct (ctx_err c w4) as [e'|] eqn:E'; [eauto|naive_solver].
Qed.

End DoRule.

(** The number of calls made, and where the returned error comes from. *)
Lemma Do_loop_budget `{RuntimeLaws W} p c dependency operation retryable
    (call : GoM W (option error)) fuel (w w' : W) n r :
  Do_loop p c dependency operation retryable (counted call) fuel 1 (w, 0) = Some (r, (w', n)) →
  0 <= n <= Z.max (p_Attempts p) 1 ∧
  match r with
  | None => ∃ w1, call w1 = Some (None, w')
  | Some e => ctx_err c w' = Some e ∨
              ∃ w1 w2, call w1 = Some (Some e, w2) ∧
                (retryable e = false ∨ n = Z.max (p_Attempts p) 1)
  end.
Proof.
  intros Hrun.
  pose proof (Do_loop_rule p c dependency operation retryable (counted call) same_snd
    (λ a wn, wn.2 = a - 1 ∧ 1 <= a <= Z.max (p_Attempts p) 1 + 1)
    (λ r wn, 0 <= wn.2 <= Z.max (p_Attempts p) 1 ∧
      match r with
      | None => ∃ w1, call w1 = Some (None, wn.1)
      | Some e => ctx_err c wn.1 = Some e ∨
                  ∃ w1 w2, call w1 = Some (Some e, w2) ∧
                    (retryable e = false ∨ wn.2 = Z.max (p_Attempts p) 1)
      end)) as Hrule.
  apply Hrule in Hrun; [done|..]; clear Hrule Hrun.
  - intros a [w1 n1] [w2 n2] [? ?] Hs. cbv [same_snd] in Hs. cbn in *. lia.
  - intros e m [w1 n1] [? Hp]. cbn in *. split; [done|]. by rewrite emit_ctx.
  - intros a [w1 n1] e [? ?] He. cbn in *. split; [lia|by left].
  - intros a [w1 n1] r1 [w2 n2] Ha [Hn Hle] [Hc Hn2]%counted_Some. cbn in *.
    destruct r1 as [e|]; [|split; [lia|eauto]].
    destruct (retryable e) eqn:Hre; [|split; [lia|right; eauto]].
    split; [lia|]. intros ?. split; [lia|]. right. exists w1, w2. split; [done|]. right. lia.
  - lia.
  - cbn. lia.
Qed.

(** A policy whose fields are 64-bit integers, as [int] and [time.Duration] are. *)
Definition policy_in_range (p : Policy) : Prop :=
  in_int64 (p_Attempts p) ∧ in_int64 (p_Base p) ∧ in_int64 (p_Max p).

(** C24: [Policy.Do] always returns, makes at most [max(Attempts, 1)] calls, and
    its result is explained: nil only when the last call returned nil,
    otherwise the context's error or the error of a call that was not
    retryable or exhausted the budget. *)
Theorem Policy_Do_bounded `{RuntimeLaws W} (p : Policy) (c : ctx) (dependency operation : string)
    (retryable : error → bool) (call : GoM W (option error)) (w : W) :
  policy_in_range p → (∀ w1, is_Some (call w1)) →
  ∃ r w' n, Policy_Do p c dependency operation retryable (counted call) (w, 0) = Some (r, (w', n)) ∧
    0 <= n <= Z.max (p_Attempts p) 1 ∧
    match r with
    | None => ∃ w1, call w1 = Some (None, w')
    | Some e => ctx_err c w' = Some e ∨
                ∃ w1 w2, call w1 = Some (Some e, w2) ∧
                  (retryable e = false ∨ n = Z.max (p_Attempts p) 1)
    end.
Proof.
  intros (Ha & Hb & Hm) Hcall. unfold Policy_Do.
  assert (in_int64 (p_Attempts p) ∧ p_Base p <= max_int64 ∧ p_Max p <= max_int64) as Hp
    by (unfold in_int64 in *; lia).
  destruct (Do_loop_total p c dependency operation retryable (counted call) Hp
    (Z.to_nat (Z.max (p_Attempts p) 1)) 1 (w, 0)) as [[r [w' n]] Hrun]; [|lia..|].
  { intros [w1 n1]. unfold counted. destruct (Hcall w1) as [[? ?] E]. cbn. rewrite E. by eexists. }
  exists r, w', n. split; [done|].
  by apply Do_loop_budget in Hrun.
Qed.

Lemma Policy_Do_bounded_witness :
  let p := mkPolicy 3 (100 * Millisecond) (2 * Second) in
  let call : GoM sim (option error) := mret (Some ErrTemporaryHTTP) in
  ∃ r w' n, Policy_Do p Background "elasticsearch" "http" (λ _, true) (counted call) (sim0, 0) =
      Some (r, (w', n)) ∧ 0 <= n <= 3 ∧
    match r with
    | None => ∃ w1, call w1 = Some (None, w')
    | Some e => ctx_err Background w' = Some e ∨
                ∃ w1 w2, call w1 = Some (Some e, w2) ∧ (true = false ∨ n = 3)
    end.
Proof.
  apply (Policy_Do_bounded (mkPolicy 3 (100 * Millisecond) (2 * Second)) Background
    "elasticsearch" "http" (λ _, true) (mret (Some ErrTemporaryHTTP)) sim0).
  - split_and!; unfold in_int64, min_int64, max_int64, Millisecond, Second; cbn; lia.
  - intros w1. by eexists.
Defined.

(** Three attempts against a dependency that always fails, run in the
    simulated world. *)
Example Policy_Do_three_calls :
  (λ r, (r.1, r.2.2)) <$>
    Policy_Do (mkPolicy 3 (100 * Millisecond) (2 * Second)) Background "elasticsearch" "http"
      (λ _, true) (counted (mret (Some ErrTemporaryHTTP))) (sim0, 0)
  = Some (Some ErrTemporaryHTTP, 3).
Proof. vm_compute. reflexivity. Qed.
