(* ===== verification/Breaker.v ===== *)
(** * Breaker: the circuit breaker

    [internal/resilience/breaker.go].  The breaker is shared by concurrent
    callers; [Breaker_admit] and [complete] run under its mutex, so each is one atomic
    action on the world [W * Breaker], and the guarded call in between may
    change the breaker as well (other callers run during it). *)

From stdpp Require Import base option list strings relations.
From Stdlib Require Import ZArith Lia.
From S2P Require Import Prelude Retry.
Local Open Scope Z_scope.

(** ** State *)

Inductive state := closed | open | halfOpen.

#[export] Instance state_eq_dec : EqDecision state.
Proof. solve_decision. Defined.

(** [state.String] *)
Definition state_String (s : state) : string :=
  match s with closed => "closed" | open => "open" | halfOpen => "half_open" end.

(** The constant's value, as the state gauge shows it. *)
Definition state_val (s : state) : Z :=
  match s with closed => 0 | open => 1 | halfOpen => 2 end.

Record Breaker := mkBreaker {
  dependency : string;
  st : state;
  failures : Z;
  generation : Z;
  probe : bool;
  until : Z
}.

Definition with_st (s : state) (b : Breaker) : Breaker :=
  mkBreaker (dependency b) s (failures b) (generation b) (probe b) (until b).
Definition with_failures (n : Z) (b : Breaker) : Breaker :=
  mkBreaker (dependency b) (st b) n (generation b) (probe b) (until b).
Definition with_generation (g : Z) (b : Breaker) : Breaker :=
  mkBreaker (dependency b) (st b) (failures b) g (probe b) (until b).
Definition with_probe (p : bool) (b : Breaker) : Breaker :=
  mkBreaker (dependency b) (st b) (failures b) (generation b) p (until b).
Definition with_until (t : Z) (b : Breaker) : Breaker :=
  mkBreaker (dependency b) (st b) (failures b) (generation b) (probe b) t.

(** [NewBreaker]: the zero value but for its name; [zero] stands for
    [time.Time{}]. *)
Definition new_breaker (name : string) (zero : Z) : Breaker :=
  mkBreaker name closed 0 0 false zero.

(** ** Operations *)

Section Operations.
Context `{Runtime W}.

Definition get_b : GoM (W * Breaker) Breaker := gets snd.
Definition upd_b (f : Breaker → Breaker) : GoM (W * Breaker) unit :=
  modify (λ wb, (wb.1, f wb.2)).
Definition emit_b (f : Breaker → metric) : GoM (W * Breaker) unit :=
  modify (λ wb, (emit (f wb.2) wb.1, wb.2)).

Definition NewBreaker (name : string) (zero : Z) (w : W) : W * Breaker :=
  (emit (MSet "otus_circuit_breaker_state" [name] 0) w, new_breaker name zero).

Definition transition (next : state) : GoM (W * Breaker) unit :=
  _ ← emit_b (λ b, MInc "otus_circuit_breaker_transitions_total"
                     [dependency b; state_String (st b); state_String next]);
  _ ← upd_b (with_st next);
  _ ← upd_b (λ b, with_generation (wrapu64 (generation b + 1)) b);
  emit_b (λ b, MSet "otus_circuit_breaker_state" [dependency b] (state_val next)).

(** The second half of [Breaker_admit]: the half-open check and the result. *)
Definition admit_half_open : GoM (W * Breaker) (Z * bool) :=
  b ← get_b;
  if bool_decide (st b = halfOpen) then
    if probe b then mret (0, false)
    else _ ← upd_b (with_probe true); mret (generation b, true)
  else mret (generation b, true).

Definition Breaker_admit : GoM (W * Breaker) (Z * bool) :=
  b ← get_b;
  if bool_decide (st b = open) then
    t ← gets now;
    if t <? until b then mret (0, false)
    else _ ← transition halfOpen; admit_half_open
  else admit_half_open.

Definition complete (gen : Z) (err : option error) : GoM (W * Breaker) unit :=
  b ← get_b;
  if negb (gen =? generation b) then mret ()
  else
    _ ← upd_b (with_probe false);
    if is_err err ErrCanceled then mret ()
    else match err with
    | None =>
        _ ← upd_b (with_failures 0);
        if bool_decide (st b = halfOpen) then transition closed else mret ()
    | Some _ =>
        _ ← upd_b (λ b, with_failures (wrap64 (failures b + 1)) b);
        b ← get_b;
        if bool_decide (st b = halfOpen) || (3 <=? failures b) then
          t ← gets now;
          d ← Jitter 1 (10 * Second) (10 * Second);
          _ ← upd_b (with_until (t + d));
          _ ← transition open;
          emit_b (λ b, MInc "otus_circuit_breaker_trips_total" [dependency b])
        else mret ()
    end.

Definition Breaker_Do (c : ctx) (call : GoM (W * Breaker) (option error))
    : GoM (W * Breaker) (option error) :=
  done ← gets (ctx_err c);
  match done with
  | Some err => mret (Some err)
  | None =>
      ga ← Breaker_admit;
      if negb ga.2 then
        _ ← emit_b (λ b, MInc "otus_circuit_breaker_calls_total" [dependency b; "rejected"]);
        mret (Some ErrOpen)
      else
        err ← call;
        let result := if is_err err ErrCanceled then "canceled"
                      else match err with Some _ => "error" | None => "success" end in
        _ ← emit_b (λ b, MInc "otus_circuit_breaker_calls_total" [dependency b; result]);
        _ ← complete ga.1 err;
        mret err
  end.

(** ** Interleavings

    A configuration is the world and the generations held by the calls in
    flight.  Callers are admitted or rejected, finish with any result, and the
    rest of the world moves without touching the breaker. *)
Inductive breaker_step : (W * Breaker) * list Z → (W * Breaker) * list Z → Prop :=
| step_admit wb g wb' fl :
    Breaker_admit wb = Some ((g, true), wb') → breaker_step (wb, fl) (wb', g :: fl)
| step_reject wb g wb' fl :
    Breaker_admit wb = Some ((g, false), wb') → breaker_step (wb, fl) (wb', fl)
| step_complete wb g err wb' l1 l2 :
    complete g err wb = Some ((), wb') → breaker_step (wb, l1 ++ g :: l2) (wb', l1 ++ l2)
| step_world w w' b fl : breaker_step ((w, b), fl) ((w', b), fl).

End Operations.

(** ** Specification of tripping

    The results of calls that are not cancellations, in order of completion. *)
Inductive outcome := Success | Failure | Cancelled.

#[export] Instance outcome_eq_dec : EqDecision outcome.
Proof. solve_decision. Defined.

Definition outcome_of (err : option error) : outcome :=
  if is_err err ErrCanceled then Cancelled
  else match err with None => Success | Some _ => Failure end.

(** Three failures in a row, cancellations ignored. *)
Definition three_in_a_row (os : list outcome) : Prop :=
  ∃ l1 l2, filter (λ o, o ≠ Cancelled) os = l1 ++ [Failure; Failure; Failure] ++ l2.

(** ** Pure summaries of the operations *)

Definition to_state (next : state) (b : Breaker) : Breaker :=
  with_generation (wrapu64 (generation b + 1)) (with_st next b).

Definition admit_half_open_fn (b : Breaker) : (Z * bool) * Breaker :=
  if bool_decide (st b = halfOpen) then
    if probe b then ((0, false), b) else ((generation b, true), with_probe true b)
  else ((generation b, true), b).

Definition admit_fn (t : Z) (b : Breaker) : (Z * bool) * Breaker :=
  if bool_decide (st b = open) then
    if t <? until b then ((0, false), b) else admit_half_open_fn (to_state halfOpen b)
  else admit_half_open_fn b.

Definition complete_fn (gen : Z) (o : outcome) (deadline : Z) (b : Breaker) : Breaker :=
  if negb (gen =? generation b) then b
  else match o with
  | Cancelled => with_probe false b
  | Success =>
      let b := with_failures 0 (with_probe false b) in
      if bool_decide (st b = halfOpen) then to_state closed b else b
  | Failure =>
      let b := with_failures (wrap64 (failures b + 1)) (with_probe false b) in
      if bool_decide (st b = halfOpen) || (3 <=? failures b)
      then to_state open (with_until deadline b) else b
  end.

Lemma transition_run `{Runtime W} next (w : W) b :
  ∃ w', transition next (w, b) = Some ((), (w', to_state next b)).
Proof. by eexists. Qed.

Lemma admit_half_open_run `{Runtime W} (w : W) b :
  admit_half_open (w, b) = Some ((admit_half_open_fn b).1, (w, (admit_half_open_fn b).2)).
Proof.
  unfold admit_half_open, admit_half_open_fn, get_b. rewrite gom_gets_bind. cbn [snd].
  case_bool_decide; [|done]. by destruct (probe b).
Qed.

Lemma admit_run `{Runtime W} (w : W) b :
  ∃ w', Breaker_admit (w, b) = Some ((admit_fn (now w) b).1, (w', (admit_fn (now w) b).2)).
Proof.
  unfold Breaker_admit, admit_fn, get_b. rewrite gom_gets_bind. cbn [snd].
  case_bool_decide; [|rewrite admit_half_open_run; eauto].
  rewrite gom_gets_bind. cbn [now runtime_pair fst].
  destruct (now w <? until b); [by eexists|].
  destruct (transition_run halfOpen w b) as [w' Ht].
  rewrite (gom_bind_run _ _ _ _ _ Ht), admit_half_open_run. eauto.
Qed.

Lemma complete_run `{RuntimeLaws W} gen err (w : W) b :
  ∃ w' d, complete gen err (w, b) =
      Some ((), (w', complete_fn gen (outcome_of err) (now w + d) b)) ∧
    5 * Second <= d < 10 * Second.
Proof.
  assert (∃ d0, 5 * Second <= d0 < 10 * Second) as [d0 Hd0] by (exists (5 * Second); unfold Second; lia).
  unfold complete, complete_fn, outcome_of, get_b. rewrite gom_gets_bind. cbn [snd].
  destruct (gen =? generation b); cbn [negb]; [|by exists w, d0].
  unfold upd_b. rewrite gom_modify_bind. cbn [fst snd].
  destruct (is_err err ErrCanceled); [by exists w, d0|].
  destruct err as [e|]; rewrite gom_modify_bind; cbn [fst snd].
  - rewrite gom_gets_bind. cbn [snd].
    destruct (bool_decide _ || _); [|by exists w, d0].
    rewrite gom_gets_bind. cbn [now runtime_pair fst].
    match goal with |- context [(w, ?bb)] =>
      destruct (Jitter_run 1 (10 * Second) (10 * Second) (w, bb)) as (d & [w1 b1] & Hj & Hd) end;
      [unfold max_int64, Second; lia..|].
    pose proof (Jitter_frame same_snd _ _ _ _ _ _ Hj) as Hb1. cbv [same_snd snd] in Hb1. subst b1.
    rewrite (gom_bind_run _ _ _ _ _ Hj), gom_modify_bind. cbn [fst snd].
    destruct (transition_run open w1 (with_until (now w + d)
      (with_failures (wrap64 (failures b + 1)) (with_probe false b)))) as [w2 Ht].
    rewrite (gom_bind_run _ _ _ _ _ Ht). eexists _, d. split; [done|].
    change (jitter_delay 1 (10 * Second) (10 * Second)) with (10 * Second) in Hd.
    change (10 * Second / 2) with (5 * Second) in Hd. done.
  - cbn [st with_failures with_probe].
    destruct (bool_decide (st b = halfOpen)); [|by exists w, d0].
    destruct (transition_run closed w (with_failures 0 (with_probe false b))) as [w2 Ht].
    rewrite Ht. by exists w2, d0.
Qed.

(** *** The operations respect frames of the rest of the world *)

Ltac frame_refl' := unfold on_first; cbn; apply frame_refl.

Lemma transition_frame `{Runtime W} (R : W → W → Prop) `{!Frame R} next wb wb' u :
  transition next wb = Some (u, wb') → on_first R wb wb'.
Proof.
  unfold transition, emit_b, upd_b, modify, mbind, gom_bind. intros [= _ <-].
  unfold on_first. cbn. eapply frame_trans; apply frame_emit.
Qed.

Lemma admit_frame `{Runtime W} (R : W → W → Prop) `{!Frame R} wb wb' ga :
  Breaker_admit wb = Some (ga, wb') → on_first R wb wb'.
Proof.
  assert (∀ wb wb' ga, admit_half_open wb = Some (ga, wb') → on_first R wb wb') as Hh.
  { intros [w b] [w' b'] ga'. rewrite admit_half_open_run. intros [= _ <- _]. frame_refl'. }
  unfold Breaker_admit, get_b. rewrite gom_gets_bind. case_bool_decide; [|apply Hh].
  rewrite gom_gets_bind. destruct (_ <? _); [intros [= _ <-]; frame_refl'|].
  intros (u & wb1 & Ht & Ha)%gom_bind_Some.
  eapply frame_trans; [by eapply transition_frame|by eapply Hh].
Qed.

Lemma complete_frame `{Runtime W} (R : W → W → Prop) `{!Frame R} gen err wb wb' u :
  complete gen err wb = Some (u, wb') → on_first R wb wb'.
Proof.
  unfold complete, get_b, upd_b. rewrite gom_gets_bind.
  destruct (negb _); [intros [= _ <-]; frame_refl'|].
  rewrite gom_modify_bind. destruct (is_err err ErrCanceled); [intros [= _ <-]; frame_refl'|].
  destruct err as [e|]; rewrite gom_modify_bind.
  - rewrite gom_gets_bind. destruct (bool_decide _ || _); [|intros [= _ <-]; frame_refl'].
    rewrite gom_gets_bind. intros (d & wb1 & Hj & Hrest)%gom_bind_Some.
    apply (Jitter_frame (on_first R)) in Hj. rewrite gom_modify_bind in Hrest.
    apply gom_bind_Some in Hrest as (u1 & wb2 & Ht & Hrest). apply (transition_frame R) in Ht.
    unfold emit_b, modify in Hrest. injection Hrest as _ <-.
    unfold on_first in *. cbn in *.
    eapply frame_trans; [done|]. eapply frame_trans; [done|]. apply frame_emit.
  - destruct (bool_decide _); [|intros [= _ <-]; frame_refl'].
    intros Ht. by apply (transition_frame R) in Ht.
Qed.

(** A finished [Breaker.Do] returned the context's error, was rejected, or
    passes on the error of the guarded call. *)
Lemma Breaker_Do_cases `{Runtime W} (R : W → W → Prop) `{!Frame R} c call wb r wb' :
  Breaker_Do c call wb = Some (r, wb') →
  (∃ e, r = Some e ∧ ctx_err c wb = Some e ∧ wb' = wb) ∨
  (r = Some ErrOpen ∧ on_first R wb wb') ∨
  (∃ wb1 wb2, on_first R wb wb1 ∧ call wb1 = Some (r, wb2) ∧ on_first R wb2 wb').
Proof.
  unfold Breaker_Do. rewrite gom_gets_bind.
  destruct (ctx_err c wb) as [e|] eqn:E; [intros [= <- <-]; left; eauto|].
  intros ([g ok] & wb1 & Ha & Hrest)%gom_bind_Some. apply (admit_frame R) in Ha.
  right. cbn [fst snd] in Hrest. destruct ok; cbn [negb] in Hrest.
  - right. apply gom_bind_Some in Hrest as (err & wb2 & Hc & Hrest).
    unfold emit_b in Hrest. rewrite gom_modify_bind in Hrest.
    apply gom_bind_Some in Hrest as (u & wb3 & Hco & Hrest). apply (complete_frame R) in Hco.
    injection Hrest as <- <-. exists wb1, wb2. split_and!; [done..|].
    unfold on_first in *. cbn in *. eapply frame_trans; [apply frame_emit|done].
  - left. unfold emit_b in Hrest. rewrite gom_modify_bind in Hrest. injection Hrest as <- <-.
    split; [done|]. unfold on_first in *. cbn. eapply frame_trans; [done|apply frame_emit].
Qed.

Lemma Breaker_Do_total `{RuntimeLaws W} c (call : GoM (W * Breaker) (option error)) wb :
  (∀ wb1, is_Some (call wb1)) → is_Some (Breaker_Do c call wb).
Proof.
  intros Hcall. unfold Breaker_Do. rewrite gom_gets_bind. destruct (ctx_err c wb); [by eexists|].
  destruct wb as [w b]. destruct (admit_run w b) as [w1 Ha]. rewrite (gom_bind_run _ _ _ _ _ Ha).
  destruct (negb _); [by eexists|].
  destruct (Hcall (w1, (admit_fn (now w) b).2)) as [[r [w2 b2]] Hr].
  rewrite (gom_bind_run _ _ _ _ _ Hr). unfold emit_b. rewrite gom_modify_bind. cbn [fst snd].
  match goal with |- context [complete ?g ?e] =>
    destruct (complete_run g e (emit (MInc "otus_circuit_breaker_calls_total"
      [dependency b2; if is_err r ErrCanceled then "canceled"
                      else match r with Some _ => "error" | None => "success" end]) w2) b2)
      as (w3 & d & Hc & _) end.
  rewrite (gom_bind_run _ _ _ _ _ Hc). by eexists.
Qed.

(** A successful call through a closed breaker. *)
Lemma Breaker_Do_success `{Runtime W} c (call : GoM (W * Breaker) (option error)) w b w1 :
  st b = closed → ctx_err c w = None → call (w, b) = Some (None, (w1, b)) →
  Breaker_Do c call (w, b) =
    Some (None, (emit (MInc "otus_circuit_breaker_calls_total" [dependency b; "success"]) w1,
                 with_failures 0 (with_probe false b))).
Proof.
  intros Hst Hc Hcall. unfold Breaker_Do. rewrite gom_gets_bind. cbn [ctx_err runtime_pair fst]. rewrite Hc.
  assert (Breaker_admit (w, b) = Some ((generation b, true), (w, b))) as Ha.
  { unfold Breaker_admit, get_b. rewrite gom_gets_bind. cbn [snd]. rewrite Hst, bool_decide_false by done.
    rewrite admit_half_open_run. unfold admit_half_open_fn. by rewrite Hst, bool_decide_false by done. }
  rewrite (gom_bind_run _ _ _ _ _ Ha). cbn [negb fst snd].
  rewrite (gom_bind_run _ _ _ _ _ Hcall). unfold emit_b. rewrite gom_modify_bind. cbn [fst snd].
  unfold complete, get_b, upd_b, mbind, gom_bind, gets, modify. cbn. rewrite Z.eqb_refl. cbn.
  by rewrite Hst, bool_decide_false by done.
Qed.

(** ** The invariant of all interleavings *)

(** How many calls in flight hold generation [g]. *)
Definition holders (g : Z) (fl : list Z) : nat := length (filter (λ x, x = g) fl).

#[global] Arguments holders : simpl never.
#[global] Arguments wrapu64 : simpl never.

Definition breaker_inv (b : Breaker) (fl : list Z) : Prop :=
  Forall (λ g, 0 <= g <= generation b) fl ∧
  match st b with
  | closed => probe b = false ∧ 0 <= failures b < 3
  | open => probe b = false ∧ holders (generation b) fl = 0%nat
  | halfOpen => holders (generation b) fl = if probe b then 1%nat else 0%nat
  end.

Lemma holders_cons g x fl : holders g (x :: fl) = ((if decide (x = g) then 1 else 0) + holders g fl)%nat.
Proof. unfold holders. rewrite filter_cons. by case_decide. Qed.

Lemma holders_middle g x l1 l2 :
  holders g (l1 ++ x :: l2) = ((if decide (x = g) then 1 else 0) + holders g (l1 ++ l2))%nat.
Proof.
  induction l1 as [|y l1 IH]; cbn [app]; rewrite ?holders_cons; [done|]. rewrite IH. lia.
Qed.

Lemma holders_fresh g fl : Forall (λ x, 0 <= x <= g) fl → holders (g + 1) fl = 0%nat.
Proof.
  induction 1 as [|x fl Hx Hfl IH]; [done|]. rewrite holders_cons, IH. case_decide; lia.
Qed.

Lemma Forall_drop_middle {A} (P : A → Prop) l1 x l2 : Forall P (l1 ++ x :: l2) → Forall P (l1 ++ l2).
Proof. rewrite !Forall_app, Forall_cons. naive_solver. Qed.

Lemma Forall_le_mono g g' (fl : list Z) :
  g <= g' → Forall (λ x, 0 <= x <= g) fl → Forall (λ x, 0 <= x <= g') fl.
Proof. intros Hg Hfl. eapply Forall_impl; [done|]. cbn. lia. Qed.

Lemma admit_fn_inv t b fl :
  0 <= generation b < 18446744073709551615 → breaker_inv b fl →
  let '((g, ok), b') := admit_fn t b in
  breaker_inv b' (if ok then g :: fl else fl) ∧ generation b <= generation b' <= generation b + 1.
Proof.
  intros Hg [Hfl Hst]. unfold admit_fn, admit_half_open_fn, breaker_inv in *.
  destruct b as [dep s f g p u]; cbn in *.
  destruct s; cbn in *; repeat (case_bool_decide; try done); cbn.
  - split_and!; [constructor; [lia|done]|naive_solver|lia..].
  - destruct Hst as [-> Hh]. destruct (t <? u); cbn; [split_and!; [done..|lia|lia]|].
    rewrite wrapu64_id by lia. split_and!; [|rewrite holders_cons, holders_fresh|lia..].
    + constructor; [lia|]. eapply Forall_le_mono; [|done]. lia.
    + by rewrite decide_True.
    + done.
  - destruct p; cbn; [split_and!; [done..|lia|lia]|].
    rewrite holders_cons, Hst, decide_True by done.
    split_and!; [constructor; [lia|done]|done|lia..].
Qed.

Lemma complete_fn_inv gen o t b l1 l2 :
  0 <= generation b < 18446744073709551615 → breaker_inv b (l1 ++ gen :: l2) →
  let b' := complete_fn gen o t b in
  breaker_inv b' (l1 ++ l2) ∧ generation b <= generation b' <= generation b + 1.
Proof.
  intros Hg [Hfl Hst]. pose proof (Forall_drop_middle _ _ _ _ Hfl) as Hfl'.
  pose proof (holders_fresh _ _ Hfl') as Hfresh.
  assert (Forall (λ x, 0 <= x <= generation b + 1) (l1 ++ l2)) as Hfl1
    by (eapply Forall_le_mono; [|done]; lia).
  unfold complete_fn, breaker_inv in *. rewrite holders_middle in Hst.
  destruct b as [dep s f g p u]; cbn in *.
  destruct (Z.eqb_spec gen g) as [->|Hne]; cbn [negb].
  2: { rewrite decide_False in Hst by done. by split_and!; [..|cbn; lia|cbn; lia]. }
  rewrite decide_True in Hst by done.
  destruct s; [..|destruct p; [|lia]]; cbn in *; repeat (case_bool_decide; try done); cbn.
  - destruct Hst as [-> Hf]. destruct o; cbn; [split_and!; [done..|lia|lia|lia|lia]| |].
    + rewrite wrap64_id by (unfold in_int64, min_int64, max_int64; lia).
      destruct (Z.leb_spec 3 (f + 1)); cbn; [rewrite wrapu64_id by lia|]; split_and!; done || lia.
    + split_and!; done || lia.
  - lia.
  - assert (holders g (l1 ++ l2) = 0%nat) as Hh by lia.
    destruct o; cbn; rewrite ?wrapu64_id by lia; split_and!; done || lia.
Qed.

Lemma breaker_step_inv `{RuntimeLaws W} (s s' : (W * Breaker) * list Z) :
  0 <= generation s.1.2 < 18446744073709551615 → breaker_inv s.1.2 s.2 → breaker_step s s' →
  breaker_inv s'.1.2 s'.2 ∧ generation s.1.2 <= generation s'.1.2 <= generation s.1.2 + 1.
Proof.
  intros Hg Hinv Hstep. destruct Hstep as [wb g wb' fl Ha|wb g wb' fl Ha|wb g err wb' l1 l2 Hc|];
    [..|by split; [|cbn; lia]]; cbn in *; destruct wb as [w b].
  - pose proof (admit_fn_inv (now w) b fl Hg Hinv) as Hi. destruct (admit_run w b) as [w1 Hr].
    rewrite Hr in Ha. destruct (admit_fn (now w) b) as [[g' ok] b']. cbn in *. by simplify_eq/=.
  - pose proof (admit_fn_inv (now w) b fl Hg Hinv) as Hi. destruct (admit_run w b) as [w1 Hr].
    rewrite Hr in Ha. destruct (admit_fn (now w) b) as [[g' ok] b']. cbn in *. by simplify_eq/=.
  - destruct (complete_run g err w b) as (w1 & d & Hr & _). rewrite Hr in Hc. simplify_eq/=.
    by apply complete_fn_inv.
Qed.

Lemma breaker_reachable `{RuntimeLaws W} n (s0 s : (W * Breaker) * list Z) :
  nsteps breaker_step n s0 s → Z.of_nat n < 18446744073709551616 →
  generation s0.1.2 = 0 → breaker_inv s0.1.2 s0.2 →
  breaker_inv s.1.2 s.2 ∧ 0 <= generation s.1.2 <= Z.of_nat n.
Proof.
  revert s. induction n as [|n IH]; intros s Hs Hn Hg0 Hinv0.
  { inversion Hs; subst. split; [done|]. lia. }
  apply nsteps_inv_r in Hs as (s1 & Hs1 & Hstep).
  destruct (IH s1) as [Hi Hgen]; [done|lia|done|done|].
  destruct (breaker_step_inv s1 s) as [Hi' Hg']; [lia|done|done|]. split; [done|]. lia.
Qed.

(** ** Properties *)

(** C22: in every interleaving of concurrent callers starting from a new
    breaker (fewer than 2^64 steps, the range of the generation counter), at
    most one call admitted by the half-open breaker is in flight, a closed
    breaker has counted fewer than three failures, and no call in flight
    belongs to the current generation of an open one. *)
Theorem breaker_single_probe `{RuntimeLaws W} (n : nat) (name : string) (zero : Z) (w0 : W)
    (wb : W * Breaker) (fl : list Z) :
  nsteps breaker_step n (NewBreaker name zero w0, []) (wb, fl) →
  Z.of_nat n < 18446744073709551616 →
  match st wb.2 with
  | halfOpen => (holders (generation wb.2) fl <= 1)%nat ∧
                (probe wb.2 = true ↔ holders (generation wb.2) fl = 1%nat)
  | closed => probe wb.2 = false ∧ 0 <= failures wb.2 < 3
  | open => holders (generation wb.2) fl = 0%nat
  end.
Proof.
  intros Hs Hn. apply breaker_reachable in Hs as [[_ Hinv] _]; [|done|done|].
  - cbn in Hinv. destruct (st wb.2); [done|naive_solver|].
    rewrite Hinv. destruct (probe wb.2); split; lia || done.
  - cbn. split; [constructor|]. cbn. split; [done|lia].
Qed.

Lemma breaker_single_probe_witness :
  let b0 := new_breaker "redis" 0 in
  nsteps breaker_step 1 (NewBreaker "redis" 0 sim0, [])
    (emit (MSet "otus_circuit_breaker_state" ["redis"] 0) sim0, b0, [0]) ∧
  probe b0 = false ∧ 0 <= failures b0 < 3.
Proof.
  assert (nsteps breaker_step 1 (NewBreaker "redis" 0 sim0, [])
    (emit (MSet "otus_circuit_breaker_state" ["redis"] 0) sim0, new_breaker "redis" 0, [0])) as Hs
    by (eapply nsteps_l; [by apply step_admit|apply nsteps_O]).
  split; [exact Hs|].
  exact (breaker_single_probe 1 "redis" 0 sim0 _ [0] Hs eq_refl).
Defined.

(** The answer of a call from an older generation leaves the breaker and
    the world exactly as they were. *)
Theorem complete_stale `{Runtime W} (gen : Z) (err : option error) (w : W) (b : Breaker) :
  gen ≠ generation b → complete gen err (w, b) = Some ((), (w, b)).
Proof.
  intros Hne. unfold complete, get_b. rewrite gom_gets_bind. cbn [snd].
  by rewrite (proj2 (Z.eqb_neq _ _) Hne).
Qed.

Lemma complete_stale_witness :
  complete 0 None (sim0, mkBreaker "redis" open 3 1 false 100) =
    Some ((), (sim0, mkBreaker "redis" open 3 1 false 100)).
Proof. by apply complete_stale. Defined.

(** Completing a list of calls one after the other. *)
Fixpoint complete_all `{Runtime W} (gen : Z) (errs : list (option error)) : GoM (W * Breaker) unit :=
  match errs with
  | [] => mret ()
  | e :: es => _ ← complete gen e; complete_all gen es
  end.

Definition tri (l : list outcome) : Prop := ∃ l1 l2, l = l1 ++ [Failure; Failure; Failure] ++ l2.

Lemma tri_short l : (length l < 3)%nat → ¬ tri l.
Proof. intros Hl (l1 & l2 & ->). rewrite !length_app in Hl. cbn in Hl. lia. Qed.

Lemma tri_app_r l1 l2 : tri l2 → tri (l1 ++ l2).
Proof. intros (a & b & ->). exists (l1 ++ a), b. by rewrite <- app_assoc. Qed.

Lemma tri_success k l : (k < 3)%nat → tri (replicate k Failure ++ Success :: l) ↔ tri l.
Proof.
  intros Hk. split; [|intros Ht; change (Success :: l) with ([Success] ++ l); by do 2 apply tri_app_r].
  intros (l1 & l2 & Heq). destruct k as [|[|[|]]]; [..|lia]; cbn in Heq;
    repeat (destruct l1 as [|? l1]; cbn in Heq; [by simplify_eq|]; injection Heq as _ Heq);
    exists l1, l2; done.
Qed.

Lemma complete_all_open `{RuntimeLaws W} gen errs (w : W) b :
  generation b ≠ gen → complete_all gen errs (w, b) = Some ((), (w, b)).
Proof.
  intros Hne. induction errs as [|e es IH]; [done|]. cbn [complete_all].
  by rewrite (gom_bind_run _ _ _ _ _ (complete_stale gen e w b (not_eq_sym Hne))).
Qed.

Lemma wrapu64_succ_ne g : 0 <= g < 18446744073709551616 → wrapu64 (g + 1) ≠ g.
Proof.
  intros Hg. unfold wrapu64.
  destruct (Z.eq_dec g 18446744073709551615) as [->|]; [done|]. rewrite Z.mod_small by lia. lia.
Qed.

Lemma complete_all_closed `{RuntimeLaws W} errs (w : W) b k :
  st b = closed → probe b = false → failures b = Z.of_nat k → (k < 3)%nat →
  0 <= generation b < 18446744073709551616 →
  ∃ w' b', complete_all (generation b) errs (w, b) = Some ((), (w', b')) ∧
    (st b' = open ↔ tri (replicate k Failure ++ filter (λ o, o ≠ Cancelled) (outcome_of <$> errs))) ∧
    (st b' = open ∨ st b' = closed).
Proof.
  revert w b k. induction errs as [|e es IH]; intros w b k Hst Hp Hf Hk Hg.
  { exists w, b. rewrite Hst. split_and!; [done| |by right]. split; [done|].
    intros []%tri_short. cbn. rewrite app_nil_r, length_replicate. done. }
  cbn [complete_all]. destruct (complete_run (generation b) e w b) as (w1 & d & Hc & _).
  rewrite (gom_bind_run _ _ _ _ _ Hc). clear Hc. unfold complete_fn. rewrite Z.eqb_refl. cbn [negb].
  cbn [fmap list_fmap]. rewrite filter_cons.
  destruct (outcome_of e) eqn:Ho; cbn [st with_failures with_probe failures];
    rewrite ?Hst, ?bool_decide_false by done; cbn [orb].
  - rewrite decide_True by done. setoid_rewrite (tri_success k _ Hk).
    apply (IH w1 (with_failures 0 (with_probe false b)) 0%nat); done || lia.
  - rewrite decide_True by done. rewrite Hf, wrap64_id by (unfold in_int64, min_int64, max_int64; lia).
    destruct (Z.leb_spec 3 (Z.of_nat k + 1)).
    + assert (k = 2)%nat as -> by lia.
      rewrite complete_all_open by (cbn; by apply wrapu64_succ_ne).
      eexists _, _. split; [done|]. split; [|by left]. split; [intros _|done]. exists []. cbn. eauto.
    + assert (∀ l, replicate k Failure ++ Failure :: l = replicate (S k) Failure ++ l) as Hrep.
      { intros l. change (Failure :: l) with ([Failure] ++ l).
        by rewrite app_assoc, <- replicate_cons_app. }
      rewrite Hrep. apply (IH w1 (with_failures (Z.of_nat k + 1) (with_probe false b)) (S k)); done || (cbn; lia).
  - rewrite decide_False by naive_solver. apply (IH w1 (with_probe false b) k); done.
Qed.

(** A closed breaker that has seen no failure trips exactly when the
    completed calls contain three failures in a row (cancelled calls ignored),
    and stays closed otherwise. *)
Theorem breaker_trips_on_three `{RuntimeLaws W} (errs : list (option error)) (w : W) (b : Breaker) :
  st b = closed → probe b = false → failures b = 0 → 0 <= generation b < 18446744073709551616 →
  ∃ w' b', complete_all (generation b) errs (w, b) = Some ((), (w', b')) ∧
    (st b' = open ↔ three_in_a_row (outcome_of <$> errs)) ∧
    (st b' = open ∨ st b' = closed).
Proof. intros Hst Hp Hf Hg. apply (complete_all_closed errs w b 0%nat); done || lia. Qed.

Lemma breaker_trips_on_three_witness :
  let errs := [Some ErrEOF; None; Some ErrEOF; Some ErrCanceled; Some ErrEOF; Some ErrEOF] in
  ∃ w' b', complete_all 0 errs (sim0, new_breaker "redis" 0) = Some ((), (w', b')) ∧
    (st b' = open ↔ three_in_a_row (outcome_of <$> errs)) ∧ (st b' = open ∨ st b' = closed).
Proof. apply (breaker_trips_on_three _ sim0 (new_breaker "redis" 0)); done || (cbn; lia). Defined.

(** A failure that opens the breaker keeps it open for five to ten seconds:
    until then every call is refused with [ErrOpen], and the guarded call does
    not run. *)
Theorem open_breaker_rejects `{RuntimeLaws W} (gen : Z) (err : option error) (w w' : W) (b b' : Breaker) :
  st b ≠ open → complete gen err (w, b) = Some ((), (w', b')) → st b' = open →
  (now w + 5 * Second <= until b' < now w + 10 * Second) ∧
  ∀ c (call : GoM (W * Breaker) (option error)) w1,
    now w1 < until b' → ctx_err c w1 = None →
    Breaker_Do c call (w1, b') =
      Some (Some ErrOpen,
            (emit (MInc "otus_circuit_breaker_calls_total" [dependency b'; "rejected"]) w1, b')).
Proof.
  intros Hst Hc Hopen. destruct (complete_run gen err w b) as (w2 & d & Hr & Hd).
  rewrite Hr in Hc. simplify_eq.
  assert (until (complete_fn gen (outcome_of err) (now w + d) b) = now w + d) as Hu.
  { revert Hopen. unfold complete_fn. destruct (negb _); [done|].
    destruct (outcome_of err); cbn; [destruct (bool_decide _); done| |done].
    destruct (bool_decide _ || _); done. }
  split; [lia|]. intros c call w1 Hw1 Hctx. unfold Breaker_Do. rewrite gom_gets_bind.
  cbn [ctx_err runtime_pair fst]. rewrite Hctx.
  unfold Breaker_admit, get_b.
  rewrite (gom_bind_run _ _ (w1, complete_fn gen (outcome_of err) (now w + d) b) (0, false)
    (w1, complete_fn gen (outcome_of err) (now w + d) b)); [done|].
  rewrite gom_gets_bind. cbn [snd]. rewrite bool_decide_true by done.
  rewrite gom_gets_bind. cbn [now runtime_pair fst]. rewrite Hu.
  by replace (now w1 <? now w + d) with true by lia.
Qed.

Lemma open_breaker_rejects_witness :
  let b' := complete_fn 0 Failure (0 + 5000000007) (mkBreaker "redis" closed 2 0 false 0) in
  (now sim0 + 5 * Second <= until b' < now sim0 + 10 * Second) ∧
  Breaker_Do Background (mret None) (sim_advance (4 * Second) sim0, b') =
    Some (Some ErrOpen,
      (emit (MInc "otus_circuit_breaker_calls_total" ["redis"; "rejected"]) (sim_advance (4 * Second) sim0), b')).
Proof.
  destruct (complete 0 (Some ErrEOF) (sim0, mkBreaker "redis" closed 2 0 false 0)) as [[[] [w' b']]|] eqn:E.
  - pose proof E as E'. vm_compute in E'. injection E' as _ <-.
    destruct (open_breaker_rejects 0 (Some ErrEOF) sim0 w' (mkBreaker "redis" closed 2 0 false 0) _ ltac:(done) E)
      as [Hu Hrej]; [done|].
    split; [exact Hu|]. apply Hrej; [vm_compute; reflexivity|reflexivity].
  - exfalso. vm_compute in E. discriminate E.
Defined.
