(* ===== verification/HttpTransport.v ===== *)
(** * HttpTransport: retries and circuit breaking around an HTTP transport

    [internal/resilience/http.go]: [HTTPTransport.RoundTrip] over an arbitrary
    base [http.RoundTripper].  The variables captured by the closures
    ([response], [attempt]) are a record of locals in the world; it also logs
    which response bodies were obtained and closed. *)

From stdpp Require Import base option list sets strings.
From Stdlib Require Import ZArith Lia.
From S2P Require Import Prelude Retry Breaker.
Local Open Scope Z_scope.

(** ** Requests and responses *)

(** [req.Body]: nil, [http.NoBody] or a stream. *)
Inductive body := BodyNil | NoBody | BodyStream.

#[export] Instance body_eq_dec : EqDecision body.
Proof. solve_decision. Defined.

Record request := mkRequest {
  Method : string;
  Body : body;
  HasGetBody : bool
}.

(** [resp_body] identifies the body stream of the response. *)
Record response := mkResponse { resp_body : Z; StatusCode : Z }.

#[export] Instance response_eq_dec : EqDecision response.
Proof. solve_decision. Defined.

(** The closure's variables, the bodies obtained from the base transport, the
    bodies closed, and whether the request's own body was closed here. *)
Record rt := mkRt {
  rt_response : option response;
  rt_attempt : Z;
  rt_opened : list Z;
  rt_closed : list Z;
  rt_req_closed : bool
}.

Definition rt0 : rt := mkRt None 0 [] [] false.

Definition rt_close (r : response) (l : rt) : rt :=
  mkRt (rt_response l) (rt_attempt l) (rt_opened l) (resp_body r :: rt_closed l) (rt_req_closed l).
Definition rt_incr (l : rt) : rt :=
  mkRt (rt_response l) (rt_attempt l + 1) (rt_opened l) (rt_closed l) (rt_req_closed l).
Definition rt_no_response (l : rt) : rt :=
  mkRt None (rt_attempt l) (rt_opened l) (rt_closed l) (rt_req_closed l).
Definition rt_got (r : response) (l : rt) : rt :=
  mkRt (Some r) (rt_attempt l) (resp_body r :: rt_opened l) (rt_closed l) (rt_req_closed l).
Definition rt_close_req (l : rt) : rt :=
  mkRt (rt_response l) (rt_attempt l) (rt_opened l) (rt_closed l) true.

(** [switch response.StatusCode] *)
Definition temporary_status (code : Z) : bool :=
  bool_decide (code ∈ [429; 500; 502; 503; 504]).

Definition safe_request (req : request) : bool :=
  bool_decide (Method req ∈ ["GET"; "HEAD"; "PUT"]) &&
  (bool_decide (Body req = BodyNil) || bool_decide (Body req = NoBody) || HasGetBody req).

Definition retryable_http (req : request) (err : error) : bool :=
  safe_request req &&
  (errors_is err ErrTemporaryHTTP || as_net_error err ||
   errors_is err ErrEOF || errors_is err ErrUnexpectedEOF).

(** The policy set by [NewHTTPTransport]. *)
Definition http_policy : Policy := mkPolicy 3 (100 * Millisecond) (2 * Second).

(** ** The transport *)

Section Transport.
Context `{Runtime W}.
(** [t.base.RoundTrip] and [req.GetBody]; other callers of the same transport
    may use its breaker meanwhile. *)
Variable base_RoundTrip : GoM (W * Breaker) (response + error).
Variable GetBody : GoM (W * Breaker) (option error).
Variables (c : ctx) (dep : string) (req : request).

Definition with_locals {A} (m : GoM (W * Breaker) A) : GoM ((W * rt) * Breaker) A := λ s,
  match m (s.1.1, s.2) with
  | Some (a, (w', b')) => Some (a, ((w', s.1.2), b'))
  | None => None
  end.

Definition get_l : GoM ((W * rt) * Breaker) rt := gets (λ s, s.1.2).
Definition upd_l (f : rt → rt) : GoM ((W * rt) * Breaker) unit :=
  modify (λ s, ((s.1.1, f s.1.2), s.2)).

(** Before a repeated attempt: drop the previous response and rewind the
    request body. *)
Definition rt_rewind : GoM ((W * rt) * Breaker) (option error) :=
  l ← get_l;
  if 0 <? rt_attempt l then
    _ ← (match rt_response l with Some r => upd_l (rt_close r) | None => mret () end);
    if HasGetBody req then with_locals GetBody else mret None
  else mret None.

(** The closure passed to [policy.Do]. *)
Definition rt_call : GoM ((W * rt) * Breaker) (option error) :=
  pre ← rt_rewind;
  match pre with
  | Some err => mret (Some err)
  | None =>
      _ ← upd_l rt_incr;
      res ← with_locals base_RoundTrip;
      match res with
      | inr err => _ ← upd_l rt_no_response; mret (Some err)
      | inl resp =>
          _ ← upd_l (rt_got resp);
          mret (if temporary_status (StatusCode resp) then Some ErrTemporaryHTTP else None)
      end
  end.

(** What [RoundTrip] does with the outcome of the breaker. *)
Definition rt_finish (err : option error) : GoM ((W * rt) * Breaker) (option response * option error) :=
  l ← get_l;
  if is_err err ErrTemporaryHTTP then mret (rt_response l, None)
  else match err with
  | Some e =>
      _ ← (match rt_response l with Some r => upd_l (rt_close r) | None => mret () end);
      _ ← (if (rt_attempt l =? 0) && negb (bool_decide (Body req = BodyNil))
           then upd_l rt_close_req else mret ());
      mret (None, Some e)
  | None => mret (rt_response l, None)
  end.

Definition RoundTrip : GoM ((W * rt) * Breaker) (option response * option error) :=
  err ← Breaker_Do c (Policy_Do http_policy c dep "http" (retryable_http req) rt_call);
  rt_finish err.

End Transport.

(** ** Resource discipline *)

(** Every body obtained was closed or is the current response's. *)
Definition no_leak (l : rt) : Prop :=
  ∀ id, id ∈ rt_opened l → id ∈ rt_closed l ∨ ∃ r, rt_response l = Some r ∧ resp_body r = id.

Definition all_closed (l : rt) : Prop := ∀ id, id ∈ rt_opened l → id ∈ rt_closed l.

(** Before attempt [a]. *)
Definition rt_before (safe : bool) (a : Z) (l : rt) : Prop :=
  no_leak l ∧ 0 <= rt_attempt l <= Z.min 3 (a - 1) ∧ (rt_attempt l = 0 → rt_response l = None) ∧
  (safe = false → a = 1) ∧ rt_req_closed l = false.

(** After the policy returned [r]. *)
Definition rt_after (safe : bool) (r : option error) (l : rt) : Prop :=
  no_leak l ∧ 0 <= rt_attempt l <= (if safe then 3 else 1) ∧
  (rt_attempt l = 0 → rt_response l = None) ∧ rt_req_closed l = false ∧
  match r with
  | None => rt_response l ≠ None
  | Some e => errors_is e ErrTemporaryHTTP = true → rt_response l ≠ None
  end.

Section TransportFacts.
Context `{RuntimeLaws W}.
Variable base_RoundTrip : GoM (W * Breaker) (response + error).
Variable GetBody : GoM (W * Breaker) (option error).
Variables (c : ctx) (dep : string) (req : request).

(** The sentinel [errTemporaryHTTP] is not exported: only this package can
    return it. *)
Hypothesis base_foreign : ∀ s e s', base_RoundTrip s = Some (inr e, s') → errors_is e ErrTemporaryHTTP = false.
Hypothesis GetBody_foreign : ∀ s e s', GetBody s = Some (Some e, s') → errors_is e ErrTemporaryHTTP = false.

Lemma with_locals_Some {A} (m : GoM (W * Breaker) A) s a s' :
  with_locals m s = Some (a, s') → s'.1.2 = s.1.2 ∧ ∃ wb wb', m wb = Some (a, wb').
Proof.
  unfold with_locals. destruct (m (s.1.1, s.2)) as [[a' [w' b']]|] eqn:E; [|done].
  intros [= -> <-]. eauto.
Qed.

Lemma ctx_not_temporary (w : W) e : ctx_err c w = Some e → errors_is e ErrTemporaryHTTP = false.
Proof. by intros [->| ->]%ctx_err_kind. Qed.

Lemma rt_rewind_spec s r s' :
  no_leak s.1.2 → 0 <= rt_attempt s.1.2 → (rt_attempt s.1.2 = 0 → rt_response s.1.2 = None) →
  rt_rewind GetBody req s = Some (r, s') →
  all_closed s'.1.2 ∧ rt_attempt s'.1.2 = rt_attempt s.1.2 ∧
  rt_response s'.1.2 = rt_response s.1.2 ∧ rt_req_closed s'.1.2 = rt_req_closed s.1.2 ∧
  (∀ e, r = Some e → errors_is e ErrTemporaryHTTP = false ∧ 0 < rt_attempt s.1.2).
Proof.
  intros Hl Ha H0' Hrun. unfold rt_rewind, get_l in Hrun. rewrite gom_gets_bind in Hrun.
  destruct (Z.ltb_spec 0 (rt_attempt s.1.2)) as [Hpos|Hz].
  - apply gom_bind_Some in Hrun as (u & s1 & Hu & Hrun).
    assert (all_closed s1.1.2 ∧ rt_attempt s1.1.2 = rt_attempt s.1.2 ∧
      rt_response s1.1.2 = rt_response s.1.2 ∧ rt_req_closed s1.1.2 = rt_req_closed s.1.2) as Hs1.
    { destruct (rt_response s.1.2) as [resp|] eqn:Er; unfold upd_l, modify, mret, gom_ret in Hu;
        simplify_eq/=; split_and!; try done; intros id Hid; cbn;
        destruct (Hl id Hid) as [?|(r0 & Hr0 & <-)]; [set_solver..|congruence]. }
    destruct (HasGetBody req).
    + apply with_locals_Some in Hrun as [-> (wb & wb' & Hg)]. split_and!; [naive_solver..|].
      intros e ->. eauto.
    + unfold mret, gom_ret in Hrun. simplify_eq. naive_solver.
  - unfold mret, gom_ret in Hrun. simplify_eq. split_and!; try done.
    intros id Hid. destruct (Hl id Hid) as [?|(r0 & Hr0 & _)]; [done|].
    rewrite H0' in Hr0 by lia. done.
Qed.

Lemma rt_call_spec a s r s' :
  1 <= a <= 3 → rt_before (safe_request req) a s.1.2 →
  rt_call base_RoundTrip GetBody req s = Some (r, s') →
  match r with
  | None => rt_after (safe_request req) None s'.1.2
  | Some e => if retryable_http req e
              then rt_before (safe_request req) (a + 1) s'.1.2 ∧
                   (3 <= a → rt_after (safe_request req) (Some e) s'.1.2)
              else rt_after (safe_request req) (Some e) s'.1.2
  end.
Proof.
  intros Ha (Hl & Hat & H0' & Hsafe & Hrc) Hrun. unfold rt_call in Hrun.
  apply gom_bind_Some in Hrun as (pre & s1 & Hpre & Hrun).
  apply rt_rewind_spec in Hpre as (Hc & Ha1 & Hr1 & Hq1 & Herr); [|done|lia|done].
  assert (∀ e l, rt_before (safe_request req) (a + 1) l ∨ safe_request req = false →
    rt_after (safe_request req) (Some e) l →
    if retryable_http req e
    then rt_before (safe_request req) (a + 1) l ∧ (3 <= a → rt_after (safe_request req) (Some e) l)
    else rt_after (safe_request req) (Some e) l) as Hcase.
  { intros e l Hb Haft. unfold retryable_http. destruct (safe_request req); [|done].
    destruct Hb; [|done]. cbn [andb]. by destruct (_ || _). }
  destruct pre as [err|].
  { unfold mret, gom_ret in Hrun. simplify_eq. destruct (Herr err eq_refl) as [Hf Hpos].
    apply Hcase; unfold rt_before, rt_after.
    - destruct (safe_request req) eqn:Hs; [left|by right].
      split_and!; [intros id Hid; left; by apply Hc|lia|lia| |done|congruence]. intros. lia.
    - split_and!; [intros id Hid; left; by apply Hc|lia| |lia|congruence|congruence].
      destruct (safe_request req); [lia|]. rewrite Hsafe in Hat by done. lia. }
  unfold upd_l in Hrun. rewrite gom_modify_bind in Hrun.
  apply gom_bind_Some in Hrun as (res & s2 & Hres & Hrun).
  apply with_locals_Some in Hres as [Hs2 (wb & wb' & Hb)]. cbn in Hs2.
  destruct res as [resp|err]; rewrite gom_modify_bind in Hrun;
    unfold mret, gom_ret in Hrun; injection Hrun as <- <-; cbn [fst snd]; rewrite Hs2.
  - assert (no_leak (rt_got resp (rt_incr s1.1.2))) as Hl'.
    { intros id Hid. cbn in *. apply elem_of_cons in Hid as [->|Hid]; [eauto|].
      left. by apply Hc. }
    assert (∀ r, rt_after (safe_request req) r (rt_got resp (rt_incr s1.1.2))) as Hafter.
    { intros r. unfold rt_after. cbn. split_and!; try done; try lia; try congruence; [|by destruct r].
      destruct (safe_request req); [lia|]. rewrite Hsafe in Hat by done. lia. }
    destruct (temporary_status (StatusCode resp)); [|apply Hafter].
    apply Hcase; [|apply Hafter]. destruct (safe_request req) eqn:Hs; [left|by right].
    unfold rt_before. cbn. split_and!; try done; try lia; congruence.
  - assert (no_leak (rt_no_response (rt_incr s1.1.2))) as Hl' by (intros id Hid; left; by apply Hc).
    apply Hcase; unfold rt_before, rt_after; cbn.
    + destruct (safe_request req) eqn:Hs; [left|by right]. split_and!; try done; try lia; congruence.
    + rewrite (base_foreign _ _ _ Hb). split_and!; try done; try lia; try congruence.
      destruct (safe_request req); [lia|]. rewrite Hsafe in Hat by done. lia.
Qed.

Lemma policy_run_spec s r s' :
  s.1.2 = rt0 →
  Policy_Do http_policy c dep "http" (retryable_http req) (rt_call base_RoundTrip GetBody req) s = Some (r, s') →
  rt_after (safe_request req) r s'.1.2.
Proof.
  intros Hs0 Hrun. unfold Policy_Do in Hrun.
  eapply (Do_loop_rule http_policy c dep "http" (retryable_http req) _ (on_first same_snd)
    (λ a s, rt_before (safe_request req) a s.1.2) (λ r s, rt_after (safe_request req) r s.1.2));
    [..|exact Hrun].
  - intros a s1 s2 Hb Hr. cbv [on_first same_snd] in Hr. by rewrite Hr.
  - intros e m s1. done.
  - intros a s1 e (? & ? & ? & Hsafe & ?) He. cbn in He. apply ctx_not_temporary in He.
    unfold rt_after. rewrite He. split_and!; try done; try lia.
    destruct (safe_request req); [lia|]. rewrite Hsafe in * by done. lia.
  - intros a s1 r1 s2 Ha Hb Hc. by eapply rt_call_spec.
  - cbn. lia.
  - rewrite Hs0. unfold rt_before, no_leak. cbn. split_and!; try done; try lia. set_solver.
Qed.

(** [RoundTrip] up to its last lines. *)
Lemma breaker_run_spec s r s' :
  s.1.2 = rt0 →
  Breaker_Do c (Policy_Do http_policy c dep "http" (retryable_http req)
    (rt_call base_RoundTrip GetBody req)) s = Some (r, s') →
  rt_after (safe_request req) r s'.1.2.
Proof.
  intros Hs0 Hrun.
  assert (∀ e, errors_is e ErrTemporaryHTTP = false → rt_after (safe_request req) (Some e) rt0) as H0'.
  { intros e He. unfold rt_after, no_leak. rewrite He. cbn.
    split_and!; try done; [set_solver|by destruct (safe_request req)]. }
  destruct (Breaker_Do_cases same_snd _ _ _ _ _ Hrun) as
    [(e & -> & He & ->)|[[-> Hr]|(s1 & s2 & Hr1 & Hc & Hr2)]].
  - rewrite Hs0. apply H0'. exact (ctx_not_temporary _ _ He).
  - cbv [on_first same_snd] in Hr. rewrite Hr, Hs0. by apply H0'.
  - cbv [on_first same_snd] in Hr1, Hr2. rewrite Hr2. eapply policy_run_spec; [|done]. by rewrite Hr1.
Qed.

Lemma RoundTrip_result w b res w' l b' :
  RoundTrip base_RoundTrip GetBody c dep req ((w, rt0), b) = Some (res, ((w', l), b')) →
  (∀ id, id ∈ rt_opened l → id ∈ rt_closed l ∨ ∃ r, res.1 = Some r ∧ resp_body r = id) ∧
  (res.2 = None ↔ res.1 ≠ None) ∧
  0 <= rt_attempt l <= (if safe_request req then 3 else 1) ∧
  (rt_attempt l = 0 → Body req ≠ BodyNil → rt_req_closed l = true).
Proof.
  intros (err & s1 & Hb & Hf)%gom_bind_Some. apply breaker_run_spec in Hb; [|done].
  destruct Hb as (Hl & Hat & H0' & Hq & Hr). unfold rt_finish, get_l in Hf.
  rewrite gom_gets_bind in Hf.
  destruct (is_err err ErrTemporaryHTTP) eqn:Htmp.
  { destruct err as [e|]; [|done]. specialize (Hr Htmp).
    unfold mret, gom_ret in Hf. simplify_eq/=.
    split_and!; [done|naive_solver|lia|lia|]. intros Hz. by rewrite (H0' Hz) in Hr. }
  destruct err as [e|].
  - apply gom_bind_Some in Hf as (u & s2 & Hu & Hf). apply gom_bind_Some in Hf as (u' & s3 & Hu' & Hf).
    assert (all_closed s2.1.2 ∧ rt_attempt s2.1.2 = rt_attempt s1.1.2) as [Hc2 Ha2].
    { destruct (rt_response s1.1.2) as [r|] eqn:E; unfold upd_l, modify, mret, gom_ret in Hu;
        simplify_eq/=; split; try done; intros id Hid; cbn;
        destruct (Hl id Hid) as [?|(r0 & ? & <-)]; [set_solver..|congruence]. }
    unfold mret, gom_ret in Hf. injection Hf as <- Hf. subst s3.
    destruct (Z.eqb_spec (rt_attempt s1.1.2) 0) as [Hz|Hnz]; cbn [andb] in Hu';
      [case_bool_decide as Hbd; cbn [negb] in Hu'|];
      unfold upd_l, modify, mret, gom_ret in Hu'; simplify_eq/=;
      split_and!; try done; try lia; intros id Hid; left; by apply Hc2.
  - unfold mret, gom_ret in Hf. simplify_eq/=.
    split_and!; [done|naive_solver|lia|lia|]. intros Hz. by rewrite (H0' Hz) in Hr.
Qed.

End TransportFacts.

Section Total.
Context `{RuntimeLaws W}.
Variable base_RoundTrip : GoM (W * Breaker) (response + error).
Variable GetBody : GoM (W * Breaker) (option error).
Variables (c : ctx) (dep : string) (req : request).
Hypothesis base_total : ∀ s, is_Some (base_RoundTrip s).
Hypothesis GetBody_total : ∀ s, is_Some (GetBody s).

Lemma with_locals_total {A} (m : GoM (W * Breaker) A) s :
  (∀ wb, is_Some (m wb)) → is_Some (with_locals m s).
Proof.
  intros Hm. unfold with_locals. destruct (Hm (s.1.1, s.2)) as [[a [w' b']] ->]. by eexists.
Qed.

Lemma rt_call_total s : is_Some (rt_call base_RoundTrip GetBody req s).
Proof.
  assert (is_Some (rt_rewind GetBody req s)) as [[pre s1] Hpre].
  { unfold rt_rewind, get_l. rewrite gom_gets_bind. destruct (0 <? _); [|by eexists].
    assert (∃ s1, match rt_response s.1.2 with Some r => upd_l (rt_close r) | None => mret () end s
      = Some ((), s1)) as [s1 Hs1] by (destruct (rt_response s.1.2); by eexists).
    rewrite (gom_bind_run _ _ _ _ _ Hs1). destruct (HasGetBody req); [|by eexists].
    by apply with_locals_total. }
  unfold rt_call. rewrite (gom_bind_run _ _ _ _ _ Hpre). destruct pre; [by eexists|].
  unfold upd_l. rewrite gom_modify_bind.
  destruct (with_locals_total base_RoundTrip (s1.1.1, rt_incr s1.1.2, s1.2) base_total)
    as [[res s2] Hres].
  rewrite (gom_bind_run _ _ _ _ _ Hres). destruct res; by eexists.
Qed.

Lemma RoundTrip_total s : is_Some (RoundTrip base_RoundTrip GetBody c dep req s).
Proof.
  unfold RoundTrip.
  destruct (Breaker_Do_total c (Policy_Do http_policy c dep "http" (retryable_http req)
    (rt_call base_RoundTrip GetBody req)) s) as [[err s1] Hb].
  { intros s1. unfold Policy_Do. apply Do_loop_total; cbn; [|apply rt_call_total|lia..].
    split_and!; unfold in_int64, min_int64, max_int64, Millisecond, Second; lia. }
  rewrite (gom_bind_run _ _ _ _ _ Hb). unfold rt_finish, get_l. rewrite gom_gets_bind.
  destruct (is_err err ErrTemporaryHTTP); [by eexists|]. destruct err as [e|]; [|by eexists].
  destruct (rt_response s1.1.2); unfold upd_l; rewrite ?gom_modify_bind, ?gom_ret_bind;
    destruct (_ && _); by eexists.
Qed.
End Total.

(** ** Property *)

(** C23: [RoundTrip] always returns exactly one of a response and an error; it
    calls the base transport at most three times, and at most once for a
    request that must not be repeated; every response body it obtained is
    closed unless it is the one returned; and it closes the request's body
    when the base transport was never called. *)
Theorem RoundTrip_correct `{RuntimeLaws W}
    (base_RoundTrip : GoM (W * Breaker) (response + error)) (GetBody : GoM (W * Breaker) (option error))
    (c : ctx) (dep : string) (req : request) (w : W) (b : Breaker) :
  (∀ s, is_Some (base_RoundTrip s)) → (∀ s, is_Some (GetBody s)) →
  (∀ s e s', base_RoundTrip s = Some (inr e, s') → errors_is e ErrTemporaryHTTP = false) →
  (∀ s e s', GetBody s = Some (Some e, s') → errors_is e ErrTemporaryHTTP = false) →
  ∃ res w' l b', RoundTrip base_RoundTrip GetBody c dep req ((w, rt0), b) = Some (res, ((w', l), b')) ∧
    (∀ id, id ∈ rt_opened l → id ∈ rt_closed l ∨ ∃ r, res.1 = Some r ∧ resp_body r = id) ∧
    (res.2 = None ↔ res.1 ≠ None) ∧
    0 <= rt_attempt l <= (if safe_request req then 3 else 1) ∧
    (rt_attempt l = 0 → Body req ≠ BodyNil → rt_req_closed l = true).
Proof.
  intros Hb Hg Hbf Hgf.
  destruct (RoundTrip_total base_RoundTrip GetBody c dep req Hb Hg (w, rt0, b))
    as [[res [[w' l] b']] Hrun].
  exists res, w', l, b'. split; [done|]. by eapply RoundTrip_result.
Qed.

(** A base transport that answers 503 to every request, with a new body each
    time, and bodies that rewind. *)
Definition demo_base : GoM ((sim * Z) * Breaker) (response + error) := λ s,
  Some (inl (mkResponse s.1.2 503), ((s.1.1, s.1.2 + 1), s.2)).

Lemma RoundTrip_correct_witness :
  let req := mkRequest "PUT" BodyStream true in
  ∃ res w' l b',
    RoundTrip demo_base (mret None) Background "elasticsearch" req ((sim0, 10, rt0), new_breaker "elasticsearch" 0)
      = Some (res, ((w', l), b')) ∧
    (∀ id, id ∈ rt_opened l → id ∈ rt_closed l ∨ ∃ r, res.1 = Some r ∧ resp_body r = id) ∧
    (res.2 = None ↔ res.1 ≠ None) ∧ 0 <= rt_attempt l <= 3 ∧
    (rt_attempt l = 0 → BodyStream ≠ BodyNil → rt_req_closed l = true).
Proof.
  apply (RoundTrip_correct demo_base (mret None) Background "elasticsearch"
    (mkRequest "PUT" BodyStream true) (sim0, 10) (new_breaker "elasticsearch" 0)).
  - intros s. by eexists.
  - intros s. by eexists.
  - intros s e s' [=].
  - intros s e s' [=].
Defined.

(** Three attempts for an idempotent request, one for a [POST]. *)
Example RoundTrip_put_retries :
  (λ r, (r.1, rt_attempt r.2.1.2, rt_closed r.2.1.2)) <$>
    RoundTrip demo_base (mret None) Background "elasticsearch" (mkRequest "PUT" BodyStream true)
      ((sim0, 10, rt0), new_breaker "elasticsearch" 0)
  = Some ((Some (mkResponse 12 503), None), 3, [11; 10]).
Proof. vm_compute. reflexivity. Qed.

Example RoundTrip_post_once :
  (λ r, (r.1, rt_attempt r.2.1.2)) <$>
    RoundTrip demo_base (mret None) Background "elasticsearch" (mkRequest "POST" BodyStream true)
      ((sim0, 10, rt0), new_breaker "elasticsearch" 0)
  = Some ((Some (mkResponse 10 503), None), 1).
Proof. vm_compute. reflexivity. Qed.
