(* ===== verification/Metered.v ===== *)
(** * Metered: the shared calls use the metrics as described

    Retries, the circuit breaker and the HTTP transport make only valid updates of
    the metrics, whatever the calls they guard do besides. *)

From stdpp Require Import base option list strings.
From Stdlib Require Import ZArith Lia.
From S2P Require Import Prelude Framed GoStrings Metrics Retry Breaker HttpTransport.
Local Open Scope Z_scope.

Section Retry.
Context `{Runtime W} (R : W → W → Prop) `{!Metered R}.

Lemma metered_Jitter attempt base limit : framed R (Jitter attempt base limit).
Proof. unfold Jitter, Int64N. framed_go. Qed.

Lemma metered_Backoff attempt : framed R (Backoff attempt).
Proof. apply metered_Jitter. Qed.

Lemma metered_Wait c d : framed R (Wait c d).
Proof. unfold Wait. framed_go. Qed.

Lemma metered_Retried dep op : framed R (Retried dep op).
Proof. unfold Retried. framed_go. Qed.

Lemma metered_Exhausted dep op : framed R (Exhausted dep op).
Proof. unfold Exhausted. framed_go. Qed.

#[local] Hint Resolve metered_Jitter metered_Wait metered_Retried metered_Exhausted : framed.

Lemma metered_Policy_Do p c dep op retryable call : framed R call → framed R (Policy_Do p c dep op retryable call).
Proof.
  intros Hcall. unfold Policy_Do. generalize (Z.to_nat (Z.max (p_Attempts p) 1)). generalize 1. intros attempt fuel. revert attempt.
  induction fuel as [|fuel IH]; intros attempt; cbn [Do_loop]; framed_go.
Qed.

End Retry.

#[export] Hint Resolve metered_Jitter metered_Backoff metered_Wait metered_Retried metered_Exhausted metered_Policy_Do : framed.

Section Breaker.
Context `{Runtime W} (R : W → W → Prop) `{!Metered R}.

Notation R2 := (on_first (L := Breaker) R).

Lemma metered_emit_b f : (∀ b, described (f b) = true) → framed R2 (emit_b f).
Proof. intros Hf. apply framed_modify. intros w. unfold on_first. cbn. by apply mt_emit. Qed.

Lemma metered_upd_b f : framed R2 (upd_b f).
Proof. apply framed_modify. intros w. unfold on_first. cbn. reflexivity. Qed.

Lemma metered_get_b : framed R2 get_b.
Proof. unfold get_b. framed_go. Qed.

#[local] Hint Extern 1 (framed _ (emit_b _)) => apply metered_emit_b; intros ?; reflexivity : framed.
#[local] Hint Resolve metered_upd_b metered_get_b : framed.

Lemma metered_transition next : framed R2 (transition next).
Proof. unfold transition. framed_go. Qed.
#[local] Hint Resolve metered_transition : framed.

Lemma metered_admit : framed R2 Breaker_admit.
Proof. unfold Breaker_admit, admit_half_open. framed_go. Qed.

Lemma metered_complete g err : framed R2 (complete g err).
Proof. unfold complete. framed_go. Qed.
#[local] Hint Resolve metered_admit metered_complete : framed.

Lemma metered_Breaker_Do c call : framed R2 call → framed R2 (Breaker_Do c call).
Proof. intros Hcall. unfold Breaker_Do. framed_go. Qed.

End Breaker.

#[export] Hint Resolve metered_Breaker_Do : framed.
