(* ===== verification/Storage.v ===== *)
(** * Storage: messages and the transactional outbox in PostgreSQL

    [internal/storage/postgres.go] and [internal/storage/outbox.go].  The
    tables are finite maps, each SQL statement of the source a function on
    them.  A transaction runs on a copy that is installed at commit; every
    statement can fail, and a commit or a single statement can also take effect
    while its answer is lost. *)

From stdpp Require Import base option list strings gmap sorting relations.
From Stdlib Require Import ZArith Lia.
From S2P Require Import Prelude GoStrings Sha256 Messaging EventJson.
Local Open Scope Z_scope.

(** ** Tables *)

(** A row of [messages]; [mr_hash] and [mr_key] are the columns [text_hash] and
    [idem_key]. *)
Record msg_row := mkRow {
  mr_id : Z;
  mr_text : string;
  mr_hash : string;
  mr_key : option string;
  mr_created : Z
}.

(** A row of [message_outbox]. *)
Record ob_row := mkOb {
  ob_message_id : Z;
  ob_target : string;
  ob_payload : string;
  ob_created : Z;
  ob_available : Z;
  ob_token : option string;
  ob_attempts : Z;
  ob_delivered : option Z
}.

#[export] Instance msg_row_eq_dec : EqDecision msg_row.
Proof. solve_decision. Defined.
#[export] Instance ob_row_eq_dec : EqDecision ob_row.
Proof. solve_decision. Defined.

(** The database: the sequence of [messages.id] (not transactional), the two
    tables by primary key. *)
Record db := mkDb {
  db_seq : Z;
  db_messages : gmap Z msg_row;
  db_outbox : gmap (Z * string) ob_row
}.

Definition db_empty : db := mkDb 0 ∅ ∅.

Definition with_seq (n : Z) (d : db) : db := mkDb n (db_messages d) (db_outbox d).
Definition with_messages (m : gmap Z msg_row) (d : db) : db := mkDb (db_seq d) m (db_outbox d).
Definition with_outbox (o : gmap (Z * string) ob_row) (d : db) : db :=
  mkDb (db_seq d) (db_messages d) o.

(** [CHECK (target IN ('kafka', 'rabbitmq', 'nats'))] *)
Definition target_allowed (t : string) : bool := bool_decide (t ∈ ["kafka"; "rabbitmq"; "nats"]).

(** What happens to a commit or to a statement outside a transaction. *)
Inductive exec_outcome :=
| Ran                   (* took effect, and the client knows *)
| NotRun (e : error)    (* no effect *)
| RanUnknown (e : error). (* took effect, but the client got an error *)

Definition took_effect (o : exec_outcome) : bool :=
  match o with Ran | RanUnknown _ => true | NotRun _ => false end.
Definition exec_error (o : exec_outcome) : option error :=
  match o with Ran => None | NotRun e | RanUnknown e => Some e end.

(** The environment of a transaction: [now()], which statement fails (numbered
    in order of execution, [BEGIN] is 0), and the fate of the commit.  A failure
    is one of the connection or the server; [pgx.ErrNoRows] is no failure but the
    answer of a query without rows, which the tables decide. *)
Record tx_env := mkTx {
  tx_now : Z;
  tx_stmt : nat → option error;
  tx_commit : exec_outcome
}.

(** The surroundings of the event's JSON: the local time zone and the JSONB column,
    which parses a text and gives back a text of the same object (or refuses it).
    Of the column the code needs only that the event read from it is the one
    written. *)
Class EventCodec := {
  codec_zone :: LocalZone;
  jsonb : string → option string;
  jsonb_keeps : ∀ ev p, event_storable ev → marshal_event ev = Some p →
    ∃ q, jsonb p = Some q ∧ unmarshal_event q = unmarshal_event p
}.

(** [json.Marshal] and [json.Unmarshal] on an event ([encode] and [decode] of
    [internal/broker/broker.go]). *)
Definition marshal `{EventCodec} (ev : MessageCreated) : option string := marshal_event ev.
Definition unmarshal (raw : string) : option MessageCreated := unmarshal_event raw.
#[global] Arguments marshal : simpl never.
#[global] Arguments unmarshal : simpl never.

(** ** [INSERT] and [SELECT] on messages *)

(** The row holding an idempotency key, if any. *)
Definition find_key (k : string) (ms : gmap Z msg_row) : option msg_row :=
  snd <$> head (filter (λ p : Z * msg_row, mr_key p.2 = Some k) (map_to_list ms)).

(** [NULLIF($3, '')] *)
Definition nullif_empty (s : string) : option string :=
  if bool_decide (s = "") then None else Some s.

(** The result of [INSERT ... ON CONFLICT (idem_key) DO NOTHING RETURNING ...]. *)
Inductive insert_result :=
| Inserted (r : msg_row)
| Conflict
| InsertError.

(** Parameters that are not text are refused.  The identifier is drawn from the
    sequence before the conflict is found, and stays drawn; past the end of BIGINT
    [nextval] is an error, and so is a duplicate primary key. *)
Definition insert_message (t : Z) (text hash : string) (key : option string) (d : db)
    : insert_result * db :=
  let id := db_seq d + 1 in
  if negb (pg_text text && pg_text hash && default true (pg_text <$> key)) then (InsertError, d)
  else if max_int64 <? id then (InsertError, d)
  else
    let d := with_seq id d in
    match key ≫= (λ k, find_key k (db_messages d)) with
    | Some _ => (Conflict, d)
    | None =>
        if bool_decide (is_Some (db_messages d !! id)) then (InsertError, d)
        else let r := mkRow id text hash key t in
             (Inserted r, with_messages (<[id := r]> (db_messages d)) d)
    end.

(** [INSERT INTO message_outbox ... ON CONFLICT (message_id, target) DO NOTHING];
    [None] when the payload is no JSONB, or the CHECK or the foreign key is
    violated. *)
Definition insert_outbox `{EventCodec} (t : Z) (id : Z) (target payload : string) (d : db) : option db :=
  match jsonb payload with
  | None => None
  | Some stored =>
      if negb (target_allowed target) then None
      else if bool_decide (db_messages d !! id = None) then None
      else match db_outbox d !! (id, target) with
           | Some _ => Some d
           | None => Some (with_outbox (<[(id, target) := mkOb id target stored t t None 0 None]> (db_outbox d)) d)
           end
  end.

(** The message a scanned row stands for. *)
Definition scan_message (r : msg_row) (ok : bool) : Message :=
  mkMessage (mr_id r) (mr_text r) (mr_hash r) ok (mr_created r).

Definition checksum_ok (r : msg_row) : bool := bool_decide (mr_hash r = Checksum (mr_text r)).

(** The loop over [p.targets]; statement [n] is the next one. *)
Fixpoint insert_targets `{EventCodec} (env : tx_env) (n : nat) (id : Z) (payload : string) (targets : list string)
    (d : db) : option error * db :=
  match targets with
  | [] => (None, d)
  | target :: rest =>
      match tx_stmt env n with
      | Some e => (Some e, d)
      | None =>
          match insert_outbox (tx_now env) id target payload d with
          | None => (Some (ErrText "check constraint"), d)
          | Some d' => insert_targets env (S n) id payload rest d'
          end
      end
  end.

(** Rolling back restores the tables, not the sequence. *)
Definition rolled_back (before after : db) : db := with_seq (db_seq after) before.

(** [tx.Commit]: the copy is installed when the commit took effect. *)
Definition commit (env : tx_env) (before after : db) : option error * db :=
  (exec_error (tx_commit env),
   if took_effect (tx_commit env) then after else rolled_back before after).

Section Create.
Context `{EventCodec}.

(** [Postgres.Create] *)
Definition Create (env : tx_env) (targets : list string) (text idemKey : string) (d : db)
    : (Message * option error) * db :=
  match ValidateText text with
  | Some err => ((zero_Message, Some err), d)
  | None =>
  match tx_stmt env 0 with
  | Some err => ((zero_Message, Some err), d)
  | None =>
  match tx_stmt env 1 with
  | Some err => ((zero_Message, Some err), d)
  | None =>
  match insert_message (tx_now env) text (Checksum text) (nullif_empty idemKey) d with
  | (InsertError, d1) => ((zero_Message, Some (ErrText "insert failed")), rolled_back d d1)
  | (Conflict, d1) =>
      match tx_stmt env 2 with
      | Some err => ((zero_Message, Some err), rolled_back d d1)
      | None =>
          match find_key idemKey (db_messages d1) with
          | None => ((zero_Message, Some ErrNoRows), rolled_back d d1)
          | Some r =>
              if negb (bool_decide (mr_text r = text))
              then ((zero_Message, Some ErrIdempotencyConflict), rolled_back d d1)
              else let '(err, d2) := commit env d d1 in ((scan_message r (checksum_ok r), err), d2)
          end
      end
  | (Inserted r, d1) =>
      let m := scan_message r true in
      match marshal (CreatedEvent m) with
      | None => ((m, Some (ErrText "marshal failed")), rolled_back d d1)
      | Some payload =>
          match insert_targets env 2 (mr_id r) payload targets d1 with
          | (Some err, d2) => ((zero_Message, Some err), rolled_back d d2)
          | (None, d2) => let '(err, d3) := commit env d d2 in ((m, err), d3)
          end
      end
  end end end end.

End Create.

(** ** Queries *)

(** How reading a result set ends: well, at the query, at [rows.Scan] of row
    [k], or by [rows.Err] after [k] rows. *)
Inductive read_outcome :=
| ReadOk
| QueryError (e : error)
| ScanError (k : nat) (e : error)
| RowsError (k : nat) (e : error).

Definition scan_rows (rows : list msg_row) : list Message :=
  (λ r, scan_message r (checksum_ok r)) <$> rows.

Definition read_rows (o : read_outcome) (rows : list msg_row) : list Message * option error :=
  match o with
  | ReadOk => (scan_rows rows, None)
  | QueryError e => ([], Some e)
  | ScanError k e => if (k <? length rows)%nat then ([], Some e) else (scan_rows rows, None)
  | RowsError k e => (scan_rows (take k rows), Some e)
  end.

(** [ORDER BY id DESC] *)
Definition id_desc (r1 r2 : msg_row) : Prop := mr_id r2 <= mr_id r1.

#[export] Instance id_desc_dec : RelDecision id_desc.
Proof. intros r1 r2. apply Z_le_dec. Defined.

Definition rows_desc (ms : gmap Z msg_row) : list msg_row :=
  merge_sort id_desc (snd <$> map_to_list ms).

(** [Postgres.List] *)
Definition List_messages (o : read_outcome) (d : db) : list Message * option error :=
  read_rows o (take 100 (rows_desc (db_messages d))).

(** [Postgres.Search]; [ilike text pattern] is PostgreSQL's case-insensitive
    pattern match, a negative LIMIT an error. *)
Definition Search (ilike : string → string → bool) (o : read_outcome) (query : string) (limit : Z)
    (d : db) : list Message * option error :=
  if limit <? 0 then ([], Some (ErrText "LIMIT must not be negative"))
  else if negb (pg_text query) then ([], Some (ErrText "invalid byte sequence"))
  else read_rows o (take (Z.to_nat limit)
         (filter (λ r, ilike (mr_text r) ("%" +:+ query +:+ "%") = true) (rows_desc (db_messages d)))).

(** ** The outbox *)

(** [outbox.Delivery] and [outbox.Stats]; the age is kept in nanoseconds. *)
Record Delivery := mkDelivery {
  d_MessageID : Z;
  d_Target : string;
  d_Token : string;
  d_Attempts : Z;
  d_Event : MessageCreated
}.

Record Stats := mkStats { s_Pending : Z; s_Oldest : Z }.

(** [($n * interval '1 millisecond')] of [d.Milliseconds()] *)
Definition interval_ms (d : Z) : Z := (d `quot` Millisecond) * Millisecond.

(** [WHERE target=$1 AND delivered_at IS NULL AND available_at <= now()], rows
    locked by others skipped. *)
Definition claimable (t : Z) (target : string) (locked : list (Z * string)) (r : ob_row) : bool :=
  bool_decide (ob_target r = target) && bool_decide (ob_delivered r = None) &&
  (ob_available r <=? t) && negb (bool_decide ((ob_message_id r, ob_target r) ∈ locked)).

(** [ORDER BY available_at, message_id] *)
Definition ob_before (r1 r2 : ob_row) : bool :=
  (ob_available r1 <? ob_available r2) ||
  ((ob_available r1 =? ob_available r2) && (ob_message_id r1 <=? ob_message_id r2)).

(** [ORDER BY ... LIMIT 1] *)
Fixpoint first_row (rows : list ob_row) : option ob_row :=
  match rows with
  | [] => None
  | r :: rest =>
      match first_row rest with
      | None => Some r
      | Some r' => if ob_before r r' then Some r else Some r'
      end
  end.

Definition candidate (t : Z) (target : string) (locked : list (Z * string)) (d : db) : option ob_row :=
  first_row (filter (λ r, claimable t target locked r = true) (snd <$> map_to_list (db_outbox d))).

Definition ob_key (r : ob_row) : Z * string := (ob_message_id r, ob_target r).

(** [SET lease_token=$2, available_at=now()+lease, attempts=attempts+1] *)
Definition lease_row (t lease : Z) (token : string) (r : ob_row) : ob_row :=
  mkOb (ob_message_id r) (ob_target r) (ob_payload r) (ob_created r) (t + interval_ms lease)
    (Some token) (ob_attempts r + 1) (ob_delivered r).

Definition max_int32 : Z := 2147483647.

(** The environment of a single statement: [now()], its fate, the rows other
    transactions hold locked. *)
Record st_env := mkSt { st_now : Z; st_exec : exec_outcome; st_locked : list (Z * string) }.

(** [Postgres.Claim]; [token] is the fresh UUID. *)
Definition Claim (env : st_env) (target : string) (lease : Z) (token : string) (d : db)
    : (option Delivery * option error) * db :=
  match candidate (st_now env) target (st_locked env) d with
  | None => ((None, exec_error (st_exec env)), d)
  | Some r =>
      if max_int32 <? ob_attempts r + 1 then ((None, Some (ErrText "integer out of range")), d)
      else
        let r' := lease_row (st_now env) lease token r in
        let d' := if took_effect (st_exec env)
                  then with_outbox (<[ob_key r := r']> (db_outbox d)) d else d in
        match exec_error (st_exec env) with
        | Some e => ((None, Some e), d')
        | None =>
            match unmarshal (ob_payload r') with
            | None => ((None, Some (ErrText "unmarshal failed")), d')
            | Some ev => ((Some (mkDelivery (ob_message_id r) target token (ob_attempts r') ev), None), d')
            end
        end
  end.

(** [WHERE message_id=$1 AND target=$2 AND lease_token=$3 AND delivered_at IS NULL] *)
Definition leased (dl : Delivery) (d : db) : option ob_row :=
  match db_outbox d !! (d_MessageID dl, d_Target dl) with
  | Some r => if bool_decide (ob_token r = Some (d_Token dl)) && bool_decide (ob_delivered r = None)
              then Some r else None
  | None => None
  end.

(** An [UPDATE] of the leased row, with the check on [RowsAffected]. *)
Definition update_leased (env : st_env) (dl : Delivery) (f : ob_row → ob_row) (d : db)
    : option error * db :=
  let d' := match leased dl d with
            | Some r => with_outbox (<[(d_MessageID dl, d_Target dl) := f r]> (db_outbox d)) d
            | None => d
            end in
  match exec_error (st_exec env) with
  | Some e => (Some e, if took_effect (st_exec env) then d' else d)
  | None => match leased dl d with
            | Some _ => (None, d')
            | None => (Some ErrLeaseLost, d)
            end
  end.

(** [Postgres.Complete]: [SET delivered_at=now(), lease_token=NULL] *)
Definition complete_row (t : Z) (r : ob_row) : ob_row :=
  mkOb (ob_message_id r) (ob_target r) (ob_payload r) (ob_created r) (ob_available r)
    None (ob_attempts r) (Some t).

Definition Complete (env : st_env) (dl : Delivery) (d : db) : option error * db :=
  update_leased env dl (complete_row (st_now env)) d.

(** [Postgres.Retry]: [SET lease_token=NULL, available_at=now()+delay] *)
Definition retry_row (t delay : Z) (r : ob_row) : ob_row :=
  mkOb (ob_message_id r) (ob_target r) (ob_payload r) (ob_created r) (t + interval_ms delay)
    None (ob_attempts r) (ob_delivered r).

Definition Retry (env : st_env) (dl : Delivery) (delay : Z) (d : db) : option error * db :=
  update_leased env dl (retry_row (st_now env) delay) d.

(** [Postgres.OutboxStats] *)
Definition pending_rows (target : string) (d : db) : list ob_row :=
  filter (λ r, ob_target r = target ∧ ob_delivered r = None) (snd <$> map_to_list (db_outbox d)).

Definition OutboxStats (env : st_env) (target : string) (d : db) : Stats * option error :=
  match exec_error (st_exec env) with
  | Some e => (mkStats 0 0, Some e)
  | None =>
      let rows := pending_rows target d in
      (mkStats (Z.of_nat (length rows))
        (match rows with
         | [] => 0
         | r :: rest => st_now env - foldr (λ x m, Z.min (ob_created x) m) (ob_created r) rest
         end), None)
  end.

(** ** Migration *)

(** Which objects exist; absent columns read as their defaults once added. *)
Record schema := mkSchema {
  has_messages : bool;
  has_text_hash : bool;
  has_idem_key : bool;
  has_idem_index : bool;
  has_outbox : bool
}.

Definition map_rows (f : msg_row → msg_row) (d : db) : db := with_messages (f <$> db_messages d) d.

Definition set_hash (h : string) (r : msg_row) : msg_row :=
  mkRow (mr_id r) (mr_text r) h (mr_key r) (mr_created r).
Definition clear_key (r : msg_row) : msg_row :=
  mkRow (mr_id r) (mr_text r) (mr_hash r) None (mr_created r).

(** [UPDATE messages SET text_hash = encode(sha256(...), 'hex') WHERE text_hash = ''] *)
Definition backfill (r : msg_row) : msg_row :=
  if bool_decide (mr_hash r = "") then set_hash (Checksum (mr_text r)) r else r.

(** The non-null keys of the table have no duplicate. *)
Definition keys_distinct (ms : gmap Z msg_row) : bool :=
  bool_decide (NoDup (omap (λ p : Z * msg_row, mr_key p.2) (map_to_list ms))).

(** The statements of [migrate] and [migrateOutbox] after [BEGIN], in order;
    [None] is a statement that fails by itself. *)
Definition migrate_steps : list (schema * db → option (schema * db)) :=
  [ (* pg_advisory_xact_lock *)
    Some;
    (* CREATE TABLE IF NOT EXISTS messages *)
    (λ '(s, d), if has_messages s then Some (s, d)
       else Some (mkSchema true (has_text_hash s) (has_idem_key s) (has_idem_index s) (has_outbox s),
                  mkDb 0 ∅ (db_outbox d)));
    (* ADD COLUMN IF NOT EXISTS text_hash *)
    (λ '(s, d), if has_text_hash s then Some (s, d)
       else Some (mkSchema (has_messages s) true (has_idem_key s) (has_idem_index s) (has_outbox s),
                  map_rows (set_hash "") d));
    (λ '(s, d), Some (s, map_rows backfill d));
    (* ADD COLUMN IF NOT EXISTS idem_key *)
    (λ '(s, d), if has_idem_key s then Some (s, d)
       else Some (mkSchema (has_messages s) (has_text_hash s) true (has_idem_index s) (has_outbox s),
                  map_rows clear_key d));
    (* CREATE UNIQUE INDEX IF NOT EXISTS *)
    (λ '(s, d), if has_idem_index s then Some (s, d)
       else if keys_distinct (db_messages d)
       then Some (mkSchema (has_messages s) (has_text_hash s) (has_idem_key s) true (has_outbox s), d)
       else None);
    (* migrateOutbox *)
    (λ '(s, d), if has_outbox s then Some (s, d)
       else Some (mkSchema (has_messages s) (has_text_hash s) (has_idem_key s) (has_idem_index s) true,
                  with_outbox ∅ d)) ].

Fixpoint run_steps (env : tx_env) (n : nat) (steps : list (schema * db → option (schema * db)))
    (x : schema * db) : (schema * db) + error :=
  match steps with
  | [] => inl x
  | f :: rest =>
      match tx_stmt env n with
      | Some e => inr e
      | None => match f x with
                | None => inr (ErrText "statement failed")
                | Some x' => run_steps env (S n) rest x'
                end
      end
  end.

(** [Postgres.migrate]; on any error the deferred rollback restores the state. *)
Definition migrate (env : tx_env) (x : schema * db) : option error * (schema * db) :=
  match tx_stmt env 0 with
  | Some e => (Some e, x)
  | None =>
      match run_steps env 1 migrate_steps x with
      | inr e => (Some e, x)
      | inl x' => (exec_error (tx_commit env), if took_effect (tx_commit env) then x' else x)
      end
  end.
