(* ===== verification/StorageProps.v ===== *)
(** * StorageProps: correctness of the message table and the outbox

    The invariant of the tables under every sequence of operations, atomicity
    and idempotency of [Create], and the lease protocol of the outbox. *)

From stdpp Require Import base option list strings gmap sorting relations.
From Stdlib Require Import ZArith Lia Ascii.
From S2P Require Import Prelude GoStrings GoTime Sha256 Messaging EventJson Storage.
Local Open Scope Z_scope.

(** ** Steps and invariant *)

(** Everything that happens to the tables: requests by any number of clients
    and workers in any order, and identifiers drawn by transactions that
    aborted elsewhere. *)
Inductive db_step `{EventCodec} (targets : list string) : db → db → Prop :=
| st_create env text key res d d' :
    Create env targets text key d = (res, d') → db_step targets d d'
| st_claim env target lease token res d d' :
    Claim env target lease token d = (res, d') → db_step targets d d'
| st_complete env dl res d d' : Complete env dl d = (res, d') → db_step targets d d'
| st_retry env dl delay res d d' : Retry env dl delay d = (res, d') → db_step targets d d'
| st_burn d : db_seq d < max_int64 → db_step targets d (with_seq (db_seq d + 1) d).

(** An instant at which RFC 3339 can express the local time; only at others the
    event cannot be written. *)
Definition expressible `{EventCodec} (t : Z) : Prop := is_Some (format_rfc3339 (zone t) t).

Lemma marshal_expressible `{EventCodec} ev : expressible (ev_CreatedAt ev) → is_Some (marshal ev).
Proof. intros [s Hs]. unfold marshal, marshal_event. rewrite Hs. by eexists. Qed.
Lemma expressible_marshal `{EventCodec} ev : is_Some (marshal ev) → expressible (ev_CreatedAt ev).
Proof. unfold marshal, marshal_event, expressible. destruct (format_rfc3339 _ _); [by eexists|by intros []]. Qed.

Definition row_ok `{EventCodec} (seq id : Z) (r : msg_row) : Prop :=
  mr_id r = id ∧ 0 < id <= seq ∧ mr_hash r = Checksum (mr_text r) ∧
  mr_key r ≠ Some "" ∧ ¬ Blank (mr_text r) ∧ event_storable (CreatedEvent (scan_message r true)) ∧
  default true (pg_text <$> mr_key r) = true ∧ expressible (mr_created r).

Definition messages_ok `{EventCodec} (d : db) : Prop :=
  map_Forall (row_ok (db_seq d)) (db_messages d).

Definition keys_unique (ms : gmap Z msg_row) : Prop :=
  ∀ id1 id2 r1 r2 k, ms !! id1 = Some r1 → ms !! id2 = Some r2 →
    mr_key r1 = Some k → mr_key r2 = Some k → id1 = id2.

(** An outbox row belongs to a stored message and carries its event. *)
Definition ob_ok `{EventCodec} (ms : gmap Z msg_row) (key : Z * string) (o : ob_row) : Prop :=
  ob_key o = key ∧ target_allowed key.2 = true ∧
  ∃ r, ms !! key.1 = Some r ∧ is_Some (marshal (CreatedEvent (scan_message r true))) ∧
    unmarshal (ob_payload o) = Some (CreatedEvent (scan_message r true)).

Definition outbox_ok `{EventCodec} (d : db) : Prop :=
  map_Forall (ob_ok (db_messages d)) (db_outbox d).

Definition db_inv `{EventCodec} (d : db) : Prop :=
  0 <= db_seq d ∧ messages_ok d ∧ keys_unique (db_messages d) ∧ outbox_ok d.

(** ** Lookup by idempotency key *)

Lemma find_key_Some k ms r :
  find_key k ms = Some r → ∃ id, ms !! id = Some r ∧ mr_key r = Some k.
Proof.
  unfold find_key. intros ([id r'] & Hh & ->)%fmap_Some.
  apply head_Some_elem_of in Hh. apply list_elem_of_filter in Hh as [Hk Hin].
  apply elem_of_map_to_list in Hin. eauto.
Qed.

Lemma find_key_None k ms id r :
  find_key k ms = None → ms !! id = Some r → mr_key r ≠ Some k.
Proof.
  unfold find_key. intros Hnone Hr Hk.
  assert ((id, r) ∈ filter (λ p : Z * msg_row, mr_key p.2 = Some k) (map_to_list ms)) as Hin.
  { apply list_elem_of_filter. split; [done|]. by apply elem_of_map_to_list. }
  destruct (filter _ _); [by apply elem_of_nil in Hin|done].
Qed.

Lemma find_key_unique k ms id r :
  keys_unique ms → ms !! id = Some r → mr_key r = Some k → find_key k ms = Some r.
Proof.
  intros Hu Hr Hk. destruct (find_key k ms) as [r'|] eqn:E.
  - apply find_key_Some in E as (id' & Hr' & Hk'). assert (id' = id) as -> by eauto. congruence.
  - by eapply find_key_None in E.
Qed.

(** ** What [Create] does to the tables *)

(** The outbox after the loop over the targets. *)
Definition add_target (t id : Z) (payload : string) (o : gmap (Z * string) ob_row) (target : string)
    : gmap (Z * string) ob_row :=
  match o !! (id, target) with
  | Some _ => o
  | None => <[(id, target) := mkOb id target payload t t None 0 None]> o
  end.

Definition add_targets (t id : Z) (payload : string) (targets : list string)
    (o : gmap (Z * string) ob_row) : gmap (Z * string) ob_row :=
  foldl (add_target t id payload) o targets.

#[global] Arguments add_targets : simpl never.

Lemma add_targets_cons t id payload x targets o :
  add_targets t id payload (x :: targets) o = add_targets t id payload targets (add_target t id payload o x).
Proof. done. Qed.

Lemma add_targets_lookup t id payload targets o key :
  add_targets t id payload targets o !! key =
    match o !! key with
    | Some x => Some x
    | None => if bool_decide (key.1 = id ∧ key.2 ∈ targets)
              then Some (mkOb id key.2 payload t t None 0 None) else None
    end.
Proof.
  destruct key as [i tg]; cbn [fst snd]. unfold add_targets. revert o.
  induction targets as [|x targets IH]; intros o; cbn [foldl].
  { rewrite bool_decide_false by set_solver. by destruct (o !! (i, tg)). }
  rewrite IH. unfold add_target.
  destruct (decide ((id, x) = (i, tg))) as [[= -> ->]|Hne].
  - destruct (o !! (i, tg)) as [y|] eqn:E; [by rewrite E|].
    rewrite lookup_insert_eq, bool_decide_true; [done|]. set_solver.
  - assert ((match o !! (id, x) with Some _ => o
      | None => <[(id, x) := mkOb id x payload t t None 0 None]> o end) !! (i, tg) = o !! (i, tg)) as ->
      by (destruct (o !! (id, x)); [done|by rewrite lookup_insert_ne]).
    destruct (o !! (i, tg)); [done|].
    rewrite (bool_decide_ext (i = id ∧ tg ∈ x :: targets) (i = id ∧ tg ∈ targets)); [done|].
    rewrite elem_of_cons. naive_solver.
Qed.

Lemma insert_targets_None `{EventCodec} env n id payload stored targets d d' :
  jsonb payload = Some stored → insert_targets env n id payload targets d = (None, d') →
  d' = with_outbox (add_targets (tx_now env) id stored targets (db_outbox d)) d ∧
  Forall (λ t, target_allowed t = true) targets.
Proof.
  intros Hj. revert n d. induction targets as [|t targets IH]; intros n d; cbn.
  { intros [= <-]. by destruct d. }
  destruct (tx_stmt env n); [done|]. unfold insert_outbox. rewrite Hj.
  destruct (target_allowed t) eqn:Ht; cbn [negb]; [|done]. case_bool_decide; [done|].
  rewrite add_targets_cons. unfold add_target. destruct (db_outbox d !! (id, t)) as [x|] eqn:E;
    intros [-> Hall]%IH; split; done || by constructor.
Qed.

Lemma insert_targets_kept `{EventCodec} env n id payload targets d err d' :
  insert_targets env n id payload targets d = (err, d') → db_seq d' = db_seq d ∧ db_messages d' = db_messages d.
Proof.
  revert n d. induction targets as [|t targets IH]; intros n d; cbn; [by intros [= _ <-]|].
  destruct (tx_stmt env n); [by intros [= _ <-]|].
  destruct (insert_outbox _ _ _ _ _) as [d1|] eqn:E; [|by intros [= _ <-]].
  intros [-> ->]%IH. unfold insert_outbox in E. repeat case_match; simplify_eq/=; done.
Qed.

Lemma insert_targets_seq `{EventCodec} env n id payload targets d err d' :
  insert_targets env n id payload targets d = (err, d') → db_seq d' = db_seq d.
Proof. by intros [-> _]%insert_targets_kept. Qed.

(** [Create] leaves the tables alone (drawing at most one identifier), or adds
    one message together with an outbox row for every target. *)
Definition unchanged (d d' : db) : Prop :=
  db_messages d' = db_messages d ∧ db_outbox d' = db_outbox d ∧
  db_seq d <= db_seq d' <= db_seq d + 1.

Record created `{EventCodec} (env : tx_env) (targets : list string) (text key : string)
    (d : db) (r : msg_row) (d' : db) : Prop := mkCreated {
  cr_row : r = mkRow (db_seq d + 1) text (Checksum text) (nullif_empty key) (tx_now env);
  cr_text : ¬ Blank text;
  cr_storable : event_storable (CreatedEvent (scan_message r true));
  cr_key_text : default true (pg_text <$> nullif_empty key) = true;
  cr_fresh : db_messages d !! (db_seq d + 1) = None;
  cr_key : ∀ k, nullif_empty key = Some k → find_key k (db_messages d) = None;
  cr_targets : Forall (λ t, target_allowed t = true) targets;
  cr_db : ∃ payload, is_Some (marshal (CreatedEvent (scan_message r true))) ∧
    unmarshal payload = Some (CreatedEvent (scan_message r true)) ∧
    d' = mkDb (db_seq d + 1) (<[db_seq d + 1 := r]> (db_messages d))
           (add_targets (tx_now env) (db_seq d + 1) payload targets (db_outbox d))
}.

(** A message whose insertion is let through has a storable event, and the column
    keeps it. *)
Lemma insert_storable (id : Z) (text hash : string) (key : option string) (created : Z) :
  negb (pg_text text && pg_text hash && default true (pg_text <$> key)) = false → 0 < id <= max_int64 →
  event_storable (CreatedEvent (scan_message (mkRow id text hash key created) true)).
Proof.
  intros Ht Hid. apply negb_false_iff in Ht. rewrite !andb_true_iff in Ht. destruct Ht as [[Ht Hh] _].
  split; [unfold in_int64, min_int64; cbn; lia|done..].
Qed.

Lemma event_stored `{EventCodec} ev payload : event_storable ev → marshal ev = Some payload →
  ∃ stored, jsonb payload = Some stored ∧ unmarshal stored = Some ev.
Proof.
  intros Hev Hm. destruct (jsonb_keeps _ _ Hev Hm) as (q & Hq & Hu). exists q. split; [done|].
  unfold unmarshal. rewrite Hu. by eapply unmarshal_marshal_event; [apply storable_ok|].
Qed.

(** What is written is read back. *)
Lemma unmarshal_marshal `{EventCodec} ev p : event_storable ev → marshal ev = Some p → unmarshal p = Some ev.
Proof. intros Hev. apply unmarshal_marshal_event. by apply storable_ok. Qed.

Lemma Create_effect `{EventCodec} env targets text key d res d' :
  0 <= db_seq d → Create env targets text key d = (res, d') →
  unchanged d d' ∨
  took_effect (tx_commit env) = true ∧
  ∃ r, created env targets text key d r d' ∧ res = (scan_message r true, exec_error (tx_commit env)).
Proof.
  intros Hpos. assert (unchanged d d) as Hd by (split_and!; done || lia).
  unfold Create. destruct (ValidateText text) eqn:Hv; [intros [= _ <-]; by left|].
  assert (¬ Blank text) as Hb by (intros Hb%ValidateText_spec; congruence).
  destruct (tx_stmt env 0); [intros [= _ <-]; by left|].
  destruct (tx_stmt env 1); [intros [= _ <-]; by left|].
  unfold insert_message. destruct (negb _) eqn:Htext; [intros [= _ <-]; left; split_and!; cbn; done || lia|].
  destruct (max_int64 <? db_seq d + 1) eqn:Hmax.
  { intros [= _ <-]. left. split_and!; cbn; done || lia. }
  pose proof (insert_storable (db_seq d + 1) _ _ _ (tx_now env) Htext ltac:(lia)) as Hev.
  apply negb_false_iff, andb_true_iff in Htext as [_ Hkt].
  assert (∀ d1, db_seq d1 = db_seq d + 1 → unchanged d (rolled_back d d1)) as Hroll
    by (intros d1 Hs; split_and!; cbn; done || lia).
  destruct (nullif_empty key ≫= _) as [r|] eqn:Hkey.
  - destruct (tx_stmt env 2); [intros [= _ <-]; left; by apply Hroll|].
    destruct (find_key key _) as [r'|]; [|intros [= _ <-]; left; by apply Hroll].
    destruct (negb _); [intros [= _ <-]; left; by apply Hroll|].
    unfold commit. intros [= _ <-]. left.
    destruct (took_effect _); [split_and!; cbn; done || lia|by apply Hroll].
  - case_bool_decide as Hfresh; [intros [= _ <-]; left; by apply Hroll|].
    cbn [db_messages with_seq] in Hfresh, Hkey. apply eq_None_not_Some in Hfresh.
    destruct (marshal _) as [payload|] eqn:Hm; [|intros [= _ <-]; left; by apply Hroll].
    destruct (event_stored _ _ Hev Hm) as (stored & Hj & Hu).
    destruct (insert_targets _ _ _ _ _ _) as [[e|] d2] eqn:Ht.
    { intros [= _ <-]. left. apply Hroll. by apply insert_targets_seq in Ht. }
    apply (insert_targets_None _ _ _ _ _ _ _ _ Hj) in Ht as [-> Hall]. unfold commit.
    destruct (took_effect (tx_commit env)) eqn:He; [|intros [= _ <-]; left; by apply Hroll].
    intros [= <- <-]. right. split; [done|]. eexists. split; [|done].
    split; try done; [|by exists stored; split; [eexists|]]. intros k Hk. by rewrite Hk in Hkey.
Qed.

(** ** What the outbox operations do to the tables *)

Lemma claimable_true t target locked r :
  claimable t target locked r = true ↔
  ob_target r = target ∧ ob_delivered r = None ∧ ob_available r <= t ∧ ob_key r ∉ locked.
Proof.
  unfold claimable, ob_key.
  rewrite !andb_true_iff, negb_true_iff, Z.leb_le, !bool_decide_eq_true, bool_decide_eq_false. naive_solver.
Qed.

Lemma ob_before_total r1 r2 : ob_before r1 r2 = false → ob_before r2 r1 = true.
Proof. unfold ob_before. lia. Qed.

Lemma ob_before_trans r1 r2 r3 : ob_before r1 r2 = true → ob_before r2 r3 = true → ob_before r1 r3 = true.
Proof. unfold ob_before. lia. Qed.

Lemma ob_before_refl r : ob_before r r = true.
Proof. unfold ob_before. lia. Qed.

Lemma first_row_None rows : first_row rows = None → rows = [].
Proof. destruct rows as [|r rows]; [done|]. cbn. repeat case_match; done. Qed.

Lemma first_row_Some rows r :
  first_row rows = Some r → r ∈ rows ∧ ∀ r', r' ∈ rows → ob_before r r' = true.
Proof.
  revert r. induction rows as [|x rows IH]; intros r; [done|]. cbn.
  destruct (first_row rows) as [y|] eqn:E.
  - destruct (IH y eq_refl) as [Hy Hmin]. destruct (ob_before x y) eqn:Hxy; intros [= <-].
    + split; [by left|]. intros r' [->|Hr']%elem_of_cons; [apply ob_before_refl|].
      eapply ob_before_trans; [done|by apply Hmin].
    + split; [by right|]. intros r' [->|Hr']%elem_of_cons; [by apply ob_before_total|by apply Hmin].
  - intros [= <-]. apply first_row_None in E as ->. split; [by left|].
    intros r' ->%list_elem_of_singleton. apply ob_before_refl.
Qed.

Lemma elem_of_outbox d r :
  r ∈ snd <$> map_to_list (db_outbox d) ↔ ∃ k, db_outbox d !! k = Some r.
Proof.
  rewrite list_elem_of_fmap. split.
  - intros ([k r'] & -> & Hin). apply elem_of_map_to_list in Hin. by exists k.
  - intros [k Hk]. exists (k, r). split; [done|]. by apply elem_of_map_to_list.
Qed.

Lemma candidate_Some t target locked d r :
  candidate t target locked d = Some r →
  (∃ k, db_outbox d !! k = Some r) ∧ claimable t target locked r = true ∧
  ∀ k r', db_outbox d !! k = Some r' → claimable t target locked r' = true → ob_before r r' = true.
Proof.
  intros [Hin Hmin]%first_row_Some. apply list_elem_of_filter in Hin as [Hc Hin].
  apply elem_of_outbox in Hin. split_and!; [done..|]. intros k r' Hk Hc'. apply Hmin.
  apply list_elem_of_filter. split; [done|]. apply elem_of_outbox. eauto.
Qed.

Lemma candidate_None t target locked d k r :
  candidate t target locked d = None → db_outbox d !! k = Some r → claimable t target locked r = false.
Proof.
  intros Hn%first_row_None Hk. apply not_true_iff_false. intros Hc.
  assert (r ∈ filter (λ r, claimable t target locked r = true) (snd <$> map_to_list (db_outbox d))) as Hin.
  { apply list_elem_of_filter. split; [done|]. apply elem_of_outbox. eauto. }
  rewrite Hn in Hin. by apply elem_of_nil in Hin.
Qed.

Lemma Claim_effect env target lease token d res d' :
  Claim env target lease token d = (res, d') →
  (d' = d ∧ res.1 = None) ∨
  ∃ r, candidate (st_now env) target (st_locked env) d = Some r ∧
    took_effect (st_exec env) = true ∧
    d' = with_outbox (<[ob_key r := lease_row (st_now env) lease token r]> (db_outbox d)) d ∧
    ∀ dl, res.1 = Some dl →
      res.2 = None ∧
      dl = mkDelivery (ob_message_id r) target token (ob_attempts r + 1) (d_Event dl) ∧
      unmarshal (ob_payload r) = Some (d_Event dl).
Proof.
  unfold Claim. destruct (candidate _ _ _ _) as [r|]; [|intros [= <- <-]; by left].
  destruct (max_int32 <? _); [intros [= <- <-]; by left|].
  destruct (st_exec env) as [|e|e]; cbn; [|intros [= <- <-]; by left|].
  - destruct (unmarshal (ob_payload r)) as [ev|] eqn:Hu; intros [= <- <-]; right; exists r;
      split_and!; try done. cbn. by intros dl [= <-].
  - intros [= <- <-]. right. exists r. by split_and!.
Qed.

Lemma Claim_attempts env target lease token d dl err d' :
  Claim env target lease token d = ((Some dl, err), d') → d_Attempts dl <= max_int32.
Proof.
  unfold Claim. destruct (candidate _ _ _ _) as [r|]; [|done].
  destruct (max_int32 <? _) eqn:E; [done|]. destruct (exec_error _); [done|].
  destruct (unmarshal _); [|done]. intros [= <- _ _]. cbn. lia.
Qed.

Lemma update_leased_effect env dl f d res d' :
  update_leased env dl f d = (res, d') →
  (d' = d ∧ is_Some res) ∨
  ∃ r, leased dl d = Some r ∧ took_effect (st_exec env) = true ∧ res = exec_error (st_exec env) ∧
    d' = with_outbox (<[(d_MessageID dl, d_Target dl) := f r]> (db_outbox d)) d.
Proof.
  unfold update_leased. destruct (leased dl d) as [r|]; destruct (st_exec env) as [|e|e]; cbn;
    intros [= <- <-]; naive_solver.
Qed.

Lemma leased_Some dl d r :
  leased dl d = Some r ↔ db_outbox d !! (d_MessageID dl, d_Target dl) = Some r ∧
    ob_token r = Some (d_Token dl) ∧ ob_delivered r = None.
Proof.
  unfold leased. destruct (db_outbox d !! _) as [r'|]; [|naive_solver].
  do 2 case_bool_decide; naive_solver.
Qed.

(** ** Preservation of the invariant *)

Section Invariant.
Context `{EventCodec}.

Lemma unchanged_inv d d' : db_inv d → unchanged d d' → db_inv d'.
Proof.
  intros (Hs & Hm & Hk & Ho) (Hm' & Ho' & Hs').
  unfold db_inv, messages_ok, outbox_ok in *. rewrite Hm', Ho'.
  split_and!; [lia| |done..]. intros id r Hr. destruct (Hm id r Hr) as (? & ? & ?).
  split_and!; naive_solver lia.
Qed.

Lemma created_inv env targets text key d r d' :
  db_inv d → created env targets text key d r d' → db_inv d'.
Proof.
  intros (Hs & Hm & Hk & Ho) [Hr Ht Hev Hkt Hf Hkey Hall (payload & Hp & Hu & ->)].
  split_and!; cbn; [lia|..].
  - intros id x. unfold row_ok. cbn. intros [[<- <-]|[Hne Hx]]%lookup_insert_Some.
    + rewrite Hr in Hev |- *. cbn. unfold nullif_empty. split_and!; try done; try lia; [case_bool_decide; congruence|].
      rewrite Hr in Hp. by apply expressible_marshal in Hp.
    + destruct (Hm id x Hx) as (? & ? & ? & ? & ? & ? & ? & ?). split_and!; done || lia.
  - assert (∀ id x k, db_messages d !! id = Some x → mr_key x = Some k → mr_key r ≠ Some k) as Hnew.
    { intros id x k Hx Hxk Hrk. subst r. cbn in Hrk. by eapply find_key_None in Hx; [|by apply Hkey]. }
    intros id1 id2 r1 r2 k [[<- <-]|[? H1]]%lookup_insert_Some [[<- <-]|[? H2]]%lookup_insert_Some;
      naive_solver.
  - intros [i t] o Ho1. cbn in Ho1 |- *. rewrite add_targets_lookup in Ho1. cbn in Ho1.
    destruct (db_outbox d !! (i, t)) as [o'|] eqn:E.
    + injection Ho1 as <-. destruct (Ho _ _ E) as (? & ? & x & Hx & Hpx). cbn [fst snd] in *. split_and!; [done..|].
      exists x. split; [|done]. rewrite lookup_insert_ne; [done|]. cbn. congruence.
    + case_bool_decide as Hd; [|done]. destruct Hd as [-> Hin]. injection Ho1 as <-.
      split_and!; [done| |].
      * cbn. rewrite Forall_forall in Hall. by apply Hall.
      * exists r. cbn. by rewrite lookup_insert_eq.
Qed.

Lemma outbox_update_inv d k o o' :
  db_inv d → db_outbox d !! k = Some o → ob_key o' = ob_key o → ob_payload o' = ob_payload o →
  db_inv (with_outbox (<[k := o']> (db_outbox d)) d).
Proof.
  intros (Hs & Hm & Hk & Ho) Hko Hkey Hpay. split_and!; try done.
  intros k1 o1 Hk1. cbn in Hk1. apply lookup_insert_Some in Hk1 as [[<- <-]|[? H1]]; [|by apply Ho].
  destruct (Ho _ _ Hko) as (? & ? & r & ? & ?). unfold ob_ok. rewrite Hkey, Hpay. eauto.
Qed.

Lemma outbox_key_inv d k o : db_inv d → db_outbox d !! k = Some o → ob_key o = k.
Proof. intros (_ & _ & _ & Ho) Hk. by destruct (Ho _ _ Hk). Qed.

Lemma db_step_inv targets d d' : db_inv d → db_step targets d d' → db_inv d'.
Proof.
  intros Hinv Hstep. revert Hinv. destruct Hstep as
    [env text key res d1 d2 Hc|env target lease token res d1 d2 Hc
    |env dl res d1 d2 Hc|env dl delay res d1 d2 Hc|d1 Hs]; intros Hinv.
  - apply Create_effect in Hc as [Hu|(_ & r & Hcr & _)];
      [by eapply unchanged_inv|by eapply created_inv|apply Hinv].
  - apply Claim_effect in Hc as [[-> _]|(r & Hcand & _ & -> & _)]; [done|].
    apply candidate_Some in Hcand as ((k & Hk) & _ & _).
    rewrite (outbox_key_inv _ _ _ Hinv Hk). by eapply outbox_update_inv.
  - apply update_leased_effect in Hc as [[-> _]|(r & Hl & _ & _ & ->)]; [done|].
    apply leased_Some in Hl as [Hl _]. by eapply outbox_update_inv.
  - apply update_leased_effect in Hc as [[-> _]|(r & Hl & _ & _ & ->)]; [done|].
    apply leased_Some in Hl as [Hl _]. by eapply outbox_update_inv.
  - eapply unchanged_inv; [done|]. split_and!; cbn; done || lia.
Qed.

Lemma db_steps_inv targets d d' : db_inv d → rtc (db_step targets) d d' → db_inv d'.
Proof. intros Hinv Hs. induction Hs; eauto using db_step_inv. Qed.

Lemma db_empty_inv : db_inv db_empty.
Proof. split_and!; [done|..]; done. Qed.

(** No operation removes or changes a stored message. *)
Lemma db_step_messages targets d d' :
  db_inv d → db_step targets d d' → db_messages d ⊆ db_messages d'.
Proof.
  intros Hinv Hstep. revert Hinv. destruct Hstep as
    [env text key res d1 d2 Hc|env target lease token res d1 d2 Hc
    |env dl res d1 d2 Hc|env dl delay res d1 d2 Hc|d1 Hs]; intros Hinv.
  - apply Create_effect in Hc as [(-> & _)|(_ & r & [_ _ _ _ Hf _ _ (p & _ & _ & ->)] & _)]; [done| |apply Hinv].
    cbn. by apply insert_subseteq.
  - apply Claim_effect in Hc as [[-> _]|(r & _ & _ & -> & _)]; done.
  - apply update_leased_effect in Hc as [[-> _]|(r & _ & _ & _ & ->)]; done.
  - apply update_leased_effect in Hc as [[-> _]|(r & _ & _ & _ & ->)]; done.
  - done.
Qed.

Lemma db_steps_messages targets d d' :
  db_inv d → rtc (db_step targets) d d' → db_messages d ⊆ db_messages d'.
Proof.
  intros Hinv Hs. induction Hs as [|d1 d2 d3 H12 H23 IH]; [done|].
  etrans; [by eapply db_step_messages|]. apply IH. by eapply db_step_inv.
Qed.

End Invariant.

(** ** A concrete codec

    UTC, and a column that gives back the text it was given. *)
Definition utc : LocalZone := {| zone _ := 0 |}.

Definition utc_codec : EventCodec.
Proof.
  refine {| codec_zone := utc; jsonb p := Some p |}. intros ev p _ _. by exists p.
Defined.

(** The text of an event, in UTC. *)
Definition event_text (ev : MessageCreated) : string := default "" (@marshal_event utc ev).

(** ** Properties of the message table *)

Section Properties.
Context `{EventCodec}.

(** A transaction without faults. *)
Definition faultless (env : tx_env) : Prop := (∀ n, tx_stmt env n = None) ∧ tx_commit env = Ran.

Lemma row_scan d id r : db_inv d → db_messages d !! id = Some r → checksum_ok r = true.
Proof.
  intros (_ & Hm & _) Hr. destruct (Hm id r Hr) as (_ & _ & Hh & _).
  unfold checksum_ok. by rewrite bool_decide_true.
Qed.

(** Once a message is stored under a key, [Create] with that key replays it or
    refuses. *)
Lemma Create_stored env targets text key d id r :
  db_inv d → db_messages d !! id = Some r → mr_key r = Some key →
  faultless env → db_seq d < max_int64 → ValidateText text = None → pg_text text = true →
  Create env targets text key d =
    ((if bool_decide (text = mr_text r) then (scan_message r true, None)
      else (zero_Message, Some ErrIdempotencyConflict)), with_seq (db_seq d + 1) d).
Proof.
  intros Hinv Hr Hk [Hst Hco] Hs Hv Hpg.
  pose proof (find_key_unique key _ id r ltac:(apply Hinv) Hr Hk) as Hf.
  destruct Hinv as (Hseq & Hm & Hinv). destruct (Hm id r Hr) as (_ & _ & Hh & Hne & _ & _ & Hkt & _).
  rewrite Hk in Hkt. cbn in Hkt.
  assert (nullif_empty key = Some key) as Hn.
  { unfold nullif_empty. rewrite bool_decide_false; [done|]. congruence. }
  unfold Create. rewrite Hv, !Hst. unfold insert_message. rewrite Hpg, Checksum_pg, Hn. cbn [fmap option_fmap option_map default from_option].
  unfold Datatypes.id. rewrite Hkt. cbn [andb negb]. replace (max_int64 <? db_seq d + 1) with false by lia.
  cbn [mbind option_bind db_messages with_seq]. rewrite Hf. cbn [db_messages with_seq]. rewrite Hf.
  unfold commit, rolled_back. rewrite Hco. cbn.
  assert (checksum_ok r = true) as -> by (unfold checksum_ok; by rewrite bool_decide_true).
  destruct (decide (mr_text r = text)) as [->|Hneq].
  - rewrite !bool_decide_true by done. done.
  - rewrite !bool_decide_false by congruence. done.
Qed.

(** A successful [Create] that added nothing replayed the stored message. *)
Lemma Create_replayed env targets text key d m d' :
  0 <= db_seq d → Create env targets text key d = ((m, None), d') →
  (∃ r, find_key key (db_messages d) = Some r ∧ mr_text r = text ∧
        m = scan_message r (checksum_ok r) ∧ unchanged d d') ∨
  ∃ r, created env targets text key d r d' ∧ m = scan_message r true.
Proof.
  intros Hpos Hc. pose proof (Create_effect _ _ _ _ _ _ _ Hpos Hc) as [Hu|(_ & r & Hcr & [= ->])]; [|by right; eauto].
  left. revert Hc. unfold Create. destruct (ValidateText text); [done|].
  destruct (tx_stmt env 0); [done|]. destruct (tx_stmt env 1); [done|].
  unfold insert_message. destruct (negb _); [done|]. destruct (max_int64 <? db_seq d + 1); [done|].
  destruct (nullif_empty key ≫= _) as [r|].
  - destruct (tx_stmt env 2); [done|]. cbn [db_messages with_seq].
    destruct (find_key key (db_messages d)) as [r'|]; [|done].
    case_bool_decide as Ht; cbn [negb]; [|done]. unfold commit. intros [= <- _ _]. eauto 10.
  - case_bool_decide as Hf; [done|]. destruct (marshal _) as [p|]; [|done].
    destruct (insert_targets _ _ _ _ _ _) as [[e|] d2] eqn:Ht; [done|].
    apply insert_targets_kept in Ht as [_ Hd2]. unfold commit.
    destruct (tx_commit env) eqn:Eco; cbn; intros [= <- <-]; try done.
    exfalso. destruct Hu as (Hm & _). cbn in Hm, Hf, Hd2. apply eq_None_not_Some in Hf.
    rewrite <- Hm, Hd2, lookup_insert_eq in Hf. done.
Qed.

(** C13: the invariant of the database holds after every sequence of requests,
    deliveries and faults: identifiers are positive and drawn from the
    sequence, stored checksums are those of the texts, no blank text is
    stored, texts and keys are what a text column can hold, idempotency keys are
    unique, and every outbox row belongs to a stored message, has an allowed
    target and carries JSON that decodes to that message's event. *)
Theorem tables_invariant (targets : list string) (d : db) :
  rtc (db_step targets) db_empty d → db_inv d.
Proof. apply db_steps_inv, db_empty_inv. Qed.

(** C6: [Create] is atomic.  Either the tables are as before, or one new message
    was added together with a pending, immediately available outbox row for
    every configured target, whose payload decodes to the message's creation
    event; when no error is returned and nothing was added, the returned
    message is the one stored earlier under the same key with the same text. *)
Theorem create_atomic (env : tx_env) (targets : list string) (text key : string) (d d' : db)
    (m : Message) (err : option error) :
  db_inv d → Create env targets text key d = ((m, err), d') →
  (db_messages d' = db_messages d ∧ db_outbox d' = db_outbox d ∧
   (err = None → ∃ id r, db_messages d !! id = Some r ∧ mr_key r = Some key ∧ mr_text r = text ∧
      m = scan_message r true)) ∨
  (∃ r, db_messages d !! m_ID m = None ∧ db_messages d' = <[m_ID m := r]> (db_messages d) ∧
    m = scan_message r true ∧ mr_text r = text ∧ mr_hash r = Checksum text ∧
    (∀ t, t ∈ targets → ∃ o, db_outbox d' !! (m_ID m, t) = Some o ∧ ob_delivered o = None ∧
      ob_token o = None ∧ ob_available o = tx_now env ∧
      unmarshal (ob_payload o) = Some (CreatedEvent m)) ∧
    (∀ k o, db_outbox d !! k = Some o → db_outbox d' !! k = Some o)).
Proof.
  intros Hinv Hc. destruct (Create_effect _ _ _ _ _ _ _ (proj1 Hinv) Hc) as [(Hm & Ho & Hs)|(He & r & Hcr & [= -> ->])].
  - left. split_and!; [done..|]. intros ->.
    apply Create_replayed in Hc as [(r & Hf & Ht & -> & _)|(r & [Hr _ _ _ Hf _ _ (p & _ & _ & ->)] & ->)]; [| |apply Hinv].
    + apply find_key_Some in Hf as (id & Hr & Hk). exists id, r.
      by rewrite (row_scan _ _ _ Hinv Hr).
    + exfalso. cbn in Hm. rewrite <- Hm, lookup_insert_eq in Hf. done.
  - right. destruct Hcr as [Hr _ _ _ Hf _ _ (p & _ & Hp & ->)]. exists r.
    assert (mr_id r = db_seq d + 1) as Hid by (by rewrite Hr). cbn [m_ID scan_message]. rewrite Hid.
    assert (∀ t, db_outbox d !! (db_seq d + 1, t) = None) as Hno.
    { intros t. destruct (db_outbox d !! (db_seq d + 1, t)) as [o|] eqn:E; [|done].
      destruct Hinv as (_ & _ & _ & Hout). destruct (Hout _ _ E) as (_ & _ & x & Hx & _).
      cbn in Hx. congruence. }
    split_and!; try done; [by rewrite Hr..| |].
    + intros t Ht. cbn. rewrite add_targets_lookup. cbn. rewrite Hno, bool_decide_true by done.
      eexists. by split_and!.
    + intros k o Ho. cbn. by rewrite add_targets_lookup, Ho.
Qed.

(** C7: idempotency.  Once a message is stored under a key, then after any
    further operations a request with that key and the same text returns that
    very message, one with another valid text (which a text column can hold) is
    refused with [ErrIdempotencyConflict], and neither adds anything to the
    tables. *)
Theorem create_idempotent (targets : list string) (d1 d2 : db) (id : Z) (r : msg_row) (key : string)
    (env : tx_env) (text : string) :
  db_inv d1 → db_messages d1 !! id = Some r → mr_key r = Some key →
  rtc (db_step targets) d1 d2 → db_seq d2 < max_int64 → faultless env → ValidateText text = None →
  pg_text text = true →
  Create env targets text key d2 =
    ((if bool_decide (text = mr_text r) then (scan_message r true, None)
      else (zero_Message, Some ErrIdempotencyConflict)), with_seq (db_seq d2 + 1) d2).
Proof.
  intros Hinv Hr Hk Hs Hseq Hf Hv Hpg. pose proof (db_steps_inv _ _ _ Hinv Hs) as Hinv2.
  pose proof (db_steps_messages _ _ _ Hinv Hs) as Hsub.
  eapply Create_stored; [done|by eapply lookup_weaken|done..].
Qed.

(** *** The lease protocol *)

(** What the other workers and clients do while [dl] is held: they claim before
    the lease runs out, and never present its token for its row. *)
Inductive foreign_step (targets : list string) (dl : Delivery) (deadline : Z) : db → db → Prop :=
| fo_create env text key res d d' :
    Create env targets text key d = (res, d') → foreign_step targets dl deadline d d'
| fo_claim env target lease token res d d' :
    st_now env < deadline → Claim env target lease token d = (res, d') →
    foreign_step targets dl deadline d d'
| fo_complete env dl' res d d' :
    d_Token dl' ≠ d_Token dl → Complete env dl' d = (res, d') → foreign_step targets dl deadline d d'
| fo_retry env dl' delay res d d' :
    d_Token dl' ≠ d_Token dl → Retry env dl' delay d = (res, d') → foreign_step targets dl deadline d d'.

Lemma foreign_db_step targets dl deadline d d' : foreign_step targets dl deadline d d' → db_step targets d d'.
Proof. by intros []; econstructor. Qed.

Lemma foreign_update env dl dl' f d res d' r :
  d_Token dl' ≠ d_Token dl → leased dl d = Some r → update_leased env dl' f d = (res, d') →
  db_outbox d' !! (d_MessageID dl, d_Target dl) = Some r.
Proof.
  intros Hne Hl Hu. apply leased_Some in Hl as (Hl & Ht & _).
  apply update_leased_effect in Hu as [[-> _]|(r' & Hl' & _ & _ & ->)]; [done|]. cbn.
  rewrite lookup_insert_ne; [done|]. intros Heq. apply leased_Some in Hl' as (Hl' & Ht' & _). congruence.
Qed.

Lemma foreign_step_leased targets dl deadline d d' r :
  db_inv d → leased dl d = Some r → deadline <= ob_available r →
  foreign_step targets dl deadline d d' → leased dl d' = Some r.
Proof.
  intros Hinv Hl Hdl Hstep. pose proof Hl as (Hk & Ht & Hd)%leased_Some.
  apply leased_Some. split_and!; [|done..]. revert Hinv Hl Hk.
  destruct Hstep as [env text key res d1 d2 Hc|env target lease token res d1 d2 Hlt Hc
    |env dl' res d1 d2 Hne Hc|env dl' delay res d1 d2 Hne Hc]; intros Hinv Hl Hk.
  - apply Create_effect in Hc as [(_ & -> & _)|(_ & x & [_ _ _ _ _ _ _ (p & _ & _ & ->)] & _)]; [done| |apply Hinv].
    cbn. by rewrite add_targets_lookup, Hk.
  - apply Claim_effect in Hc as [[-> _]|(x & Hcand & _ & -> & _)]; [done|]. cbn.
    apply candidate_Some in Hcand as ((kx & Hx) & Hcl & _).
    rewrite (outbox_key_inv _ _ _ Hinv Hx). rewrite lookup_insert_ne; [done|].
    intros ->. assert (x = r) as -> by congruence. apply claimable_true in Hcl. lia.
  - by eapply foreign_update.
  - by eapply foreign_update.
Qed.

Lemma foreign_steps_leased targets dl deadline d d' r :
  db_inv d → leased dl d = Some r → deadline <= ob_available r →
  rtc (foreign_step targets dl deadline) d d' → leased dl d' = Some r.
Proof.
  intros Hinv Hl Hdl Hs. induction Hs as [|d1 d2 d3 H12 H23 IH]; [done|].
  apply IH; [|by eapply foreign_step_leased]. eapply db_step_inv; [done|]. by eapply foreign_db_step.
Qed.

(** A successful claim leaves the row leased to the delivery it returns. *)
Lemma Claim_leased env target lease token d dl d' :
  db_inv d → Claim env target lease token d = ((Some dl, None), d') →
  ∃ r, leased dl d' = Some r ∧ ob_available r = st_now env + interval_ms lease ∧
    d_Token dl = token ∧ d_Target dl = target ∧ d_Attempts dl = ob_attempts r.
Proof.
  intros Hinv Hc. apply Claim_effect in Hc as [[_ ?]|(r & Hcand & _ & -> & Hdl)]; [done|].
  destruct (Hdl dl eq_refl) as (_ & -> & _). cbn.
  apply candidate_Some in Hcand as ((k & Hk) & Hcl & _).
  pose proof (outbox_key_inv _ _ _ Hinv Hk) as Hkey.
  apply claimable_true in Hcl as (Htg & Hdel & _).
  exists (lease_row (st_now env) lease token r). split; [|done]. apply leased_Some. cbn.
  split_and!; [|done..]. rewrite <- Htg. fold (ob_key r). by rewrite lookup_insert_eq.
Qed.

(** C11: leases are exclusive.  After a successful [Claim], whatever other clients
    and workers do before the lease runs out, the row stays leased to the
    delivery, and its [Complete] succeeds and marks exactly that row as
    delivered. *)
Theorem lease_exclusive (targets : list string) (env env' : st_env) (target : string) (lease : Z)
    (token : string) (d d1 d2 : db) (dl : Delivery) :
  db_inv d → Claim env target lease token d = ((Some dl, None), d1) →
  rtc (foreign_step targets dl (st_now env + interval_ms lease)) d1 d2 →
  st_exec env' = Ran →
  ∃ r, leased dl d2 = Some r ∧
    Complete env' dl d2 =
      (None, with_outbox (<[(d_MessageID dl, target) := complete_row (st_now env') r]> (db_outbox d2)) d2).
Proof.
  intros Hinv Hc Hs Hran.
  destruct (Claim_leased _ _ _ _ _ _ _ Hinv Hc) as (r & Hl & Hav & _ & Htg & _).
  assert (db_inv d1) as Hinv1 by (eapply db_step_inv, (st_claim targets); [done|exact Hc]).
  exists r. pose proof (foreign_steps_leased _ _ _ _ _ _ Hinv1 Hl (Z.eq_le_incl _ _ (eq_sym Hav)) Hs) as Hl2.
  split; [done|]. unfold Complete, update_leased. by rewrite Hl2, Hran, Htg.
Qed.

(** Claims never reuse a token (they are fresh UUIDs): steps in which no claim
    draws [token]. *)
Inductive other_step (targets : list string) (token : string) : db → db → Prop :=
| ot_create env text key res d d' :
    Create env targets text key d = (res, d') → other_step targets token d d'
| ot_claim env target lease token' res d d' :
    token' ≠ token → Claim env target lease token' d = (res, d') → other_step targets token d d'
| ot_complete env dl res d d' : Complete env dl d = (res, d') → other_step targets token d d'
| ot_retry env dl delay res d d' : Retry env dl delay d = (res, d') → other_step targets token d d'.

Lemma other_db_step targets token d d' : other_step targets token d d' → db_step targets d d'.
Proof. by intros []; econstructor. Qed.

(** The row does not carry the token. *)
Definition not_held (key : Z * string) (token : string) (d : db) : Prop :=
  ∀ r, db_outbox d !! key = Some r → ob_token r ≠ Some token.

Lemma update_not_held env dl f d res d' key token :
  (∀ r, ob_token (f r) = None) → not_held key token d → update_leased env dl f d = (res, d') →
  not_held key token d'.
Proof.
  intros Hf Hn [[-> _]|(r & _ & _ & _ & ->)]%update_leased_effect; [done|]. intros x. cbn.
  intros [[_ <-]|[_ Hx]]%lookup_insert_Some; [by rewrite Hf|by apply Hn].
Qed.

Lemma other_step_not_held targets token key d d' :
  db_inv d → not_held key token d → other_step targets token d d' → not_held key token d'.
Proof.
  intros Hinv Hn Hstep. revert Hinv Hn. destruct Hstep as [env text ky res d1 d2 Hc|env target lease tk res d1 d2 Hne Hc
    |env dl' res d1 d2 Hc|env dl' delay res d1 d2 Hc]; intros Hinv Hn.
  - apply Create_effect in Hc as [(_ & Ho & _)|(_ & x & [_ _ _ _ _ _ _ (p & _ & _ & ->)] & _)]; [| |apply Hinv].
    + unfold not_held. by rewrite Ho.
    + intros r. cbn. rewrite add_targets_lookup. destruct (db_outbox d1 !! key) eqn:E.
      * intros [= <-]. by apply Hn.
      * case_bool_decide; [by intros [= <-]|done].
  - apply Claim_effect in Hc as [[-> _]|(x & _ & _ & -> & _)]; [done|]. intros r. cbn.
    intros [[_ <-]|[_ Hr]]%lookup_insert_Some; [cbn; congruence|by apply Hn].
  - eapply update_not_held; [|done..]. done.
  - eapply update_not_held; [|done..]. done.
Qed.

Lemma not_held_leased dl d : not_held (d_MessageID dl, d_Target dl) (d_Token dl) d → leased dl d = None.
Proof.
  intros Hn. destruct (leased dl d) as [r|] eqn:E; [|done].
  apply leased_Some in E as (Hr & Ht & _). by apply Hn in Hr.
Qed.

(** C12: stale leases are fenced.  Once another worker has claimed the row of a
    delivery, then after any further operations (claims drawing fresh tokens)
    the former holder can neither complete nor postpone the row: both calls
    report [ErrLeaseLost] and change nothing. *)
Theorem stale_lease_fenced (targets : list string) (env env1 env2 : st_env) (target : string)
    (lease delay : Z) (token : string) (d d1 d2 : db) (old dl : Delivery) :
  db_inv d → Claim env target lease token d = ((Some dl, None), d1) →
  d_MessageID old = d_MessageID dl → d_Target old = target → d_Token old ≠ token →
  rtc (other_step targets (d_Token old)) d1 d2 →
  st_exec env1 = Ran → st_exec env2 = Ran →
  Complete env1 old d2 = (Some ErrLeaseLost, d2) ∧ Retry env2 old delay d2 = (Some ErrLeaseLost, d2).
Proof.
  intros Hinv Hc Hid Htg Hne Hs H1 H2.
  destruct (Claim_leased _ _ _ _ _ _ _ Hinv Hc) as (r & (Hr & Ht & _)%leased_Some & _ & Htk & Htg' & _).
  assert (not_held (d_MessageID old, d_Target old) (d_Token old) d1) as Hn1.
  { intros x Hx. rewrite Hid, Htg, <- Htg', Hr in Hx. injection Hx as <-. congruence. }
  assert (not_held (d_MessageID old, d_Target old) (d_Token old) d2) as Hn2.
  { assert (db_inv d1) as Hi1 by (eapply db_step_inv, (st_claim targets); [done|exact Hc]). clear -Hs Hn1 Hi1.
    induction Hs; eauto using other_step_not_held, db_step_inv, other_db_step. }
  unfold Complete, Retry, update_leased. by rewrite (not_held_leased _ _ Hn2), H1, H2.
Qed.

(** *** Outbox rows over time *)

(** What every operation keeps of an outbox row: its key, payload and creation
    time, a growing attempt count, and everything once it is delivered. *)
Definition evolves (r r' : ob_row) : Prop :=
  ob_key r' = ob_key r ∧ ob_payload r' = ob_payload r ∧ ob_created r' = ob_created r ∧
  ob_attempts r <= ob_attempts r' ∧ (is_Some (ob_delivered r) → r' = r).

Lemma evolves_refl r : evolves r r.
Proof. by split_and!. Qed.

Lemma evolves_trans r1 r2 r3 : evolves r1 r2 → evolves r2 r3 → evolves r1 r3.
Proof.
  intros (? & ? & ? & ? & Hd1) (? & ? & ? & ? & Hd2). split_and!; try congruence; [lia|].
  intros Hd. specialize (Hd1 Hd) as ->. auto.
Qed.

Lemma update_evolves env dl f d res d' k r :
  (∀ r, ob_delivered r = None → evolves r (f r)) → update_leased env dl f d = (res, d') →
  db_outbox d !! k = Some r → ∃ r', db_outbox d' !! k = Some r' ∧ evolves r r'.
Proof.
  intros Hf [[-> _]|(x & Hl & _ & _ & ->)]%update_leased_effect Hk; [eauto using evolves_refl|].
  apply leased_Some in Hl as (Hx & _ & Hd). cbn.
  destruct (decide (k = (d_MessageID dl, d_Target dl))) as [->|Hne].
  - rewrite lookup_insert_eq. assert (x = r) as -> by congruence. eauto.
  - rewrite lookup_insert_ne by done. eauto using evolves_refl.
Qed.

Lemma db_step_evolves targets d d' k r :
  db_inv d → db_step targets d d' → db_outbox d !! k = Some r →
  ∃ r', db_outbox d' !! k = Some r' ∧ evolves r r'.
Proof.
  intros Hinv Hstep. revert Hinv. destruct Hstep as
    [env text key res d1 d2 Hc|env target lease token res d1 d2 Hc
    |env dl res d1 d2 Hc|env dl delay res d1 d2 Hc|d1 Hs]; intros Hinv Hk.
  - apply Create_effect in Hc as [(_ & -> & _)|(_ & x & [_ _ _ _ _ _ _ (p & _ & _ & ->)] & _)];
      [eauto using evolves_refl| |apply Hinv].
    cbn. rewrite add_targets_lookup, Hk. eauto using evolves_refl.
  - apply Claim_effect in Hc as [[-> _]|(x & Hcand & _ & -> & _)]; [eauto using evolves_refl|]. cbn.
    apply candidate_Some in Hcand as ((kx & Hx) & Hcl%claimable_true & _).
    rewrite (outbox_key_inv _ _ _ Hinv Hx). destruct (decide (kx = k)) as [->|Hne].
    + rewrite lookup_insert_eq. eexists. split; [done|]. assert (x = r) as -> by congruence.
      split_and!; cbn; try done; [lia|]. destruct Hcl as (_ & -> & _). by intros [].
    + rewrite lookup_insert_ne by done. eauto using evolves_refl.
  - eapply update_evolves; [|done..]. intros x Hx. split_and!; cbn; try done. rewrite Hx. by intros [].
  - eapply update_evolves; [|done..]. intros x Hx. split_and!; cbn; try done. rewrite Hx. by intros [].
  - eauto using evolves_refl.
Qed.

Lemma db_steps_evolve targets d d' k r :
  db_inv d → rtc (db_step targets) d d' → db_outbox d !! k = Some r →
  ∃ r', db_outbox d' !! k = Some r' ∧ evolves r r'.
Proof.
  intros Hinv Hs. revert r. induction Hs as [|d1 d2 d3 H12 H23 IH]; intros r Hk; [eauto using evolves_refl|].
  destruct (db_step_evolves _ _ _ _ _ Hinv H12 Hk) as (r2 & Hr2 & He).
  destruct (IH ltac:(by eapply db_step_inv) r2 Hr2) as (r3 & ? & ?). eauto using evolves_trans.
Qed.

(** No event is lost.  Whatever happens, a row of the outbox stays, with its
    event and creation time; its attempts only grow, and once delivered it
    never changes again. *)
Theorem outbox_never_loses (targets : list string) (d d' : db) (k : Z * string) (r : ob_row) :
  db_inv d → rtc (db_step targets) d d' → db_outbox d !! k = Some r →
  ∃ r', db_outbox d' !! k = Some r' ∧ ob_payload r' = ob_payload r ∧ ob_created r' = ob_created r ∧
    ob_attempts r <= ob_attempts r' ∧ (is_Some (ob_delivered r) → r' = r).
Proof.
  intros Hinv Hs Hk. destruct (db_steps_evolve _ _ _ _ _ Hinv Hs Hk) as (r' & ? & _ & ?). eauto.
Qed.

(** The event in an outbox row is the stored message's. *)
Lemma outbox_event d k r :
  db_inv d → db_outbox d !! k = Some r →
  ∃ x, db_messages d !! k.1 = Some x ∧ unmarshal (ob_payload r) = Some (CreatedEvent (scan_message x true)).
Proof.
  intros (_ & _ & _ & Ho) Hk. destruct (Ho _ _ Hk) as (_ & _ & x & Hx & _ & Hm). by exists x.
Qed.

(** It is storable, and can be written. *)
Lemma outbox_event_ok d k r ev : db_inv d → db_outbox d !! k = Some r → unmarshal (ob_payload r) = Some ev →
  event_storable ev ∧ is_Some (marshal ev).
Proof.
  intros (_ & Hm & _ & Ho) Hk Hu. destruct (Ho _ _ Hk) as (_ & _ & x & Hx & Hw & Hx'). rewrite Hu in Hx'.
  apply (inj Some) in Hx' as ->. by destruct (Hm _ _ Hx) as (_ & _ & _ & _ & _ & ? & _).
Qed.

(** [Claim] hands out work whenever there is some, the oldest first.  When
    the statement runs (and no attempt counter is at the end of INTEGER), it
    returns nothing exactly when no unlocked row of the target is due;
    otherwise a due row that precedes all others in (available_at, id) order,
    as a delivery with the event of the stored message, leased from now on. *)
Theorem claim_oldest (env : st_env) (target : string) (lease : Z) (token : string) (d : db) :
  db_inv d → st_exec env = Ran → (∀ k r, db_outbox d !! k = Some r → ob_attempts r < max_int32) →
  match Claim env target lease token d with
  | ((None, err), d') => err = None ∧ d' = d ∧
      ∀ k r, db_outbox d !! k = Some r → claimable (st_now env) target (st_locked env) r = false
  | ((Some dl, err), d') => err = None ∧ ∃ r x,
      db_outbox d !! (d_MessageID dl, target) = Some r ∧
      claimable (st_now env) target (st_locked env) r = true ∧
      (∀ k r', db_outbox d !! k = Some r' → claimable (st_now env) target (st_locked env) r' = true →
         ob_before r r' = true) ∧
      db_messages d !! d_MessageID dl = Some x ∧ d_Event dl = CreatedEvent (scan_message x true) ∧
      d_Token dl = token ∧ d_Attempts dl = ob_attempts r + 1 ∧
      d' = with_outbox (<[(d_MessageID dl, target) := lease_row (st_now env) lease token r]> (db_outbox d)) d
  end.
Proof.
  intros Hinv Hran Hatt. unfold Claim.
  destruct (candidate _ _ _ _) as [r|] eqn:Hc.
  - apply candidate_Some in Hc as ((k & Hk) & Hcl & Hmin).
    replace (max_int32 <? ob_attempts r + 1) with false by (pose proof (Hatt _ _ Hk); lia).
    rewrite Hran. cbn [took_effect exec_error].
    destruct (outbox_event _ _ _ Hinv Hk) as (x & Hx & He). cbn [lease_row ob_payload]. rewrite He.
    pose proof (outbox_key_inv _ _ _ Hinv Hk) as Hkey. pose proof Hcl as (Htg & _)%claimable_true.
    unfold ob_key in *. rewrite Htg in Hkey. subst k. split; [done|]. exists r, x. cbn.
    rewrite Htg. by split_and!.
  - rewrite Hran. split_and!; [done..|]. intros k r Hk. by eapply candidate_None.
Qed.

End Properties.

(** ** Witnesses *)

Section Witnesses.
#[local] Existing Instance utc_codec.

Definition ex_tx (t : Z) : tx_env := mkTx t (λ _, None) Ran.
Definition ex_st (t : Z) : st_env := mkSt t Ran [].
Definition ex_targets : list string := ["kafka"; "nats"].
Definition ex_d1 : db := (Create (ex_tx 10) ex_targets "hi" "k1" db_empty).2.
Definition ex_d2 : db := (Create (ex_tx 20) ex_targets "there" "" ex_d1).2.
Definition ex_msg : Message := (Create (ex_tx 10) ex_targets "hi" "k1" db_empty).1.1.
Definition ex_row : msg_row := mkRow 1 "hi" (Checksum "hi") (Some "k1") 10.
Definition ex_delivery (token : string) (n : Z) : Delivery := mkDelivery 1 "kafka" token n (CreatedEvent ex_msg).
Definition ex_claimed : db := (Claim (ex_st 30) "kafka" (45 * Second) "A" ex_d2).2.

Lemma ex_faultless t : faultless (ex_tx t).
Proof. done. Qed.

Lemma ex_steps2 : rtc (db_step ex_targets) ex_d1 ex_d2.
Proof.
  apply rtc_once. exact (st_create _ (ex_tx 20) "there" "" _ _ _ (surjective_pairing _)).
Qed.

Lemma ex_steps1 : rtc (db_step ex_targets) db_empty ex_d1.
Proof.
  apply rtc_once. exact (st_create _ (ex_tx 10) "hi" "k1" _ _ _ (surjective_pairing _)).
Qed.

Lemma ex_inv1 : db_inv ex_d1.
Proof. eapply db_steps_inv, ex_steps1. apply db_empty_inv. Qed.

Lemma ex_inv2 : db_inv ex_d2.
Proof. eapply db_steps_inv, ex_steps2. apply ex_inv1. Qed.

Lemma ex_row_stored : db_messages ex_d1 !! 1 = Some ex_row.
Proof. vm_compute. reflexivity. Qed.

Lemma ex_claim_eq : Claim (ex_st 30) "kafka" (45 * Second) "A" ex_d2 = ((Some (ex_delivery "A" 1), None), ex_claimed).
Proof. vm_compute. reflexivity. Qed.

Lemma tables_invariant_witness : db_inv ex_d2 ∧ size (db_outbox ex_d2) = 4%nat.
Proof.
  split; [|vm_compute; reflexivity].
  apply (tables_invariant ex_targets). etrans; [apply ex_steps1|apply ex_steps2].
Defined.

Lemma create_atomic_witness :
  ∃ o, db_outbox ex_d1 !! (1, "kafka") = Some o ∧ unmarshal (ob_payload o) = Some (CreatedEvent ex_msg).
Proof.
  assert (Create (ex_tx 10) ex_targets "hi" "k1" db_empty = ((ex_msg, None), ex_d1)) as Hc
    by (vm_compute; reflexivity).
  destruct (create_atomic _ _ _ _ _ _ _ _ db_empty_inv Hc) as [(Hm & _)|(r & _ & _ & _ & _ & _ & Ht & _)].
  - vm_compute in Hm. discriminate Hm.
  - destruct (Ht "kafka" ltac:(left)) as (o & Ho & _ & _ & _ & Hu). exists o. split; [exact Ho|exact Hu].
Defined.

Lemma create_idempotent_witness :
  Create (ex_tx 50) ex_targets "hi" "k1" ex_d2 = ((ex_msg, None), with_seq 3 ex_d2) ∧
  Create (ex_tx 50) ex_targets "other" "k1" ex_d2 =
    ((zero_Message, Some ErrIdempotencyConflict), with_seq 3 ex_d2).
Proof.
  split.
  - apply (create_idempotent ex_targets ex_d1 ex_d2 1 ex_row "k1" (ex_tx 50) "hi" ex_inv1 ex_row_stored
      eq_refl ex_steps2); [vm_compute; reflexivity|apply ex_faultless|vm_compute; reflexivity..].
  - apply (create_idempotent ex_targets ex_d1 ex_d2 1 ex_row "k1" (ex_tx 50) "other" ex_inv1 ex_row_stored
      eq_refl ex_steps2); [vm_compute; reflexivity|apply ex_faultless|vm_compute; reflexivity..].
Defined.

Lemma lease_exclusive_witness :
  (Complete (ex_st 80) (ex_delivery "A" 1) (Claim (ex_st 40) "kafka" (45 * Second) "B" ex_claimed).2).1 = None.
Proof.
  destruct (lease_exclusive ex_targets (ex_st 30) (ex_st 80) "kafka" (45 * Second) "A" ex_d2 ex_claimed
    (Claim (ex_st 40) "kafka" (45 * Second) "B" ex_claimed).2 (ex_delivery "A" 1) ex_inv2 ex_claim_eq)
    as (r & _ & ->).
  - apply rtc_once.
    refine (fo_claim _ _ _ (ex_st 40) "kafka" (45 * Second) "B" _ _ _ _ (surjective_pairing _)).
    reflexivity.
  - reflexivity.
  - reflexivity.
Defined.

Definition ex_claimed1 : db := (Claim (ex_st 30) "kafka" (45 * Second) "A" ex_d1).2.
Definition ex_reclaimed : db := (Claim (ex_st (50 * Second)) "kafka" (45 * Second) "B" ex_claimed1).2.
Definition ex_retried : db := (Retry (ex_st (55 * Second)) (ex_delivery "B" 2) 100 ex_reclaimed).2.

Lemma stale_lease_fenced_witness :
  Complete (ex_st (60 * Second)) (ex_delivery "A" 1) ex_retried = (Some ErrLeaseLost, ex_retried).
Proof.
  refine (proj1 (stale_lease_fenced ex_targets (ex_st (50 * Second)) (ex_st (60 * Second)) (ex_st (60 * Second))
    "kafka" (45 * Second) 0 "B" ex_claimed1 ex_reclaimed ex_retried (ex_delivery "A" 1) (ex_delivery "B" 2)
    _ _ eq_refl eq_refl _ _ eq_refl eq_refl)).
  - eapply db_step_inv; [apply ex_inv1|].
    exact (st_claim ex_targets (ex_st 30) "kafka" (45 * Second) "A" _ _ _ (surjective_pairing _)).
  - vm_compute. reflexivity.
  - discriminate.
  - apply rtc_once.
    exact (ot_retry _ _ (ex_st (55 * Second)) (ex_delivery "B" 2) 100 _ _ _ (surjective_pairing _)).
Defined.

Lemma outbox_never_loses_witness : is_Some (db_outbox ex_d2 !! (1, "nats")).
Proof.
  assert (db_outbox ex_d1 !! (1, "nats") =
    Some (mkOb 1 "nats" (default "" (marshal (CreatedEvent ex_msg))) 10 10 None 0 None)) as Hr
    by (vm_compute; reflexivity).
  destruct (outbox_never_loses ex_targets ex_d1 ex_d2 (1, "nats") _ ex_inv1 ex_steps2 Hr) as (r' & -> & _).
  by eexists.
Defined.

Lemma claim_oldest_witness :
  ∃ r x, db_outbox ex_d2 !! (1, "kafka") = Some r ∧ db_messages ex_d2 !! 1 = Some x ∧
    ob_available r = 10 ∧ CreatedEvent ex_msg = CreatedEvent (scan_message x true).
Proof.
  pose proof (claim_oldest (ex_st 30) "kafka" (45 * Second) "A" ex_d2 ex_inv2 eq_refl) as H.
  rewrite ex_claim_eq in H. destruct H as (_ & r & x & Hr & _ & _ & Hx & Hev & _).
  - assert (map_Forall (λ _ r, ob_attempts r < max_int32) (db_outbox ex_d2)) as Hall; [|exact Hall].
    apply (bool_decide_eq_true_1 _). vm_compute. reflexivity.
  - exists r, x. split; [exact Hr|]. split; [exact Hx|]. split; [|exact Hev].
    vm_compute in Hr. injection Hr as <-. reflexivity.
Defined.

End Witnesses.
