(* ===== verification/StorageQueries.v ===== *)
(** * StorageQueries: reading messages, and the schema migration

    [Postgres.List] returns the newest messages in order, and
    [Postgres.migrate] brings any earlier schema to the current one, once. *)

From stdpp Require Import base option list strings gmap sorting relations.
From Stdlib Require Import ZArith Lia.
From S2P Require Import Prelude GoStrings Sha256 Messaging Storage StorageProps.
Local Open Scope Z_scope.

(** ** Listing *)

#[export] Instance id_desc_total : Total id_desc.
Proof. intros r1 r2. unfold id_desc. lia. Qed.
#[export] Instance id_desc_trans : Transitive id_desc.
Proof. intros r1 r2 r3. unfold id_desc. lia. Qed.

Lemma rows_desc_elem ms r : r ∈ rows_desc ms ↔ ∃ id, ms !! id = Some r.
Proof.
  unfold rows_desc. rewrite merge_sort_Permutation, list_elem_of_fmap. split.
  - intros ([id r'] & -> & Hin). apply elem_of_map_to_list in Hin. by exists id.
  - intros [id Hr]. exists (id, r). split; [done|]. by apply elem_of_map_to_list.
Qed.

Lemma rows_desc_length ms : length (rows_desc ms) = size ms.
Proof. unfold rows_desc. by rewrite merge_sort_Permutation, length_fmap, length_map_to_list. Qed.

Lemma rows_desc_sorted ms : StronglySorted id_desc (rows_desc ms).
Proof. apply StronglySorted_merge_sort; apply _. Qed.

(** Rows of a table keyed by their identifiers have distinct identifiers. *)
Lemma rows_desc_NoDup ms :
  map_Forall (λ id r, mr_id r = id) ms → NoDup (mr_id <$> rows_desc ms).
Proof.
  intros Hid. unfold rows_desc. rewrite merge_sort_Permutation, <- list_fmap_compose.
  assert (((mr_id ∘ snd) <$> map_to_list ms) = (fst <$> map_to_list ms)) as ->;
    [|apply NoDup_fst_map_to_list].
  apply list_fmap_ext. intros i [id r] Hi. cbn. apply Hid.
  by eapply elem_of_map_to_list, list_elem_of_lookup_2.
Qed.

Lemma StronglySorted_app_rel {A} (R : A → A → Prop) l1 l2 x y :
  StronglySorted R (l1 ++ l2) → x ∈ l1 → y ∈ l2 → R x y.
Proof.
  induction l1 as [|a l1 IH]; cbn; [set_solver|]. intros [Hs Ha]%StronglySorted_inv.
  intros [->|Hx]%elem_of_cons Hy; [|by apply IH]. rewrite Forall_forall in Ha. apply Ha. set_solver.
Qed.

(** A descending list without duplicates is strictly descending. *)
Lemma desc_strict rows :
  StronglySorted id_desc rows → NoDup (mr_id <$> rows) →
  StronglySorted (λ a b, b < a) (mr_id <$> rows).
Proof.
  induction 1 as [|r rows Hs IH Hr]; [constructor|]. cbn. intros [Hn Hd]%NoDup_cons.
  constructor; [by apply IH|]. apply Forall_forall. intros id Hid.
  apply list_elem_of_fmap in Hid as (r' & -> & Hr'). rewrite Forall_forall in Hr.
  specialize (Hr r' Hr'). unfold id_desc in Hr. assert (mr_id r ≠ mr_id r'); [|lia].
  intros Heq. apply Hn. rewrite Heq. by apply list_elem_of_fmap_2.
Qed.

Lemma scan_rows_ids rows : m_ID <$> scan_rows rows = mr_id <$> rows.
Proof. unfold scan_rows. by rewrite <- list_fmap_compose. Qed.

(** [List] returns, without error, at most a hundred messages, by strictly
    decreasing identifier; every one is a stored message whose checksum has
    been found right, and a stored message is left out only when a hundred newer
    ones are returned. *)
Theorem list_newest `{EventCodec} (d : db) :
  db_inv d →
  ∃ ms, List_messages ReadOk d = (ms, None) ∧
    length ms = (100 `min` size (db_messages d))%nat ∧
    StronglySorted (λ a b, b < a) (m_ID <$> ms) ∧
    (∀ m, m ∈ ms → ∃ r, db_messages d !! m_ID m = Some r ∧ m = scan_message r true) ∧
    (∀ id, is_Some (db_messages d !! id) → id ∉ m_ID <$> ms →
       length ms = 100%nat ∧ ∀ m, m ∈ ms → id < m_ID m).
Proof.
  intros Hinv. pose proof Hinv as (_ & Hm & _). set (rows := rows_desc (db_messages d)).
  assert (Hid : map_Forall (λ id r, mr_id r = id) (db_messages d))
    by (intros id r Hr; by destruct (Hm id r Hr)).
  assert (StronglySorted (λ a b, b < a) (mr_id <$> rows)) as Hs
    by (apply desc_strict; [apply rows_desc_sorted|by apply rows_desc_NoDup]).
  rewrite <- (take_drop 100 rows), fmap_app in Hs.
  exists (scan_rows (take 100 rows)). split; [done|].
  assert (length (scan_rows (take 100 rows)) = (100 `min` size (db_messages d))%nat) as Hlen.
  { unfold scan_rows, rows. by rewrite length_fmap, length_take, rows_desc_length. }
  rewrite scan_rows_ids, Hlen. split_and!; [done|..].
  - by apply StronglySorted_app_1_l in Hs.
  - intros m Hin. apply list_elem_of_fmap in Hin as (r & -> & Hr).
    assert (r ∈ rows) as (id & Hr')%rows_desc_elem by (by eapply elem_of_take in Hr as (?&?%list_elem_of_lookup_2&_)).
    exists r. cbn. rewrite (Hid _ _ Hr'). split; [done|]. by rewrite (row_scan _ _ _ Hinv Hr').
  - intros id [r Hr] Hnot. assert (r ∈ rows) as Hin by (apply rows_desc_elem; eauto).
    rewrite <- (take_drop 100 rows) in Hin. apply elem_of_app in Hin as [Hin|Hin].
    { destruct Hnot. apply list_elem_of_fmap. exists r. by rewrite (Hid _ _ Hr). }
    split.
    + apply list_elem_of_lookup in Hin as [i Hi]. apply lookup_lt_Some in Hi.
      rewrite length_drop in Hi. unfold rows in Hi. rewrite rows_desc_length in Hi. lia.
    + intros m Hm'. apply list_elem_of_fmap in Hm' as (x & -> & Hx). cbn.
      rewrite <- (Hid _ _ Hr). eapply (StronglySorted_app_rel _ _ _ _ _ Hs); by apply list_elem_of_fmap_2.
Qed.

(** ** Migration *)

(** The current schema. *)
Definition current : schema := mkSchema true true true true true.

(** What the migration makes of a row: the missing columns appear with their
    defaults, and an empty checksum is computed. *)
Definition migrate_row (s : schema) (r : msg_row) : msg_row :=
  let r := backfill (if has_text_hash s then r else set_hash "" r) in
  if has_idem_key s then r else clear_key r.

Lemma Checksum_nonempty text : Checksum text ≠ "".
Proof. intros He. destruct (Checksum_shape_aux text) as [Hl _]. by rewrite He in Hl. Qed.

Lemma backfill_nonempty r : mr_hash (backfill r) ≠ "".
Proof. unfold backfill. case_bool_decide; [apply Checksum_nonempty|done]. Qed.

Lemma backfill_id r : mr_hash r ≠ "" → backfill r = r.
Proof. intros Hr. unfold backfill. by rewrite bool_decide_false. Qed.

Lemma migrate_row_hash s r : mr_hash (migrate_row s r) ≠ "".
Proof. unfold migrate_row. destruct (has_idem_key s); apply backfill_nonempty. Qed.

(** Running all statements, as one function of the tables. *)
Lemma run_migrate_steps env s d x :
  run_steps env 1 migrate_steps (s, d) = inl x →
  x.1 = current ∧
  db_messages x.2 = migrate_row s <$> (if has_messages s then db_messages d else ∅).
Proof.
  destruct s as [hm ht hk hi ho]. unfold migrate_steps, run_steps.
  destruct hm, ht, hk, hi, ho; cbn; repeat case_match; intros; simplify_eq/=; split; try done;
    unfold migrate_row; cbn; rewrite <- ?map_fmap_compose; try done; apply map_eq; intros i;
    rewrite !lookup_fmap; by destruct (_ !! i).
Qed.

Lemma migrate_current_id env d :
  faultless env → map_Forall (λ _ r, mr_hash r ≠ "") (db_messages d) →
  migrate env (current, d) = (None, (current, d)).
Proof.
  intros [Hst Hco] Hall. unfold migrate, run_steps, migrate_steps. rewrite !Hst, Hco. cbn.
  unfold map_rows. do 3 f_equal. destruct d as [sq ms ob]. unfold with_messages. cbn in *. f_equal.
  rewrite <- (map_fmap_id ms) at 2. apply map_fmap_ext. intros i r Hr. apply backfill_id. by eapply Hall.
Qed.

(** A migration that reports success. *)
Lemma migrate_ok env s d x :
  migrate env (s, d) = (None, x) →
  x.1 = current ∧
  db_messages x.2 = migrate_row s <$> (if has_messages s then db_messages d else ∅) ∧
  map_Forall (λ _ r, mr_hash r ≠ "") (db_messages x.2).
Proof.
  unfold migrate. destruct (tx_stmt env 0); [done|].
  destruct (run_steps env 1 migrate_steps (s, d)) as [y|] eqn:Hrun; [|done].
  destruct (tx_commit env) eqn:Hco; cbn; try done. intros [= <-].
  apply run_migrate_steps in Hrun as [Hc Hm]. split; [done|]. split; [done|].
  rewrite Hm. intros i r. rewrite lookup_fmap_Some. intros (r0 & <- & _). apply migrate_row_hash.
Qed.

(** The migration is complete and idempotent.  When it reports success, from
    whatever earlier schema, the schema is current, every row is the earlier
    row with the missing columns at their defaults and a missing checksum
    computed from its text, no checksum is empty, and running it again changes
    nothing. *)
Theorem migrate_complete (env env' : tx_env) (s : schema) (d : db) (x : schema * db) :
  migrate env (s, d) = (None, x) → faultless env' →
  x.1 = current ∧
  db_messages x.2 = migrate_row s <$> (if has_messages s then db_messages d else ∅) ∧
  map_Forall (λ _ r, mr_hash r ≠ "") (db_messages x.2) ∧
  migrate env' x = (None, x).
Proof.
  intros (Hc & Hm & Hall)%migrate_ok Hf. split_and!; [done..|].
  destruct x as [s' d']. cbn in *. subst s'. by apply migrate_current_id.
Qed.

(** ** Witnesses *)

(** A database from before checksums and idempotency keys. *)
Definition ex_legacy : schema * db :=
  (mkSchema true false false false false, mkDb 1 {[1 := mkRow 1 "hi" "" None 5]} ∅).

Lemma list_newest_witness :
  ∃ ms, List_messages ReadOk ex_d2 = (ms, None) ∧ m_ID <$> ms = [2; 1].
Proof.
  destruct (@list_newest utc_codec ex_d2 ex_inv2) as (ms & Hms & _). exists ms. split; [exact Hms|].
  vm_compute in Hms. injection Hms as <-. reflexivity.
Defined.

Lemma migrate_complete_witness :
  (migrate (ex_tx 0) ex_legacy).2.1 = current ∧
  migrate (ex_tx 1) (migrate (ex_tx 0) ex_legacy).2 = (None, (migrate (ex_tx 0) ex_legacy).2).
Proof.
  assert (migrate (ex_tx 0) ex_legacy = (None, (migrate (ex_tx 0) ex_legacy).2)) as Hm
    by (vm_compute; reflexivity).
  destruct (migrate_complete (ex_tx 0) (ex_tx 1) _ _ _ Hm (ex_faultless 1)) as (Hc & _ & _ & Hi).
  split; [exact Hc|exact Hi].
Defined.
