(* ===== verification/OutboxWorker.v ===== *)
(** * OutboxWorker: at-least-once delivery from the outbox

    [internal/outbox/worker.go].  The worker is written against the interfaces
    [Store], [Publisher] and [Factory] of the source; its theorems use only the
    laws of those interfaces, which [PostgresWorker] discharges for the tables
    of [Storage]. *)

From stdpp Require Import base option list strings gmap relations.
From Stdlib Require Import ZArith Lia.
From S2P Require Import Prelude GoStrings Messaging Storage Retry.
Local Open Scope Z_scope.

(** ** Interfaces *)

(** [outbox.Store] *)
Class OutboxStore (W : Type) := {
  o_Claim : ctx → string → Z → GoM W (option Delivery * option error);
  o_Complete : ctx → Delivery → GoM W (option error);
  o_Retry : ctx → Delivery → Z → GoM W (option error);
  o_OutboxStats : ctx → string → GoM W (Stats * option error)
}.

(** [outbox.Factory] and [outbox.Publisher]; a publisher is a handle. *)
Class Publishers (W : Type) := {
  p_factory : ctx → string → GoM W (option nat * option error);
  p_Publish : nat → ctx → MessageCreated → GoM W (option error);
  p_Close : nat → GoM W (option error)
}.

(** The local variables of [run]. *)
Record wk := mkWk {
  wk_publisher : option nat;
  wk_attempt : Z;
  wk_claimAttempt : Z;
  wk_nextStats : Z
}.

Definition wk0 : wk := mkWk None 0 0 zero_time.

Definition set_publisher (p : option nat) (l : wk) : wk :=
  mkWk p (wk_attempt l) (wk_claimAttempt l) (wk_nextStats l).
Definition set_attempt (n : Z) (l : wk) : wk :=
  mkWk (wk_publisher l) n (wk_claimAttempt l) (wk_nextStats l).
Definition set_claimAttempt (n : Z) (l : wk) : wk :=
  mkWk (wk_publisher l) (wk_attempt l) n (wk_nextStats l).
Definition set_nextStats (t : Z) (l : wk) : wk :=
  mkWk (wk_publisher l) (wk_attempt l) (wk_claimAttempt l) t.

Section Worker.
Context `{Runtime W, OutboxStore W, Publishers W}.
Variables (c : ctx) (target : string).

Definition locals : GoM (W * wk) wk := gets snd.
Definition upd (f : wk → wk) : GoM (W * wk) unit := modify (λ s, (s.1, f s.2)).
Definition inc (name : string) (labels : list string) : GoM (W * wk) unit :=
  modify (emit (MInc name labels)).

(** [if time.Now().After(nextStats) { ... }] *)
Definition run_stats : GoM (W * wk) unit :=
  t ← gets now;
  l ← locals;
  if wk_nextStats l <? t then
    statCtx ← gets (with_timeout c (3 * Second));
    r ← on_fst (o_OutboxStats statCtx target);
    _ ← (match r with
         | (s, None) =>
             _ ← modify (emit (MSet "otus_outbox_pending" [target] (s_Pending s)));
             modify (emit (MSet "otus_outbox_oldest_pending_seconds" [target] (s_Oldest s)))
         | (_, Some _) => inc "otus_outbox_storage_errors_total" [target]
         end);
    t' ← gets now;
    upd (set_nextStats (t' + Second))
  else mret ().

(** The call of [store.Claim]. *)
Definition run_claim : GoM (W * wk) (option Delivery * option error) :=
  claimCtx ← gets (with_timeout c (3 * Second));
  l ← locals;
  _ ← (if 0 <? wk_claimAttempt l then Retried "postgres" "outbox_claim" else mret ());
  on_fst (o_Claim claimCtx target (45 * Second)).

(** The error branch after [store.Claim]. *)
Definition run_claim_failed : GoM (W * wk) bool :=
  _ ← inc "otus_outbox_storage_errors_total" [target];
  l ← locals;
  let claimAttempt := wrap64 (wk_claimAttempt l + 1) in
  _ ← upd (set_claimAttempt claimAttempt);
  delay ← Backoff claimAttempt;
  Wait c delay.

(** Obtaining a publisher when there is none, and publishing the event. *)
Definition run_publish (d : Delivery) : GoM (W * wk) (option error) :=
  pubCtx ← gets (with_timeout c (10 * Second));
  _ ← (if 1 <? d_Attempts d then Retried target "outbox_publish" else mret ());
  l ← locals;
  err ← (match wk_publisher l with
         | Some _ => mret None
         | None =>
             r ← on_fst (p_factory pubCtx target);
             _ ← upd (set_publisher r.1);
             mret r.2
         end);
  l ← locals;
  match err, wk_publisher l with
  | Some e, _ => mret (Some e)
  | None, None => mret (Some (ErrText "публикатор не настроен"))
  | None, Some p => on_fst (p_Publish p pubCtx (d_Event d))
  end.

(** The error branch after publishing: close the publisher, postpone the row,
    pause. *)
Definition run_failed (d : Delivery) : GoM (W * wk) bool :=
  finishCtx ← gets (with_timeout c (3 * Second));
  _ ← inc "otus_outbox_deliveries_total" [target; "error"];
  l ← locals;
  _ ← (match wk_publisher l with
       | Some p => _ ← on_fst (p_Close p); upd (set_publisher None)
       | None => mret ()
       end);
  delay ← Backoff (Z.max (d_Attempts d) (wrap64 (wk_attempt l + 1)));
  err ← on_fst (o_Retry finishCtx d delay);
  _ ← (match err with
       | Some _ => inc "otus_outbox_storage_errors_total" [target]
       | None => mret ()
       end);
  _ ← upd (set_attempt (wrap64 (wk_attempt l + 1)));
  Wait c delay.

(** The end of the loop body after a successful publication. *)
Definition run_published (d : Delivery) : GoM (W * wk) bool :=
  finishCtx ← gets (with_timeout c (3 * Second));
  err ← on_fst (o_Complete finishCtx d);
  _ ← (match err with
       | Some _ => inc "otus_outbox_storage_errors_total" [target]
       | None => inc "otus_outbox_deliveries_total" [target; "ok"]
       end);
  _ ← upd (set_attempt 0);
  mret true.

(** The part of the loop body after [d, err := store.Claim(...)]; the result is
    false for [return]. *)
Definition run_claimed (d : option Delivery) : GoM (W * wk) bool :=
  _ ← upd (set_claimAttempt 0);
  match d with
  | None => Wait c (250 * Millisecond)
  | Some d =>
      err ← run_publish d;
      match err with
      | Some _ => run_failed d
      | None => run_published d
      end
  end.

(** The body of the loop. *)
Definition run_body : GoM (W * wk) bool :=
  _ ← run_stats;
  r ← run_claim;
  match r with
  | (_, Some _) => run_claim_failed
  | (d, None) => run_claimed d
  end.

(** The deferred close. *)
Definition run_deferred : GoM (W * wk) unit :=
  l ← locals;
  match wk_publisher l with
  | Some p => _ ← on_fst (p_Close p); mret ()
  | None => mret ()
  end.

(** [run] observed after at most [n] iterations of its loop: [true] while it is
    still running, [false] once it has returned (its deferred call included). *)
Fixpoint run (n : nat) : GoM (W * wk) bool :=
  done ← gets (ctx_err c);
  match done with
  | Some _ => _ ← run_deferred; mret false
  | None =>
      match n with
      | O => mret true
      | S n' =>
          go ← run_body;
          if (go : bool) then run n' else _ ← run_deferred; mret false
      end
  end.

End Worker.

(** ** What the interfaces promise

    [accepted] are the events a broker has taken, [claimed] the deliveries
    handed out by the store, [speaks] which broker a publisher is connected to,
    [live] the publishers obtained and not yet closed, and [safe] says that the
    store shows no row as delivered whose event its broker has not taken.  All
    laws leave room for other clients and workers acting on the same store and
    brokers in between. *)
Class OutboxSpec (W : Type) `{Runtime W, OutboxStore W, Publishers W} := {
  accepted : W → string → MessageCreated → Prop;
  claimed : W → Delivery → Prop;
  speaks : W → nat → string → Prop;
  live : W → gset nat;
  safe : W → Prop;

  (** facts that no operation undoes *)
  keeps (w w' : W) : Prop := safe w → safe w' ∧
    (∀ t e, accepted w t e → accepted w' t e) ∧ (∀ d, claimed w d → claimed w' d) ∧
    (∀ h t, speaks w h t → speaks w' h t);
  quiet (w w' : W) : Prop := keeps w w' ∧ live w' = live w;

  spec_frame : Frame quiet;
  spec_claim : ∀ c t lease w, ∃ d err w', o_Claim c t lease w = Some ((d, err), w') ∧ quiet w w' ∧
    (safe w → err = None → ∀ dl, d = Some dl → claimed w' dl ∧ d_Target dl = t ∧ d_Attempts dl <= max_int64);
  spec_retry : ∀ c d delay w, ∃ err w', o_Retry c d delay w = Some (err, w') ∧ quiet w w';
  spec_stats : ∀ c t w, ∃ s err w', o_OutboxStats c t w = Some ((s, err), w') ∧ quiet w w';
  (** completing is only safe for an event that was taken *)
  spec_complete : ∀ c d w, claimed w d → accepted w (d_Target d) (d_Event d) →
    ∃ err w', o_Complete c d w = Some (err, w') ∧ quiet w w';
  spec_factory : ∀ c t w, ∃ p err w', p_factory c t w = Some ((p, err), w') ∧ keeps w w' ∧
    match p with
    | Some h => h ∉ live w ∧ live w' = {[h]} ∪ live w ∧ speaks w' h t
    | None => live w' = live w
    end;
  (** a publisher is given the event of a delivery handed out *)
  spec_publish : ∀ c h d w, safe w → claimed w d → speaks w h (d_Target d) → h ∈ live w →
    ∃ err w', p_Publish h c (d_Event d) w = Some (err, w') ∧ quiet w w' ∧ (err = None → accepted w' (d_Target d) (d_Event d));
  spec_close : ∀ h t w, safe w → speaks w h t →
    ∃ err w', p_Close h w = Some (err, w') ∧ keeps w w' ∧ live w' = live w ∖ {[h]}
}.

#[export] Existing Instance spec_frame.

Section Facts.
Context `{OutboxSpec W} `{!RuntimeLaws W}.
Variables (c : ctx) (target : string).

Definition stable (X : W → Prop) : Prop := ∀ w w', safe w → keeps w w' → X w → X w'.

(** The worker's invariant: nothing unsafe happened, and the one publisher it
    holds is the only one it has not closed. *)
Definition wk_inv (s : W * wk) : Prop :=
  safe s.1 ∧
  match wk_publisher s.2 with
  | Some p => speaks s.1 p target ∧ live s.1 = {[p]}
  | None => live s.1 = ∅
  end.

(** The invariant together with facts about the delivery at hand. *)
Definition inv_and (X : W → Prop) (s : W * wk) : Prop := wk_inv s ∧ X s.1.

Lemma inv_and_quiet X w w' l l' :
  stable X → quiet w w' → wk_publisher l' = wk_publisher l → inv_and X (w, l) → inv_and X (w', l').
Proof.
  intros HX [Hk Hl] Hp [[Hs Hw] Hx]. split; [|by eapply HX].
  destruct (Hk Hs) as (Hs' & _ & _ & Hsp). split; [done|]. cbn in *. rewrite Hp, Hl.
  destruct (wk_publisher l) as [p|]; [|done]. destruct Hw. auto.
Qed.

(** Operations that only involve the runtime, or a quiet call. *)
Lemma quiet_triple {A} X (m : GoM (W * wk) A) :
  stable X →
  (∀ w l, ∃ a w' l', m (w, l) = Some (a, (w', l')) ∧ quiet w w' ∧ wk_publisher l' = wk_publisher l) →
  triple (inv_and X) m (λ _, inv_and X).
Proof.
  intros HX Hm [w l] Hw. destruct (Hm w l) as (a & w' & l' & E & Hq & Hp).
  exists a, (w', l'). split; [done|]. by eapply inv_and_quiet.
Qed.

Lemma triple_inc X name labels : stable X → triple (inv_and X) (inc name labels) (λ _, inv_and X).
Proof.
  intros HX. apply quiet_triple; [done|]. intros w l. eexists _, _, _. split; [done|].
  split; [apply frame_emit|done].
Qed.

Lemma triple_emit X m : stable X → triple (inv_and X) (modify (emit m)) (λ _, inv_and X).
Proof.
  intros HX. apply quiet_triple; [done|]. intros w l. eexists _, _, _. split; [done|].
  split; [apply frame_emit|done].
Qed.

Lemma triple_gets_inv {A} X (f : W * wk → A) : triple (inv_and X) (gets f) (λ _, inv_and X).
Proof. intros s Hs. by exists (f s), s. Qed.

Lemma triple_upd X f :
  (∀ l, wk_publisher (f l) = wk_publisher l) → triple (inv_and X) (upd f) (λ _, inv_and X).
Proof.
  intros Hf [w l] [[Hs Hp] Hx]. eexists _, _. split; [done|]. split; [|done]. split; [done|].
  cbn in *. by rewrite Hf.
Qed.

Lemma Wait_quiet X d :
  stable X → triple (inv_and X) (Wait c d) (λ b s, inv_and X s ∧ (b = true ↔ ctx_err c s.1 = None)).
Proof.
  intros HX [w l] Hw. destruct (Wait_total c d (w, l)) as (b & [w' l'] & E & Hb).
  exists b, (w', l'). split; [done|]. split; [|done].
  pose proof (Wait_frame (on_first quiet) c d _ _ _ E) as Hq.
  pose proof (Wait_frame same_snd c d _ _ _ E) as Hl. cbv in Hl. subst l'.
  by eapply inv_and_quiet.
Qed.

Lemma Backoff_quiet X n :
  stable X → n <= max_int64 → triple (inv_and X) (Backoff n) (λ _, inv_and X).
Proof.
  intros HX Hn. apply quiet_triple; [done|]. intros w l.
  destruct (Backoff n (w, l)) as [[d [w' l']]|] eqn:E.
  - exists d, w', l'. split; [done|].
    split; [apply (Jitter_frame (on_first quiet) _ _ _ _ _ _ E)|].
    pose proof (Jitter_frame same_snd _ _ _ _ _ _ E) as Hl. cbv in Hl. by subst l'.
  - exfalso. unfold Backoff in E. destruct (Jitter_run n Second (30 * Second) (w, l)) as (x & ? & E' & _);
      [done..|]. congruence.
Qed.

Lemma stable_True : stable (λ _, True).
Proof. done. Qed.

Definition held (d : Delivery) (w : W) : Prop := claimed w d.
Definition taken (d : Delivery) (w : W) : Prop := claimed w d ∧ accepted w target (d_Event d).

Lemma stable_held d : stable (held d).
Proof. intros w w' Hs Hk. apply (Hk Hs). Qed.

Lemma stable_taken d : stable (taken d).
Proof. intros w w' Hs Hk []. destruct (Hk Hs) as (_ & ? & ? & _). split; auto. Qed.

#[local] Hint Resolve stable_True stable_held stable_taken : otus.

Lemma on_fst_quiet {A} X (m : GoM W A) :
  stable X → (∀ w, ∃ a w', m w = Some (a, w') ∧ quiet w w') →
  triple (inv_and X) (on_fst m) (λ _, inv_and X).
Proof.
  intros HX Hm. apply quiet_triple; [done|]. intros w l. destruct (Hm w) as (a & w' & E & Hq).
  exists a, w', l. unfold on_fst; cbn. by rewrite E.
Qed.

Lemma run_stats_spec : triple (inv_and (λ _, True)) (run_stats c target) (λ _, inv_and (λ _, True)).
Proof.
  eapply triple_bind; [apply triple_gets_inv|intros t]. eapply triple_bind; [apply triple_gets_inv|intros l].
  destruct (wk_nextStats l <? t); [|apply (triple_ret () (λ _, inv_and _))].
  eapply triple_bind; [apply triple_gets_inv|intros sc].
  eapply triple_bind.
  { apply on_fst_quiet; [auto with otus|]. intros w. destruct (spec_stats sc target w) as (s & e & w' & ? & ?). eauto. }
  intros [s e]. eapply (triple_bind _ (λ _, inv_and (λ _, True))).
  { destruct e; [by apply triple_inc|].
    eapply (triple_bind _ (λ _, inv_and (λ _, True))); [by apply triple_emit|intros _; by apply triple_emit]. }
  intros _. eapply triple_bind; [apply triple_gets_inv|intros t']. by apply triple_upd.
Qed.

Lemma run_claim_spec :
  triple (inv_and (λ _, True)) (run_claim c target) (λ r s,
    inv_and (λ _, True) s ∧
    (r.2 = None → ∀ d, r.1 = Some d → inv_and (held d) s ∧ d_Target d = target ∧ d_Attempts d <= max_int64)).
Proof.
  eapply triple_bind; [apply triple_gets_inv|intros cc]. eapply triple_bind; [apply triple_gets_inv|intros l].
  eapply (triple_bind _ (λ _, inv_and (λ _, True))).
  { destruct (0 <? wk_claimAttempt l); [by apply triple_emit|apply (triple_ret () (λ _, inv_and _))]. }
  intros _ [w l1] Hw. destruct (spec_claim cc target (45 * Second) w) as (d & err & w' & E & Hq & Hd).
  exists (d, err), (w', l1). unfold on_fst; cbn. rewrite E. split; [done|].
  pose proof (inv_and_quiet (λ _, True) w w' l1 l1 stable_True Hq eq_refl Hw) as Hw'.
  split; [done|]. intros He dl Hdl. destruct (Hd ltac:(apply Hw) He dl Hdl) as (? & ? & ?). by destruct Hw'.
Qed.

(** Publishing: on success the broker has taken the event. *)
Lemma run_publish_spec d :
  d_Target d = target → triple (inv_and (held d)) (run_publish c target d) (λ err s,
    inv_and (held d) s ∧ (err = None → inv_and (taken d) s)).
Proof.
  intros Htg. eapply triple_bind; [apply triple_gets_inv|intros pc]. eapply (triple_bind _ (λ _, inv_and (held d))).
  { destruct (1 <? d_Attempts d); [apply triple_emit; auto with otus|apply (triple_ret () (λ _, inv_and _))]. }
  intros _. eapply (triple_bind _ (λ l s, s.2 = l ∧ inv_and (held d) s)).
  { intros s Hs. by exists s.2, s. }
  intros l. eapply (triple_bind _ (λ _, inv_and (held d))).
  { intros [w l'] [Hl Hw]. cbn in Hl. subst l'. destruct (wk_publisher l) as [p|] eqn:Hp.
    { eexists _, _. split; [done|]. exact Hw. }
    destruct (spec_factory pc target w) as (p & err & w' & E & Hk & Hl).
    eexists _, (w', set_publisher p l). split.
    { erewrite gom_bind_run; [|unfold on_fst; cbn; rewrite E; done]. done. }
    destruct Hw as [[Hs Hpub] Hx]. cbn in Hpub, Hs. rewrite Hp in Hpub. split.
    - split; [by apply Hk|]. cbn. destruct p as [h|]; [|set_solver]. destruct Hl as (_ & -> & ?). set_solver.
    - by eapply stable_held. }
  intros err. eapply (triple_bind _ (λ l s, s.2 = l ∧ inv_and (held d) s)).
  { intros s Hs. by exists s.2, s. }
  intros l' [w l1] [Hl Hw]. cbn in Hl. subst l1. destruct err as [e|]; [by eexists _, _|].
  destruct (wk_publisher l') as [p|] eqn:Hp; [|by eexists _, _].
  pose proof Hw as [[Hsafe Hpub] Hcl]. cbn in Hpub, Hsafe. rewrite Hp, <- Htg in Hpub. destruct Hpub as [Hsp Hlive].
  destruct (spec_publish pc p d w Hsafe Hcl Hsp ltac:(set_solver)) as (err & w' & E & Hq & Ha).
  exists err, (w', l'). unfold on_fst; cbn. rewrite E. split; [done|].
  pose proof (inv_and_quiet _ w w' l' l' (stable_held d) Hq eq_refl Hw) as Hw'. split; [done|].
  intros He. destruct Hw' as [? Hh]. split; [done|]. split; [done|]. rewrite <- Htg. by apply Ha.
Qed.

(** Reading the locals. *)
Lemma locals_spec X : triple (inv_and X) locals (λ l s, s.2 = l ∧ inv_and X s).
Proof. intros s Hs. by exists s.2, s. Qed.

Lemma close_publisher_spec X l :
  stable X →
  triple (λ s, s.2 = l ∧ inv_and X s)
    (match wk_publisher l with
     | Some p => _ ← on_fst (p_Close p); upd (set_publisher None)
     | None => mret ()
     end) (λ _, inv_and X).
Proof.
  intros HX [w l'] [Hl [[Hs Hp] Hx]]. cbn in Hl, Hs, Hp, Hx. subst l'.
  destruct (wk_publisher l) as [p|] eqn:E.
  - destruct Hp as [Hsp Hl]. destruct (spec_close p target w Hs Hsp) as (e & w' & E' & Hk & Hl').
    eexists _, (w', set_publisher None l). split.
    { erewrite gom_bind_run; [|unfold on_fst; cbn; rewrite E'; done]. done. }
    split; [|by eapply HX]. split; [by apply Hk|]. cbn. set_solver.
  - eexists _, _. split; [done|]. split; [|done]. split; [done|]. cbn. by rewrite E.
Qed.

(** The result of an iteration: [false] only when the context is done. *)
Definition iter_post (b : bool) (s : W * wk) : Prop :=
  inv_and (λ _, True) s ∧ (b = false → ctx_err c s.1 ≠ None).

Lemma Wait_post X d : stable X → triple (inv_and X) (Wait c d) iter_post.
Proof.
  intros HX. eapply triple_conseq; [by apply Wait_quiet|done|].
  intros b s [[Hi _] Hb]. split; [done|]. intros -> Hc. by apply Hb in Hc.
Qed.

Lemma run_failed_spec d :
  d_Attempts d <= max_int64 → triple (inv_and (held d)) (run_failed c target d) iter_post.
Proof.
  intros Hatt. eapply triple_bind; [apply triple_gets_inv|intros fc].
  eapply (triple_bind _ (λ _, inv_and (held d))); [apply triple_inc; auto with otus|intros _].
  eapply triple_bind; [apply locals_spec|intros l].
  eapply (triple_bind _ (λ _, inv_and (held d))); [apply close_publisher_spec; auto with otus|intros _].
  pose proof (wrap64_range (wk_attempt l + 1)) as [_ Hw].
  eapply triple_bind; [apply Backoff_quiet; [auto with otus|lia]|intros delay].
  eapply triple_bind.
  { apply on_fst_quiet; [auto with otus|]. intros w. apply spec_retry. }
  intros err. eapply (triple_bind _ (λ _, inv_and (held d))).
  { destruct err; [apply triple_inc; auto with otus|apply (triple_ret () (λ _, inv_and _))]. }
  intros _. eapply (triple_bind _ (λ _, inv_and (held d))); [by apply triple_upd|intros _].
  apply (Wait_post (held d)). auto with otus.
Qed.

Lemma run_published_spec d :
  d_Target d = target → triple (inv_and (taken d)) (run_published c target d) iter_post.
Proof.
  intros Htg. eapply triple_bind; [apply triple_gets_inv|intros fc].
  eapply (triple_bind _ (λ _, inv_and (λ _, True))).
  { intros [w l] Hw. pose proof Hw as [_ [Hc Ha]]. cbn in Hc, Ha. rewrite <- Htg in Ha.
    destruct (spec_complete fc d w Hc Ha) as (err & w' & E & Hq).
    exists err, (w', l). unfold on_fst; cbn. rewrite E. split; [done|].
    destruct Hw as [Hw _]. by eapply (inv_and_quiet (λ _, True)). }
  intros err. eapply (triple_bind _ (λ _, inv_and (λ _, True))); [destruct err; by apply triple_inc|intros _].
  eapply (triple_bind _ (λ _, inv_and (λ _, True))); [by apply triple_upd|intros _].
  intros s Hs. by eexists _, _.
Qed.

Lemma run_claimed_spec r :
  triple (λ s, inv_and (λ _, True) s ∧
    (∀ d, r = Some d → inv_and (held d) s ∧ d_Target d = target ∧ d_Attempts d <= max_int64))
    (run_claimed c target r) iter_post.
Proof.
  apply triple_pre. intros s0 [Hs0 Hd]. destruct r as [d|].
  - destruct (Hd d eq_refl) as (Hh & Htg & Hatt).
    eapply (triple_bind _ (λ _, inv_and (held d))).
    { eapply triple_conseq; [by apply triple_upd|by intros ? ->|done]. }
    intros _. eapply triple_bind; [by apply run_publish_spec|]. intros [e|].
    + eapply triple_conseq; [by apply run_failed_spec|by intros ? []|done].
    + eapply triple_conseq; [by apply run_published_spec| |done]. intros s [_ Ht]. by apply Ht.
  - eapply (triple_bind _ (λ _, inv_and (λ _, True))).
    { eapply triple_conseq; [by apply triple_upd|by intros ? ->|done]. }
    intros _. apply (Wait_post (λ _, True)). auto with otus.
Qed.

Lemma run_body_spec : triple (inv_and (λ _, True)) (run_body c target) iter_post.
Proof.
  eapply (triple_bind _ (λ _, inv_and (λ _, True))); [apply run_stats_spec|intros _]. eapply triple_bind; [apply run_claim_spec|].
  intros [d [e|]].
  - eapply triple_conseq with (P := inv_and (λ _, True)) (Q := iter_post); [|by intros ? []|done].
    eapply (triple_bind _ (λ _, inv_and (λ _, True))); [by apply triple_inc|intros _].
    eapply triple_bind; [apply triple_gets_inv|intros l].
    eapply (triple_bind _ (λ _, inv_and (λ _, True))); [by apply triple_upd|intros _].
    pose proof (wrap64_range (wk_claimAttempt l + 1)) as [_ Hw].
    eapply triple_bind; [apply Backoff_quiet; [auto with otus|lia]|intros delay].
    apply (Wait_post (λ _, True)). auto with otus.
  - eapply triple_conseq; [apply run_claimed_spec| |done]. intros s [Hs Hd]. split; [done|]. cbn in Hd. auto.
Qed.

Lemma run_deferred_spec :
  triple (inv_and (λ _, True)) run_deferred (λ _ s, safe s.1 ∧ live s.1 = ∅).
Proof.
  intros [w l] [[Hs Hp] _]. cbn in Hs, Hp. unfold run_deferred, locals. rewrite gom_gets_bind. cbn.
  destruct (wk_publisher l) as [p|]; [|by eexists _, _].
  destruct Hp as [Hsp Hl]. destruct (spec_close p target w Hs Hsp) as (e & w' & E & Hk & Hl').
  eexists _, (w', l). split.
  { erewrite gom_bind_run; [|unfold on_fst; cbn; rewrite E; done]. done. }
  split; [by apply Hk|]. cbn. set_solver.
Qed.

(** What can be said of [run] after [n] iterations. *)
Definition run_post (b : bool) (s : W * wk) : Prop :=
  safe s.1 ∧
  if b then match wk_publisher s.2 with Some p => live s.1 = {[p]} | None => live s.1 = ∅ end
  else live s.1 = ∅.

(** Leaving the loop: the context was done, and the deferred call ran then. *)
Lemma run_exit s0 :
  inv_and (λ _, True) s0 → ctx_err c s0.1 ≠ None →
  ∃ b s, (_ ← run_deferred; mret false) s0 = Some (b, s) ∧ run_post b s ∧
    (b = false → ∃ s1, ctx_err c s1.1 ≠ None ∧ run_deferred s1 = Some ((), s)).
Proof.
  intros Hi Hc. destruct (run_deferred_spec s0 Hi) as ([] & s & E & Hs).
  rewrite (gom_bind_run _ _ _ _ _ E). exists false, s. split; [done|]. split; [done|]. eauto.
Qed.

Lemma run_spec n :
  triple (inv_and (λ _, True)) (run c target n) (λ b s,
    run_post b s ∧ (b = false → ∃ s1, ctx_err c s1.1 ≠ None ∧ run_deferred s1 = Some ((), s))).
Proof.
  induction n as [|n IH]; intros [w l] Hs; cbn [run]; rewrite gom_gets_bind; cbn [ctx_err runtime_pair fst].
  - destruct (ctx_err c w) eqn:E; [apply run_exit; [done|cbn; congruence]|].
    eexists _, _. split; [done|]. split; [|done]. destruct Hs as [[? Hp] _]. split; [done|].
    cbn in *. by destruct (wk_publisher l) as [p|]; [destruct Hp|].
  - destruct (ctx_err c w) eqn:E; [apply run_exit; [done|cbn; congruence]|].
    destruct (run_body_spec (w, l) Hs) as (b & s' & E' & Hi & Hb).
    rewrite (gom_bind_run _ _ _ _ _ E'). destruct b; [by apply IH|]. apply run_exit; auto.
Qed.

End Facts.

(** At-least-once delivery.  Against any store and brokers that keep the
    interfaces' promises, however calls fail, the worker never panics, never
    makes the store show an event as delivered that its broker has not taken,
    holds at most one open publisher, and leaves its loop only when its context
    is done, closing the publisher it still holds. *)
Theorem worker_at_least_once `{OutboxSpec W} `{!RuntimeLaws W} (c : ctx) (target : string) (n : nat) (w : W) :
  safe w → live w = ∅ →
  ∃ b w' l, run c target n (w, wk0) = Some (b, (w', l)) ∧ safe w' ∧
    (b = true → live w' = match wk_publisher l with Some p => {[p]} | None => ∅ end) ∧
    (b = false → live w' = ∅ ∧ ∃ s1 : W * wk, ctx_err c s1.1 ≠ None ∧ run_deferred s1 = Some ((), (w', l))).
Proof.
  intros Hs Hl. destruct (run_spec c target n (w, wk0)) as (b & [w' l] & E & [Hs' Hp] & Hb); [by split|].
  exists b, w', l. split; [done|]. split; [done|]. destruct b; [|split; [done|auto]].
  split; [|done]. intros _. cbn in Hp. by destruct (wk_publisher l).
Qed.
