(* ===== verification/PostgresWorker.v ===== *)
(** * PostgresWorker: the worker on the Postgres outbox

    The store interface of [OutboxWorker] implemented by [Storage], with
    brokers that keep what they take, and other clients and workers acting on
    the same tables before every call.  The instance discharges the interface's
    laws, so that the worker's theorem holds of the concrete system. *)

From stdpp Require Import base option list strings gmap relations pretty.
From Stdlib Require Import ZArith Lia.
From S2P Require Import Prelude GoStrings Messaging EventJson Storage StorageProps Retry OutboxWorker.
Local Open Scope Z_scope.

(** What other clients and workers do. *)
Inductive act :=
| ActCreate (env : tx_env) (text key : string)
| ActClaim (env : st_env) (target : string) (lease : Z) (token : string)
| ActRetry (env : st_env) (dl : Delivery) (delay : Z)
| ActDeliver (env : st_env) (dl : Delivery). (* publish, then complete *)

(** The choices left to the environment: the fate of each call, the tokens, what
    others do in between. *)
Class Oracle := {
  targets_of : list string;
  st_fate : nat → st_env;
  token_of : nat → string;
  pub_fate : nat → exec_outcome;
  dial_fate : nat → bool * option error;
  others : nat → list act
}.

(** The world: the runtime, the tables, what each broker has taken, the open
    publishers and which broker each publisher was dialled for. *)
Record pw := mkPw {
  pw_sim : sim;
  pw_db : db;
  pw_log : list (string * MessageCreated);
  pw_open : gset nat;
  pw_dialled : gmap nat string;
  pw_tick : nat
}.

Definition set_sim (s : sim) (w : pw) : pw :=
  mkPw s (pw_db w) (pw_log w) (pw_open w) (pw_dialled w) (pw_tick w).
Definition set_db (d : db) (w : pw) : pw :=
  mkPw (pw_sim w) d (pw_log w) (pw_open w) (pw_dialled w) (pw_tick w).
Definition take_event (t : string) (ev : MessageCreated) (w : pw) : pw :=
  mkPw (pw_sim w) (pw_db w) ((t, ev) :: pw_log w) (pw_open w) (pw_dialled w) (pw_tick w).
Definition tick (w : pw) : pw :=
  mkPw (pw_sim w) (pw_db w) (pw_log w) (pw_open w) (pw_dialled w) (S (pw_tick w)).

#[export] Instance pw_runtime : Runtime pw := {
  now w := now (pw_sim w);
  ctx_err c w := ctx_err c (pw_sim w);
  draw n w := let '(z, s) := draw n (pw_sim w) in (z, set_sim s w);
  select_timer c d w := let '(b, s) := select_timer c d (pw_sim w) in (b, set_sim s w);
  emit m w := set_sim (emit m (pw_sim w)) w
}.

#[export] Instance pw_laws : RuntimeLaws pw.
Proof.
  split.
  - intros n w Hn. exact (draw_range n (pw_sim w) Hn).
  - intros c d w. exact (select_done c d (pw_sim w)).
  - intros w. exact (background_alive (pw_sim w)).
  - intros c w e. exact (ctx_err_kind c (pw_sim w) e).
  - intros m w. exact (emit_now m (pw_sim w)).
  - intros m c w. exact (emit_ctx m c (pw_sim w)).
Defined.

Section Instances.
Context `{EventCodec, Oracle}.

(** The event of the row a delivery names is the delivery's. *)
Definition carries (dl : Delivery) (d : db) : Prop :=
  (db_outbox d !! (d_MessageID dl, d_Target dl)) ≫= (λ r, unmarshal (ob_payload r)) = Some (d_Event dl).

#[export] Instance carries_dec dl d : Decision (carries dl d).
Proof. unfold carries. apply _. Defined.

Lemma carries_storable dl d : db_inv d → carries dl d → event_storable (d_Event dl).
Proof.
  unfold carries. intros Hinv. destruct (db_outbox d !! _) as [r|] eqn:E; [|done]. cbn. intros Hu.
  by destruct (outbox_event_ok _ _ _ _ Hinv E Hu).
Qed.

Definition do_act (w : pw) (a : act) : pw :=
  match a with
  | ActCreate env text key => set_db (Create env targets_of text key (pw_db w)).2 w
  | ActClaim env target lease token => set_db (Claim env target lease token (pw_db w)).2 w
  | ActRetry env dl delay => set_db (Retry env dl delay (pw_db w)).2 w
  | ActDeliver env dl =>
      if decide (carries dl (pw_db w))
      then set_db (Complete env dl (pw_db w)).2 (take_event (d_Target dl) (d_Event dl) w) else w
  end.

(** The others act, then the call runs. *)
Definition interfere (w : pw) : pw := tick (foldl do_act w (others (pw_tick w))).

Definition call_db {A} (f : db → A * db) : GoM pw A := λ w,
  let w := interfere w in
  let '(a, d) := f (pw_db w) in Some (a, set_db d w).

#[export] Instance pw_store : OutboxStore pw := {
  o_Claim c t lease w := call_db (Claim (st_fate (pw_tick w)) t lease (token_of (pw_tick w))) w;
  o_Complete c dl w := call_db (Complete (st_fate (pw_tick w)) dl) w;
  o_Retry c dl delay w := call_db (Retry (st_fate (pw_tick w)) dl delay) w;
  o_OutboxStats c t w := call_db (λ d, (OutboxStats (st_fate (pw_tick w)) t d, d)) w
}.

(** Dialling yields a fresh handle or none; a publication is taken or not, and
    its acknowledgement can be lost. *)
Definition pw_factory (t : string) (w : pw) : (option nat * option error) * pw :=
  let '(got, err) := dial_fate (pw_tick w) in
  let w := interfere w in
  if (got : bool) then
    let h := fresh (pw_open w ∪ dom (pw_dialled w)) in
    ((Some h, err),
     mkPw (pw_sim w) (pw_db w) (pw_log w) ({[h]} ∪ pw_open w) (<[h := t]> (pw_dialled w)) (pw_tick w))
  else ((None, err), w).

Definition pw_publish (h : nat) (ev : MessageCreated) (w : pw) : option error * pw :=
  let fate := pub_fate (pw_tick w) in
  let w := interfere w in
  match pw_dialled w !! h with
  | None => (Some (ErrText "closed"), w)
  | Some t => (exec_error fate, if took_effect fate then take_event t ev w else w)
  end.

Definition pw_close (h : nat) (w : pw) : option error * pw :=
  let w := interfere w in
  (None, mkPw (pw_sim w) (pw_db w) (pw_log w) (pw_open w ∖ {[h]}) (pw_dialled w) (pw_tick w)).

#[export] Instance pw_publishers : Publishers pw := {
  p_factory c t w := Some (pw_factory t w);
  p_Publish h c ev w := Some (pw_publish h ev w);
  p_Close h w := Some (pw_close h w)
}.

(** ** The laws *)

(** Every row marked delivered carries an event its broker has taken. *)
Definition pw_safe (w : pw) : Prop :=
  db_inv (pw_db w) ∧
  ∀ k r, db_outbox (pw_db w) !! k = Some r → is_Some (ob_delivered r) →
    ∃ ev, unmarshal (ob_payload r) = Some ev ∧ (k.2, ev) ∈ pw_log w.

Definition pw_keeps (w w' : pw) : Prop := pw_safe w → pw_safe w' ∧
  (∀ t e, (t, e) ∈ pw_log w → (t, e) ∈ pw_log w') ∧
  (∀ dl, carries dl (pw_db w) → carries dl (pw_db w')) ∧
  (∀ h t, pw_dialled w !! h = Some t → pw_dialled w' !! h = Some t).

Definition pw_quiet (w w' : pw) : Prop := pw_keeps w w' ∧ pw_open w' = pw_open w.

Lemma pw_quiet_refl w : pw_quiet w w.
Proof. by split. Qed.

Lemma pw_quiet_trans w1 w2 w3 : pw_quiet w1 w2 → pw_quiet w2 w3 → pw_quiet w1 w3.
Proof.
  intros [K12 E12] [K23 E23]. split; [|congruence]. intros S1.
  destruct (K12 S1) as (S2 & ? & ? & ?). destruct (K23 S2) as (S3 & ? & ? & ?). auto 10.
Qed.

(** Changing only the tables, by a step that marks nothing as delivered
    undeservedly. *)
Lemma set_db_quiet w d' :
  (db_inv (pw_db w) → rtc (db_step targets_of) (pw_db w) d') →
  (∀ k r', pw_safe w → db_outbox d' !! k = Some r' → is_Some (ob_delivered r') →
     (∃ r, db_outbox (pw_db w) !! k = Some r ∧ is_Some (ob_delivered r) ∧ ob_payload r = ob_payload r') ∨
     ∃ ev, unmarshal (ob_payload r') = Some ev ∧ (k.2, ev) ∈ pw_log w) →
  pw_quiet w (set_db d' w).
Proof.
  intros Hstep Hdel. split; [|done]. intros Hsafe. pose proof Hsafe as [Hinv Hs]. specialize (Hstep Hinv).
  split_and!; [|done| |done].
  - split; [by eapply db_steps_inv|]. intros k r' Hr' Hd.
    destruct (Hdel k r' Hsafe Hr' Hd) as [(r & Hr & Hrd & Hp)|?]; [|done].
    rewrite <- Hp. by eapply Hs.
  - intros dl. unfold carries. cbn. destruct (db_outbox (pw_db w) !! _) as [r|] eqn:E; [|done]. cbn.
    destruct (db_steps_evolve targets_of _ _ _ _ Hinv Hstep E) as (r' & -> & _ & Hp & _). cbn. by rewrite Hp.
Qed.

(** Operations that leave every delivery mark as it was. *)
Lemma marks_quiet w d' :
  (db_inv (pw_db w) → db_step targets_of (pw_db w) d') →
  (∀ k r', db_inv (pw_db w) → db_outbox d' !! k = Some r' → is_Some (ob_delivered r') →
     ∃ r, db_outbox (pw_db w) !! k = Some r ∧ is_Some (ob_delivered r) ∧ ob_payload r = ob_payload r') →
  pw_quiet w (set_db d' w).
Proof.
  intros Hs Hm. apply set_db_quiet; [by intros; apply rtc_once, Hs|]. intros k r' [Hinv _] Hr Hd. left. by apply Hm.
Qed.

(** A row marked delivered after an operation was so before, with its payload. *)
Definition marks_kept (d d' : db) : Prop :=
  ∀ k r', db_outbox d' !! k = Some r' → is_Some (ob_delivered r') →
    ∃ r, db_outbox d !! k = Some r ∧ is_Some (ob_delivered r) ∧ ob_payload r = ob_payload r'.

Lemma create_marks env targets text key d res d' : db_inv d → Create env targets text key d = (res, d') → marks_kept d d'.
Proof.
  intros Hinv E k r' Hr' Hd.
  apply Create_effect in E as [(_ & Ho & _)|(_ & x & [_ _ _ _ _ _ _ (p & _ & _ & ->)] & _)]; [| |apply Hinv].
  - rewrite Ho in Hr'. eauto.
  - cbn in Hr'. rewrite add_targets_lookup in Hr'. destruct (db_outbox d !! k) as [r|]; [injection Hr' as ->; eauto|].
    case_bool_decide; [|done]. injection Hr' as <-. by destruct Hd.
Qed.

Lemma claim_marks env t lease token d res d' : Claim env t lease token d = (res, d') → marks_kept d d'.
Proof.
  intros E k r' Hr' Hd. apply Claim_effect in E as [[-> _]|(x & Hc & _ & -> & _)]; [eauto|]. cbn in Hr'.
  apply lookup_insert_Some in Hr' as [[<- <-]|[_ Hr']]; [|eauto].
  apply candidate_Some in Hc as ((kx & Hx) & (_ & Hnone & _)%claimable_true & _). cbn in Hd.
  rewrite Hnone in Hd. by destruct Hd.
Qed.

Lemma retry_marks env dl delay d res d' : Retry env dl delay d = (res, d') → marks_kept d d'.
Proof.
  intros E k r' Hr' Hd. apply update_leased_effect in E as [[-> _]|(x & Hl & _ & _ & ->)]; [eauto|]. cbn in Hr'.
  apply lookup_insert_Some in Hr' as [[<- <-]|[_ Hr']]; [|eauto].
  apply leased_Some in Hl as (_ & _ & Hnone). cbn in Hd. rewrite Hnone in Hd. by destruct Hd.
Qed.

Lemma create_quiet env text key w :
  pw_quiet w (set_db (Create env targets_of text key (pw_db w)).2 w).
Proof.
  destruct (Create env targets_of text key (pw_db w)) as [res d'] eqn:E. cbn.
  apply marks_quiet; [intros _; by eapply st_create|]. intros k r' Hinv. by eapply create_marks.
Qed.

Lemma claim_quiet env t lease token w res d' :
  Claim env t lease token (pw_db w) = (res, d') → pw_quiet w (set_db d' w).
Proof. intros E. apply marks_quiet; [intros _; by eapply st_claim|]. intros k r' _. by eapply claim_marks. Qed.

Lemma retry_quiet env dl delay w res d' :
  Retry env dl delay (pw_db w) = (res, d') → pw_quiet w (set_db d' w).
Proof. intros E. apply marks_quiet; [intros _; by eapply st_retry|]. intros k r' _. by eapply retry_marks. Qed.

(** Completing a row whose event was taken. *)
Lemma complete_quiet env dl w res d' :
  carries dl (pw_db w) → (d_Target dl, d_Event dl) ∈ pw_log w →
  Complete env dl (pw_db w) = (res, d') → pw_quiet w (set_db d' w).
Proof.
  intros Hc Hlog E. apply set_db_quiet; [intros _; apply rtc_once; by eapply st_complete|].
  intros k r' _ Hr' Hd.
  apply update_leased_effect in E as [[-> _]|(x & Hl & _ & _ & ->)]; [eauto|]. cbn in Hr'.
  apply lookup_insert_Some in Hr' as [[<- <-]|[_ Hr']]; [|eauto].
  right. exists (d_Event dl). split; [|done]. apply leased_Some in Hl as (Hl & _).
  unfold carries in Hc. by rewrite Hl in Hc.
Qed.

Lemma take_event_quiet t ev w : pw_quiet w (take_event t ev w).
Proof.
  split; [|done]. intros [Hinv Hs]. split_and!; cbn; [|set_solver|done..].
  split; [done|]. intros k r Hr Hd. destruct (Hs k r Hr Hd) as (e & ? & ?). exists e. cbn. set_solver.
Qed.

Lemma do_act_quiet w a : pw_quiet w (do_act w a).
Proof.
  destruct a as [env text key|env t lease token|env dl delay|env dl]; cbn.
  - apply create_quiet.
  - eapply claim_quiet, surjective_pairing.
  - eapply retry_quiet, surjective_pairing.
  - destruct (decide _) as [Hc|]; [|apply pw_quiet_refl].
    eapply pw_quiet_trans; [apply take_event_quiet|].
    eapply (complete_quiet env dl (take_event (d_Target dl) (d_Event dl) w)); [done|by left|apply surjective_pairing].
Qed.

Lemma interfere_quiet w : pw_quiet w (interfere w).
Proof.
  unfold interfere. assert (pw_quiet w (foldl do_act w (others (pw_tick w)))) as Hq.
  { generalize (others (pw_tick w)). intros acts. revert w. induction acts as [|a acts IH]; intros w; cbn;
      [apply pw_quiet_refl|]. eapply pw_quiet_trans; [apply do_act_quiet|apply IH]. }
  eapply pw_quiet_trans; [exact Hq|]. by split.
Qed.

#[export] Instance pw_frame : Frame pw_quiet.
Proof.
  split.
  - apply pw_quiet_refl.
  - apply pw_quiet_trans.
  - by split.
  - by split.
  - by split.
Qed.

Lemma Claim_carries env t lease token d dl d' :
  Claim env t lease token d = ((Some dl, None), d') → carries dl d' ∧ d_Target dl = t ∧ d_Attempts dl <= max_int64.
Proof.
  intros E. pose proof (Claim_attempts _ _ _ _ _ _ _ _ E) as Hatt.
  apply Claim_effect in E as [[_ ?]|(r & Hc & _ & -> & Hdl)]; [done|].
  destruct (Hdl dl eq_refl) as (_ & Heq & Hu). rewrite Heq. rewrite Heq in Hatt. cbn in Hatt |- *.
  apply candidate_Some in Hc as (_ & (Htg & _)%claimable_true & _).
  split_and!; [|done|unfold max_int32, max_int64 in *; lia].
  unfold carries. cbn. rewrite <- Htg. fold (ob_key r). by rewrite lookup_insert_eq.
Qed.

Lemma pw_claim_ok c t lease w :
  ∃ d err w', o_Claim c t lease w = Some ((d, err), w') ∧ pw_quiet w w' ∧
    (pw_safe w → err = None → ∀ dl, d = Some dl →
       carries dl (pw_db w') ∧ d_Target dl = t ∧ d_Attempts dl <= max_int64).
Proof.
  cbn. unfold call_db. destruct (Claim _ _ _ _ _) as [[d err] d'] eqn:E. eexists d, err, _. split; [done|]. split.
  { eapply pw_quiet_trans; [apply interfere_quiet|]. by eapply claim_quiet. }
  intros _ -> dl ->. by eapply Claim_carries.
Qed.

Lemma pw_complete_ok c dl w :
  carries dl (pw_db w) → (d_Target dl, d_Event dl) ∈ pw_log w →
  ∃ err w', o_Complete c dl w = Some (err, w') ∧ pw_quiet w w'.
Proof.
  intros Hc Hl. cbn. unfold call_db. destruct (Complete _ _ _) as [err d'] eqn:E.
  eexists _, _. split; [done|]. pose proof (interfere_quiet w) as [Hk Ho]. split; [|done].
  intros Hs. destruct (Hk Hs) as (Hs' & Hlog & Hcar & Hdial).
  destruct (complete_quiet _ _ _ _ _ (Hcar _ Hc) (Hlog _ _ Hl) E) as [Hk' _].
  destruct (Hk' Hs') as (? & ? & ? & ?). split_and!; auto.
Qed.

Lemma pw_factory_ok t w :
  ∃ p err w', Some (pw_factory t w) = Some ((p, err), w') ∧ pw_keeps w w' ∧
    match p with
    | Some h => h ∉ pw_open w ∧ pw_open w' = {[h]} ∪ pw_open w ∧ pw_dialled w' !! h = Some t
    | None => pw_open w' = pw_open w
    end.
Proof.
  pose proof (interfere_quiet w) as [Hk Ho].
  unfold pw_factory. destruct (dial_fate _) as [[|] err]; cbn; eexists _, _, _; (split; [done|]); [|done].
  set (h := fresh _). assert (h ∉ pw_open (interfere w) ∪ dom (pw_dialled (interfere w))) as Hf by apply is_fresh.
  split; [|cbn; rewrite lookup_insert_eq; set_solver].
  intros Hs. destruct (Hk Hs) as (? & ? & ? & Hd). split_and!; [done..|]. intros h' t' Hh. cbn.
  rewrite lookup_insert_ne; [auto|]. intros <-. apply Hd in Hh. apply elem_of_dom_2 in Hh. set_solver.
Qed.

Lemma pw_publish_ok h t ev w :
  pw_safe w → pw_dialled w !! h = Some t →
  ∃ err w', Some (pw_publish h ev w) = Some (err, w') ∧ pw_quiet w w' ∧
    (err = None → (t, ev) ∈ pw_log w').
Proof.
  intros Hs Hh. pose proof (interfere_quiet w) as Hq. destruct Hq as [Hk Ho].
  destruct (Hk Hs) as (_ & _ & _ & Hd). unfold pw_publish. rewrite (Hd _ _ Hh).
  destruct (pub_fate _); cbn; eexists _, _; (split; [done|]); (split; [|try done]); try (by left);
    (eapply pw_quiet_trans; [apply interfere_quiet|]); apply take_event_quiet || apply pw_quiet_refl.
Qed.

(** The concrete store and brokers keep the interfaces' promises. *)
#[export] Instance pw_spec : OutboxSpec pw.
Proof.
  refine {| accepted w t e := (t, e) ∈ pw_log w; claimed w dl := carries dl (pw_db w);
            speaks w h t := pw_dialled w !! h = Some t; live := pw_open; safe := pw_safe |}.
  - apply pw_claim_ok.
  - intros c d delay w. cbn. unfold call_db. destruct (Retry _ _ _ _) as [err d'] eqn:E.
    eexists _, _. split; [done|]. eapply pw_quiet_trans; [apply interfere_quiet|]. by eapply retry_quiet.
  - intros c t w. cbn. unfold call_db. destruct (OutboxStats _ _ _) as [s err].
    eexists _, _, _. split; [done|]. eapply pw_quiet_trans; [apply interfere_quiet|]. by split.
  - apply pw_complete_ok.
  - intros c t w. apply pw_factory_ok.
  - intros c h d w Hs _ Hh _. by apply pw_publish_ok.
  - intros h t w _ _. eexists _, _. split; [done|]. pose proof (interfere_quiet w) as [Hk Ho]. split; [exact Hk|]. exact (f_equal (λ x, x ∖ {[h]}) Ho).
Defined.

End Instances.

(** ** A faultless run *)

Definition calm_oracle : Oracle := {|
  targets_of := ex_targets;
  st_fate n := mkSt 100 Ran [];
  token_of n := "token" +:+ pretty n;
  pub_fate n := Ran;
  dial_fate n := (true, None);
  others n := []
|}.

Definition pw0 (d : db) : pw := mkPw sim0 d [] ∅ ∅ 0.

Lemma worker_at_least_once_witness :
  ∃ b w' l, @run pw pw_runtime (@pw_store utc_codec calm_oracle) (@pw_publishers utc_codec calm_oracle)
    Background "kafka" 2 (pw0 ex_d2, wk0) = Some (b, (w', l)) ∧ @pw_safe utc_codec w'.
Proof.
  destruct (@worker_at_least_once pw pw_runtime (@pw_store utc_codec calm_oracle)
    (@pw_publishers utc_codec calm_oracle) (@pw_spec utc_codec calm_oracle) pw_laws
    Background "kafka" 2 (pw0 ex_d2)) as (b & w' & l & E & Hs & _).
  - split; [apply ex_inv2|]. intros k r Hr Hd. exfalso.
    assert (map_Forall (λ _ r, ob_delivered r = None) (db_outbox (pw_db (pw0 ex_d2)))) as Hall
      by (apply (bool_decide_eq_true_1 _); vm_compute; reflexivity).
    rewrite (Hall k r Hr) in Hd. by destruct Hd.
  - reflexivity.
  - exists b, w', l. split; [exact E|exact Hs].
Defined.

(** Two iterations deliver both messages to the broker. *)
Example worker_delivers_both :
  match @run pw pw_runtime (@pw_store utc_codec calm_oracle) (@pw_publishers utc_codec calm_oracle)
    Background "kafka" 2 (pw0 ex_d2, wk0) with
  | Some (b, (w', _)) => b = true ∧ (λ p, (p.1, ev_ID p.2)) <$> pw_log w' = [("kafka", 2); ("kafka", 1)]
  | None => False
  end.
Proof. vm_compute. by split. Qed.
