(* ===== verification/WorkerProgress.v ===== *)
(** * WorkerProgress: the worker empties the outbox

    When nothing fails and nobody interferes, every iteration of the worker of
    [internal/outbox/worker.go] delivers one pending row of its target, so that
    after as many iterations as there are pending rows none is left. *)

From stdpp Require Import base option list strings gmap relations pretty.
From Stdlib Require Import ZArith Lia.
From S2P Require Import Prelude GoStrings Messaging Storage StorageProps Retry OutboxWorker PostgresWorker.
Local Open Scope Z_scope.

(** Nothing fails and nobody else acts. *)
Definition calm `{Oracle} : Prop :=
  (∀ n, others n = []) ∧ (∀ n, pub_fate n = Ran) ∧ (∀ n, dial_fate n = (true, None)) ∧
  ∀ n, st_exec (st_fate n) = Ran ∧ st_locked (st_fate n) = [].

(** The undelivered rows of a target. *)
Definition is_pending (target : string) (r : ob_row) : Prop := ob_target r = target ∧ ob_delivered r = None.

#[export] Instance is_pending_dec target r : Decision (is_pending target r).
Proof. unfold is_pending. apply _. Defined.

Definition pending (target : string) (d : db) : nat := size (filter (λ p, is_pending target p.2) (db_outbox d)).

(** The tables are sound, and every pending row of the target is due at every
    call and can be counted once more. *)
Definition ready `{EventCodec, Oracle} (target : string) (d : db) : Prop :=
  db_inv d ∧ ∀ k r, db_outbox d !! k = Some r → is_pending target r →
    ob_attempts r < max_int32 ∧ ∀ n, ob_available r <= st_now (st_fate n).

Section Progress.
Context `{EventCodec, Oracle}.
Variable target : string.
Hypothesis Hcalm : calm.

(** ** The tables *)

Lemma pending_zero d : pending target d = 0%nat ↔ ∀ k r, db_outbox d !! k = Some r → ¬ is_pending target r.
Proof.
  unfold pending. rewrite map_size_empty_iff, map_empty. split.
  - intros Hn k r Hk Hp. specialize (Hn k). rewrite map_lookup_filter_None in Hn. naive_solver.
  - intros Hn k. apply map_lookup_filter_None. right. intros r Hk Hp. by eapply Hn.
Qed.

(** Marking a pending row takes it off the count. *)
Lemma pending_marked d k r r' :
  db_outbox d !! k = Some r → is_pending target r → ¬ is_pending target r' →
  pending target d = S (pending target (with_outbox (<[k := r']> (db_outbox d)) d)).
Proof.
  intros Hk Hp Hn. unfold pending. cbn [db_outbox with_outbox].
  rewrite map_filter_insert_False by done. rewrite map_filter_delete.
  rewrite map_size_delete_Some; [|exists r; by apply map_lookup_filter_Some]. cbn.
  destruct (size (filter (λ p, is_pending target p.2) (db_outbox d))) eqn:E; [|lia].
  apply map_size_empty_inv in E. rewrite map_empty in E. specialize (E k).
  rewrite map_lookup_filter_None in E. naive_solver.
Qed.

(** A claim finds nothing only when nothing is pending; completing what it found
    takes one row off. *)
Lemma claim_complete d n lease res d1 :
  ready target d → Claim (st_fate n) target lease (token_of n) d = (res, d1) →
  (res = (None, None) ∧ d1 = d ∧ pending target d = 0%nat) ∨
  ∃ dl, res = (Some dl, None) ∧ d_Target dl = target ∧
    ∀ n', let d2 := (Complete (st_fate n') dl d1).2 in ready target d2 ∧ pending target d = S (pending target d2).
Proof.
  intros [Hinv Hready] Hc. destruct Hcalm as (_ & _ & _ & Hst). destruct (Hst n) as [Hran Hlock].
  unfold Claim in Hc. destruct (candidate _ _ _ _) as [r|] eqn:Hcand; rewrite Hran in Hc; cbn [exec_error took_effect] in Hc.
  - right. apply candidate_Some in Hcand as ((k & Hk) & (Htg & Hdel & _)%claimable_true & _).
    pose proof (outbox_key_inv _ _ _ Hinv Hk) as Hkey.
    destruct (Hready k r Hk) as [Hatt _]; [done|].
    replace (max_int32 <? ob_attempts r + 1) with false in Hc by lia.
    destruct (outbox_event _ _ _ Hinv Hk) as (x & _ & Hev).
    change (ob_payload (lease_row _ _ _ r)) with (ob_payload r) in Hc. rewrite Hev in Hc.
    injection Hc as <- <-. eexists. split; [done|]. split; [done|]. intros n'.
    set (dl := mkDelivery _ _ _ _ _). set (d1 := with_outbox _ _).
    assert (leased dl d1 = Some (lease_row (st_now (st_fate n)) lease (token_of n) r)) as Hl.
    { apply leased_Some. cbn. split_and!; [|done..]. rewrite <- Htg. fold (ob_key r). by rewrite lookup_insert_eq. }
    unfold Complete, update_leased. rewrite Hl, (proj1 (Hst n')). cbn [exec_error snd].
    unfold dl, d1. cbn [d_MessageID d_Target db_outbox with_outbox db_seq db_messages].
    assert ((ob_message_id r, target) = k) as -> by (rewrite <- Htg; exact Hkey).
    rewrite Hkey, insert_insert_eq. change (with_outbox ?o (with_outbox _ d)) with (with_outbox o d). split.
    + split; [by apply (outbox_update_inv _ _ r)|]. intros k' r' Hk' Hp. cbn in Hk'.
      apply lookup_insert_Some in Hk' as [[_ <-]|[_ Hk']]; [by destruct Hp|]. by apply (Hready k').
    + apply (pending_marked _ _ r); [done|done|]. by intros [_ ?].
  - left. injection Hc as <- <-. split_and!; [done..|]. apply pending_zero. intros k r Hk [Htg Hdel].
    pose proof (candidate_None _ _ _ _ _ _ Hcand Hk) as Hf. destruct (Hready k r Hk) as [_ Hav]; [done|].
    unfold claimable in Hf. rewrite Hlock, !bool_decide_true in Hf by done. cbn in Hf.
    specialize (Hav n). rewrite bool_decide_false in Hf by apply not_elem_of_nil. cbn in Hf. lia.
Qed.

(** ** The loop *)

(** The tables, and a publisher, if any, that is connected to the target. *)
Definition pub_ok (s : pw * wk) : Prop :=
  match wk_publisher s.2 with None => True | Some h => pw_dialled s.1 !! h = Some target end.
Definition at_db (d : db) (s : pw * wk) : Prop := pw_db s.1 = d ∧ pub_ok s.

Lemma interfere_calm w : interfere w = tick w.
Proof. unfold interfere. by rewrite (proj1 Hcalm). Qed.

Lemma call_db_calm {A} (f : db → A * db) w :
  call_db f w = let '(a, d) := f (pw_db w) in Some (a, set_db d (tick w)).
Proof. unfold call_db. by rewrite interfere_calm. Qed.

Lemma at_db_emit d m : triple (at_db d) (modify (emit m)) (λ _, at_db d).
Proof. intros [w l] Hs. by eexists _, _. Qed.

Lemma at_db_upd d f : (∀ l, wk_publisher (f l) = wk_publisher l) → triple (at_db d) (upd f) (λ _, at_db d).
Proof. intros Hf [w l] [Hd Hp]. eexists _, _. split; [done|]. split; [done|]. unfold pub_ok in *. cbn in *. by rewrite Hf. Qed.

Lemma at_db_gets {A} d (f : pw * wk → A) : triple (at_db d) (gets f) (λ _, at_db d).
Proof. intros s Hs. by eexists _, _. Qed.

Lemma at_db_ret {A} d (a : A) : triple (at_db d) (mret a) (λ _, at_db d).
Proof. apply (triple_ret a (λ _, at_db d)). Qed.

(** A call on the tables that leaves them alone. *)
Lemma at_db_stats d c : triple (at_db d) (on_fst (o_OutboxStats c target)) (λ _, at_db d).
Proof.
  intros [w l] [Hd Hp]. unfold on_fst. cbn [o_OutboxStats pw_store fst snd]. rewrite call_db_calm.
  eexists _, _. split; [done|]. split; [exact Hd|exact Hp].
Qed.

Lemma run_stats_at d c : triple (at_db d) (run_stats c target) (λ _, at_db d).
Proof.
  eapply triple_bind; [apply at_db_gets|intros t]. eapply triple_bind; [apply at_db_gets|intros l]. cbv beta.
  destruct (wk_nextStats l <? t); [|apply at_db_ret].
  eapply triple_bind; [apply at_db_gets|intros sc]. eapply triple_bind; [apply at_db_stats|intros [s [e|]]]; cbv beta.
  - eapply (triple_bind _ (λ _, at_db d)); [apply at_db_emit|intros _]. eapply triple_bind; [apply at_db_gets|intros t']. by apply at_db_upd.
  - eapply (triple_bind _ (λ _, at_db d)).
    { eapply (triple_bind _ (λ _, at_db d)); [apply at_db_emit|intros _; apply at_db_emit]. }
    intros _. eapply triple_bind; [apply at_db_gets|intros t']. by apply at_db_upd.
Qed.

Lemma run_claim_at d c :
  triple (at_db d) (run_claim c target) (λ res s,
    pub_ok s ∧ ∃ n, Claim (st_fate n) target (45 * Second) (token_of n) d = (res, pw_db s.1)).
Proof.
  eapply triple_bind; [apply at_db_gets|intros cc]. eapply triple_bind; [apply at_db_gets|intros l]. cbv beta.
  eapply (triple_bind _ (λ _, at_db d)); [destruct (0 <? wk_claimAttempt l); [apply at_db_emit|apply at_db_ret]|intros _].
  intros [w l'] [Hd Hp]. unfold on_fst. cbn [o_Claim pw_store fst snd]. rewrite call_db_calm. cbn in Hd. rewrite Hd.
  destruct (Claim _ _ _ _ d) as [res d'] eqn:E. eexists _, _. split; [done|]. split; [exact Hp|].
  exists (pw_tick w). exact E.
Qed.

Lemma run_publish_at d c dl : triple (at_db d) (run_publish c target dl) (λ err s, err = None ∧ at_db d s).
Proof.
  eapply triple_bind; [apply at_db_gets|intros pc].
  eapply (triple_bind _ (λ _, at_db d)); [destruct (1 <? d_Attempts dl); [apply at_db_emit|apply at_db_ret]|intros _].
  destruct Hcalm as (_ & Hpub & Hdial & _). intros [w l] [Hd Hp]. unfold locals. rewrite gom_gets_bind. cbn [snd].
  assert (∀ w1 l1 h, pw_db w1 = d → wk_publisher l1 = Some h → pw_dialled w1 !! h = Some target →
    ∃ err s, (l ← gets snd; match wk_publisher l with
      | None => mret (Some (ErrText "публикатор не настроен"))
      | Some p => on_fst (p_Publish p pc (d_Event dl))
      end) (w1, l1) = Some (err, s) ∧ err = None ∧ at_db d s) as Hsend.
  { intros w1 l1 h Hd1 Hl1 Hh1. rewrite gom_gets_bind. cbn [snd]. rewrite Hl1. unfold on_fst. cbn [p_Publish pw_publishers fst snd].
    unfold pw_publish. rewrite interfere_calm, Hpub. cbn [pw_dialled tick]. rewrite Hh1. eexists _, _. split; [done|].
    split; [done|]. split; [done|]. unfold pub_ok. cbn. by rewrite Hl1. }
  unfold pub_ok in Hp. cbn in Hp. destruct (wk_publisher l) as [h|] eqn:El.
  - rewrite gom_ret_bind. by apply (Hsend w l h).
  - unfold mbind at 1, gom_bind at 1. unfold mbind at 1, gom_bind at 1. unfold on_fst at 1. cbn [p_factory pw_publishers].
    unfold pw_factory. rewrite Hdial, interfere_calm. cbn [fst snd].
    eapply Hsend; [exact Hd|done|]. cbn. by rewrite lookup_insert_eq.
Qed.

Lemma run_published_at d c dl :
  triple (at_db d) (run_published c target dl) (λ b s,
    b = true ∧ pub_ok s ∧ ∃ n, (Complete (st_fate n) dl d).2 = pw_db s.1).
Proof.
  eapply triple_bind; [apply at_db_gets|intros fc]. cbv beta.
  eapply (triple_bind _ (λ _ s, ∃ n, at_db (Complete (st_fate n) dl d).2 s)).
  { intros [w l] [Hd Hp]. unfold on_fst. cbn [o_Complete pw_store fst snd]. rewrite call_db_calm. cbn in Hd. rewrite Hd.
    destruct (Complete _ _ d) as [err d'] eqn:E. eexists _, _. split; [done|]. exists (pw_tick w).
    rewrite E. split; [done|exact Hp]. }
  intros err. apply triple_pre. intros s0 [n Hs0].
  eapply triple_conseq with (P := at_db (Complete (st_fate n) dl d).2); [|by intros ? ->|intros b s Hs; exact Hs].
  eapply (triple_bind _ (λ _, at_db (Complete (st_fate n) dl d).2)); [destruct err; apply at_db_emit|intros _].
  eapply (triple_bind _ (λ _, at_db (Complete (st_fate n) dl d).2)); [by apply at_db_upd|intros _].
  intros s [Hd Hp]. eexists _, _. split; [done|]. eauto.
Qed.

(** One iteration: one row less. *)
Lemma run_body_at d :
  ready target d →
  triple (at_db d) (run_body Background target) (λ b s,
    b = true ∧ pub_ok s ∧ ready target (pw_db s.1) ∧ pending target (pw_db s.1) = pred (pending target d)).
Proof.
  intros Hr. eapply (triple_bind _ (λ _, at_db d)); [apply run_stats_at|intros _]. eapply triple_bind; [apply run_claim_at|intros res].
  apply triple_pre. intros s0 [Hp0 [n Hc]].
  destruct (claim_complete _ _ _ _ _ Hr Hc) as [(-> & Hd & Hz)|(dl & -> & Htg & Hnext)]; cbv beta iota.
  - eapply triple_conseq with (P := at_db d); [|intros ? ->; by split|intros b s Hs; exact Hs].
    eapply (triple_bind _ (λ _, at_db d)); [by apply at_db_upd|intros _]. cbv beta iota.
    intros [w l] [Hdw Hp]. destruct (Wait_total Background (250 * Millisecond) (w, l)) as (b & [w' l'] & E & Hb).
    exists b, (w', l'). split; [done|].
    assert (pw_db w' = pw_db w ∧ pw_dialled w' = pw_dialled w ∧ l' = l) as (Hw1 & Hw2 & ->).
    { unfold Wait, lift_state, mbind, gom_bind in E. cbn in E. by injection E as _ <- <-. }
    split; [apply Hb; apply background_alive|]. split; [unfold pub_ok in *; cbn in *; by rewrite Hw2|].
    cbn in *. rewrite Hw1, Hdw. split; [done|lia].
  - eapply triple_conseq with (P := at_db (pw_db s0.1)); [|intros ? ->; by split|intros b s Hs; exact Hs].
    eapply (triple_bind _ (λ _, at_db (pw_db s0.1))); [by apply at_db_upd|intros _]. cbv beta iota.
    eapply triple_bind; [apply run_publish_at|intros err]. apply triple_pre. intros s1 [-> Hs1]. cbv beta iota.
    eapply triple_conseq; [apply run_published_at|by intros ? ->|]. intros b s (-> & Hp & n' & Hd').
    destruct (Hnext n') as [Hr' Hpend]. rewrite Hd' in Hr', Hpend. split_and!; [done..|]. lia.
Qed.

Lemma run_at n d :
  ready target d →
  triple (at_db d) (run Background target n) (λ b s,
    b = true ∧ ready target (pw_db s.1) ∧ pending target (pw_db s.1) = (pending target d - n)%nat).
Proof.
  revert d. induction n as [|n IH]; intros d Hr s Hs; cbn [run]; rewrite gom_gets_bind, background_alive.
  - eexists _, _. split; [done|]. destruct Hs as [-> _]. split_and!; [done..|]. lia.
  - destruct (run_body_at d Hr s Hs) as (b & s1 & E & -> & Hp & Hr1 & Hn1). rewrite (gom_bind_run _ _ _ _ _ E).
    cbv iota. destruct (IH _ Hr1 s1) as (b & s2 & E2 & -> & Hr2 & Hn2); [by split|].
    exists true, s2. split; [done|]. split_and!; [done..|]. lia.
Qed.

End Progress.

(** C9: the worker makes progress.  When nothing fails and all pending rows of its
    target are due, then after as many iterations as there are pending rows it
    is still running, every row of the target is marked as delivered, and the
    broker has taken its event. *)
Theorem worker_drains `{EventCodec, Oracle} (target : string) (n : nat) (w : pw) :
  calm → pw_safe w → pw_open w = ∅ → ready target (pw_db w) → (pending target (pw_db w) ≤ n)%nat →
  ∃ w' l, run Background target n (w, wk0) = Some (true, (w', l)) ∧
    ∀ k r, db_outbox (pw_db w') !! k = Some r → ob_target r = target →
      is_Some (ob_delivered r) ∧ ∃ ev, unmarshal (ob_payload r) = Some ev ∧ (target, ev) ∈ pw_log w'.
Proof.
  intros Hcalm Hsafe Hopen Hready Hn.
  destruct (run_at target Hcalm n (pw_db w) Hready (w, wk0)) as (b & [w' l] & E & -> & [Hinv _] & Hz); [done|].
  exists w', l. split; [done|].
  destruct (run_spec Background target n (w, wk0)) as (b & s & E' & [Hs _] & _); [by split|].
  rewrite E in E'. injection E' as <- <-. intros k r Hk Htg.
  assert (is_Some (ob_delivered r)) as Hd.
  { destruct (ob_delivered r) eqn:Er; [by eexists|]. exfalso. cbn in Hz.
    refine (proj1 (pending_zero target (pw_db w')) _ k r Hk _); [lia|by split]. }
  split; [done|]. destruct Hs as [_ Hs]. destruct (Hs k r Hk Hd) as (ev & Hev & Hlog). exists ev. split; [done|].
  pose proof (outbox_key_inv _ _ _ Hinv Hk) as Hkey. rewrite <- Hkey in Hlog. cbn in Hlog. by rewrite Htg in Hlog.
Qed.

(** Two messages, delivered to Kafka in two iterations. *)
Lemma worker_drains_witness :
  ∃ w' l, @run pw pw_runtime (@pw_store utc_codec calm_oracle) (@pw_publishers utc_codec calm_oracle)
    Background "kafka" 2 (pw0 ex_d2, wk0) = Some (true, (w', l)).
Proof.
  assert (map_Forall (λ _ r, ob_delivered r = None ∧ ob_attempts r < max_int32 ∧ ob_available r <= 100) (db_outbox ex_d2))
    as Hall by (apply (bool_decide_eq_true_1 _); vm_compute; reflexivity).
  destruct (@worker_drains utc_codec calm_oracle "kafka" 2 (pw0 ex_d2)) as (w' & l & E & _).
  - split_and!; reflexivity || (intros n; split; reflexivity).
  - split; [apply ex_inv2|]. intros k r Hr [x Hd]. exfalso. destruct (Hall k r Hr) as [Hn _]. congruence.
  - reflexivity.
  - split; [apply ex_inv2|]. intros k r Hr _. destruct (Hall k r Hr) as (_ & Ha & Hv). split; [exact Ha|].
    intros n. exact Hv.
  - vm_compute. lia.
  - exists w', l. exact E.
Defined.
