(* ===== verification/Http.v ===== *)
(** * Http: server-side requests, replies and handlers

    What the handlers of the source use of [net/http]: the request's context,
    headers, query parameters and path values, and the reply they write. *)

From stdpp Require Import base option list strings.
From Stdlib Require Import ZArith Lia.
From S2P Require Import Prelude.
Local Open Scope Z_scope.

(** [*http.Request]; the lookups return the empty string for an absent name. *)
Record http_request := mkReq {
  hq_ctx : ctx;
  hq_remote : string;
  hq_header : string → string;
  hq_query : string → string;
  hq_path : string → string
}.

(** What was written: status, headers set, and a body of type [B] or the
    object [{"error": ...}]. *)
Inductive body_of (B : Type) :=
| ErrBody (msg : string)
| OkBody (b : B).
#[global] Arguments ErrBody {B} msg.
#[global] Arguments OkBody {B} b.

Record reply (B : Type) := mkReply {
  rp_status : Z;
  rp_headers : list (string * string);
  rp_body : body_of B
}.
#[global] Arguments mkReply {B} rp_status rp_headers rp_body.
#[global] Arguments rp_status {B} r.
#[global] Arguments rp_headers {B} r.
#[global] Arguments rp_body {B} r.

(** [writeJSON] of the handlers package. *)
Definition writeJSON {B} (status : Z) (b : body_of B) : reply B :=
  mkReply status [("Content-Type", "application/json")] b.

Definition write_error {B} (status : Z) (msg : string) : reply B := writeJSON status (ErrBody msg).
Definition write_ok {B} (status : Z) (b : B) : reply B := writeJSON status (OkBody b).

(** The [net/http] status codes the code uses. *)
Definition StatusOK : Z := 200.
Definition StatusCreated : Z := 201.
Definition StatusPartialContent : Z := 206.
Definition StatusBadRequest : Z := 400.
Definition StatusUnauthorized : Z := 401.
Definition StatusNotFound : Z := 404.
Definition StatusConflict : Z := 409.
Definition StatusRequestEntityTooLarge : Z := 413.
Definition StatusRangeNotSatisfiable : Z := 416.
Definition StatusTooManyRequests : Z := 429.
Definition StatusInternalServerError : Z := 500.
Definition StatusBadGateway : Z := 502.
Definition StatusServiceUnavailable : Z := 503.
Definition StatusGatewayTimeout : Z := 504.
