(* ===== verification/RateLimit.v ===== *)
(** * RateLimit: requests per client and window

    [internal/ratelimit/ratelimit.go], with the counter interface and the
    Valkey script that implements it. *)

From stdpp Require Import base option list strings gmap.
From Stdlib Require Import ZArith Lia Ascii.
From S2P Require Import Prelude GoStrings Retry Breaker Http.
Local Open Scope Z_scope.

(** ** Limiter *)

(** [Counter] *)
Class Counter (W : Type) := { Hit : ctx → string → Z → GoM W (Z * option error) }.

(** [Limiter], without its breaker, which is part of the state; a nil limiter
    is [None]. *)
Record Limiter := mkLimiter { l_limit : Z; l_window : Z }.

Section Construction.
Context `{Runtime W}.

(** [NewWithCounter]: the limiter and its breaker; [zero] is [time.Time{}]. *)
Definition NewWithCounter (limit window zero : Z) (w : W) : (Limiter * Breaker) * W :=
  let '(w, breaker) := NewBreaker "redis" zero w in
  ((mkLimiter limit window, breaker), w).

(** [New], given the values of [VALKEY_ADDRS] and [RATE_LIMIT]. *)
Definition New (addrs raw : string) (zero : Z) (w : W) : option (Limiter * Breaker) * W :=
  if bool_decide (addrs = "") then (None, w)
  else
    let limit :=
      if bool_decide (raw = "") then 100
      else match ParseInt raw with
           | (n, None) => if 0 <? n then n else 100
           | (_, Some _) => 100
           end in
    let '(l, w) := NewWithCounter limit Minute zero w in (Some l, w).

End Construction.

Definition SetLimit (n : Z) (l : option Limiter) : option Limiter :=
  match l with
  | None => None
  | Some l => if n <=? 0 then Some l else Some (mkLimiter n (l_window l))
  end.

Definition Limit (l : option Limiter) : Z :=
  match l with None => 0 | Some l => l_limit l end.

(** [clientIP]: the first address of [X-Forwarded-For], else the peer's. *)
Definition clientIP (r : http_request) : string :=
  let fwd := hq_header r "X-Forwarded-For" in
  if negb (bool_decide (fwd = "")) then TrimSpace (hd "" (Split fwd ","%char)) else
  match SplitHostPort (hq_remote r) with
  | None => hq_remote r
  | Some (host, _) => host
  end.

(** [time.Time.Unix] of an instant in nanoseconds. *)
Definition unix (t : Z) : Z := t / Second.

(** The counter's key.  The window is a whole number of seconds. *)
Definition window_key (l : Limiter) (r : http_request) (t : Z) : string :=
  "rl:" +:+ clientIP r +:+ ":" +:+ FormatInt (unix t `quot` (l_window l `quot` Second)).

Section Middleware.
Context `{Runtime W, Counter W}.

(** The closure passed to the breaker: it assigns the captured [count]. *)
Definition hit_call (c : ctx) (key : string) (window : Z) : GoM ((W * Z) * Breaker) (option error) := λ s,
  match Hit c key window s.1.1 with
  | Some ((count, err), w') => Some (err, ((w', count), s.2))
  | None => None
  end.

(** The part of the handler before [next]: [Some] reply when the request is
    refused, [None] when it is passed on.  A window shorter than a second makes
    the division by zero that panics. *)
Definition check (l : Limiter) (r : http_request) : GoM (W * Breaker) (option (reply unit)) := λ s,
  if l_window l `quot` Second =? 0 then None
  else
    let key := window_key l r (now s.1) in
    let c := with_timeout (hq_ctx r) (500 * Millisecond) s.1 in
    match Breaker_Do c (hit_call c key (l_window l)) ((s.1, 0), s.2) with
    | None => None
    | Some (err, ((w', count), b')) =>
        Some (match err with
              | Some _ => None
              | None =>
                  if l_limit l <? count
                  then Some (write_error StatusTooManyRequests "слишком много запросов, попробуйте позже")
                  else None
              end, (w', b'))
    end.

(** [Limiter.Middleware] around [next]. *)
Definition Middleware {B} (l : option Limiter) (next : http_request → GoM (W * Breaker) (reply B))
    (r : http_request) : GoM (W * Breaker) (reply B) :=
  match l with
  | None => next r
  | Some l =>
      refused ← check l r;
      match refused with
      | None => next r
      | Some rep => mret (mkReply (rp_status rep) (rp_headers rep) (ErrBody "слишком много запросов, попробуйте позже"))
      end
  end.

End Middleware.

(** ** Valkey *)

(** Counters with the millisecond at which they expire. *)
Definition valkey : Type := gmap string (Z * option Z).

Definition vk_get (t : Z) (key : string) (v : valkey) : option (Z * option Z) :=
  match v !! key with
  | Some (n, Some e) => if e <=? t then None else Some (n, Some e)
  | x => x
  end.

(** [hitScript] at millisecond [t]: INCR, and PEXPIRE when the counter is new. *)
Definition hit_script (t ttl : Z) (key : string) (v : valkey) : (Z + error) * valkey :=
  let '(n, e) := default (0, None) (vk_get t key v) in
  if n =? max_int64 then (inr (ErrText "increment or decrement would overflow"), v)
  else
    let count := n + 1 in
    if count =? 1
    then (inl count, if ttl <=? 0 then delete key v else <[key := (count, Some (t + ttl))]> v)
    else (inl count, <[key := (count, e)]> v).

Definition millis (d : Z) : Z := d `quot` Millisecond.

(** [valkeyCounter.Hit] against one server that answers. *)
#[export] Instance valkey_counter {W} `{Runtime W} : Counter (W * valkey) := {
  Hit c key window s :=
    let '(res, v') := hit_script (now s.1 / Millisecond) (millis window) key s.2 in
    match res with
    | inl count => Some ((count, None), (s.1, v'))
    | inr err => Some ((0, Some err), (s.1, v'))
    end
}.

(** ** Properties *)

(** The limiter's limit is positive. *)
Definition limiter_ok (l : option Limiter) : Prop :=
  match l with None => True | Some l => 0 < l_limit l end.

(** However it is configured and reconfigured, a limiter's limit is positive:
    [New] and [SetLimit] ignore values that are not positive numbers, and a
    positive value is taken over exactly. *)
Theorem limit_positive `{Runtime W} (addrs raw : string) (zero : Z) (w : W) (updates : list Z) :
  let l := foldl (λ l n, SetLimit n l) (fst <$> (New addrs raw zero w).1) updates in
  limiter_ok l ∧ (is_Some l ↔ addrs ≠ "") ∧
  (addrs ≠ "" → ∀ n, 0 < n → last updates = Some n → Limit l = n).
Proof.
  set (l0 := fst <$> (New addrs raw zero w).1).
  assert (limiter_ok l0 ∧ (is_Some l0 ↔ addrs ≠ "")) as [Hok Hsome].
  { unfold l0, New. case_bool_decide; [split; [done|]; split; [by intros []|done]|]. split; [|done].
    cbn. case_bool_decide; [lia|]. destruct (ParseInt raw) as [n [e|]]; [lia|]. destruct (0 <? n) eqn:E; lia. }
  cbn. induction updates as [|n updates IH] using rev_ind; [by split_and!|].
  rewrite foldl_app. cbn. destruct IH as (IHok & IHsome & _).
  destruct (foldl _ _ updates) as [l|]; cbn.
  - assert (addrs ≠ "") as Ha by (apply IHsome; by eexists).
    rewrite last_snoc. destruct (n <=? 0) eqn:E; (split_and!; [cbn in *; lia|split; [done|by eexists]|]);
      intros _ m Hm [= ->]; cbn; lia.
  - split_and!; [done..|]. intros Ha. apply IHsome in Ha as []. done.
Qed.

(** Fail-open.  When the counter cannot be asked (its breaker is open, the
    call fails or times out) the request is passed on; a refusal is always the
    429 reply, given only when the counter answered with a count above the
    limit. *)
Theorem limiter_fails_open `{RuntimeLaws W, Counter W} (l : Limiter) (r : http_request)
    (w w' : W) (b b' : Breaker) (refused : option (reply unit)) :
  check l r (w, b) = Some (refused, (w', b')) →
  let c := with_timeout (hq_ctx r) (500 * Millisecond) w in
  let key := window_key l r (now w) in
  ∃ err count, Breaker_Do c (hit_call c key (l_window l)) ((w, 0), b) = Some (err, ((w', count), b')) ∧
    (is_Some refused ↔ err = None ∧ l_limit l < count) ∧
    (∀ rep, refused = Some rep → rp_status rep = StatusTooManyRequests) ∧
    (err = None → ∃ w1 w2, Hit c key (l_window l) w1 = Some ((count, None), w2)).
Proof.
  unfold check. destruct (_ =? 0); [done|]. cbn [fst snd].
  destruct (Breaker_Do _ _ _) as [[err [[w1 count] b1]]|] eqn:E; [|done].
  intros [= <- <- <-]. exists err, count. split; [done|]. split_and!.
  - destruct err as [e|]; [split; [by intros []|by intros []]|].
    destruct (l_limit l <? count) eqn:Hlt; split.
    + intros _. split; [done|lia].
    + by eexists.
    + by intros [].
    + lia.
  - intros rep. destruct err; [done|]. destruct (l_limit l <? count); [|done]. by intros [= <-].
  - intros ->. apply (Breaker_Do_cases same_snd) in E as [(e & ? & _)|[[? _]|(wb1 & wb2 & _ & Hc & Hs)]]; [done..|].
    unfold hit_call in Hc. destruct (Hit _ _ _ wb1.1.1) as [[[n e] w2]|] eqn:Eh; [|done].
    injection Hc as -> <-. cbv [on_first same_snd fst snd] in Hs. subst count. eauto.
Qed.

Section Exact.
Variables (l : Limiter) (r : http_request).

Definition vk_world : Type := (sim * valkey) * Breaker.

(** The requests of one client at the given instants, one after another. *)
Fixpoint serve_all (times : list Z) : GoM vk_world (list bool) :=
  match times with
  | [] => mret []
  | t :: rest =>
      _ ← modify (λ s : vk_world, ((mkSim t (sim_cancelled s.1.1) (sim_seed s.1.1) (sim_metrics s.1.1), s.1.2), s.2));
      refused ← check l r;
      passed ← serve_all rest;
      mret (bool_decide (refused = None) :: passed)
  end.

Hypothesis Hwin : l_window l = Minute.

(** The key of the requests of a window. *)
Definition key_at (q : Z) : string := window_key l r (q * Minute).

Lemma window_key_same t q : 0 <= q → t / Minute = q → window_key l r t = key_at q.
Proof.
  intros Hq Ht. unfold key_at, window_key, unix. rewrite Hwin. cbn [Z.quot]. do 4 f_equal.
  change (Minute `quot` Second) with 60. unfold Minute, Second in *.
  assert (0 <= t) by (pose proof (Z.mod_pos_bound t 60000000000); pose proof (Z.div_mod t 60000000000); lia).
  rewrite !Z.quot_div_nonneg by (try lia; apply Z.div_pos; lia). rewrite !Z.div_div by lia.
  change (1000000000 * 60) with 60000000000. rewrite Z.div_mul by lia. done.
Qed.

(** The counter of window [q] stands at [n] and lives until the window ends. *)
Definition counted_at (q n : Z) (v : valkey) : Prop :=
  (n = 0 ∧ v !! key_at q = None) ∨
  (0 < n ∧ ∃ e, v !! key_at q = Some (n, Some e) ∧ (q + 1) * 60000 <= e).

Lemma hit_in_window q n t v :
  t / Minute = q → 0 <= n < max_int64 → counted_at q n v →
  ∃ v', hit_script (t / Millisecond) (millis Minute) (key_at q) v = (inl (n + 1), v') ∧ counted_at q (n + 1) v'.
Proof.
  intros Hq Hn Hc. change (millis Minute) with 60000. unfold hit_script, vk_get.
  pose proof (Z.div_mod t 60000000000) as Hd. pose proof (Z.mod_pos_bound t 60000000000) as Hm.
  unfold Minute, Millisecond in *.
  destruct Hc as [[-> Hv]|(Hpos & e & Hv & He)]; rewrite Hv; cbn [default].
  - change (0 =? max_int64) with false. change (0 + 1 =? 1) with true. change (60000 <=? 0) with false.
    cbv iota. eexists. split; [done|]. right. split; [lia|].
    eexists. split; [apply lookup_insert_eq|].
    assert (q * 60000 <= t / 1000000); [|lia]. apply Z.div_le_lower_bound; lia.
  - assert (t / 1000000 < e) as Hlt by (apply Z.div_lt_upper_bound; lia).
    replace (e <=? t / 1000000) with false by lia. cbn [default from_option id].
    replace (n =? max_int64) with false by lia. replace (n + 1 =? 1) with false by lia.
    eexists. split; [done|]. right. split; [lia|]. exists e. split; [apply lookup_insert_eq|done].
Qed.

Variable id : nat.
Hypothesis Hctx : hq_ctx r = RequestCtx id.

Lemma check_in_window q n (s : sim) v b :
  0 <= q → sim_clock s / Minute = q → id ∉ sim_cancelled s → st b = closed →
  0 <= n < max_int64 → counted_at q n v →
  ∃ refused s' v' b', check l r ((s, v), b) = Some (refused, ((s', v'), b')) ∧
    (refused = None ↔ n + 1 <= l_limit l) ∧ sim_cancelled s' = sim_cancelled s ∧
    st b' = closed ∧ counted_at q (n + 1) v'.
Proof.
  intros Hq0 Hq Hid Hb Hn Hc. unfold check. rewrite Hwin. replace (Minute `quot` Second =? 0) with false by done.
  cbn [fst snd now runtime_pair sim_runtime]. rewrite (window_key_same _ q) by done.
  destruct (hit_in_window q n (sim_clock s) v Hq Hn Hc) as (v' & Hh & Hc').
  set (c := with_timeout _ _ _).
  rewrite (Breaker_Do_success c _ ((s, v), 0) b ((s, v'), n + 1)).
  - cbn. eexists _, _, _, _. split; [done|]. split; [|done].
    destruct (l_limit l <? n + 1) eqn:E; split; done || lia.
  - done.
  - unfold c, with_timeout. rewrite Hctx. cbn. rewrite bool_decide_false by done.
    replace (sim_clock s + 500 * Millisecond <=? sim_clock s) with false by (unfold Millisecond; lia). done.
  - unfold hit_call. cbn [fst snd Hit valkey_counter now sim_runtime]. by rewrite Hh.
Qed.

Lemma serve_all_window q times n (s : sim) v b :
  0 <= q → Forall (λ t, t / Minute = q) times → id ∉ sim_cancelled s → st b = closed →
  0 <= n → n + Z.of_nat (length times) < max_int64 → counted_at q n v →
  ∃ s', serve_all times ((s, v), b) =
    Some ((λ i, bool_decide (n + Z.of_nat i + 1 <= l_limit l)) <$> seq 0 (length times), s').
Proof.
  intros Hq. revert n s v b. induction times as [|t times IH]; intros n s v b Ht Hid Hb Hn Hlen Hc; [by eexists|].
  apply Forall_cons in Ht as [Ht Hts]. cbn [serve_all]. rewrite gom_modify_bind. cbn [fst snd].
  cbn [length] in Hlen.
  destruct (check_in_window q n (mkSim t (sim_cancelled s) (sim_seed s) (sim_metrics s)) v b)
    as (refused & s1 & v1 & b1 & E & Hr & Hcan & Hb1 & Hc1); [done|done|done|done|lia|done|].
  rewrite (gom_bind_run _ _ _ _ _ E).
  destruct (IH (n + 1) s1 v1 b1) as (s' & E'); [done|by rewrite Hcan|done|lia|lia|done|].
  rewrite (gom_bind_run _ _ _ _ _ E'). eexists. unfold mret, gom_ret. do 2 f_equal. cbn. f_equal.
  - apply bool_decide_ext. rewrite Hr. lia.
  - rewrite <- fmap_S_seq, <- list_fmap_compose. apply list_fmap_ext. intros i x _. cbn.
    apply bool_decide_ext. lia.
Qed.

End Exact.

(** C25: the limit is exact.  Of the requests a client makes within one window of
    a minute, in any number, while the counter answers, exactly the first
    [limit] are passed on and all later ones are refused. *)
Theorem rate_limit_exact (l : Limiter) (r : http_request) (id : nat) (q : Z) (times : list Z)
    (s : sim) (v : valkey) (b : Breaker) :
  l_window l = Minute → hq_ctx r = RequestCtx id → id ∉ sim_cancelled s → st b = closed →
  0 <= q → Forall (λ t, t / Minute = q) times → Z.of_nat (length times) < max_int64 →
  v !! window_key l r (q * Minute) = None →
  ∃ s', serve_all l r times ((s, v), b) =
    Some ((λ i, bool_decide (Z.of_nat i < l_limit l)) <$> seq 0 (length times), s').
Proof.
  intros Hw Hc Hid Hb Hq Ht Hlen Hv.
  destruct (serve_all_window l r Hw id Hc q times 0 s v b) as (s' & E); try done; [by left|].
  exists s'. rewrite E. do 2 f_equal. apply list_fmap_ext. intros i x _. apply bool_decide_ext. lia.
Qed.

(** ** Witnesses *)

Definition ex_request : http_request :=
  mkReq (RequestCtx 0) "10.0.0.1:4711" (λ _, "") (λ _, "") (λ _, "").
Definition ex_limiter : Limiter := mkLimiter 2 Minute.
Definition ex_breaker : Breaker := new_breaker "redis" 0.

Lemma rate_limit_exact_witness :
  ∃ s', serve_all ex_limiter ex_request [Second; 2 * Second; 59 * Second] ((sim0, ∅), ex_breaker) =
    Some ([true; true; false], s').
Proof.
  apply (rate_limit_exact ex_limiter ex_request 0 0 [Second; 2 * Second; 59 * Second] sim0 ∅ ex_breaker);
    [reflexivity|reflexivity|apply not_elem_of_nil|reflexivity|lia| |reflexivity|reflexivity].
  repeat constructor.
Defined.

Lemma limiter_fails_open_witness :
  ∃ refused w' b', check ex_limiter ex_request ((sim0, ∅ : valkey), ex_breaker) = Some (refused, (w', b')) ∧
    ∃ (err : option error) (count : Z), is_Some refused ↔ err = None ∧ 2 < count.
Proof.
  destruct (check ex_limiter ex_request ((sim0, ∅ : valkey), ex_breaker)) as [[refused [w' b']]|] eqn:E.
  - exists refused, w', b'. split; [reflexivity|].
    destruct (limiter_fails_open ex_limiter ex_request _ _ _ _ _ E) as (err & count & _ & H & _).
    exists err, count. exact H.
  - vm_compute in E. discriminate E.
Defined.

Example clientIP_forwarded :
  clientIP (mkReq Background "10.0.0.1:80" (λ h, if bool_decide (h = "X-Forwarded-For") then " 1.2.3.4 , 5.6.7.8" else "")
    (λ _, "") (λ _, "")) = "1.2.3.4".
Proof. vm_compute. reflexivity. Qed.
Example clientIP_peer : clientIP ex_request = "10.0.0.1".
Proof. vm_compute. reflexivity. Qed.
