(* ===== verification/Jwt.v ===== *)
(** * Jwt: bearer tokens checked against a JWKS

    [internal/security/jwt.go].  The JWT library and the key server are
    parameters; base64 and big integers are written out. *)

From stdpp Require Import base option list strings gmap.
From Stdlib Require Import ZArith Lia Ascii.
From S2P Require Import Prelude GoStrings JsonText Json Http.
Local Open Scope Z_scope.

(** ** [base64.RawURLEncoding] *)

Definition b64_val (c : ascii) : option Z :=
  let v := byte_val c in
  if (65 <=? v) && (v <=? 90) then Some (v - 65)
  else if (97 <=? v) && (v <=? 122) then Some (v - 71)
  else if (48 <=? v) && (v <=? 57) then Some (v + 4)
  else if v =? 45 then Some 62
  else if v =? 95 then Some 63
  else None.

(** Carriage returns and line feeds are skipped; anything else must be in the
    alphabet. *)
Fixpoint b64_values (s : string) : option (list Z) :=
  match s with
  | EmptyString => Some []
  | String c s' =>
      if (byte_val c =? 10) || (byte_val c =? 13) then b64_values s'
      else match b64_val c, b64_values s' with
           | Some v, Some vs => Some (v :: vs)
           | _, _ => None
           end
  end.

(** Four digits make three bytes; the last group may have two or three. *)
Fixpoint b64_groups (vs : list Z) : option (list Z) :=
  match vs with
  | [] => Some []
  | [_] => None
  | [a; b] => Some [a * 4 + b / 16]
  | [a; b; c] => Some [a * 4 + b / 16; (b mod 16) * 16 + c / 4]
  | a :: b :: c :: d :: rest =>
      match b64_groups rest with
      | Some bs => Some (a * 4 + b / 16 :: (b mod 16) * 16 + c / 4 :: (c mod 4) * 64 + d :: bs)
      | None => None
      end
  end.

Definition DecodeString (s : string) : option (list Z) := b64_values s ≫= b64_groups.

(** [new(big.Int).SetBytes] *)
Definition SetBytes (bs : list Z) : Z := foldl (λ acc b, acc * 256 + b) 0 bs.

(** ** Keys *)

(** [rsa.PublicKey] *)
Record PublicKey := mkKey { pk_N : Z; pk_E : Z }.

(** An entry of the JWKS document. *)
Record jwk := mkJwk { k_Kty : string; k_Kid : string; k_N : string; k_E : string }.

(** [Auth]; [a_keys] and [a_lastRefresh] are guarded by its mutex. *)
Record Auth := mkAuth {
  a_issuer : string;
  a_keys : gmap string PublicKey;
  a_lastRefresh : Z
}.

(** [NewAuth], given [AUTH_JWKS_URL] and [AUTH_ISSUER]; [None] is nil. *)
Definition NewAuth (jwksURL issuer : string) (zero : Z) : option Auth :=
  if bool_decide (jwksURL = "") then None else Some (mkAuth issuer ∅ zero).

(** A token as the library hands it to [keyFor]: the header's [kid], when it is
    a string. *)
Record Token := mkToken { tok_kid : option string }.

(** The parser's options. *)
Record jwt_options := mkOpts {
  o_methods : list string;
  o_exp_required : bool;
  o_issuer : option string
}.

(** [a.client.Get]: an error, or a status with the body. *)
Class KeyServer (W : Type) := { Get_jwks : GoM W ((Z * stream) + error) }.

(** The document: [var doc struct{ Keys []struct{...} `json:"keys"` }] *)
Definition jwk_fields : list string := ["kty"; "kid"; "n"; "e"].
Definition zero_jwk : jwk := mkJwk "" "" "" "".

Definition set_jwk_field (name : string) (v : json) (k : jwk) : option jwk :=
  if bool_decide (name = "kty") then (λ s, mkJwk s (k_Kid k) (k_N k) (k_E k)) <$> into_string (k_Kty k) v
  else if bool_decide (name = "kid") then (λ s, mkJwk (k_Kty k) s (k_N k) (k_E k)) <$> into_string (k_Kid k) v
  else if bool_decide (name = "n") then (λ s, mkJwk (k_Kty k) (k_Kid k) s (k_E k)) <$> into_string (k_N k) v
  else (λ s, mkJwk (k_Kty k) (k_Kid k) (k_N k) s) <$> into_string (k_E k) v.

Definition into_jwks (old : list jwk) (v : json) : option (list jwk) :=
  match v with
  | JNull => Some []
  | JArr l => into_slice zero_jwk (into_struct jwk_fields set_jwk_field) old l
  | _ => None
  end.

Definition decode_jwks (body : stream) : option (list jwk) :=
  v ← decode_stream body; into_struct ["keys"] (λ _ v old, into_jwks old v) [] v.

(** The keys of a document, as the loop of [refreshKeys] collects them. *)
Definition add_jwk (keys : gmap string PublicKey) (k : jwk) : gmap string PublicKey :=
  if negb (bool_decide (k_Kty k = "RSA")) then keys
  else match DecodeString (k_N k) with
  | None => keys
  | Some n =>
      match DecodeString (k_E k) with
      | None => keys
      | Some e => <[k_Kid k := mkKey (SetBytes n) (wrap64 (SetBytes e))]> keys
      end
  end.

Definition jwks_keys (doc : list jwk) : gmap string PublicKey := foldl add_jwk ∅ doc.

(** [jwt.Parse], of the library: it calls back for the key. *)
Class JwtLibrary (W : Type) := {
  jwt_Parse : jwt_options → (Token → GoM W (PublicKey + error)) → string → GoM W (option error)
}.

Section Auth.
Context `{Runtime W, KeyServer W}.

Definition get_auth : GoM (W * Auth) Auth := gets snd.
Definition set_auth (f : Auth → Auth) : GoM (W * Auth) unit := modify (λ s, (s.1, f s.2)).

Definition refreshKeys : GoM (W * Auth) (option error) :=
  resp ← on_fst Get_jwks;
  match resp with
  | inr err => mret (Some err)
  | inl (status, body) =>
      if negb (status =? StatusOK) then mret (Some (ErrText "JWKS вернул статус"))
      else match decode_jwks body with
      | None => mret (Some (ErrText "decode"))
      | Some doc =>
          let keys := jwks_keys doc in
          if bool_decide (keys = ∅) then mret (Some (ErrText "в JWKS нет RSA-ключей"))
          else
            t ← gets now;
            _ ← set_auth (λ a, mkAuth (a_issuer a) keys t);
            mret None
      end
  end.

Definition keyFor (token : Token) : GoM (W * Auth) (PublicKey + error) :=
  let kid := default "" (tok_kid token) in
  if bool_decide (kid = "") then mret (inr (ErrText "в токене нет kid"))
  else
    a ← get_auth;
    match a_keys a !! kid with
    | Some key => mret (inl key)
    | None =>
        t ← gets now;
        if t - a_lastRefresh a <? 30 * Second then mret (inr (ErrText "ключ подписи не найден"))
        else
          err ← refreshKeys;
          match err with
          | Some e => mret (inr e)
          | None =>
              a ← get_auth;
              match a_keys a !! kid with
              | Some key => mret (inl key)
              | None => mret (inr (ErrText "ключ подписи не найден"))
              end
          end
    end.

End Auth.

Section Validate.
Context `{Runtime W, KeyServer W, JwtLibrary (W * Auth)}.

Definition jwt_opts (a : Auth) : jwt_options :=
  mkOpts ["RS256"] true (if bool_decide (a_issuer a = "") then None else Some (a_issuer a)).

Definition Validate (raw : string) : GoM (W * Auth) (option error) :=
  a ← get_auth;
  jwt_Parse (jwt_opts a) keyFor raw.

Definition writeAuthError {B} (msg : string) : reply B := write_error StatusUnauthorized msg.

(** [Auth.Middleware] around [next]; the flag tells a nil [Auth]. *)
Definition Middleware {B} (enabled : bool) (next : http_request → GoM (W * Auth) (reply B))
    (r : http_request) : GoM (W * Auth) (reply B) :=
  if negb enabled then next r
  else
    let '(raw, found) := CutPrefix (hq_header r "Authorization") "Bearer " in
    if negb found || bool_decide (raw = "") then mret (writeAuthError "требуется токен авторизации")
    else
      err ← Validate raw;
      match err with
      | Some _ => mret (writeAuthError "недействительный токен")
      | None => next r
      end.

End Validate.

(** ** Reading published keys *)

(** The encoder of RFC 4648 without padding, which publishes the keys. *)
Definition b64_char (v : Z) : ascii :=
  ascii_of_N (Z.to_N (if v <? 26 then v + 65 else if v <? 52 then v + 71 else if v <? 62 then v - 4
                      else if v =? 62 then 45 else 95)).

Fixpoint b64_encode (bs : list Z) : string :=
  match bs with
  | [] => ""
  | [x] => String (b64_char (x / 4)) (String (b64_char ((x mod 4) * 16)) "")
  | [x; y] => String (b64_char (x / 4)) (String (b64_char ((x mod 4) * 16 + y / 16))
                (String (b64_char ((y mod 16) * 4)) ""))
  | x :: y :: z :: rest =>
      String (b64_char (x / 4)) (String (b64_char ((x mod 4) * 16 + y / 16))
        (String (b64_char ((y mod 16) * 4 + z / 64)) (String (b64_char (z mod 64)) (b64_encode rest))))
  end.

Definition is_byte (b : Z) : Prop := 0 <= b < 256.

Lemma b64_val_char_all :
  Forall (λ v, b64_val (b64_char v) = Some v ∧ byte_val (b64_char v) ≠ 10 ∧ byte_val (b64_char v) ≠ 13)
    (seqZ 0 64).
Proof. apply (bool_decide_eq_true_1 _). vm_compute. reflexivity. Qed.

Lemma b64_val_char v :
  0 <= v < 64 →
  b64_val (b64_char v) = Some v ∧ byte_val (b64_char v) ≠ 10 ∧ byte_val (b64_char v) ≠ 13.
Proof.
  intros Hv. pose proof b64_val_char_all as H. rewrite Forall_forall in H. apply H.
  apply elem_of_seqZ. lia.
Qed.

(** One encoded digit in front. *)
Lemma b64_values_char v s :
  0 <= v < 64 → b64_values (String (b64_char v) s) = (λ vs, v :: vs) <$> b64_values s.
Proof.
  intros Hv. destruct (b64_val_char v Hv) as (Hval & Hn & Hr). cbn.
  replace (byte_val (b64_char v) =? 10) with false by lia.
  replace (byte_val (b64_char v) =? 13) with false by lia. cbn. rewrite Hval.
  by destruct (b64_values s).
Qed.

(** Induction three bytes at a time. *)
Lemma list_ind3 {A} (P : list A → Prop) :
  P [] → (∀ x, P [x]) → (∀ x y, P [x; y]) → (∀ x y z l, P l → P (x :: y :: z :: l)) → ∀ l, P l.
Proof.
  intros H0 H1 H2 H3. fix IH 1. intros [|x [|y [|z l]]]; [done|apply H1|apply H2|]. apply H3, IH.
Qed.

Lemma div_byte x k m : 0 <= x < k * m → 0 < k → 0 <= x / k < m.
Proof. intros Hx Hk. split; [apply Z.div_pos; lia|apply Z.div_lt_upper_bound; lia]. Qed.

Lemma mod_byte x k : 0 < k → 0 <= x mod k < k.
Proof. apply Z.mod_pos_bound. Qed.

Ltac byte_facts :=
  repeat match goal with
  | H : is_byte ?x |- _ =>
      unfold is_byte in H;
      pose proof (div_byte x 4 64 ltac:(lia) ltac:(lia)); pose proof (mod_byte x 4 ltac:(lia));
      pose proof (div_byte x 16 16 ltac:(lia) ltac:(lia)); pose proof (mod_byte x 16 ltac:(lia));
      pose proof (div_byte x 64 4 ltac:(lia) ltac:(lia)); pose proof (mod_byte x 64 ltac:(lia));
      pose proof (Z.div_mod x 4 ltac:(lia)); pose proof (Z.div_mod x 16 ltac:(lia));
      pose proof (Z.div_mod x 64 ltac:(lia)); revert H
  end; intros.

Lemma b64_digit a b k m : 0 <= a → 0 <= b < m → 0 < m → k = m → (a * k + b) / m = a ∧ (a * k + b) mod m = b.
Proof.
  intros Ha Hb Hm ->. split; symmetry; [apply (Z.div_unique _ _ _ b)|apply (Z.mod_unique _ _ a)]; lia.
Qed.

Lemma DecodeString_encode bs : Forall is_byte bs → DecodeString (b64_encode bs) = Some bs.
Proof.
  unfold DecodeString. induction bs as [|x|x y|x y z bs IH] using list_ind3; intros Hb; [done|..].
  - apply Forall_cons in Hb as [Hx _]. byte_facts. cbn [b64_encode]. rewrite !b64_values_char by lia. cbn.
    destruct (b64_digit (x mod 4) 0 16 16 ltac:(lia) ltac:(lia) ltac:(lia) eq_refl) as [E _].
    rewrite Z.add_0_r in E. rewrite E. do 2 f_equal. lia.
  - apply Forall_cons in Hb as [Hx [Hy _]%Forall_cons]. byte_facts. cbn [b64_encode].
    rewrite !b64_values_char by lia. cbn.
    destruct (b64_digit (x mod 4) (y / 16) 16 16 ltac:(lia) ltac:(lia) ltac:(lia) eq_refl) as [-> ->].
    destruct (b64_digit (y mod 16) 0 4 4 ltac:(lia) ltac:(lia) ltac:(lia) eq_refl) as [E _].
    rewrite Z.add_0_r in E. rewrite E. do 2 f_equal; [lia|]. f_equal. lia.
  - apply Forall_cons in Hb as [Hx [Hy [Hz Hb]%Forall_cons]%Forall_cons]. specialize (IH Hb). byte_facts.
    cbn [b64_encode]. rewrite !b64_values_char by lia.
    destruct (b64_values (b64_encode bs)) as [vs|]; [|done]. cbn in IH |- *. rewrite IH.
    destruct (b64_digit (x mod 4) (y / 16) 16 16 ltac:(lia) ltac:(lia) ltac:(lia) eq_refl) as [-> ->].
    destruct (b64_digit (y mod 16) (z / 64) 4 4 ltac:(lia) ltac:(lia) ltac:(lia) eq_refl) as [-> ->].
    do 2 f_equal; [lia|]. f_equal; [lia|]. f_equal. lia.
Qed.

(** What a key server sends that writes the document with [encoding/json]. *)
Definition jwk_json (k : jwk) : json :=
  JObj [("kty", jstring (k_Kty k)); ("kid", jstring (k_Kid k)); ("n", jstring (k_N k)); ("e", jstring (k_E k))].
Definition jwks_body (ks : list jwk) : string := print (JObj [("keys", JArr (jwk_json <$> ks))]).
Definition jwk_valid (k : jwk) : Prop :=
  utf8_valid (k_Kty k) = true ∧ utf8_valid (k_Kid k) = true ∧ utf8_valid (k_N k) = true ∧ utf8_valid (k_E k) = true.

Ltac jwk_stored :=
  first [ done
        | by unfold jwk_fields; rewrite !elem_of_cons; auto 10
        | unfold set_jwk_field; rewrite ?bool_decide_false by done; rewrite ?bool_decide_true by done;
          by rewrite into_string_jstring by done ].

Lemma read_jwk k : jwk_valid k → into_struct jwk_fields set_jwk_field zero_jwk (jwk_json k) = Some k.
Proof.
  destruct k as [kty kid n e]. intros (Hty & Hid & Hn & He). cbn [k_Kty k_Kid k_N k_E] in *. unfold jwk_json, zero_jwk. cbn [k_Kty k_Kid k_N k_E].
  rewrite (into_struct_cons _ _ "kty" _ _ _ (mkJwk kty "" "" "")) by jwk_stored.
  rewrite (into_struct_cons _ _ "kid" _ _ _ (mkJwk kty kid "" "")) by jwk_stored.
  rewrite (into_struct_cons _ _ "n" _ _ _ (mkJwk kty kid n "")) by jwk_stored.
  by rewrite (into_struct_cons _ _ "e" _ _ _ (mkJwk kty kid n e)) by jwk_stored.
Qed.

Lemma jwk_json_ok k : jwk_valid k → wf_json (jwk_json k) ∧ nesting (jwk_json k) <= 2.
Proof. intros (Hty & Hid & Hn & He). split; [apply members_wf; members|by apply members_flat; repeat constructor]. Qed.

Lemma read_jwks ks : Forall jwk_valid ks →
  into_slice zero_jwk (into_struct jwk_fields set_jwk_field) [] (jwk_json <$> ks) = Some ks.
Proof. induction 1 as [|k ks Hk _ IH]; [done|]. cbn [fmap list_fmap into_slice head default from_option tail]. by rewrite read_jwk, IH. Qed.

Lemma jwks_nesting ks : Forall jwk_valid ks → nesting (JArr (jwk_json <$> ks)) <= 3.
Proof. induction 1 as [|k ks Hk _ IH]; [done|]. destruct (jwk_json_ok k Hk). cbn [nesting fmap list_fmap] in *. lia. Qed.

Lemma decode_jwks_body ks err : Forall jwk_valid ks → decode_jwks (mkStream (jwks_body ks) err) = Some ks.
Proof.
  intros Hks. unfold decode_jwks, jwks_body. rewrite decode_print.
  - cbn [mbind option_bind]. rewrite (into_struct_cons _ _ "keys" _ _ _ ks); [done|done|by left|].
    cbn [into_jwks]. rewrite read_jwks; [done|]. done.
  - apply single_wf; [done|]. constructor. apply Forall_fmap. eapply Forall_impl; [exact Hks|]. apply jwk_json_ok.
  - unfold maxNestingDepth. pose proof (jwks_nesting ks Hks). cbn [nesting] in *. lia.
  - done.
Qed.

Lemma b64_utf8 s vs : b64_values s = Some vs → utf8_valid s = true.
Proof.
  unfold utf8_valid. revert vs. induction s as [|c s IH]; [done|]. intros vs. cbn [b64_values]. revert IH.
  destruct (b64_values s) as [ws|]; [intros IH; specialize (IH _ eq_refl); revert IH|intros _]; all_bytes c; try discriminate; done.
Qed.

Lemma b64_encode_utf8 bs : Forall is_byte bs → utf8_valid (b64_encode bs) = true.
Proof. intros Hb. pose proof (DecodeString_encode bs Hb) as (vs & Hv & _)%bind_Some. by eapply b64_utf8. Qed.

Lemma jwks_keys_last (before after : list jwk) (kid : string) (n e : list Z) :
  Forall is_byte n → Forall is_byte e →
  Forall (λ k, k_Kid k ≠ kid) after →
  jwks_keys (before ++ mkJwk "RSA" kid (b64_encode n) (b64_encode e) :: after) !! kid =
    Some (mkKey (SetBytes n) (wrap64 (SetBytes e))).
Proof.
  intros Hn He Hafter. unfold jwks_keys. rewrite foldl_app. cbn [foldl].
  generalize (foldl add_jwk ∅ before). intros keys.
  assert (add_jwk keys (mkJwk "RSA" kid (b64_encode n) (b64_encode e)) !! kid =
    Some (mkKey (SetBytes n) (wrap64 (SetBytes e)))) as Hk.
  { unfold add_jwk. cbn [k_Kty k_Kid k_N k_E]. rewrite bool_decide_true by done. cbn [negb].
    by rewrite (DecodeString_encode n Hn), (DecodeString_encode e He), lookup_insert_eq. }
  revert Hk. generalize (add_jwk keys (mkJwk "RSA" kid (b64_encode n) (b64_encode e))). clear keys.
  induction Hafter as [|k after Hne _ IH]; intros keys Hk; [done|]. cbn. apply IH. unfold add_jwk.
  destruct (negb _), (DecodeString (k_N k)), (DecodeString (k_E k)); try done.
  by rewrite lookup_insert_ne.
Qed.

(** A published key is read back.  For an RSA entry whose modulus and
    exponent are given in base64url without padding, big-endian, the key
    collected from the document under its [kid] has exactly these numbers (the
    exponent as an [int64]), whatever other entries with other identifiers
    surround it and however the connection ends after the document. *)
Theorem jwks_key_imported (before after : list jwk) (kid : string) (n e : list Z) (err : option error) :
  Forall is_byte n → Forall is_byte e → utf8_valid kid = true →
  Forall jwk_valid before → Forall jwk_valid after → Forall (λ k, k_Kid k ≠ kid) after →
  ∃ doc, decode_jwks (mkStream (jwks_body (before ++ mkJwk "RSA" kid (b64_encode n) (b64_encode e) :: after)) err) = Some doc ∧
    jwks_keys doc !! kid = Some (mkKey (SetBytes n) (wrap64 (SetBytes e))).
Proof.
  intros Hn He Hid Hb Ha Hne. eexists. split; [apply decode_jwks_body|by apply jwks_keys_last].
  apply Forall_app. split; [done|]. constructor; [|done]. split_and!; [done|done|by apply b64_encode_utf8..].
Qed.

Lemma jwks_key_imported_witness :
  ∃ doc, decode_jwks (mkStream (jwks_body [mkJwk "EC" "a" "!" "!"; mkJwk "RSA" "b" (b64_encode [193; 7; 255]) (b64_encode [1; 0; 1])]) None) =
    Some doc ∧ jwks_keys doc !! "b" = Some (mkKey 12650495 65537).
Proof.
  apply (jwks_key_imported [mkJwk "EC" "a" "!" "!"] [] "b" [193; 7; 255] [1; 0; 1] None);
    [repeat (constructor; [unfold is_byte; lia|]); constructor..|done|by repeat constructor|constructor|constructor].
Defined.


(** ** Looking up keys *)

Section KeyFacts.
Context `{Runtime W, KeyServer W}.

(** A refresh that reports success installed the keys of a document the server
    has just answered with; one that fails changes nothing. *)
Lemma refreshKeys_spec (w w' : W) a a' err :
  refreshKeys (w, a) = Some (err, (w', a')) →
  match err with
  | Some _ => a' = a ∧ ∃ x, Get_jwks w = Some (x, w')
  | None => ∃ body doc, Get_jwks w = Some (inl (StatusOK, body), w') ∧ decode_jwks body = Some doc ∧ jwks_keys doc ≠ ∅ ∧
      a' = mkAuth (a_issuer a) (jwks_keys doc) (now w')
  end.
Proof.
  unfold refreshKeys. intros (resp & [w1 a1] & Hg & Hrest)%gom_bind_Some.
  unfold on_fst in Hg. cbn in Hg. destruct (Get_jwks w) as [[x w2]|] eqn:E; [|done].
  injection Hg as <- <- <-. destruct x as [[status body]|e]; [|injection Hrest as <- <- <-; eauto].
  destruct (status =? StatusOK) eqn:Hst; cbn [negb] in Hrest; [|injection Hrest as <- <- <-; eauto].
  apply Z.eqb_eq in Hst as ->. destruct (decode_jwks body) as [doc|] eqn:Hdoc; [|injection Hrest as <- <- <-; eauto].
  case_bool_decide; [injection Hrest as <- <- <-; eauto|].
  rewrite gom_gets_bind in Hrest. unfold set_auth in Hrest. rewrite gom_modify_bind in Hrest.
  injection Hrest as <- <- <-. cbn. eauto 10.
Qed.

(** The lookup in the cache and the throttle. *)
Lemma keyFor_cached tok kid key (w : W) a :
  tok_kid tok = Some kid → kid ≠ "" → a_keys a !! kid = Some key →
  keyFor tok (w, a) = Some (inl key, (w, a)).
Proof.
  intros Ht Hk Hkey. unfold keyFor. rewrite Ht. cbn [default from_option id]. rewrite bool_decide_false by done.
  unfold get_auth. rewrite gom_gets_bind. cbn. by rewrite Hkey.
Qed.

Lemma keyFor_key tok key (w w' : W) a a' :
  keyFor tok (w, a) = Some (inl key, (w', a')) →
  ∃ kid, tok_kid tok = Some kid ∧ kid ≠ "" ∧ a_keys a' !! kid = Some key ∧
    (a' = a ∧ w' = w ∨
     a_keys a !! kid = None ∧ 30 * Second <= now w - a_lastRefresh a ∧
     ∃ body doc, Get_jwks w = Some (inl (StatusOK, body), w') ∧ decode_jwks body = Some doc ∧
       a' = mkAuth (a_issuer a) (jwks_keys doc) (now w')).
Proof.
  unfold keyFor. destruct (tok_kid tok) as [kid|]; [|done]. cbn [default from_option id].
  case_bool_decide as Hk; [done|]. unfold get_auth. rewrite gom_gets_bind. cbn [snd].
  destruct (a_keys a !! kid) as [key'|] eqn:Hkey.
  { intros [= <- <- <-]. exists kid. by split_and!; try left. }
  rewrite gom_gets_bind. cbn [now runtime_pair fst].
  destruct (_ <? 30 * Second) eqn:Ht; [done|].
  intros (err & [w1 a1] & Hr%refreshKeys_spec & Hrest)%gom_bind_Some.
  destruct err as [e|]; [done|]. destruct Hr as (body & doc & Hg & Hdoc & _ & ->).
  rewrite gom_gets_bind in Hrest. cbn [snd a_keys] in Hrest.
  destruct (jwks_keys doc !! kid) as [key'|] eqn:Hd; [|done]. injection Hrest as <- <- <-.
  exists kid. split_and!; [done..|]. right. split_and!; [done|lia|eauto 6].
Qed.

End KeyFacts.

(** The key server is asked only when it must be.  A token without a [kid] is
    refused at once; a known key is returned from the cache; for 30 seconds
    after a successful refresh an unknown [kid] is refused without asking; and
    otherwise there is one request, whose document replaces the whole cache if
    it holds any usable RSA key and else leaves it as it was. *)
Theorem keyFor_branches `{Runtime W, KeyServer W} (tok : Token) (w : W) (a : Auth) :
  let kid := default "" (tok_kid tok) in
  (kid = "" → keyFor tok (w, a) = Some (inr (ErrText "в токене нет kid"), (w, a))) ∧
  (kid ≠ "" → ∀ key, a_keys a !! kid = Some key → keyFor tok (w, a) = Some (inl key, (w, a))) ∧
  (kid ≠ "" → a_keys a !! kid = None → now w - a_lastRefresh a < 30 * Second →
     keyFor tok (w, a) = Some (inr (ErrText "ключ подписи не найден"), (w, a))) ∧
  (kid ≠ "" → a_keys a !! kid = None → 30 * Second <= now w - a_lastRefresh a →
     ∀ x w', Get_jwks w = Some (x, w') →
     ∃ res a', keyFor tok (w, a) = Some (res, (w', a')) ∧
       match (match x with inl (200, body) => decode_jwks body | _ => None end) with
       | Some doc =>
           if bool_decide (jwks_keys doc = ∅) then a' = a ∧ ∃ e, res = inr e
           else a' = mkAuth (a_issuer a) (jwks_keys doc) (now w') ∧
                ∀ key, res = inl key ↔ jwks_keys doc !! kid = Some key
       | None => a' = a ∧ ∃ e, res = inr e
       end).
Proof.
  intros kid. unfold keyFor. fold kid. split_and!.
  - intros ->. by rewrite bool_decide_true.
  - intros Hk key Hkey. rewrite bool_decide_false by done. unfold get_auth. rewrite gom_gets_bind. cbn. by rewrite Hkey.
  - intros Hk Hkey Ht. rewrite bool_decide_false by done. unfold get_auth. rewrite gom_gets_bind. cbn [snd].
    rewrite Hkey, gom_gets_bind. cbn [now runtime_pair fst].
    by replace (now w - a_lastRefresh a <? 30 * Second) with true by lia.
  - intros Hk Hkey Ht x w' Hg. rewrite bool_decide_false by done. unfold get_auth. rewrite gom_gets_bind. cbn [snd].
    rewrite Hkey, gom_gets_bind. cbn [now runtime_pair fst].
    replace (now w - a_lastRefresh a <? 30 * Second) with false by lia.
    unfold refreshKeys, on_fst, mbind, gom_bind. cbn [fst snd]. rewrite Hg.
    destruct x as [[status body]|e]; [|cbn; eauto 10].
    destruct (status =? StatusOK) eqn:Hst; cbn [negb].
    + apply Z.eqb_eq in Hst as ->. unfold StatusOK. destruct (decode_jwks body) as [doc|]; [|cbn; eauto 10]. cbn.
      case_bool_decide; [cbn; eauto 10|]. cbn.
      destruct (jwks_keys doc !! kid) as [key|]; cbn; eexists _, _; split_and!; try done; naive_solver.
    + exists (inr (ErrText "JWKS вернул статус")), a. split; [done|].
      assert (status ≠ 200) by (unfold StatusOK in Hst; lia).
      destruct (match status with 200 => decode_jwks body | _ => None end) eqn:E; [|eauto]. exfalso. repeat case_match; congruence.
Qed.

(** ** The middleware *)

(** What the library documents: [Parse] succeeds only for a token whose
    signature it has verified, with the key returned by the callback for the
    token's header, under the given options. *)
Class JwtLaws (W : Type) `{JwtLibrary W} := {
  header_of : string → option Token;
  verified : jwt_options → PublicKey → string → Prop;
  parse_sound : ∀ opts kf raw s s', jwt_Parse opts kf raw s = Some (None, s') →
    ∃ tok key, header_of raw = Some tok ∧ kf tok s = Some (inl key, s') ∧ verified opts key raw
}.

(** A token that validates was verified with a key the server published under
    its [kid]. *)
Lemma Validate_sound `{Runtime W, KeyServer W, JwtLaws (W * Auth)} raw (w w1 : W) a a1 :
  Validate raw (w, a) = Some (None, (w1, a1)) →
  ∃ tok kid key, header_of raw = Some tok ∧ tok_kid tok = Some kid ∧ kid ≠ "" ∧
    verified (jwt_opts a) key raw ∧ a_keys a1 !! kid = Some key ∧
    ((w1, a1) = (w, a) ∨ ∃ body doc, Get_jwks w = Some (inl (StatusOK, body), w1) ∧
      decode_jwks body = Some doc ∧ a_keys a1 = jwks_keys doc).
Proof.
  intros Hv. unfold Validate, get_auth in Hv. rewrite gom_gets_bind in Hv. cbn [snd] in Hv.
  apply parse_sound in Hv as (tok & key & Hh & Hk & Hver).
  apply keyFor_key in Hk as (kid & Hkid & Hne & Hkey & Hfrom).
  exists tok, kid, key. split_and!; try done.
  destruct Hfrom as [[-> ->]|(_ & _ & body & doc & Hg & Hdoc & ->)]; [by left|]. right. eauto.
Qed.


(** ** Witnesses

    A key server with one key, and a library that knows one token. *)

Definition ex_jwks : stream := mkStream (jwks_body [mkJwk "RSA" "k1" (b64_encode [193; 7]) (b64_encode [1; 0; 1])]) None.

#[local] Instance ex_key_server : KeyServer sim := { Get_jwks := mret (inl (200, ex_jwks)) }.

Definition ex_header_of (raw : string) : option Token :=
  if bool_decide (raw = "good") then Some (mkToken (Some "k1")) else None.

#[local] Instance ex_jwt : JwtLibrary (sim * Auth) := {
  jwt_Parse opts kf raw :=
    match ex_header_of raw with
    | None => mret (Some (ErrText "malformed"))
    | Some tok =>
        r ← kf tok;
        match r with
        | inl key => mret (if pk_E key =? 65537 then None else Some (ErrText "signature is invalid"))
        | inr e => mret (Some e)
        end
    end
}.

#[local] Instance ex_jwt_laws : JwtLaws (sim * Auth).
Proof.
  refine {| header_of := ex_header_of; verified opts key raw := raw = "good" ∧ pk_E key = 65537 |}.
  intros opts kf raw s s'. cbn. unfold ex_header_of. case_bool_decide as Hr; [|done].
  intros (r & s1 & Hk & Hrest)%gom_bind_Some. destruct r as [key|e]; [|done].
  destruct (pk_E key =? 65537) eqn:E; [|done]. injection Hrest as <-.
  exists (mkToken (Some "k1")), key. split_and!; [done..|lia].
Defined.

Definition ex_bearer (raw : string) : http_request :=
  mkReq Background "" (λ h, if bool_decide (h = "Authorization") then "Bearer " +:+ raw else "") (λ _, "") (λ _, "").
Definition ex_next (r : http_request) : GoM (sim * Auth) (reply unit) := mret (write_ok StatusOK ()).
Definition ex_auth : Auth := mkAuth "" ∅ (-60 * Second).


Example middleware_rejects :
  (λ x, rp_status x.1) <$> Middleware true ex_next (ex_bearer "bad") (sim0, ex_auth) = Some 401.
Proof. vm_compute. reflexivity. Qed.
