(* ===== verification/JwtFrame.v ===== *)
(** * JwtFrame: what checking a token keeps

    Checking a token changes the cache of keys and asks the key server, nothing
    else: a relation that the key server's answers keep is kept. *)

From stdpp Require Import base option list strings gmap.
From Stdlib Require Import ZArith.
From S2P Require Import Prelude Framed GoStrings Http Jwt.

(** [jwt.Parse] has no effect of its own: what its callback keeps, it keeps. *)
Class JwtPure (W : Type) `{JwtLibrary W} := {
  parse_pure : ∀ (P : W → W → Prop) opts kf raw, Reflexive P → Transitive P → (∀ tok, framed P (kf tok)) →
    framed P (jwt_Parse opts kf raw)
}.

Section Keys.
Context `{Runtime W, KeyServer W} (R : W → W → Prop) `{!PreOrder R} (jwks_keep : framed R Get_jwks).
Notation R' := (on_first (L := Auth) R).

#[local] Hint Resolve jwks_keep : framed.

Lemma keyFor_framed tok : framed R' (keyFor tok).
Proof.
  unfold keyFor, refreshKeys, get_auth. framed_go.
  intros ? ? ? [= _ <-]. unfold on_first. cbn. reflexivity.
Qed.

Lemma Validate_framed `{!JwtLibrary (W * Auth), !JwtPure (W * Auth)} raw : framed R' (Validate raw).
Proof.
  unfold Validate, get_auth. apply framed_bind; [typeclasses eauto|eauto with framed|]. intros au.
  apply parse_pure; [apply _|apply _|apply keyFor_framed].
Qed.

End Keys.
