(* ===== verification/TCache.v ===== *)
(** * TCache: the list cache in Tarantool

    [internal/tcache/tcache.go].  The connection pool is an interface; the
    space [cache] holds tuples (key, value, expiry) in MessagePack. *)

From stdpp Require Import base option list strings gmap.
From Stdlib Require Import ZArith Lia Ascii.
From S2P Require Import Prelude GoStrings RateLimit.
Local Open Scope Z_scope.

(** ** Values *)

(** The dynamic types a decoded field can have; a float is given by its
    integral part, which is all the code uses of it. *)
Inductive any :=
| AInt64 (n : Z) | AUint64 (n : Z) | AInt (n : Z)
| AInt8 (n : Z) | AInt16 (n : Z) | AInt32 (n : Z)
| AUint8 (n : Z) | AUint16 (n : Z) | AUint32 (n : Z)
| AFloat64 (n : Z)
| AString (s : string)
| ASlice (l : list any)
| ANil.

(** [toInt64]; the conversion from [uint64] wraps. *)
Definition toInt64 (v : any) : Z * bool :=
  match v with
  | AInt64 n => (n, true)
  | AUint64 n => (wrap64 n, true)
  | AInt n => (n, true)
  | AInt8 n => (n, true)
  | AInt16 n => (n, true)
  | AInt32 n => (n, true)
  | AUint32 n => (n, true)
  | AFloat64 n => (n, true)
  | _ => (0, false)
  end.

(** ** The cache *)

(** The requests the code sends to the space [cache]. *)
Class Tarantool (W : Type) := {
  t_select : ctx → string → GoM W (list any + error);
  t_replace : ctx → list any → GoM W (option error);
  t_delete : ctx → string → GoM W (option error)
}.

(** [Cache]: its time to live; a nil cache is [None]. *)
Record Cache := mkCache { c_ttl : Z }.

Section Cache.
Context `{Runtime W, Tarantool W}.

Definition Get (cache : option Cache) (c : ctx) (key : string) : GoM W (string * bool) :=
  match cache with
  | None => mret ("", false)
  | Some _ =>
      resp ← t_select c key;
      match resp with
      | inr _ => mret ("", false)
      | inl [] => mret ("", false)
      | inl (ASlice (_ :: v :: x :: _) :: _) =>
          match v with
          | AString value =>
              let '(expires, ok) := toInt64 x in
              t ← gets now;
              if negb ok || (expires <? unix t) then mret ("", false) else mret (value, true)
          | _ => mret ("", false)
          end
      | inl _ => mret ("", false)
      end
  end.

Definition Set_ (cache : option Cache) (c : ctx) (key value : string) : GoM W unit :=
  match cache with
  | None => mret ()
  | Some cache =>
      t ← gets now;
      _ ← t_replace c [AString key; AString value; AInt64 (unix (t + c_ttl cache))];
      mret ()
  end.

Definition Delete (cache : option Cache) (c : ctx) (key : string) : GoM W unit :=
  match cache with
  | None => mret ()
  | Some _ => _ ← t_delete c key; mret ()
  end.

End Cache.

(** A node of the pool, as [tcache.New] configures it. *)
Record Instance_ := mkInstance {
  i_Name : string; i_Address : string; i_User : string; i_Password : string; i_Timeout : Z
}.

(** [tcache.New] over the environment and [pool.Connect]. *)
Definition New {W} `{Runtime W} (getenv : string → string) (connect : ctx → list Instance_ → GoM W (option error))
    (c : ctx) : GoM W (option Cache * option error) :=
  let addrs := getenv "TARANTOOL_ADDRS" in
  if bool_decide (addrs = "") then mret (None, None)
  else
    let user := if bool_decide (getenv "TARANTOOL_USER" = "") then "app" else getenv "TARANTOOL_USER" in
    let password := if bool_decide (getenv "TARANTOOL_PASSWORD" = "") then "app-secret"
                    else getenv "TARANTOOL_PASSWORD" in
    let instances := (λ addr, mkInstance addr addr user password (3 * Second)) <$> Split addrs ","%char in
    connCtx ← gets (with_timeout c (15 * Second));
    err ← connect connCtx instances;
    match err with
    | Some err => mret (None, Some err)
    | None => mret (Some (mkCache (10 * Second)), None)
    end.

(** ** A server

    Integers travel in the shortest MessagePack form and are decoded to the type
    of that form. *)
Definition msgpack_int (n : Z) : any :=
  if 0 <=? n then
    if n <=? 127 then AInt8 n else if n <=? 255 then AUint8 n
    else if n <=? 65535 then AUint16 n else if n <=? 4294967295 then AUint32 n else AUint64 n
  else if -128 <=? n then AInt8 n else if -32768 <=? n then AInt16 n
  else if -2147483648 <=? n then AInt32 n else AInt64 n.

Definition travel (v : any) : any :=
  match v with AInt64 n => msgpack_int n | v => v end.

Notation space := (gmap string (list any)).

#[export] Instance tarantool_server {W} `{Runtime W} : Tarantool (W * space) := {
  t_select c key s := Some (inl (match s.2 !! key with Some t => [ASlice (travel <$> t)] | None => [] end), s);
  t_replace c t s :=
    match t with
    | AString key :: _ => Some (None, (s.1, <[key := t]> s.2))
    | _ => Some (Some (ErrText "tuple field 1 type"), s)
    end;
  t_delete c key s := Some (None, (s.1, delete key s.2))
}.

(** ** Properties *)

Lemma toInt64_msgpack n : 65536 <= n <= max_int64 → toInt64 (msgpack_int n) = (n, true).
Proof.
  intros Hn. unfold msgpack_int. replace (0 <=? n) with true by lia. replace (n <=? 127) with false by lia.
  replace (n <=? 255) with false by lia. replace (n <=? 65535) with false by lia.
  destruct (n <=? 4294967295); [done|]. cbn. rewrite wrap64_id; [done|].
  unfold in_int64, min_int64, max_int64 in *. lia.
Qed.

(** The cache returns what was stored, and only while it is fresh.  After
    [Set] at instant [t], [Get] of the same key at a later instant returns the
    value exactly until the second of [t] plus the time to live has passed, and
    a miss afterwards; [Delete] makes it a miss at once, and other keys keep
    their answers.  (The clock shows at least 65536 seconds: smaller numbers
    have a MessagePack form the code does not read.) *)
Theorem cache_roundtrip `{Runtime W} (cache : Cache) (c : ctx) (key value other : string)
    (w w' : W) (s : space) :
  65536 <= unix (now w + c_ttl cache) <= max_int64 → other ≠ key →
  ∃ s1, Set_ (Some cache) c key value (w, s) = Some ((), (w, s1)) ∧
    Get (Some cache) c key (w', s1) =
      Some (if unix (now w') <=? unix (now w + c_ttl cache) then (value, true) else ("", false), (w', s1)) ∧
    (∃ s2, Delete (Some cache) c key (w', s1) = Some ((), (w', s2)) ∧
       Get (Some cache) c key (w', s2) = Some (("", false), (w', s2))) ∧
    ∃ r, Get (Some cache) c other (w', s1) = Some (r, (w', s1)) ∧
         Get (Some cache) c other (w', s) = Some (r, (w', s)).
Proof.
  intros Hexp Hother. eexists. split; [done|]. cbn [snd fst now runtime_pair]. split_and!.
  - unfold Get, mbind, gom_bind. cbn [t_select tarantool_server snd]. rewrite lookup_insert_eq.
    cbn [fmap list_fmap travel]. rewrite (toInt64_msgpack _ Hexp).
    cbn [gets negb orb now runtime_pair fst]. rewrite Z.ltb_antisym.
    by destruct (unix (now w') <=? unix (now w + c_ttl cache)).
  - eexists. split; [done|]. unfold Get, mbind, gom_bind. cbn [t_select tarantool_server snd].
    by rewrite lookup_delete_eq.
  - unfold Get, mbind, gom_bind. cbn [t_select tarantool_server snd]. rewrite lookup_insert_ne by done.
    destruct (s !! other) as [t|]; [|by eexists]. cbn.
    destruct (travel <$> t) as [|k [|v [|x t']]]; try by eexists.
    destruct v; try by eexists. destruct (toInt64 x) as [e ok]. cbn [gets now runtime_pair fst].
    destruct (negb ok || _); by eexists.
Qed.

Lemma cache_roundtrip_witness :
  ∃ s1, Set_ (Some (mkCache (10 * Second))) Background "k" "v" (sim_advance (1700000000 * Second) sim0, ∅) =
    Some ((), (sim_advance (1700000000 * Second) sim0, s1)).
Proof.
  destruct (cache_roundtrip (mkCache (10 * Second)) Background "k" "v" "o"
    (sim_advance (1700000000 * Second) sim0) sim0 ∅) as (s1 & H & _).
  - vm_compute. split; discriminate.
  - discriminate.
  - exists s1. exact H.
Defined.

(** A cache never fails the caller.  Whatever the server answers, [Get]
    returns: a server error is a miss, a miss carries no value, and it is a hit
    exactly when the first tuple has a string value and an expiry that, as read,
    is not in the past.  [Set] and [Delete] return whether the server accepted
    the change or not. *)
Theorem cache_get_sound `{Runtime W, Tarantool W} (cache : Cache) (c : ctx) (key value : string)
    (w w' : W) (resp : list any + error) :
  t_select c key w = Some (resp, w') →
  (∃ r, Get (Some cache) c key w = Some (r, w') ∧
     (∀ err, resp = inr err → r.2 = false) ∧ (r.2 = false → r.1 = "") ∧
     (r = (value, true) ↔ ∃ k x rest more e, resp = inl (ASlice (k :: AString value :: x :: rest) :: more) ∧
        toInt64 x = (e, true) ∧ unix (now w') <= e)) ∧
  (∀ err w2, t_replace c [AString key; AString value; AInt64 (unix (now w + c_ttl cache))] w = Some (err, w2) →
     Set_ (Some cache) c key value w = Some ((), w2)) ∧
  (∀ err w2, t_delete c key w = Some (err, w2) → Delete (Some cache) c key w = Some ((), w2)).
Proof.
  intros Hs. split_and!.
  - unfold Get. rewrite (gom_bind_run _ _ _ _ _ Hs). destruct resp as [rows|err].
    2:{ eexists. split; [done|]. split_and!; [done..|]. split; [done|]. by intros (? & ? & ? & ? & ? & ? & _). }
    destruct rows as [|[n|n|n|n|n|n|n|n|n|n|s|[|k [|v [|x rest]]]|] more];
      try (eexists; split; [done|]; split_and!; [done..|]; split; [done|]; by intros (? & ? & ? & ? & ? & ? & _)).
    destruct v as [| | | | | | | | | |v| |];
      try (eexists; split; [done|]; split_and!; [done..|]; split; [done|]; by intros (? & ? & ? & ? & ? & ? & _)).
    destruct (toInt64 x) as [e ok] eqn:Ex. rewrite gom_gets_bind.
    destruct (negb ok || _) eqn:Hb; eexists; (split; [done|]); split_and!; try done; split; try done.
    + intros (k' & x' & rest' & more' & e' & [= <- <- <- <- <-] & Ex' & He). rewrite Ex in Ex'.
      injection Ex' as -> ->. cbn in Hb. lia.
    + intros [= ->]. apply orb_false_iff in Hb as [->%negb_false_iff Hlt].
      exists k, x, rest, more, e. split_and!; [done..|]. lia.
    + by intros (k' & x' & rest' & more' & e' & [= <- <- <- <- <-] & _).
  - intros err w2 E. unfold Set_. rewrite gom_gets_bind. by rewrite (gom_bind_run _ _ _ _ _ E).
  - intros err w2 E. unfold Delete. by rewrite (gom_bind_run _ _ _ _ _ E).
Qed.

Lemma cache_get_sound_witness :
  ∃ r, Get (Some (mkCache (10 * Second))) Background "k"
    (sim_advance (1700000000 * Second) sim0, {["k" := [AString "k"; AString "v"; AInt64 1700000010]]} : space) =
    Some (r, (sim_advance (1700000000 * Second) sim0, {["k" := [AString "k"; AString "v"; AInt64 1700000010]]})).
Proof.
  destruct (cache_get_sound (mkCache (10 * Second)) Background "k" "v"
    (sim_advance (1700000000 * Second) sim0, {["k" := [AString "k"; AString "v"; AInt64 1700000010]]} : space)
    (sim_advance (1700000000 * Second) sim0, {["k" := [AString "k"; AString "v"; AInt64 1700000010]]})
    (inl [ASlice [AString "k"; AString "v"; AUint32 1700000010]])) as ((r & Hr & _) & _).
  - vm_compute. reflexivity.
  - exists r. exact Hr.
Defined.
