(* ===== verification/Coord.v ===== *)
(** * Coord: locks and configuration in etcd

    [internal/coord/coord.go].  The etcd client is an interface; the watch loop
    is followed response by response. *)

From stdpp Require Import base option list strings.
From Stdlib Require Import ZArith Lia.
From S2P Require Import Prelude GoStrings RateLimit.
Local Open Scope Z_scope.

(** ** Interface *)

(** An event of a watch, and a response: its error, events and revision. *)
Inductive kv_event := EventPut (value : string) | EventDelete.
Record watch_response := mkResp {
  wr_err : option error;
  wr_events : list kv_event;
  wr_revision : Z
}.

(** The etcd client.  [e_Watch] starts at the given revision (or now, for
    [None]) and yields all responses until the channel is closed. *)
Class Etcd (W : Type) := {
  e_NewSession : ctx → GoM W (option error);
  e_SessionClose : GoM W unit;
  e_Lock : ctx → string → GoM W (option error);
  e_Unlock : ctx → string → GoM W (option error);
  e_Get : ctx → string → GoM W ((list string * Z) + error);
  e_Watch : ctx → string → option Z → GoM W (list watch_response)
}.

Section Coord.
Context `{Runtime W, Etcd W}.

(** [Coordinator.WithLock]; [enabled] is false for a nil coordinator. *)
Definition WithLock (enabled : bool) (c : ctx) (name : string) (fn : GoM W (option error))
    : GoM W (option error) :=
  if negb enabled then fn
  else
    err ← e_NewSession c;
    match err with
    | Some _ => fn
    | None =>
        lockCtx ← gets (with_timeout c (30 * Second));
        err ← e_Lock lockCtx name;
        match err with
        | Some e => _ ← e_SessionClose; mret (Some e)
        | None =>
            res ← fn;
            unlockCtx ← gets (with_timeout Background (5 * Second));
            _ ← e_Unlock unlockCtx name;
            _ ← e_SessionClose;
            mret res
        end
    end.

Variable apply : Z → GoM W unit.

Definition applyInt (raw : string) : GoM W unit :=
  match ParseInt (TrimSpace raw) with
  | (_, Some _) => mret ()
  | (n, None) => apply n
  end.

Definition fetchInt (c : ctx) (key : string) : GoM W Z :=
  getCtx ← gets (with_timeout c (5 * Second));
  resp ← e_Get getCtx key;
  match resp with
  | inr _ => mret 0
  | inl (kvs, rev) =>
      _ ← (match kvs with [] => mret () | v :: _ => applyInt v end);
      mret rev
  end.

(** The loop over the events of a response. *)
Fixpoint apply_events (evs : list kv_event) : GoM W unit :=
  match evs with
  | [] => mret ()
  | EventPut v :: rest => _ ← applyInt v; apply_events rest
  | EventDelete :: rest => apply_events rest
  end.

(** The loop over the channel of responses, from revision [rev]. *)
Fixpoint watch_responses (rev : Z) (rs : list watch_response) : GoM W Z :=
  match rs with
  | [] => mret rev
  | r :: rest =>
      match wr_err r with
      | Some _ => watch_responses rev rest
      | None =>
          _ ← apply_events (wr_events r);
          watch_responses (if rev <? wr_revision r then wr_revision r else rev) rest
      end
  end.

(** One round of the goroutine's loop: watch from the next revision, wait, read
    again; [None] when it returned. *)
Definition watch_round (c : ctx) (key : string) (rev : Z) : GoM W (option Z) :=
  rs ← e_Watch c key (if 0 <? rev then Some (rev + 1) else None);
  rev' ← watch_responses rev rs;
  fired ← lift_state (select_timer c (3 * Second));
  if (fired : bool) then r ← fetchInt c key; mret (Some r) else mret None.

(** [Coordinator.WatchInt], observed after [n] rounds. *)
Fixpoint watch_rounds (n : nat) (c : ctx) (key : string) (rev : Z) : GoM W (option Z) :=
  match n with
  | O => mret (Some rev)
  | S n' =>
      r ← watch_round c key rev;
      match r with
      | None => mret None
      | Some rev' => watch_rounds n' c key rev'
      end
  end.

Definition WatchInt (enabled : bool) (n : nat) (c : ctx) (key : string) : GoM W (option Z) :=
  if negb enabled then mret None
  else rev ← fetchInt c key; watch_rounds n c key rev.

End Coord.

(** ** Locking *)

(** What a critical section leaves in a trace. *)
Inductive lock_event := EvSession | EvLocked (name : string) | EvBody | EvUnlocked (name : string) | EvClosed.

#[export] Instance lock_event_eq_dec : EqDecision lock_event.
Proof. solve_decision. Defined.

(** An etcd whose session, lock and unlock may fail, with a trace of what
    succeeded. *)
Record lock_oracle := mkLockOracle {
  lo_session : option error;
  lo_lock : option error;
  lo_unlock : option error
}.

Definition trace_world : Type := sim * list lock_event.

Definition log_event (ev : lock_event) : GoM trace_world unit := modify (λ s, (s.1, s.2 ++ [ev])).

Definition traced (o : lock_oracle) : Etcd trace_world := {|
  e_NewSession c := match lo_session o with
                    | Some e => mret (Some e)
                    | None => _ ← log_event EvSession; mret None
                    end;
  e_SessionClose := log_event EvClosed;
  e_Lock c name := match lo_lock o with
                   | Some e => mret (Some e)
                   | None => _ ← log_event (EvLocked name); mret None
                   end;
  e_Unlock c name := match lo_unlock o with
                     | Some e => mret (Some e)
                     | None => _ ← log_event (EvUnlocked name); mret None
                     end;
  e_Get c key := mret (inr (ErrText "unused"));
  e_Watch c key rev := mret []
|}.

(** [WithLock] brackets its body.  The body runs exactly once unless the lock
    was refused (then its error is returned and the body does not run); when a
    session was opened, the body runs between taking and releasing the lock,
    the session is closed last, and the result is the body's, whatever
    releasing says; without etcd the body runs alone. *)
Theorem WithLock_brackets (o : lock_oracle) (c : ctx) (name : string) (res : option error) (s : sim) :
  let body := _ ← log_event EvBody; mret res in
  @WithLock trace_world _ (traced o) false c name body (s, []) = Some (res, (s, [EvBody])) ∧
  @WithLock trace_world _ (traced o) true c name body (s, []) =
    Some (match lo_session o, lo_lock o with
          | Some _, _ => (res, (s, [EvBody]))
          | None, Some e => (Some e, (s, [EvSession; EvClosed]))
          | None, None =>
              (res, (s, [EvSession; EvLocked name; EvBody] ++
                        (match lo_unlock o with None => [EvUnlocked name] | Some _ => [] end) ++ [EvClosed]))
          end).
Proof. by destruct o as [[e1|] [e2|] [e3|]]. Qed.

(** ** Following a configuration value *)

(** The integers among the values, in order: what [apply] gets. *)
Definition parsed (raw : string) : option Z :=
  match ParseInt (TrimSpace raw) with (n, None) => Some n | _ => None end.

Definition put_value (ev : kv_event) : option Z :=
  match ev with EventPut v => parsed v | EventDelete => None end.

(** The history of a key: events with increasing revisions. *)
Notation history := (list (Z * kv_event)).

Definition since (rev : Z) (h : history) : history := filter (λ p : Z * kv_event, rev < p.1) h.

Definition current_value (h : history) : list string :=
  match last h with Some (_, EventPut v) => [v] | _ => [] end.

(** An etcd that answers: [Get] with the value and revision at the time, a watch
    with everything after its start, event by event.  The state is the history,
    how far it has been written at the time, and the values applied. *)
Record cfg := mkCfg { cf_past : history; cf_future : history; cf_applied : list Z }.

Definition head_revision (h : history) : Z := match last h with Some (r, _) => r | None => 1 end.

Definition cfg_apply {W} (n : Z) : GoM (W * cfg) unit :=
  modify (λ s, (s.1, mkCfg (cf_past s.2) (cf_future s.2) (cf_applied s.2 ++ [n]))).

#[local] Instance cfg_etcd {W} : Etcd (W * cfg) := {|
  e_NewSession c := mret None;
  e_SessionClose := mret ();
  e_Lock c name := mret None;
  e_Unlock c name := mret None;
  e_Get c key := gets (λ s, inl (current_value (cf_past s.2), head_revision (cf_past s.2)));
  e_Watch c key rev s :=
    let h := cf_past s.2 ++ cf_future s.2 in
    let evs := match rev with Some r => since (r - 1) h | None => cf_future s.2 end in
    Some ((λ p : Z * kv_event, mkResp None [p.2] p.1) <$> evs, (s.1, mkCfg h [] (cf_applied s.2)))
|}.

(** The revisions of the past reach up to the head, those of the future lie
    above it. *)
Definition ordered (past future : history) : Prop :=
  0 < head_revision past ∧ Forall (λ p : Z * kv_event, p.1 <= head_revision past) past ∧
  Forall (λ p : Z * kv_event, head_revision past < p.1) future.

Section Follow.
Context {W : Type} `{Runtime W}.

Lemma applyInt_run raw (w : W) p f a :
  applyInt cfg_apply raw (w, mkCfg p f a) = Some ((), (w, mkCfg p f (a ++ option_list (parsed raw)))).
Proof.
  unfold applyInt, parsed. destruct (ParseInt (TrimSpace raw)) as [n [e|]]; cbn; by rewrite ?app_nil_r.
Qed.

Lemma fetchInt_run c key (w : W) p f a :
  fetchInt cfg_apply c key (w, mkCfg p f a) =
    Some (head_revision p, (w, mkCfg p f (a ++ omap parsed (current_value p)))).
Proof.
  unfold fetchInt. rewrite gom_gets_bind. unfold e_Get, cfg_etcd. rewrite gom_gets_bind. cbn [snd cf_past].
  assert (∀ v, omap parsed [v] = option_list (parsed v)) as Ho by (intros v; cbn; by destruct (parsed v)).
  unfold current_value. destruct (last p) as [[r [v|]]|].
  - rewrite (gom_bind_run _ _ _ _ _ (applyInt_run v w p f a)). by rewrite Ho.
  - unfold mbind, gom_bind, mret, gom_ret. by rewrite app_nil_r.
  - unfold mbind, gom_bind, mret, gom_ret. by rewrite app_nil_r.
Qed.

Lemma watch_responses_run evs rev (w : W) p f a :
  ∃ rev', watch_responses cfg_apply rev ((λ e : Z * kv_event, mkResp None [e.2] e.1) <$> evs) (w, mkCfg p f a) =
    Some (rev', (w, mkCfg p f (a ++ omap (put_value ∘ snd) evs))).
Proof.
  revert rev a. induction evs as [|[r ev] evs IH]; intros rev a.
  { eexists. cbn. by rewrite app_nil_r. }
  cbn [fmap list_fmap watch_responses wr_err wr_events wr_revision fst snd].
  assert (apply_events cfg_apply [ev] (w, mkCfg p f a) =
    Some ((), (w, mkCfg p f (a ++ option_list (put_value ev))))) as E.
  { destruct ev as [v|]; cbn [apply_events]; [|cbn; by rewrite app_nil_r].
    by rewrite (gom_bind_run _ _ _ _ _ (applyInt_run v w p f a)). }
  rewrite (gom_bind_run _ _ _ _ _ E). edestruct IH as [rev' ->]. exists rev'. do 4 f_equal.
  rewrite <- app_assoc. f_equal. cbn. by destruct (put_value ev).
Qed.

Lemma since_head past future : ordered past future → since (head_revision past) (past ++ future) = future.
Proof.
  intros (_ & Hp & Hf). unfold since. rewrite filter_app.
  rewrite (list_filter_all _ future), (list_filter_none _ past); [done| |done].
  eapply Forall_impl; [exact Hp|]. cbn. lia.
Qed.

End Follow.


