(* ===== verification/FileStores.v ===== *)
(** * FileStores: objects in S3 and files in HDFS

    [internal/blobstore/blobstore.go] and [internal/hdfsstore/hdfsstore.go],
    over interfaces for the MinIO and HDFS client libraries. *)

From stdpp Require Import base option list strings gmap.
From Stdlib Require Import ZArith Lia Ascii.
From S2P Require Import Prelude GoStrings GoPaths Retry.
Local Open Scope Z_scope.

(** A nil map is [None]. *)
Notation tagmap := (option (gmap string string)).

Section Observe.
Context `{Runtime W}.

(** [observability.ObserveStorage]; the duration is in nanoseconds. *)
Definition ObserveStorage (backend op : string) (start : Z) (failed : bool) : GoM W unit :=
  _ ← modify (emit (MInc "otus_storage_ops_total" [backend; op; if failed then "error" else "ok"]));
  t ← gets now;
  modify (emit (MObserve "otus_storage_op_duration_seconds" [backend; op] (t - start))).

Lemma ObserveStorage_run backend op start failed (w : W) :
  ∃ w', ObserveStorage backend op start failed w = Some ((), w').
Proof. by eexists. Qed.

End Observe.

(** ** S3 *)

(** [blobstore.Object] *)
Record Object := mkObject {
  obj_Key : string;
  obj_Size : Z;
  obj_ETag : string;
  obj_VersionID : string;
  obj_ContentType : string;
  obj_LastModified : Z;
  obj_Tags : tagmap;
  obj_IsLatest : bool;
  obj_Parts : Z
}.

(** [minio.ObjectInfo], the fields the code reads. *)
Record ObjectInfo := mkInfo {
  i_Key : string;
  i_Size : Z;
  i_ETag : string;
  i_VersionID : string;
  i_ContentType : string;
  i_LastModified : Z;
  i_IsLatest : bool
}.

(** A reader: its handle and the bytes it will yield. *)
Record reader := mkReader { rd_id : nat; rd_bytes : string }.

(** The byte range of a request. *)
Inductive byte_range := RangeFrom (start : Z) | RangeTo (start last : Z).

(** The MinIO client. *)
Class Minio (W : Type) := {
  mi_SetRange : Z → Z → byte_range + error;
  mi_PutObject : ctx → string → stream → Z → string → tagmap → GoM W (ObjectInfo + error);
  mi_GetObject : ctx → string → string → option byte_range → GoM W (reader + error);
  mi_Stat : reader → GoM W (ObjectInfo + error);
  mi_Close : reader → GoM W unit;
  mi_StatObject : ctx → string → string → GoM W (ObjectInfo + error);
  mi_ListObjects : ctx → string → bool → GoM W (list (ObjectInfo + error));
  mi_GetTags : ctx → string → string → GoM W (gmap string string + error);
  mi_NewTags : tagmap → option error;
  mi_PutTags : ctx → string → tagmap → GoM W (option error)
}.

Definition rangeEnd (offset length : Z) : Z :=
  if length <=? 0 then 0 else wrap64 (offset + length - 1).

(** [partsFromETag] *)
Definition partsFromETag (etag : string) : Z :=
  match last_index_byte "-"%char etag with
  | Some (S i) =>
      match Atoi (TrimByte (str_drop (S (S i)) etag) (Ascii.ascii_of_N 34)) with
      | (n, None) => n
      | _ => 0
      end
  | _ => 0
  end.

Definition zero_Object : Object := mkObject "" 0 "" "" "" 0 None false 0.

Section Blobs.
Context `{Runtime W, Minio W}.

(** [enabled] is false for a nil store. *)
Definition Blob_Put (enabled : bool) (c : ctx) (key : string) (body : stream) (size : Z) (contentType : string)
    (tags : tagmap) : GoM W (Object * option error) :=
  if negb enabled then mret (zero_Object, Some ErrNotConfigured)
  else
    start ← gets now;
    r ← mi_PutObject c key body size contentType tags;
    match r with
    | inr err => _ ← ObserveStorage "s3" "put" start true; mret (zero_Object, Some err)
    | inl info =>
        _ ← ObserveStorage "s3" "put" start false;
        mret (mkObject (i_Key info) (i_Size info) (i_ETag info) (i_VersionID info) contentType 0 tags false
                (partsFromETag (i_ETag info)), None)
    end.

(** The object of a listed or read entry. *)
Definition of_info (info : ObjectInfo) (contentType : string) (latest : bool) (parts : Z) : Object :=
  mkObject (i_Key info) (i_Size info) (i_ETag info) (i_VersionID info) contentType (i_LastModified info)
    None latest parts.

Definition Blob_Get (enabled : bool) (c : ctx) (key version : string) (offset length : Z)
    : GoM W ((reader * Object) + error) :=
  if negb enabled then mret (inr ErrNotConfigured)
  else
    start ← gets now;
    let range :=
      if (0 <? offset) || (0 <? length)
      then match mi_SetRange (W := W) offset (rangeEnd offset length) with
           | inl rg => inl (Some rg)
           | inr err => inr err
           end
      else inl None in
    match range with
    | inr err => mret (inr err)
    | inl range =>
        r ← mi_GetObject c key version range;
        match r with
        | inr err => _ ← ObserveStorage "s3" "get" start true; mret (inr err)
        | inl obj =>
            st ← mi_Stat obj;
            match st with
            | inr err => _ ← ObserveStorage "s3" "get" start true; _ ← mi_Close obj; mret (inr err)
            | inl info => _ ← ObserveStorage "s3" "get" start false; mret (inl (obj, of_info info (i_ContentType info) false 0))
            end
        end
    end.

(** The loop over the channel of [ListObjects]: stop at the first error. *)
Fixpoint collect (keep : ObjectInfo → bool) (make : ObjectInfo → Object) (entries : list (ObjectInfo + error))
    : list Object + error :=
  match entries with
  | [] => inl []
  | inr err :: _ => inr err
  | inl info :: rest =>
      match collect keep make rest with
      | inr err => inr err
      | inl objs => inl (if keep info then make info :: objs else objs)
      end
  end.

Definition Blob_List (enabled : bool) (c : ctx) (prefix : string) : GoM W (list Object + error) :=
  if negb enabled then mret (inr ErrNotConfigured)
  else
    start ← gets now;
    entries ← mi_ListObjects c prefix false;
    let r := collect (λ _, true) (λ info, of_info info "" false 0) entries in
    _ ← ObserveStorage "s3" "list" start (match r with inr _ => true | inl _ => false end);
    mret r.

Definition Versions (enabled : bool) (c : ctx) (key : string) : GoM W (list Object + error) :=
  if negb enabled then mret (inr ErrNotConfigured)
  else
    start ← gets now;
    entries ← mi_ListObjects c key true;
    let r := collect (λ info, bool_decide (i_Key info = key)) (λ info, of_info info "" (i_IsLatest info) 0) entries in
    _ ← ObserveStorage "s3" "versions" start (match r with inr _ => true | inl _ => false end);
    mret r.

Definition Tags (enabled : bool) (c : ctx) (key version : string) : GoM W (gmap string string + error) :=
  if negb enabled then mret (inr ErrNotConfigured)
  else
    start ← gets now;
    t ← mi_GetTags c key version;
    _ ← ObserveStorage "s3" "get_tags" start (match t with inr _ => true | inl _ => false end);
    mret t.

Definition SetTags (enabled : bool) (c : ctx) (key : string) (tags : tagmap) : GoM W (option error) :=
  if negb enabled then mret (Some ErrNotConfigured)
  else
    start ← gets now;
    match mi_NewTags (W := W) tags with
    | Some err => mret (Some err)
    | None =>
      err ← mi_PutTags c key tags;
      _ ← ObserveStorage "s3" "set_tags" start (bool_decide (is_Some err));
      mret err
    end.

(** [v, ok := t[key]; ok && (value == "" || v == value)] *)
Definition tag_matches (key value : string) (t : gmap string string) : bool :=
  match t !! key with
  | Some v => bool_decide (value = "") || bool_decide (v = value)
  | None => false
  end.

Definition with_tags (t : gmap string string) (o : Object) : Object :=
  mkObject (obj_Key o) (obj_Size o) (obj_ETag o) (obj_VersionID o) (obj_ContentType o) (obj_LastModified o)
    (Some t) (obj_IsLatest o) (obj_Parts o).

(** The loop of [FindByTag]: one request per object. *)
Fixpoint find_loop (c : ctx) (key value : string) (objs : list Object) : GoM W (list Object) :=
  match objs with
  | [] => mret []
  | o :: rest =>
      t ← Tags true c (obj_Key o) "";
      found ← find_loop c key value rest;
      match t with
      | inr _ => mret found
      | inl t => mret (if tag_matches key value t then with_tags t o :: found else found)
      end
  end.

Definition FindByTag (enabled : bool) (c : ctx) (key value prefix : string) : GoM W (list Object + error) :=
  if negb enabled then mret (inr ErrNotConfigured)
  else
    start ← gets now;
    all ← Blob_List true c prefix;
    match all with
    | inr err => mret (inr err)
    | inl objs =>
        found ← find_loop c key value objs;
        _ ← ObserveStorage "s3" "find_by_tag" start false;
        mret (inl found)
    end.

Definition Blob_Stat (enabled : bool) (c : ctx) (key version : string) : GoM W (Object + error) :=
  if negb enabled then mret (inr ErrNotConfigured)
  else
    start ← gets now;
    r ← mi_StatObject c key version;
    match r with
    | inr err => _ ← ObserveStorage "s3" "stat" start true; mret (inr err)
    | inl info => _ ← ObserveStorage "s3" "stat" start false;
                  mret (inl (of_info info (i_ContentType info) false (partsFromETag (i_ETag info))))
    end.

End Blobs.

(** ** HDFS *)

(** [hdfsstore.File] *)
Record File := mkFile { f_Name : string; f_Path : string; f_Size : Z; f_Modified : Z }.

(** [os.FileInfo] *)
Record FileInfo := mkFileInfo { fi_Name : string; fi_Size : Z; fi_ModTime : Z; fi_IsDir : bool }.

(** The HDFS client; [h_Copy] is [io.Copy] into a writer, which tells how much
    was written. *)
Class Hdfs (W : Type) := {
  h_Remove : string → GoM W (option error);
  h_CreateFile : string → GoM W (nat + error);
  h_Copy : nat → stream → GoM W (Z * option error);
  h_CloseWriter : nat → GoM W (option error);
  h_IsErrReplicating : error → bool;
  h_Open : string → GoM W ((reader * FileInfo) + error);
  h_Seek : reader → Z → GoM W (reader + error);
  h_CloseReader : reader → GoM W unit;
  h_ReadDir : string → GoM W (list FileInfo + error);
  h_Stat : string → GoM W (FileInfo + error)
}.

(** [io.LimitReader] *)
Definition LimitReader (r : reader) (n : Z) : reader := mkReader (rd_id r) (str_take (Z.to_nat n) (rd_bytes r)).

Definition full (dir name : string) : string := path_Join dir (path_Base name).

Definition zero_File : File := mkFile "" "" 0 0.

Section Files.
Context `{Runtime W, Hdfs W}.
Variable dir : string.

Definition closeWithRetry (c : ctx) (w : nat) : GoM W (option error) :=
  Policy_Do (mkPolicy 8 (50 * Millisecond) (4 * Second)) c "hdfs" "close" (h_IsErrReplicating (W := W)) (h_CloseWriter w).

Definition Files_Put (enabled : bool) (c : ctx) (name : string) (body : stream) : GoM W (File * option error) :=
  if negb enabled then mret (zero_File, Some ErrNotConfigured)
  else
    start ← gets now;
    let target := full dir name in
    _ ← h_Remove target;
    w ← h_CreateFile target;
    match w with
    | inr err => _ ← ObserveStorage "hdfs" "put" start true; mret (zero_File, Some err)
    | inl w =>
        r ← h_Copy w body;
        match r with
        | (_, Some err) =>
            _ ← h_CloseWriter w; _ ← ObserveStorage "hdfs" "put" start true; mret (zero_File, Some err)
        | (written, None) =>
            err ← closeWithRetry c w;
            match err with
            | Some err => _ ← ObserveStorage "hdfs" "put" start true; mret (zero_File, Some err)
            | None =>
                _ ← ObserveStorage "hdfs" "put" start false;
                t ← gets now;
                mret (mkFile (path_Base name) target written t, None)
            end
        end
    end.

Definition Files_Get (enabled : bool) (name : string) (offset length : Z) : GoM W ((reader * File) + error) :=
  if negb enabled then mret (inr ErrNotConfigured)
  else
    start ← gets now;
    let target := full dir name in
    r ← h_Open target;
    match r with
    | inr err => _ ← ObserveStorage "hdfs" "get" start true; mret (inr err)
    | inl (rd, info) =>
        _ ← ObserveStorage "hdfs" "get" start false;
        let meta := mkFile (path_Base name) target (fi_Size info) (fi_ModTime info) in
        sought ← (if 0 <? offset then h_Seek rd offset else mret (inl rd));
        match sought with
        | inr err => _ ← h_CloseReader rd; mret (inr err)
        | inl rd => mret (inl ((if 0 <? length then LimitReader rd length else rd), meta))
        end
    end.

Definition Files_List (enabled : bool) : GoM W (list File + error) :=
  if negb enabled then mret (inr ErrNotConfigured)
  else
    start ← gets now;
    r ← h_ReadDir dir;
    match r with
    | inr err => _ ← ObserveStorage "hdfs" "list" start true; mret (inr err)
    | inl entries =>
        _ ← ObserveStorage "hdfs" "list" start false;
        mret (inl ((λ e, mkFile (fi_Name e) (path_Join dir (fi_Name e)) (fi_Size e) (fi_ModTime e)) <$>
                   filter (λ e, fi_IsDir e = false) entries))
    end.

Definition Files_Stat (enabled : bool) (name : string) : GoM W (File + error) :=
  if negb enabled then mret (inr ErrNotConfigured)
  else
    start ← gets now;
    r ← h_Stat (full dir name);
    match r with
    | inr err => _ ← ObserveStorage "hdfs" "stat" start true; mret (inr err)
    | inl info => _ ← ObserveStorage "hdfs" "stat" start false;
                  mret (inl (mkFile (fi_Name info) (full dir name) (fi_Size info) (fi_ModTime info)))
    end.

End Files.

(** ** Properties *)

(** The number of parts is read from the tag of a multipart upload: for the
    entity tag [<hash>-<n>] it is [n], and it is 0 for a tag without a dash. *)
Theorem partsFromETag_multipart (hash : string) (n : Z) :
  hash ≠ "" → 0 <= n <= max_int64 →
  partsFromETag (hash +:+ "-" +:+ FormatInt n) = n ∧
  (str_all (not_byte "-"%char) hash = true → partsFromETag hash = 0).
Proof.
  intros Hne Hn. split.
  - unfold partsFromETag.
    change ("-" +:+ FormatInt n) with (String "-"%char (FormatInt n)).
    rewrite last_index_app by (apply FormatInt_no_byte; [lia|done]).
    destruct hash as [|c hash]; [done|]. cbn [String.length].
    change (str_drop (S (S (String.length hash))) (String c hash +:+ String "-" (FormatInt n)))
      with (str_drop (S (String.length hash)) (hash +:+ String "-" (FormatInt n))).
    assert (str_drop (S (String.length hash)) (hash +:+ String "-" (FormatInt n)) = FormatInt n) as ->.
    { clear Hne. induction hash as [|x hash IH]; [done|exact IH]. }
    assert (∀ s, str_all is_digit s = true → trim_left_byte (Ascii.ascii_of_N 34) s = s) as Ht.
    { intros [|x s]; [done|]. cbn [str_all trim_left_byte]. intros [Hx _]%andb_true_iff.
      assert (not_byte (Ascii.ascii_of_N 34) x = true) as Hb by (by apply digit_not_byte).
      unfold not_byte in Hb. apply negb_true_iff in Hb. by rewrite Hb. }
    pose proof (FormatInt_digits n ltac:(lia)) as Hd.
    unfold TrimByte. rewrite (Ht _ Hd), Ht by (by rewrite str_all_rev). rewrite str_rev_involutive.
    unfold Atoi. rewrite ParseInt_FormatInt; [done|]. unfold in_int64, min_int64. lia.
  - intros Hno. unfold partsFromETag. by rewrite last_index_None.
Qed.

Lemma partsFromETag_multipart_witness : partsFromETag ("abc" +:+ "-" +:+ FormatInt 12) = 12.
Proof. apply (partsFromETag_multipart "abc" 12); [discriminate|unfold max_int64; lia]. Defined.

(** Listing, as a function of the entries. *)
Lemma collect_spec keep make entries :
  match collect keep make entries with
  | inl objs => ∃ infos, entries = inl <$> infos ∧ objs = make <$> filter (λ i, keep i = true) infos
  | inr err => ∃ infos rest, entries = (inl <$> infos) ++ inr err :: rest
  end.
Proof.
  induction entries as [|[info|err] entries IH]; cbn [collect].
  - by exists [].
  - destruct (collect keep make entries) as [objs|err].
    + destruct IH as (infos & -> & ->). exists (info :: infos). split; [done|]. rewrite filter_cons.
      destruct (keep info) eqn:E; destruct (decide _); done || congruence.
    + destruct IH as (infos & rest & ->). by exists (info :: infos), rest.
  - by exists [], entries.
Qed.

(** A bucket whose tags can be read, or not, object by object. *)
Class TagReader (W : Type) `{Runtime W, Minio W} := {
  tags_of : string → option (gmap string string);
  tags_read : ∀ c key w, ∃ w', Tags true c key "" w =
    Some (match tags_of key with Some t => inl t | None => inr (ErrText "tags") end, w')
}.

Lemma find_loop_spec `{TagReader W} c key value objs (w : W) :
  ∃ w', find_loop c key value objs w =
    Some (omap (λ o, match tags_of (obj_Key o) with
                     | Some t => if tag_matches key value t then Some (with_tags t o) else None
                     | None => None
                     end) objs, w').
Proof.
  revert w. induction objs as [|o objs IH]; intros w; [by eexists|]. cbn [find_loop].
  destruct (tags_read c (obj_Key o) w) as [w1 E]. rewrite (gom_bind_run _ _ _ _ _ E).
  destruct (IH w1) as [w2 E2]. rewrite (gom_bind_run _ _ _ _ _ E2). exists w2. cbn.
  destruct (tags_of (obj_Key o)) as [t|]; [|done]. by destruct (tag_matches key value t).
Qed.

(** Searching by tag is exact.  [FindByTag] returns, in listing order and with
    their tags filled in, exactly the listed objects whose tags can be read and
    hold the key with the asked value (any value when none is asked); it fails
    only if the listing does. *)
Theorem FindByTag_exact `{TagReader W} (c : ctx) (key value prefix : string) (w : W) (objs : list Object) (w1 : W) :
  Blob_List true c prefix w = Some (inl objs, w1) →
  ∃ found w', FindByTag true c key value prefix w = Some (inl found, w') ∧
    found = omap (λ o, match tags_of (obj_Key o) with
                       | Some t => if tag_matches key value t then Some (with_tags t o) else None
                       | None => None
                       end) objs ∧
    (∀ o, o ∈ objs → (∃ t v, tags_of (obj_Key o) = Some t ∧ t !! key = Some v ∧ (value = "" ∨ v = value)) ↔
       ∃ t, tags_of (obj_Key o) = Some t ∧ with_tags t o ∈ found).
Proof.
  intros Hl. unfold FindByTag. cbn [negb]. rewrite gom_gets_bind, (gom_bind_run _ _ _ _ _ Hl).
  destruct (find_loop_spec c key value objs w1) as [w2 E]. rewrite (gom_bind_run _ _ _ _ _ E).
  eexists _, _. split; [done|]. split; [done|]. intros o Ho. split.
  - intros (t & v & Ht & Hv & Hval). exists t. split; [done|]. apply list_elem_of_omap. exists o. split; [done|].
    rewrite Ht. unfold tag_matches. rewrite Hv.
    replace (bool_decide (value = "") || bool_decide (v = value)) with true; [done|].
    symmetry. rewrite orb_true_iff, !bool_decide_eq_true. tauto.
  - intros (t & Ht & Hin). apply list_elem_of_omap in Hin as (o' & Ho' & Heq).
    destruct (tags_of (obj_Key o')) as [t'|] eqn:Ht'; [|done].
    destruct (tag_matches key value t') eqn:Hm; [|done]. injection Heq as Hk _ _ _ _ _ Htt _ _.
    exists t. unfold tag_matches in Hm. rewrite Htt in Hm. destruct (t !! key) as [v|]; [|done].
    exists v. split; [done|]. split; [done|]. rewrite orb_true_iff, !bool_decide_eq_true in Hm. tauto.
Qed.

(** A bucket with two objects, the tags of one of which cannot be read. *)
Definition ex_info (key : string) : ObjectInfo := mkInfo key 1 "e" "" "" 0 true.

#[local] Instance ex_minio : Minio sim := {|
  mi_SetRange a b := inl (RangeTo a b);
  mi_PutObject c key body size ct tags := mret (inl (ex_info key));
  mi_GetObject c key version rg := mret (inl (mkReader 0 ""));
  mi_Stat r := mret (inl (ex_info ""));
  mi_Close r := mret ();
  mi_StatObject c key version := mret (inl (ex_info key));
  mi_ListObjects c prefix versions := mret [inl (ex_info "a"); inl (ex_info "b")];
  mi_GetTags c key version := mret (if bool_decide (key = "a") then inl {["env" := "prod"]} else inr (ErrText "tags"));
  mi_NewTags t := None;
  mi_PutTags c key t := mret None
|}.

#[local] Instance ex_tags : TagReader sim.
Proof.
  refine {| tags_of key := if bool_decide (key = "a") then Some {["env" := "prod"]} else None |}.
  intros c key w. unfold Tags, mi_GetTags, ex_minio. cbn [negb]. rewrite gom_gets_bind, gom_ret_bind.
  destruct (bool_decide (key = "a")); by eexists.
Defined.

Lemma FindByTag_exact_witness :
  ∃ found w', FindByTag true Background "env" "prod" "" sim0 = Some (inl found, w') ∧ obj_Key <$> found = ["a"].
Proof.
  assert (∃ objs w1, Blob_List true Background "" sim0 = Some (inl objs, w1)) as (objs & w1 & Hl)
    by (vm_compute; eauto).
  destruct (FindByTag_exact Background "env" "prod" "" sim0 objs w1 Hl) as (found & w' & Hf & Heq & _).
  exists found, w'. split; [exact Hf|]. vm_compute in Hl. injection Hl as <- _. rewrite Heq. vm_compute. reflexivity.
Defined.

(** Files stay in their directory.  Below an absolute working directory, the
    path of a name is the directory followed by the last element of the name,
    whatever directories the name mentions, unless that element is [.], [..] or
    there is none. *)
Theorem full_contained (segs : list string) (name : string) :
  Forall element segs → segs ≠ [] →
  path_Base name ≠ "/" → path_Base name ≠ "." → path_Base name ≠ ".." →
  full (abs_path segs) name = abs_path segs +:+ "/" +:+ path_Base name ∧
  str_all (not_byte "/"%char) (path_Base name) = true.
Proof.
  intros Hs Hne H1 H2 H3. destruct (path_Base_element name) as [?|[Hb Hall]]; [done|]. split; [|done].
  unfold full. rewrite path_Join_below by done. rewrite abs_path_app. cbn. by rewrite str_app_nil_r.
Qed.

Lemma full_contained_witness :
  full "/otus/files" "../../etc/passwd" = "/otus/files/passwd".
Proof.
  apply (full_contained ["otus"; "files"] "../../etc/passwd").
  - repeat (apply Forall_cons; split; [split_and!; [discriminate|discriminate|discriminate|reflexivity]|]).
    apply Forall_nil_2.
  - discriminate.
  - vm_compute. discriminate.
  - vm_compute. discriminate.
  - vm_compute. discriminate.
Defined.
