(* ===== verification/RequestJson.v ===== *)
(** * RequestJson: the JSON of request bodies

    [json.NewDecoder(r.Body).Decode] as the handlers of
    [internal/handlers/handlers.go], [internal/handlers/storage.go] and
    [cmd/gateway/grpc.go] call it, and what a client that writes with
    [encoding/json] sends. *)

From stdpp Require Import base option list strings gmap.
From Stdlib Require Import ZArith Lia.
From S2P Require Import Prelude GoStrings GoPaths ServeMux JsonText Json Messaging EventJson Storage Retry FileStores.
Local Open Scope Z_scope.

(** [var req struct{ Text string `json:"text"` }] *)
Definition decode_text (body : stream) : option string :=
  v ← decode_stream body; into_struct ["text"] (λ _ v old, into_string old v) "" v.

Definition into_strings (old : list string) (v : json) : option (list string) :=
  match v with JNull => Some [] | JArr l => into_slice "" into_string old l | _ => None end.

(** [var req struct{ Texts []string `json:"texts"` }], and with [notes] *)
Definition decode_strings (field : string) (body : stream) : option (list string) :=
  v ← decode_stream body; into_struct [field] (λ _ v old, into_strings old v) [] v.

(** A map of strings: null makes it nil, a member adds to it or replaces, and a
    member that is null is empty. *)
Definition into_tags (old : tagmap) (v : json) : option tagmap :=
  match v with
  | JNull => Some None
  | JObj fs =>
      Some <$> foldl (λ acc f, m ← acc; s ← into_string "" f.2; Some (<[unquote f.1 := s]> m)) (Some (default ∅ old)) fs
  | _ => None
  end.

(** [var tags map[string]string] *)
Definition decode_tags (body : stream) : option tagmap := v ← decode_stream body; into_tags None v.

(** ** Facts *)

(** What a client sends that writes the same struct, or a list of strings. *)
Definition text_body (text : string) : string := print (JObj [("text", jstring text)]).
Definition strings_body (field : string) (l : list string) : string := print (JObj [(field, JArr (jstring <$> l))]).

Lemma decode_text_body text err : utf8_valid text = true → decode_text (mkStream (text_body text) err) = Some text.
Proof.
  intros Ht. unfold decode_text, text_body. rewrite decode_print by (done || by apply single_wf, wf_jstring).
  cbn [mbind option_bind]. unfold into_struct. cbn [foldl mbind option_bind fst snd].
  replace (field_of ["text"] (unquote "text")) with (Some "text") by reflexivity. by apply into_string_jstring.
Qed.

(** A decoded text is valid UTF-8, whatever was sent. *)
Lemma decode_text_valid body text : decode_text body = Some text → utf8_valid text = true.
Proof.
  unfold decode_text. intros (v & _ & Hv)%bind_Some. revert Hv.
  apply (into_struct_keeps (λ s, utf8_valid s = true)); [done|]. intros n v' x y. apply into_string_valid.
Qed.

Lemma decode_strings_body field l err : str_all plain field = true → unquote field = field →
  Forall (λ s, utf8_valid s = true) l → decode_strings field (mkStream (strings_body field l) err) = Some l.
Proof.
  intros Hf Hu Hl. unfold decode_strings, strings_body. rewrite decode_print.
  - cbn [mbind option_bind]. unfold into_struct. cbn [foldl mbind option_bind fst snd]. rewrite Hu, field_single.
    cbn [into_strings]. rewrite (into_slice_fmap "" into_string jstring id), list_fmap_id; [done|].
    intros o x Hx. apply into_string_jstring. by eapply Forall_forall in Hl.
  - apply single_wf; [done|]. constructor. apply Forall_fmap. eapply Forall_impl; [exact Hl|]. intros s Hs. by apply wf_jstring.
  - assert (nesting (JArr (jstring <$> l)) = 1) as Hn; [|unfold maxNestingDepth; cbn [nesting] in *; lia].
    clear Hl. cbn [nesting]. induction l as [|s l IH]; [done|]. cbn [fmap list_fmap nesting jstring]. lia.
  - done.
Qed.

Lemma decode_strings_valid field body l : decode_strings field body = Some l → Forall (λ s, utf8_valid s = true) l.
Proof.
  unfold decode_strings. intros (v & _ & Hv)%bind_Some. revert Hv.
  apply (into_struct_keeps (Forall (λ s, utf8_valid s = true))); [done|]. intros n v' x y Hx.
  destruct v'; try done; cbn; [by intros [= <-]|].
  apply (into_slice_keeps (λ s, utf8_valid s = true)); [done| |done]. intros s u z. apply into_string_valid.
Qed.
