(* ===== verification/FilesApi.v ===== *)
(** * FilesApi: the file, search and event handlers

    [internal/handlers/storage.go]: parsing of parameters, and the handlers over
    the interfaces [Blobs], [Files], [Search], [Events] and [MessageSearcher]. *)

From stdpp Require Import base option list strings gmap.
From Stdlib Require Import ZArith Lia Ascii.
From S2P Require Import Prelude GoStrings GoPaths Http Messaging FileStores RequestJson.
Local Open Scope Z_scope.

(** ** Parameters *)

Definition backendParam (r : http_request) : string :=
  if bool_decide (hq_query r "backend" = "hdfs") then "hdfs" else "s3".

Definition contentLength (n : Z) : Z := if 0 <? n then n else -1.

Definition intParam (r : http_request) (name : string) (fallback max : Z) : Z :=
  let raw := hq_query r name in
  if bool_decide (raw = "") then fallback
  else match Atoi raw with
  | (_, Some _) => fallback
  | (n, None) => if n <=? 0 then fallback else if max <? n then max else n
  end.

(** One [k=v] of [parseTags]. *)
Definition add_tag (tags : gmap string string) (pair : string) : gmap string string :=
  let '(k, v, ok) := Cut pair "="%char in
  let k := TrimSpace k in
  let v := TrimSpace v in
  if ok && negb (bool_decide (k = "")) then <[k := v]> tags else tags.

Definition parseTags (raw : string) : tagmap :=
  if bool_decide (TrimSpace raw = "") then None
  else
    let tags := foldl add_tag ∅ (Split raw ","%char) in
    if bool_decide (tags = ∅) then None else Some tags.

Definition splitTag (raw : string) : string * string :=
  let raw := TrimSpace raw in
  if bool_decide (raw = "") then ("", "")
  else let '(k, v, _) := Cut raw "="%char in (TrimSpace k, TrimSpace v).

(** [parseRange]: offset, length (0 for "to the end"), and whether there is a
    range. *)
Definition parseRange (header : string) : Z * Z * bool :=
  let '(raw, found) := CutPrefix (TrimSpace header) "bytes=" in
  if negb found then (0, 0, false)
  else
    let '(startRaw, endRaw, _) := Cut raw "-"%char in
    match ParseInt (TrimSpace startRaw) with
    | (_, Some _) => (0, 0, false)
    | (start, None) =>
        if start <? 0 then (0, 0, false)
        else if bool_decide (TrimSpace endRaw = "") then (start, 0, true)
        else match ParseInt (TrimSpace endRaw) with
        | (_, Some _) => (start, 0, true)
        | (last, None) =>
            if last <? start then (start, 0, true) else (start, wrap64 (wrap64 (last - start) + 1), true)
        end
    end.

(** ** Interfaces *)

(** [handlers.Blobs], and closing a reader it returned. *)
Class Blobs (W : Type) := {
  b_Put : ctx → string → stream → Z → string → tagmap → GoM W (Object * option error);
  b_Get : ctx → string → string → Z → Z → GoM W ((reader * Object) + error);
  b_List : ctx → string → GoM W (list Object + error);
  b_Versions : ctx → string → GoM W (list Object + error);
  b_SetTags : ctx → string → tagmap → GoM W (option error);
  b_Stat : ctx → string → string → GoM W (Object + error);
  b_FindByTag : ctx → string → string → string → GoM W (list Object + error);
  b_Bucket : string;
  b_Close : reader → GoM W unit
}.

(** [handlers.Files], and closing a reader it returned. *)
Class Files (W : Type) := {
  fs_Put : ctx → string → stream → GoM W (File * option error);
  fs_Get : ctx → string → Z → Z → GoM W ((reader * File) + error);
  fs_List : ctx → GoM W (list File + error);
  fs_Stat : ctx → string → GoM W (File + error);
  fs_Close : reader → GoM W unit
}.

(** [cstore.Event], [search.FileDoc], [search.Document] and [search.Result]. *)
Record Event := mkEvent {
  e_ID : Z; e_Text : string; e_Checksum : string; e_Producer : string; e_CreatedAt : Z
}.
Record FileDoc := mkFileDoc {
  fd_Key : string; fd_Backend : string; fd_Size : Z; fd_VersionID : string; fd_Tags : tagmap; fd_UpdatedAt : Z
}.
Record SearchResult := mkResult {
  sr_Total : Z; sr_TookMS : Z; sr_Messages : list Event; sr_Files : list FileDoc
}.

(** [handlers.Search], [handlers.Events], [handlers.MessageSearcher] *)
Class Search_ (W : Type) := {
  se_SearchMessages : ctx → string → Z → GoM W (SearchResult + error);
  se_SearchFiles : ctx → string → string → string → Z → GoM W (SearchResult + error);
  se_IndexFile : ctx → FileDoc → GoM W (option error)
}.
Class Events (W : Type) := {
  ev_Recent : ctx → string → Z → GoM W (list Event + error);
  ev_ByID : ctx → Z → GoM W (Event + error);
  ev_Scan : ctx → string → Z → GoM W ((list Event * Z) + error)
}.
Class MessageSearcher (W : Type) := {
  ms_Search : ctx → string → Z → GoM W (list Message + error)
}.

(** Which of the dependencies of [API] are set ([rawStore] may or may not
    implement [MessageSearcher]). *)
Record API := mkAPI {
  has_blobs : bool; has_files : bool; has_events : bool; has_search : bool; has_searcher : bool
}.

(** The JSON bodies; [took] and [elapsed] are in milliseconds. *)
Inductive files_body :=
| BHits (engine query : string) (total took elapsed : Z) (docs : list Event)
| BScan (query : string) (total scanned elapsed : Z) (events : list Event)
| BRows (query : string) (total elapsed : Z) (msgs : list Message)
| BEvents (events : list Event)
| BEvent (ev : Event)
| BHdfsCreated (file : File) (tags : tagmap)
| BS3Created (obj : Object)
| BBytes (bytes : string)
| BFound (total took elapsed : Z) (files : list FileDoc)
| BHdfsList (total elapsed : Z) (files : list File)
| BS3List (bucket : string) (total elapsed : Z) (objs : list Object)
| BVersions (key : string) (total : Z) (objs : list Object)
| BTags (key : string) (tags : tagmap).

(** A request with a body: the bytes and [ContentLength]. *)
Record body_request := mkBodyReq {
  br_req : http_request;
  br_body : stream;
  br_length : Z
}.

(** [http.MaxBytesReader] *)
Definition MaxBytesReader (s : stream) (n : Z) : stream :=
  if Z.of_nat (String.length (s_bytes s)) <=? n then s
  else mkStream (str_take (Z.to_nat n) (s_bytes s)) (Some (ErrText "http: request body too large")).

Definition maxUploadSize : Z := Z.shiftl 2 30.

Section Handlers.
Context `{Runtime W, Blobs W, Files W, Search_ W, Events W, MessageSearcher W}.
Variable a : API.

(** [time.Since(start).Milliseconds()] *)
Definition elapsed_ms (start : Z) : GoM W Z := gets (λ w, (now w - start) `quot` Millisecond).

(** [indexFile]: errors are only logged. *)
Definition indexFile (c : ctx) (doc : FileDoc) : GoM W unit :=
  if negb (has_search a) then mret () else _ ← se_IndexFile c doc; mret ().

Definition searchMessages (r : http_request) : GoM W (reply files_body) :=
  let query := TrimSpace (hq_query r "q") in
  if bool_decide (query = "") then mret (write_error StatusBadRequest "параметр q обязателен")
  else
    let limit := intParam r "limit" 10 1000 in
    let engine := if bool_decide (hq_query r "engine" = "") then "elasticsearch" else hq_query r "engine" in
    start ← gets now;
    if bool_decide (engine = "elasticsearch") || bool_decide (engine = "es") then
      if negb (has_search a) then mret (write_error StatusServiceUnavailable "поиск не настроен")
      else
        res ← se_SearchMessages (hq_ctx r) query limit;
        match res with
        | inr _ => mret (write_error StatusInternalServerError "поиск не удался")
        | inl res =>
            elapsed ← elapsed_ms start;
            mret (write_ok StatusOK
              (BHits "elasticsearch" query (sr_Total res) (sr_TookMS res) elapsed (sr_Messages res)))
        end
    else if bool_decide (engine = "cassandra") then
      if negb (has_events a) then mret (write_error StatusServiceUnavailable "лента событий не настроена")
      else
        res ← ev_Scan (hq_ctx r) query limit;
        match res with
        | inr _ => mret (write_error StatusInternalServerError "поиск не удался")
        | inl (found, scanned) =>
            elapsed ← elapsed_ms start;
            mret (write_ok StatusOK (BScan query (Z.of_nat (length found)) scanned elapsed found))
        end
    else if bool_decide (engine = "postgres") then
      if negb (has_searcher a) then mret (write_error StatusServiceUnavailable "поиск по БД не поддерживается")
      else
        res ← ms_Search (hq_ctx r) query limit;
        match res with
        | inr _ => mret (write_error StatusInternalServerError "поиск не удался")
        | inl msgs =>
            elapsed ← elapsed_ms start;
            mret (write_ok StatusOK (BRows query (Z.of_nat (length msgs)) elapsed msgs))
        end
    else mret (write_error StatusBadRequest "неизвестный движок поиска").

Definition listEvents (r : http_request) : GoM W (reply files_body) :=
  if negb (has_events a) then mret (write_error StatusServiceUnavailable "лента событий не настроена")
  else
    res ← ev_Recent (hq_ctx r) (hq_query r "day") (intParam r "limit" 20 1000);
    match res with
    | inr _ => mret (write_error StatusInternalServerError "не удалось прочитать ленту событий")
    | inl events => mret (write_ok StatusOK (BEvents events))
    end.

Definition getEvent (r : http_request) : GoM W (reply files_body) :=
  if negb (has_events a) then mret (write_error StatusServiceUnavailable "лента событий не настроена")
  else match ParseInt (hq_path r "id") with
  | (_, Some _) => mret (write_error StatusBadRequest "некорректный идентификатор")
  | (id, None) =>
      res ← ev_ByID (hq_ctx r) id;
      match res with
      | inr _ => mret (write_error StatusNotFound "событие не найдено")
      | inl ev => mret (write_ok StatusOK (BEvent ev))
      end
  end.

(** [uploadFile]; closing the request's body, which the server does anyway, is
    left out. *)
Definition uploadFile (b : body_request) : GoM W (reply files_body) :=
  let r := br_req b in
  let name := path_Base (TrimSpace (hq_query r "name")) in
  if bool_decide (name = "") || bool_decide (name = ".") || bool_decide (name = "/")
  then mret (write_error StatusBadRequest "параметр name обязателен")
  else
    let tags := parseTags (hq_query r "tags") in
    let body := MaxBytesReader (br_body b) maxUploadSize in
    if bool_decide (backendParam r = "hdfs") then
      if negb (has_files a) then mret (write_error StatusServiceUnavailable "HDFS не настроен")
      else
        res ← fs_Put (hq_ctx r) name body;
        match res with
        | (_, Some _) => mret (write_error StatusBadGateway "не удалось записать файл")
        | (file, None) =>
            t ← gets now;
            _ ← indexFile (hq_ctx r) (mkFileDoc (f_Name file) "hdfs" (f_Size file) "" tags t);
            mret (write_ok StatusCreated (BHdfsCreated file tags))
        end
    else
      if negb (has_blobs a) then mret (write_error StatusServiceUnavailable "S3 не настроен")
      else
        let contentType := if bool_decide (hq_header r "Content-Type" = "") then "application/octet-stream"
                           else hq_header r "Content-Type" in
        res ← b_Put (hq_ctx r) name body (contentLength (br_length b)) contentType tags;
        match res with
        | (_, Some _) => mret (write_error StatusBadGateway "не удалось записать объект")
        | (obj, None) =>
            t ← gets now;
            _ ← indexFile (hq_ctx r) (mkFileDoc (obj_Key obj) "s3" (obj_Size obj) (obj_VersionID obj) tags t);
            mret (write_ok StatusCreated (BS3Created obj))
        end.

(** The end of [downloadFile], once the reader is open. *)
Definition send_file (backend : string) (headers : list (string * string)) (offset size total : Z) (hasRange : bool)
    (rd : reader) : reply files_body :=
  let headers := headers ++ [("Content-Type", "application/octet-stream"); ("X-Backend", backend)] in
  let total := if hasRange && (total =? 0) then wrap64 (offset + size) else total in
  let headers := if hasRange
    then headers ++ [("Content-Range", "bytes " +:+ FormatInt offset +:+ "-" +:+
           FormatInt (wrap64 (offset + size - 1)) +:+ "/" +:+ FormatInt total); ("Accept-Ranges", "bytes")]
    else headers in
  let headers := if 0 <? size then headers ++ [("Content-Length", FormatInt size)] else headers in
  mkReply (if hasRange then StatusPartialContent else StatusOK) headers (OkBody (BBytes (rd_bytes rd))).

Definition downloadFile (r : http_request) : GoM W (reply files_body) :=
  let key := path_Base (hq_path r "key") in
  let backend := backendParam r in
  let '(offset, length, hasRange) := parseRange (hq_header r "Range") in
  if bool_decide (backend = "hdfs") then
    if negb (has_files a) then mret (write_error StatusServiceUnavailable "HDFS не настроен")
    else
      stat ← fs_Stat (hq_ctx r) key;
      let total := match stat with inl f => f_Size f | inr _ => 0 end in
      res ← fs_Get (hq_ctx r) key offset length;
      match res with
      | inr _ => mret (write_error StatusNotFound "файл не найден")
      | inl (rd, meta) =>
          let rep := send_file backend [] offset (f_Size meta) total hasRange rd in
          _ ← fs_Close rd; mret rep
      end
  else
    if negb (has_blobs a) then mret (write_error StatusServiceUnavailable "S3 не настроен")
    else
      let version := hq_query r "version" in
      stat ← b_Stat (hq_ctx r) key version;
      let total := match stat with inl o => obj_Size o | inr _ => 0 end in
      res ← b_Get (hq_ctx r) key version offset length;
      match res with
      | inr _ => mret (write_error StatusNotFound "файл не найден")
      | inl (rd, obj) =>
          let headers := if bool_decide (obj_VersionID obj = "") then [] else [("X-Version-Id", obj_VersionID obj)] in
          let rep := send_file backend headers offset (obj_Size obj) total hasRange rd in
          _ ← b_Close rd; mret rep
      end.

Definition listFiles (r : http_request) : GoM W (reply files_body) :=
  let backend := backendParam r in
  let '(tagKey, tagValue) := splitTag (hq_query r "tag") in
  let source := if bool_decide (hq_query r "source" = "")
                then (if negb (bool_decide (tagKey = "")) && has_search a then "es" else backend)
                else hq_query r "source" in
  start ← gets now;
  if bool_decide (source = "es") then
    if negb (has_search a) then mret (write_error StatusServiceUnavailable "поиск не настроен")
    else
      res ← se_SearchFiles (hq_ctx r) tagKey tagValue backend (intParam r "limit" 50 1000);
      match res with
      | inr _ => mret (write_error StatusInternalServerError "не удалось найти файлы")
      | inl res =>
          elapsed ← elapsed_ms start;
          mret (write_ok StatusOK (BFound (sr_Total res) (sr_TookMS res) elapsed (sr_Files res)))
      end
  else if bool_decide (source = "hdfs") then
    if negb (has_files a) then mret (write_error StatusServiceUnavailable "HDFS не настроен")
    else
      res ← fs_List (hq_ctx r);
      match res with
      | inr _ => mret (write_error StatusBadGateway "не удалось получить список файлов")
      | inl files =>
          elapsed ← elapsed_ms start;
          mret (write_ok StatusOK (BHdfsList (Z.of_nat (length files)) elapsed files))
      end
  else
    if negb (has_blobs a) then mret (write_error StatusServiceUnavailable "S3 не настроен")
    else
      res ← (if negb (bool_decide (tagKey = "")) then b_FindByTag (hq_ctx r) tagKey tagValue (hq_query r "prefix")
             else b_List (hq_ctx r) (hq_query r "prefix"));
      match res with
      | inr _ => mret (write_error StatusBadGateway "не удалось получить список объектов")
      | inl objs =>
          elapsed ← elapsed_ms start;
          mret (write_ok StatusOK (BS3List (b_Bucket (W := W)) (Z.of_nat (length objs)) elapsed objs))
      end.

Definition listVersions (r : http_request) : GoM W (reply files_body) :=
  if negb (has_blobs a) then mret (write_error StatusServiceUnavailable "S3 не настроен")
  else
    let key := path_Base (hq_path r "key") in
    res ← b_Versions (hq_ctx r) key;
    match res with
    | inr _ => mret (write_error StatusBadGateway "не удалось получить версии объекта")
    | inl versions => mret (write_ok StatusOK (BVersions key (Z.of_nat (length versions)) versions))
    end.

Definition updateTags (b : body_request) : GoM W (reply files_body) :=
  let r := br_req b in
  if negb (has_blobs a) then mret (write_error StatusServiceUnavailable "S3 не настроен")
  else
    let key := path_Base (hq_path r "key") in
    match decode_tags (br_body b) with
    | None => mret (write_error StatusBadRequest "некорректное тело запроса")
    | Some tags =>
        err ← b_SetTags (hq_ctx r) key tags;
        match err with
        | Some _ => mret (write_error StatusBadGateway "не удалось обновить теги")
        | None =>
            obj ← b_Stat (hq_ctx r) key "";
            _ ← (match obj with
                 | inl obj => t ← gets now;
                     indexFile (hq_ctx r) (mkFileDoc key "s3" (obj_Size obj) (obj_VersionID obj) tags t)
                 | inr _ => mret ()
                 end);
            mret (write_ok StatusOK (BTags key tags))
        end
    end.

End Handlers.

(** ** Parsing *)


(** A header made of visible characters is not changed by trimming. *)
Lemma range_header_solid (s : string) :
  str_all solid s = true → CutPrefix (TrimSpace ("bytes=" +:+ s)) "bytes=" = (s, true).
Proof.
  intros Hs. rewrite TrimSpace_solid by (by rewrite str_all_app, Hs). by apply CutPrefix_true.
Qed.

Lemma FormatInt_solid n : 0 <= n → str_all solid (FormatInt n) = true.
Proof. intros Hn. eapply str_all_impl; [apply digit_solid|by apply FormatInt_digits]. Qed.

(** [parseRange] reads ranges.  A header [bytes=s-e] with [s <= e] yields the
    offset [s] and the length [e - s + 1], and [bytes=s-] the offset with "to
    the end"; whatever the header, an accepted range has an offset that is not
    negative, and a length that is 0 or follows from two 64-bit bounds.  (For
    [s = 0] and [e] the largest 64-bit integer the length wraps around to the
    smallest one.) *)
Theorem parseRange_reads (s e : Z) :
  0 <= s <= e → e <= max_int64 →
  parseRange ("bytes=" +:+ FormatInt s +:+ "-" +:+ FormatInt e) = (s, wrap64 (e - s + 1), true) ∧
  parseRange ("bytes=" +:+ FormatInt s +:+ "-") = (s, 0, true) ∧
  (e - s < max_int64 → wrap64 (e - s + 1) = e - s + 1) ∧
  (∀ header offset length, parseRange header = (offset, length, true) →
     0 <= offset <= max_int64 ∧ in_int64 length).
Proof.
  intros Hse He. assert (in_int64 s ∧ in_int64 e) as [His Hie] by (unfold in_int64, min_int64; lia).
  split_and!.
  - unfold parseRange. rewrite range_header_solid by (rewrite !str_all_app, !FormatInt_solid by lia; done).
    cbn [negb]. change ("-" +:+ FormatInt e) with (String "-"%char (FormatInt e)).
    rewrite Cut_found by (apply FormatInt_no_byte; [lia|done]).
    rewrite !TrimSpace_FormatInt, !ParseInt_FormatInt by (done || lia).
    replace (s <? 0) with false by lia. rewrite bool_decide_false by (apply FormatInt_nonempty; lia).
    replace (e <? s) with false by lia.
    rewrite (wrap64_id (e - s)) by (unfold in_int64, min_int64; lia). done.
  - unfold parseRange. rewrite range_header_solid by (rewrite !str_all_app, !FormatInt_solid by lia; done).
    cbn [negb]. rewrite Cut_found by (apply FormatInt_no_byte; [lia|done]).
    rewrite TrimSpace_FormatInt, ParseInt_FormatInt by (done || lia).
    replace (s <? 0) with false by lia. done.
  - intros Hlt. apply wrap64_id. unfold in_int64, min_int64. lia.
  - intros header offset length. unfold parseRange.
    assert (∀ z, 0 <= z <= max_int64 → in_int64 z) as Hin by (unfold in_int64, min_int64; lia).
    destruct (CutPrefix _ _) as [raw []]; [|done]. cbn [negb]. destruct (Cut raw _) as [[a b] ok].
    pose proof (ParseInt_range (TrimSpace a)) as Ha. destruct (ParseInt (TrimSpace a)) as [n [err|]]; [done|].
    cbn [fst] in Ha. unfold in_int64 in Ha. destruct (n <? 0) eqn:En; [done|].
    case_bool_decide; [intros [= <- <-]; split; [lia|apply Hin; unfold max_int64; lia]|].
    destruct (ParseInt (TrimSpace b)) as [m [err|]];
      [intros [= <- <-]; split; [lia|apply Hin; unfold max_int64; lia]|].
    destruct (m <? n); intros [= <- <-]; (split; [lia|]); [apply Hin; unfold max_int64; lia|apply wrap64_range].
Qed.

Lemma parseRange_reads_witness : parseRange "bytes=2-5" = (2, 4, true) ∧ parseRange "bytes=7-" = (7, 0, true).
Proof.
  split.
  - apply (parseRange_reads 2 5); unfold max_int64; lia.
  - apply (parseRange_reads 7 7); unfold max_int64; lia.
Defined.

(** [intParam] is bounded: whatever the query, the result is the fallback or
    a number from 1 to the maximum, and a number in that range is taken as it
    is. *)
Theorem intParam_bounded (r : http_request) (name : string) (fallback max : Z) :
  1 <= fallback <= max → max <= max_int64 →
  1 <= intParam r name fallback max <= max ∧
  (∀ n, 1 <= n <= max → hq_query r name = FormatInt n → intParam r name fallback max = n).
Proof.
  intros Hf Hm. unfold intParam, Atoi. split.
  - case_bool_decide; [lia|]. destruct (ParseInt _) as [n [e|]]; [lia|].
    destruct (n <=? 0) eqn:E1; [lia|]. destruct (max <? n) eqn:E2; lia.
  - intros n Hn ->. rewrite bool_decide_false by (apply FormatInt_nonempty; lia).
    rewrite ParseInt_FormatInt by (unfold in_int64, min_int64; lia).
    replace (n <=? 0) with false by lia. by replace (max <? n) with false by lia.
Qed.

Definition ex_query (q : string → string) : http_request := mkReq Background "" (λ _, "") q (λ _, "").

Lemma intParam_bounded_witness : intParam (ex_query (λ _, "50")) "limit" 10 1000 = 50.
Proof. apply (intParam_bounded (ex_query (λ _, "50")) "limit" 10 1000); [lia|unfold max_int64; lia|lia|reflexivity]. Defined.

(** ** Uploads *)

(** A name a store may be asked to write: one path element. *)
Definition valid_name (name : string) : Prop :=
  name ≠ "" ∧ name ≠ "." ∧ str_all (not_byte "/"%char) name = true.

(** Uploads name one element.  Whatever the [name] parameter, the stores are
    only ever asked to write under a single, non-empty path element other than
    [.] (no slash survives): whatever invariant the stores keep when asked so,
    and the index keeps, [uploadFile] keeps. *)
Theorem upload_names_valid `{Runtime W, Blobs W, Files W, Search_ W}
    (I : W → Prop) (a : API) (b : body_request) (w : W) (rep : reply files_body) (w' : W) :
  (∀ c name s n ct tags w r w', valid_name name → b_Put c name s n ct tags w = Some (r, w') → I w → I w') →
  (∀ c name s w r w', valid_name name → fs_Put c name s w = Some (r, w') → I w → I w') →
  (∀ c doc w r w', se_IndexFile c doc w = Some (r, w') → I w → I w') →
  uploadFile a b w = Some (rep, w') → I w → I w'.
Proof.
  intros Hb Hf Hs Hup Hw. unfold uploadFile in Hup.
  set (name := path_Base _) in Hup.
  destruct (bool_decide (name = "") || bool_decide (name = ".") || bool_decide (name = "/")) eqn:Hbad;
    [by injection Hup as _ <-|].
  rewrite !orb_false_iff, !bool_decide_eq_false in Hbad. destruct Hbad as [[Hn1 Hn2] Hn3].
  assert (valid_name name) as Hname.
  { split_and!; [done..|]. by destruct (path_Base_element (TrimSpace (hq_query (br_req b) "name"))) as [?|[]]. }
  assert (∀ c doc w u w', indexFile a c doc w = Some (u, w') → I w → I w') as Hidx.
  { intros c doc w0 u w1. unfold indexFile. destruct (has_search a); cbn [negb]; [|intros Hret; by gom_inv].
    intros (r & w2 & Hr & Hret)%gom_bind_Some. gom_inv. by eapply Hs. }
  destruct (bool_decide (backendParam _ = _)).
  - destruct (negb _); [by injection Hup as _ <-|].
    apply gom_bind_Some in Hup as ([file err] & w1 & Hput & Hrest). eapply Hf in Hput; [|done..].
    destruct err; [by injection Hrest as _ <-|]. rewrite gom_gets_bind in Hrest.
    apply gom_bind_Some in Hrest as (u & w2 & Hi & Hret). gom_inv. by eapply Hidx.
  - destruct (negb _); [by injection Hup as _ <-|].
    apply gom_bind_Some in Hup as ([obj err] & w1 & Hput & Hrest). eapply Hb in Hput; [|done..].
    destruct err; [by injection Hrest as _ <-|]. rewrite gom_gets_bind in Hrest.
    apply gom_bind_Some in Hrest as (u & w2 & Hi & Hret). gom_inv. by eapply Hidx.
Qed.

(** ** Downloads *)

(** The part of a file from [offset], [length] bytes of it or all the rest. *)
Definition slice (offset length : Z) (bytes : string) : string :=
  let rest := str_drop (Z.to_nat offset) bytes in
  if 0 <? length then str_take (Z.to_nat length) rest else rest.

Definition str_size (s : string) : Z := Z.of_nat (String.length s).

(** What a store of objects promises its readers. *)
Class BlobContents (W : Type) `{Blobs W} := {
  content : string → string → option string;
  blob_stat : ∀ c key version bytes w, content key version = Some bytes →
    ∃ obj w', b_Stat c key version w = Some (inl obj, w') ∧ obj_Size obj = str_size bytes;
  blob_get : ∀ c key version bytes offset length w, content key version = Some bytes →
    0 <= offset < str_size bytes → length = 0 ∨ 0 < offset + length <= max_int64 ∧ 0 < length →
    ∃ rd obj w', b_Get c key version offset length w = Some (inl (rd, obj), w') ∧
      rd_bytes rd = slice offset length bytes ∧ obj_Size obj = str_size (rd_bytes rd);
  blob_close : ∀ rd w, ∃ w', b_Close rd w = Some ((), w')
}.

Definition header_get {B} (name : string) (r : reply B) : option string :=
  snd <$> List.find (λ p, bool_decide (p.1 = name)) (rp_headers r).

Lemma str_size_nonneg s : 0 <= str_size s.
Proof. unfold str_size. lia. Qed.

Lemma send_file_ranged backend hs offset size total rd :
  (∀ n v, (n, v) ∈ hs → n = "X-Version-Id") → 0 < size → 0 < total →
  let rep := send_file backend hs offset size total true rd in
  rp_status rep = StatusPartialContent ∧ rp_body rep = OkBody (BBytes (rd_bytes rd)) ∧
  header_get "Content-Length" rep = Some (FormatInt size) ∧
  header_get "Content-Range" rep = Some ("bytes " +:+ FormatInt offset +:+ "-" +:+
    FormatInt (wrap64 (offset + size - 1)) +:+ "/" +:+ FormatInt total).
Proof.
  intros Hhs Hs Ht. cbn zeta. unfold send_file.
  replace (total =? 0) with false by lia. replace (0 <? size) with true by lia. cbn [andb].
  split; [done|]. split; [done|]. unfold header_get. cbn [rp_headers].
  assert (∀ name l, name ≠ "X-Version-Id" → List.find (λ p, bool_decide (p.1 = name)) (hs ++ l) =
    List.find (λ p : string * string, bool_decide (p.1 = name)) l) as Hf.
  { intros name l Hname. induction hs as [|[n v] hs IH]; [done|]. cbn [List.find app fst].
    rewrite (Hhs n v) by left. rewrite bool_decide_false by congruence. apply IH. intros; eapply Hhs; by right. }
  rewrite <- !app_assoc, !Hf by done. done.
Qed.

(** A ranged download from S3 sends the right piece and says so.  For a stored
    object, an offset inside it and a range that does not overflow, the reply is
    206, its body is exactly that part of the object, [Content-Length] is the
    body's length and [Content-Range] its first and last positions and the
    object's size. *)
Theorem download_range_s3 `{BlobContents W, Files W} (a : API) (r : http_request) (w : W) (bytes : string) (s e : Z) :
  has_blobs a = true → backendParam r = "s3" →
  content (path_Base (hq_path r "key")) (hq_query r "version") = Some bytes →
  hq_header r "Range" = "bytes=" +:+ FormatInt s +:+ "-" +:+ FormatInt e →
  0 <= s <= e → s < str_size bytes → e < max_int64 →
  ∃ rep w', downloadFile a r w = Some (rep, w') ∧
    let piece := slice s (e - s + 1) bytes in
    rp_status rep = StatusPartialContent ∧ rp_body rep = OkBody (BBytes piece) ∧
    header_get "Content-Length" rep = Some (FormatInt (str_size piece)) ∧
    header_get "Content-Range" rep = Some ("bytes " +:+ FormatInt s +:+ "-" +:+
      FormatInt (wrap64 (s + str_size piece - 1)) +:+ "/" +:+ FormatInt (str_size bytes)).
Proof.
  intros Ha Hbk Hc Hr Hse Hs He. unfold downloadFile. rewrite Hbk, Ha, Hr. cbn [negb].
  destruct (parseRange_reads s e Hse ltac:(lia)) as (-> & _ & Hw & _). rewrite Hw by lia.
  rewrite bool_decide_false by done.
  destruct (blob_stat (hq_ctx r) _ _ _ w Hc) as (obj & w1 & Est & Hsz).
  rewrite (gom_bind_run _ _ _ _ _ Est).
  destruct (blob_get (hq_ctx r) _ _ _ s (e - s + 1) w1 Hc) as (rd & o & w2 & Eg & Hrd & Hosz);
    [lia|right; unfold max_int64 in *; lia|].
  rewrite (gom_bind_run _ _ _ _ _ Eg).
  destruct (blob_close rd w2) as [w3 Ec]. rewrite (gom_bind_run _ _ _ _ _ Ec). eexists _, w3. split; [done|].
  assert (0 < str_size (rd_bytes rd)) as Hpos.
  { rewrite Hrd. unfold slice. replace (0 <? e - s + 1) with true by lia.
    assert (∀ n m x, (n < String.length x)%nat → (0 < m)%nat → (0 < String.length (str_take m (str_drop n x)))%nat)
      as Hlen.
    { intros n. induction n as [|n IH]; intros m [|y x] Hn Hm; cbn in *; try lia; [destruct m; cbn; lia|].
      apply IH; lia. }
    unfold str_size in *. pose proof (Hlen (Z.to_nat s) (Z.to_nat (e - s + 1)) bytes). lia. }
  rewrite Hsz, Hosz, <- Hrd. apply send_file_ranged; [|done|lia].
  intros n v. case_bool_decide; [by intros ?%elem_of_nil|]. by intros [= -> _]%list_elem_of_singleton.
Qed.

(** ** The stores behind the interfaces *)

Definition minio_blobs {W} `{Runtime W, Minio W} (bucket : string) : Blobs W := {|
  b_Put := Blob_Put true;
  b_Get := Blob_Get true;
  b_List := Blob_List true;
  b_Versions := Versions true;
  b_SetTags := SetTags true;
  b_Stat := Blob_Stat true;
  b_FindByTag := FindByTag true;
  b_Bucket := bucket;
  b_Close := mi_Close
|}.

Definition hdfs_files {W} `{Runtime W, Hdfs W} (dir : string) : Files W := {|
  fs_Put c name s := Files_Put dir true c name s;
  fs_Get c name := Files_Get dir true name;
  fs_List c := Files_List dir true;
  fs_Stat c := Files_Stat dir true;
  fs_Close := h_CloseReader
|}.

(** Files readable in HDFS: what the client documents of open, seek and stat. *)
Class HdfsContents (W : Type) `{Hdfs W} := {
  file_at : string → option string;
  hdfs_stat : ∀ path bytes w, file_at path = Some bytes →
    ∃ info w', h_Stat path w = Some (inl info, w') ∧ fi_Size info = str_size bytes;
  hdfs_open : ∀ path bytes w, file_at path = Some bytes →
    ∃ rd info w', h_Open path w = Some (inl (rd, info), w') ∧ rd_bytes rd = bytes ∧ fi_Size info = str_size bytes;
  hdfs_seek : ∀ rd offset w, 0 <= offset <= str_size (rd_bytes rd) →
    ∃ rd' w', h_Seek rd offset w = Some (inl rd', w') ∧ rd_bytes rd' = str_drop (Z.to_nat offset) (rd_bytes rd);
  hdfs_close : ∀ rd w, ∃ w', h_CloseReader rd w = Some ((), w')
}.

Section HdfsReads.
Context `{Runtime W, HdfsContents W}.
Variables (dir name bytes : string).
Hypothesis Hfile : file_at (full dir name) = Some bytes.

Lemma Files_Stat_reads (w : W) :
  ∃ f w', Files_Stat dir true name w = Some (inl f, w') ∧ f_Size f = str_size bytes.
Proof.
  unfold Files_Stat. cbn [negb]. rewrite gom_gets_bind.
  destruct (hdfs_stat _ _ w Hfile) as (info & w1 & E & Hsz). rewrite (gom_bind_run _ _ _ _ _ E).
  destruct (ObserveStorage_run "hdfs" "stat" (now w) false w1) as [w2 E2]. rewrite (gom_bind_run _ _ _ _ _ E2).
  by eexists _, _.
Qed.

(** The piece is read, and the size given is the whole file's. *)
Lemma Files_Get_reads (s n : Z) (w : W) :
  0 <= s <= str_size bytes → 0 < n →
  ∃ rd f w', Files_Get dir true name s n w = Some (inl (rd, f), w') ∧
    f_Size f = str_size bytes ∧ rd_bytes rd = slice s n bytes.
Proof.
  intros Hs Hn. unfold Files_Get. cbn [negb]. rewrite gom_gets_bind.
  destruct (hdfs_open _ _ w Hfile) as (rd & info & w1 & E & Hrd & Hsz). rewrite (gom_bind_run _ _ _ _ _ E).
  destruct (ObserveStorage_run "hdfs" "get" (now w) false w1) as [w2 E2]. rewrite (gom_bind_run _ _ _ _ _ E2).
  assert (∃ rd' w3, (if 0 <? s then h_Seek rd s else mret (inl rd)) w2 = Some (inl rd', w3) ∧
    rd_bytes rd' = str_drop (Z.to_nat s) bytes) as (rd' & w3 & E3 & Hrd').
  { destruct (0 <? s) eqn:E0.
    - destruct (hdfs_seek rd s w2) as (rd' & w3 & E3 & E4); [rewrite Hrd; lia|].
      exists rd', w3. by rewrite E4, Hrd.
    - assert (s = 0) as -> by lia. eexists _, _. split; [done|]. by rewrite Hrd; destruct bytes. }
  rewrite (gom_bind_run _ _ _ _ _ E3). replace (0 <? n) with true by lia.
  eexists _, _, _. split; [done|]. split; [done|]. unfold LimitReader, slice. cbn. rewrite Hrd'.
  by replace (0 <? n) with true by lia.
Qed.

End HdfsReads.

(** A ranged download from HDFS is mislabelled.  The body is the asked part
    of the file, as it should be, but [Files.Get] reports the size of the whole
    file, so [Content-Length] is the whole file's and [Content-Range] ends at
    the offset plus the whole size: neither fits the body unless the range is
    the whole file. *)
Theorem download_range_hdfs_mislabelled `{Runtime W, Blobs W, HdfsContents W} (dir : string) (a : API) (r : http_request) (w : W) (bytes : string) (s e : Z) :
  has_files a = true → backendParam r = "hdfs" →
  file_at (full dir (path_Base (hq_path r "key"))) = Some bytes →
  hq_header r "Range" = "bytes=" +:+ FormatInt s +:+ "-" +:+ FormatInt e →
  0 <= s <= e → s < str_size bytes → e < max_int64 →
  ∃ rep w', @downloadFile W _ (hdfs_files dir) a r w = Some (rep, w') ∧
    rp_status rep = StatusPartialContent ∧ rp_body rep = OkBody (BBytes (slice s (e - s + 1) bytes)) ∧
    header_get "Content-Length" rep = Some (FormatInt (str_size bytes)) ∧
    header_get "Content-Range" rep = Some ("bytes " +:+ FormatInt s +:+ "-" +:+
      FormatInt (wrap64 (s + str_size bytes - 1)) +:+ "/" +:+ FormatInt (str_size bytes)).
Proof.
  intros Ha Hbk Hc Hr Hse Hs He. unfold downloadFile. rewrite Hbk, Ha, Hr. cbn [negb].
  destruct (parseRange_reads s e Hse ltac:(lia)) as (-> & _ & Hw & _). rewrite Hw by lia.
  rewrite bool_decide_true by done. cbn [fs_Stat fs_Get hdfs_files].
  destruct (Files_Stat_reads _ _ _ Hc w) as (f & w1 & E1 & Hf). rewrite (gom_bind_run _ _ _ _ _ E1). cbv beta iota.
  destruct (Files_Get_reads _ _ _ Hc s (e - s + 1) w1) as (rd & f2 & w2 & E2 & Hf2 & Hrd); [lia|lia|].
  rewrite (gom_bind_run _ _ _ _ _ E2). cbn [fs_Close].
  destruct (hdfs_close rd w2) as [w3 E3]. rewrite (gom_bind_run _ _ _ _ _ E3).
  rewrite Hf, Hf2, <- Hrd. eexists _, _. split; [done|].
  apply send_file_ranged; [by intros ?? ?%elem_of_nil|lia|lia].
Qed.

(** ** Witnesses *)

(** One object or file of ten bytes. *)
Definition ten : string := "0123456789".

#[local] Instance ex_blobs : Blobs sim := {|
  b_Put c name s n ct tags := mret (zero_Object, None);
  b_Get c key version offset length := mret (
    if bool_decide (key = "data") then
      inl (mkReader 0 (slice offset length ten),
           mkObject key (str_size (slice offset length ten)) "" "" "" 0 None false 0)
    else inr (ErrText "no such key"));
  b_List c prefix := mret (inl []);
  b_Versions c key := mret (inl []);
  b_SetTags c key tags := mret None;
  b_Stat c key version := mret (
    if bool_decide (key = "data") then inl (mkObject key 10 "" "" "" 0 None false 0) else inr (ErrText "no such key"));
  b_FindByTag c key value prefix := mret (inl []);
  b_Bucket := "files";
  b_Close rd := mret ()
|}.

#[local] Instance ex_contents : BlobContents sim.
Proof.
  refine {| content key version := if bool_decide (key = "data") then Some ten else None |}.
  - intros c key version bytes w. cbn. case_bool_decide; [|done]. intros [= <-].
    eexists _, _. split; [done|]. vm_compute. reflexivity.
  - intros c key version bytes offset length w. cbn. case_bool_decide; [|done]. intros [= <-] _ _.
    by eexists _, _, _.
  - intros rd w. by eexists.
Defined.

#[local] Instance ex_files : Files sim := {|
  fs_Put c name s := mret (zero_File, None);
  fs_Get c name offset length := mret (inr (ErrText "no such file"));
  fs_List c := mret (inl []);
  fs_Stat c name := mret (inr (ErrText "no such file"));
  fs_Close rd := mret ()
|}.

#[local] Instance ex_search : Search_ sim := {|
  se_SearchMessages c q n := mret (inl (mkResult 0 0 [] []));
  se_SearchFiles c k v b n := mret (inl (mkResult 0 0 [] []));
  se_IndexFile c doc := mret None
|}.

#[local] Instance ex_hdfs : Hdfs sim := {|
  h_Remove p := mret None;
  h_CreateFile p := mret (inl 0%nat);
  h_Copy w s := mret (str_size (s_bytes s), s_err s);
  h_CloseWriter w := mret None;
  h_IsErrReplicating e := false;
  h_Open p := mret (if bool_decide (p = "/otus/files/data") then inl (mkReader 0 ten, mkFileInfo "data" 10 0 false)
                    else inr (ErrText "no such file"));
  h_Seek rd offset := mret (inl (mkReader (rd_id rd) (str_drop (Z.to_nat offset) (rd_bytes rd))));
  h_CloseReader rd := mret ();
  h_ReadDir d := mret (inl []);
  h_Stat p := mret (if bool_decide (p = "/otus/files/data") then inl (mkFileInfo "data" 10 0 false)
                    else inr (ErrText "no such file"))
|}.

#[local] Instance ex_hdfs_contents : HdfsContents sim.
Proof.
  refine {| file_at p := if bool_decide (p = "/otus/files/data") then Some ten else None |}.
  - intros p bytes w. cbn. case_bool_decide; [|done]. intros [= <-]. eexists _, _. split; [done|]. vm_compute. reflexivity.
  - intros p bytes w. cbn. case_bool_decide; [|done]. intros [= <-]. eexists _, _, _. split; [done|].
    split; [done|]. vm_compute. reflexivity.
  - intros rd offset w _. by eexists _, _.
  - intros rd w. by eexists.
Defined.

Definition ex_download (backend : string) : http_request :=
  mkReq Background "" (λ h, if bool_decide (h = "Range") then "bytes=2-5" else "")
    (λ q, if bool_decide (q = "backend") then backend else "") (λ p, "data").

Definition ex_api : API := mkAPI true true true true true.

Lemma download_range_s3_witness :
  ∃ rep w', downloadFile ex_api (ex_download "") sim0 = Some (rep, w') ∧
    header_get "Content-Range" rep = Some "bytes 2-5/10" ∧ rp_body rep = OkBody (BBytes "2345").
Proof.
  destruct (download_range_s3 ex_api (ex_download "") sim0 ten 2 5) as (rep & w' & E & _ & Hb & _ & Hr);
    [reflexivity|vm_compute; reflexivity|vm_compute; reflexivity|vm_compute; reflexivity|lia|vm_compute; reflexivity
    |vm_compute; reflexivity|].
  exists rep, w'. split; [exact E|]. split; [exact Hr|exact Hb].
Defined.

Lemma download_range_hdfs_mislabelled_witness :
  ∃ rep w', @downloadFile sim _ (hdfs_files "/otus/files") ex_api (ex_download "hdfs") sim0 = Some (rep, w') ∧
    header_get "Content-Range" rep = Some "bytes 2-11/10" ∧ header_get "Content-Length" rep = Some "10" ∧
    rp_body rep = OkBody (BBytes "2345").
Proof.
  destruct (download_range_hdfs_mislabelled "/otus/files" ex_api (ex_download "hdfs") sim0 ten 2 5)
    as (rep & w' & E & _ & Hb & Hl & Hr);
    [reflexivity|vm_compute; reflexivity|vm_compute; reflexivity|vm_compute; reflexivity|lia|vm_compute; reflexivity
    |vm_compute; reflexivity|].
  exists rep, w'. split; [exact E|]. split; [exact Hr|]. split; [exact Hl|exact Hb].
Defined.

Definition ex_upload (name : string) : body_request :=
  mkBodyReq (ex_query (λ q, if bool_decide (q = "name") then name else "hdfs")) (mkStream "x" None) 1.

Lemma upload_names_valid_witness :
  ∃ rep w', uploadFile ex_api (ex_upload "../a/b") sim0 = Some (rep, w') ∧ sim_clock w' = 0.
Proof.
  destruct (uploadFile ex_api (ex_upload "../a/b") sim0) as [[rep w']|] eqn:E; [|vm_compute in E; discriminate E].
  exists rep, w'. split; [reflexivity|].
  apply (upload_names_valid (λ w, sim_clock w = 0) ex_api (ex_upload "../a/b") sim0 rep w');
    [| | |exact E|reflexivity].
  - intros c name s n ct tags w r w1 _ [= _ <-]. exact (λ H, H).
  - intros c name s w r w1 _ [= _ <-]. exact (λ H, H).
  - intros c doc w r w1 [= _ <-]. exact (λ H, H).
Defined.

(** The name [..] passes the check of [uploadFile], and its path in HDFS is the
    parent of the working directory. *)
Example upload_dotdot_escapes :
  path_Base (TrimSpace "..") = ".." ∧ full "/otus/files" (path_Base (TrimSpace "..")) = "/otus" ∧
  (λ x, rp_status x.1) <$> @uploadFile sim _ _ (hdfs_files "/otus/files") _ ex_api
    (ex_upload "..") sim0 = Some 201.
Proof. vm_compute. by split_and!. Qed.
