(* ===== verification/SearchJson.v ===== *)
(** * SearchJson: the JSON of the search client

    [encoding/json] on the types of [internal/search/search.go]: the documents it
    indexes, the queries it sends and the answers it reads. *)

From stdpp Require Import base option list strings gmap.
From Stdlib Require Import ZArith Lia.
From S2P Require Import Prelude GoStrings GoTime GoSort GoPaths ServeMux JsonText Json JsonWf Messaging EventJson FileStores RequestJson FilesApi.
Local Open Scope Z_scope.

(** [search.Document] has the fields of [cstore.Event]. *)
Notation Document := Event.

(** ** Documents *)

(** A member that [omitempty] leaves out. *)
Definition unless_empty (s : string) (field : string * json) : list (string * json) :=
  if bool_decide (s = "") then [] else [field].

Definition doc_json (created : string) (d : Document) : json :=
  JObj ([("id", jint (e_ID d)); ("text", jstring (e_Text d)); ("checksum", jstring (e_Checksum d))] ++
        unless_empty (e_Producer d) ("producer", jstring (e_Producer d)) ++ [("created_at", JStr created)]).

(** [json.Marshal(doc)] *)
Definition doc_marshal `{LocalZone} (d : Document) : option string :=
  created ← format_rfc3339 (zone (e_CreatedAt d)) (e_CreatedAt d); Some (print (doc_json created d)).

#[global] Arguments doc_marshal : simpl never.

Definition doc_fields : list string := ["id"; "text"; "checksum"; "producer"; "created_at"].
Definition zero_doc : Document := mkEvent 0 "" "" "" zero_time.

Definition set_doc_field (name : string) (v : json) (d : Document) : option Document :=
  let '(mkEvent id text sum producer created) := d in
  if bool_decide (name = "id") then id ← into_int64 id v; Some (mkEvent id text sum producer created)
  else if bool_decide (name = "text") then text ← into_string text v; Some (mkEvent id text sum producer created)
  else if bool_decide (name = "checksum") then sum ← into_string sum v; Some (mkEvent id text sum producer created)
  else if bool_decide (name = "producer") then producer ← into_string producer v; Some (mkEvent id text sum producer created)
  else created ← into_time created v; Some (mkEvent id text sum producer created).

(** [json.Unmarshal(hit.Source, &doc)] of a source that is the given value. *)
Definition doc_unmarshal (v : json) : option Document := into_struct doc_fields set_doc_field zero_doc v.

(** ** Files *)

(** A map is written in the order of its keys. *)
Definition tags_json (m : gmap string string) : json :=
  JObj ((λ k, (quote k, jstring (default "" (m !! k)))) <$> sort_Strings (map_to_list m).*1).

Definition file_json (updated : string) (d : FileDoc) : json :=
  JObj ([("key", jstring (fd_Key d)); ("backend", jstring (fd_Backend d)); ("size", jint (fd_Size d))] ++
        unless_empty (fd_VersionID d) ("version_id", jstring (fd_VersionID d)) ++
        (match fd_Tags d with
         | Some m => if bool_decide (m = ∅) then [] else [("tags", tags_json m)]
         | None => []
         end) ++ [("updated_at", JStr updated)]).

(** [json.Marshal(doc)]; [UpdatedAt] is in UTC. *)
Definition file_marshal (d : FileDoc) : option string :=
  updated ← format_rfc3339 0 (fd_UpdatedAt d); Some (print (file_json updated d)).

Definition file_fields : list string := ["key"; "backend"; "size"; "version_id"; "tags"; "updated_at"].
Definition zero_file : FileDoc := mkFileDoc "" "" 0 "" None zero_time.

Definition set_file_field (name : string) (v : json) (d : FileDoc) : option FileDoc :=
  let '(mkFileDoc key backend size version tags updated) := d in
  if bool_decide (name = "key") then key ← into_string key v; Some (mkFileDoc key backend size version tags updated)
  else if bool_decide (name = "backend") then backend ← into_string backend v; Some (mkFileDoc key backend size version tags updated)
  else if bool_decide (name = "size") then size ← into_int64 size v; Some (mkFileDoc key backend size version tags updated)
  else if bool_decide (name = "version_id") then version ← into_string version v; Some (mkFileDoc key backend size version tags updated)
  else if bool_decide (name = "tags") then tags ← into_tags tags v; Some (mkFileDoc key backend size version tags updated)
  else updated ← into_time updated v; Some (mkFileDoc key backend size version tags updated).

Definition file_unmarshal (v : json) : option FileDoc := into_struct file_fields set_file_field zero_file v.

(** ** Answers *)

(** [searchResponse]: a source is kept as it came, [None] when there was none. *)
Record searchResponse := mkSearchResponse { sp_Took : Z; sp_Total : Z; sp_Hits : list (option json) }.

Definition into_hit (old : option json) (v : json) : option (option json) :=
  into_struct ["_source"] (λ _ v _, Some (Some v)) old v.
Definition into_hits (old : list (option json)) (v : json) : option (list (option json)) :=
  match v with JNull => Some [] | JArr l => into_slice None into_hit old l | _ => None end.

Definition set_hits_field (name : string) (v : json) (h : Z * list (option json)) : option (Z * list (option json)) :=
  if bool_decide (name = "total") then total ← into_struct ["value"] (λ _ v old, into_int64 old v) h.1 v; Some (total, h.2)
  else hits ← into_hits h.2 v; Some (h.1, hits).

Definition set_response_field (name : string) (v : json) (r : searchResponse) : option searchResponse :=
  if bool_decide (name = "took") then took ← into_int64 (sp_Took r) v; Some (mkSearchResponse took (sp_Total r) (sp_Hits r))
  else '(total, hits) ← into_struct ["total"; "hits"] set_hits_field (sp_Total r, sp_Hits r) v;
       Some (mkSearchResponse (sp_Took r) total hits).

(** [json.NewDecoder(res.Body).Decode(&parsed)] in [search] and in [Health]. *)
Definition response_decode (s : stream) : searchResponse + error :=
  match (v ← decode_stream s; into_struct ["took"; "hits"] set_response_field (mkSearchResponse 0 0 []) v) with
  | Some r => inl r
  | None => inr (ErrText "json")
  end.

Definition status_decode (s : stream) : string + error :=
  match (v ← decode_stream s; into_struct ["status"] (λ _ v old, into_string old v) "" v) with
  | Some status => inl status
  | None => inr (ErrText "json")
  end.

(** ** Round trips *)

Lemma omitted_cons {A} names (set : string → json → A → option A) s k fs old new :
  unquote k = k → k ∈ names → utf8_valid s = true → (s = "" → new = old) → set k (jstring s) old = Some new →
  into_struct names set old (JObj (unless_empty s (k, jstring s) ++ fs)) = into_struct names set new (JObj fs).
Proof.
  intros Hu Hk Hv He Hs. unfold unless_empty. case_bool_decide as E; [by rewrite He|]. by apply into_struct_cons.
Qed.

Definition doc_ok (d : Document) : Prop :=
  in_int64 (e_ID d) ∧ utf8_valid (e_Text d) = true ∧ utf8_valid (e_Checksum d) = true ∧ utf8_valid (e_Producer d) = true.

Lemma unless_empty_wf s k : str_all plain k = true → utf8_valid s = true →
  Forall (λ f : string * json, str_all plain f.1 = true ∧ wf_json f.2) (unless_empty s (k, jstring s)).
Proof. intros Hk Hs. unfold unless_empty. case_bool_decide; members. Qed.
Lemma unless_empty_flat s k : Forall (λ f : string * json, nesting f.2 <= 1) (unless_empty s (k, jstring s)).
Proof. unfold unless_empty. case_bool_decide; repeat constructor; done. Qed.

Ltac doc_stored :=
  first [ done
        | by unfold doc_fields, file_fields; rewrite !elem_of_cons; auto 10
        | unfold set_doc_field, set_file_field; rewrite ?bool_decide_false by done; rewrite ?bool_decide_true by done;
          rewrite ?into_int64_jint, ?into_string_jstring by done; (done || (cbn [into_time]; by simplify_option_eq)) ].

(** A document is read back as it was indexed. *)
Lemma doc_roundtrip `{LocalZone} d p : doc_ok d → doc_marshal d = Some p → parse p ≫= doc_unmarshal = Some d.
Proof.
  intros (Hi & Ht & Hs & Hp). unfold doc_marshal. destruct (format_rfc3339 _ _) as [created|] eqn:Ef; [|done].
  intros Hx. apply (inj Some) in Hx as <-. pose proof (format_plain _ _ _ Ef) as Hpl. apply parse_format_rfc3339 in Ef.
  rewrite parse_print.
  - cbn [mbind option_bind]. destruct d as [id text sum producer at_]. cbn [e_ID e_Text e_Checksum e_Producer e_CreatedAt] in *.
    unfold doc_unmarshal, doc_json, zero_doc. cbn [e_ID e_Text e_Checksum e_Producer e_CreatedAt app].
    rewrite (into_struct_cons _ _ "id" _ _ _ (mkEvent id "" "" "" zero_time)) by doc_stored.
    rewrite (into_struct_cons _ _ "text" _ _ _ (mkEvent id text "" "" zero_time)) by doc_stored.
    rewrite (into_struct_cons _ _ "checksum" _ _ _ (mkEvent id text sum "" zero_time)) by doc_stored.
    rewrite (omitted_cons _ _ _ "producer" _ _ (mkEvent id text sum producer zero_time)) by (doc_stored || by intros ->).
    by rewrite (into_struct_cons _ _ "created_at" _ _ _ (mkEvent id text sum producer at_)) by doc_stored.
  - apply members_wf. apply Forall_app. split; [members|]. apply Forall_app. split; [by apply unless_empty_wf|].
    members. constructor. by apply plain_raw_ok.
  - etransitivity; [apply members_flat|done]. apply Forall_app. split; [by repeat constructor|].
    apply Forall_app. split; [apply unless_empty_flat|by repeat constructor].
Qed.

(** Tags are read back as they were. *)
Definition tags_ok (m : gmap string string) : Prop := map_Forall (λ k v, utf8_valid k = true ∧ utf8_valid v = true) m.

Lemma add_tags (m acc : gmap string string) ks : tags_ok m → Forall (λ k, is_Some (m !! k)) ks →
  ∃ acc', foldl (λ acc f, m ← acc; s ← into_string "" f.2; Some (<[unquote f.1 := s]> m)) (Some acc)
      ((λ k, (quote k, jstring (default "" (m !! k)))) <$> ks) = Some acc' ∧
    ∀ k, acc' !! k = if decide (k ∈ ks) then m !! k else acc !! k.
Proof.
  intros Hm Hks. revert acc. induction Hks as [|k ks [v Hv] _ IH]; intros acc; [by eexists|].
  destruct (Hm k v Hv) as [Uk Uv]. destruct (IH (<[k := v]> acc)) as (acc' & E & Hl). exists acc'. split.
  - rewrite <- E. cbn [fmap list_fmap foldl fst snd mbind option_bind]. rewrite Hv. cbn [default from_option].
    rewrite into_string_jstring by done. cbn [mbind option_bind]. by rewrite unquote_quote.
  - intros x. rewrite Hl. destruct (decide (x ∈ ks)) as [Hx|Hx]; [by rewrite decide_True by (by right)|].
    destruct (decide (x = k)) as [->|Hne]; [by rewrite decide_True, lookup_insert_eq by (by left)|].
    rewrite decide_False by (rewrite elem_of_cons; naive_solver). by rewrite lookup_insert_ne.
Qed.

Lemma tags_roundtrip m : tags_ok m → into_tags None (tags_json m) = Some (Some m).
Proof.
  intros Hm. unfold into_tags, tags_json. cbn [default from_option].
  assert (∀ k, k ∈ sort_Strings (map_to_list m).*1 ↔ is_Some (m !! k)) as Hin.
  { intros k. rewrite sort_Strings_perm, list_elem_of_fmap. split.
    - intros ([k' v] & -> & Hkv). apply elem_of_map_to_list in Hkv. by eexists.
    - intros [v Hv]. exists (k, v). split; [done|]. by apply elem_of_map_to_list. }
  destruct (add_tags m ∅ (sort_Strings (map_to_list m).*1) Hm) as (acc & -> & Hl).
  { apply Forall_forall. intros k. by apply Hin. }
  cbn. do 2 f_equal. apply map_eq. intros k. rewrite Hl. destruct (decide _) as [|Hn]; [done|].
  rewrite Hin in Hn. apply eq_None_not_Some in Hn. by rewrite Hn.
Qed.

Lemma tags_wf m : tags_ok m → wf_json (tags_json m) ∧ nesting (tags_json m) <= 1.
Proof.
  intros Hm. split.
  - constructor. apply Forall_fmap, Forall_forall. intros k Hk. rewrite sort_Strings_perm, list_elem_of_fmap in Hk.
    destruct Hk as ([k' v] & -> & Hkv). apply elem_of_map_to_list in Hkv. cbn [fst snd compose]. rewrite Hkv.
    destruct (Hm _ _ Hkv). split; [by apply raw_ok_quote|by apply wf_jstring].
  - unfold tags_json. cbn [nesting]. generalize (sort_Strings (map_to_list m).*1). intros ks.
    induction ks as [|k ks IH]; cbn in *; lia.
Qed.

Record file_ok (d : FileDoc) : Prop := {
  fo_key : utf8_valid (fd_Key d) = true;
  fo_backend : utf8_valid (fd_Backend d) = true;
  fo_size : in_int64 (fd_Size d);
  fo_version : utf8_valid (fd_VersionID d) = true;
  fo_tags : ∀ m, fd_Tags d = Some m → m ≠ ∅ ∧ tags_ok m
}.

(** A file is read back as it was indexed. *)
Lemma file_roundtrip d p : file_ok d → file_marshal d = Some p → parse p ≫= file_unmarshal = Some d.
Proof.
  intros [Hk Hb Hs Hv Htags]. unfold file_marshal. destruct (format_rfc3339 _ _) as [updated|] eqn:Ef; [|done].
  intros Hx. apply (inj Some) in Hx as <-. pose proof (format_plain _ _ _ Ef) as Hpl. apply parse_format_rfc3339 in Ef.
  rewrite parse_print.
  - cbn [mbind option_bind]. destruct d as [key backend size version tags at_]. cbn [fd_Key fd_Backend fd_Size fd_VersionID fd_Tags fd_UpdatedAt] in *.
    unfold file_unmarshal, file_json, zero_file. cbn [fd_Key fd_Backend fd_Size fd_VersionID fd_Tags fd_UpdatedAt app].
    rewrite (into_struct_cons _ _ "key" _ _ _ (mkFileDoc key "" 0 "" None zero_time)) by doc_stored.
    rewrite (into_struct_cons _ _ "backend" _ _ _ (mkFileDoc key backend 0 "" None zero_time)) by doc_stored.
    rewrite (into_struct_cons _ _ "size" _ _ _ (mkFileDoc key backend size "" None zero_time)) by doc_stored.
    rewrite (omitted_cons _ _ _ "version_id" _ _ (mkFileDoc key backend size version None zero_time)) by (doc_stored || by intros ->).
    destruct tags as [m|].
    + destruct (Htags m eq_refl) as [Hne Hm]. rewrite bool_decide_false by done. cbn [app].
      rewrite (into_struct_cons _ _ "tags" _ _ _ (mkFileDoc key backend size version (Some m) zero_time)).
      * by rewrite (into_struct_cons _ _ "updated_at" _ _ _ (mkFileDoc key backend size version (Some m) at_)) by doc_stored.
      * done.
      * doc_stored.
      * unfold set_file_field. rewrite !bool_decide_false, bool_decide_true by done. by rewrite tags_roundtrip.
    + cbn [app]. by rewrite (into_struct_cons _ _ "updated_at" _ _ _ (mkFileDoc key backend size version None at_)) by doc_stored.
  - apply members_wf. apply Forall_app. split; [members|]. apply Forall_app. split; [by apply unless_empty_wf|].
    apply Forall_app. split; [|members; constructor; by apply plain_raw_ok].
    destruct (fd_Tags d) as [m|]; [|apply Forall_nil_2]. destruct (Htags m eq_refl) as [_ Hm].
    case_bool_decide; members. by apply tags_wf.
  - etransitivity; [apply members_flat|done]. apply Forall_app. split; [by repeat constructor|].
    apply Forall_app. split; [apply unless_empty_flat|]. apply Forall_app. split; [|by repeat constructor].
    destruct (fd_Tags d) as [m|]; [|apply Forall_nil_2]. destruct (Htags m eq_refl) as [_ Hm].
    case_bool_decide; [apply Forall_nil_2|]. apply Forall_cons_2; [by apply tags_wf|apply Forall_nil_2].
Qed.

(** An answer with the given sources. *)
Definition response_json (took total : Z) (sources : list json) : json :=
  JObj [("took", jint took);
        ("hits", JObj [("total", JObj [("value", jint total)]);
                       ("hits", JArr ((λ v, JObj [("_source", v)]) <$> sources))])].

Lemma response_wf took total sources : in_int64 took → in_int64 total → Forall wf_json sources →
  wf_json (response_json took total sources).
Proof.
  intros Hk Ht Hs. apply members_wf. members. apply members_wf. members; [apply members_wf; members|].
  constructor. apply Forall_fmap. eapply Forall_impl; [exact Hs|]. intros v Hv. apply members_wf. members.
Qed.

Lemma response_read took total sources : in_int64 took → in_int64 total → Forall wf_json sources →
  nesting (response_json took total sources) <= maxNestingDepth →
  response_decode (mkStream (print (response_json took total sources)) None) = inl (mkSearchResponse took total (Some <$> sources)).
Proof.
  intros Hk Ht Hs Hn. unfold response_decode. rewrite decode_print by (by apply response_wf || done). cbn [mbind option_bind].
  assert (into_struct ["total"; "hits"] set_hits_field (0, [])
    (JObj [("total", JObj [("value", jint total)]); ("hits", JArr ((λ v, JObj [("_source", v)]) <$> sources))]) =
    Some (total, Some <$> sources)) as Hhits.
  { rewrite (into_struct_cons _ _ "total" _ _ _ (total, [])), (into_struct_cons _ _ "hits" _ _ _ (total, Some <$> sources));
      try done; try (by rewrite !elem_of_cons; auto).
    - unfold set_hits_field. rewrite bool_decide_false by done. cbn [fst snd into_hits].
      rewrite (into_slice_fmap None into_hit (λ v, JObj [("_source", v)]) Some); [done|]. intros o v _. unfold into_hit.
      by rewrite (into_struct_cons _ _ "_source" _ _ _ (Some v)) by (done || by apply list_elem_of_singleton).
    - unfold set_hits_field. rewrite bool_decide_true by done.
      rewrite (into_struct_cons _ _ "value" _ _ _ total); [done|done|by apply list_elem_of_singleton|by apply into_int64_jint]. }
  unfold response_json.
  rewrite (into_struct_cons _ _ "took" _ _ _ (mkSearchResponse took 0 [])),
    (into_struct_cons _ _ "hits" _ _ _ (mkSearchResponse took total (Some <$> sources)));
    try done; try (by rewrite !elem_of_cons; auto).
  - unfold set_response_field. rewrite bool_decide_false by done. cbn [sp_Total sp_Hits sp_Took]. by rewrite Hhits.
  - unfold set_response_field. rewrite bool_decide_true by done. cbn [sp_Total sp_Hits sp_Took]. by rewrite into_int64_jint.
Qed.
