(* ===== verification/SearchClient.v ===== *)
(** * SearchClient: indexing and searching in Elasticsearch

    [internal/search/search.go], over an interface for the Elasticsearch client,
    with the documented behaviour of the service as a class of laws. *)

From stdpp Require Import base option list strings gmap.
From Stdlib Require Import ZArith Lia Ascii.
From S2P Require Import Prelude GoStrings GoPaths ServeMux Env JsonText Json Messaging EventJson Storage FileStores RequestJson FilesApi SearchJson.
Local Open Scope Z_scope.

(** A response: its body's handle, status and bytes. *)
Record es_response := mkEs { es_res : nat; es_StatusCode : Z; es_Body : stream }.

(** [esapi.Response.IsError] *)
Definition IsError (r : es_response) : bool := 299 <? es_StatusCode r.

(** The Elasticsearch client. *)
Class Elastic (W : Type) := {
  es_NewClient : list string → GoM W (option error);
  es_Exists : ctx → string → GoM W (es_response + error);
  es_Create : ctx → string → json → GoM W (es_response + error);
  (** index, body, document id, refresh *)
  es_Index : ctx → string → string → string → string → GoM W (es_response + error);
  (** index, body, track_total_hits *)
  es_Search : ctx → string → string → bool → GoM W (es_response + error);
  es_Health : ctx → GoM W (es_response + error);
  es_Close : es_response → GoM W unit
}.

(** [search.Index]; a nil pointer is [None]. *)
Record Index := mkIndex { ix_msgIndex : string; ix_fileIndex : string; ix_refreshAll : bool }.

(** [readBody] *)
Definition readBody (r : stream) : string := TrimSpace (str_take (Z.to_nat 4096) (s_bytes r)).

Definition refreshValue (on : bool) : string := if on then "true" else "false".

(** The two index definitions, as the values their text denotes. *)
Definition type_is (t : string) : json := JObj [("type", jstring t)].

Definition messagesMapping : json := JObj [
  ("settings", JObj [
    ("number_of_shards", jint 3);
    ("number_of_replicas", jint 1);
    ("analysis", JObj [
      ("filter", JObj [
        ("ru_stop", JObj [("type", jstring "stop"); ("stopwords", jstring "_russian_")]);
        ("ru_stemmer", JObj [("type", jstring "stemmer"); ("language", jstring "russian")])]);
      ("analyzer", JObj [
        ("ru", JObj [("type", jstring "custom"); ("tokenizer", jstring "standard");
                     ("filter", JArr [jstring "lowercase"; jstring "ru_stop"; jstring "ru_stemmer"])])])])]);
  ("mappings", JObj [
    ("properties", JObj [
      ("id", type_is "long");
      ("text", JObj [("type", jstring "text"); ("analyzer", jstring "ru")]);
      ("checksum", type_is "keyword");
      ("producer", type_is "keyword");
      ("created_at", type_is "date")])])].

Definition filesMapping : json := JObj [
  ("settings", JObj [("number_of_shards", jint 1); ("number_of_replicas", jint 1)]);
  ("mappings", JObj [
    ("properties", JObj [
      ("key", type_is "keyword");
      ("backend", type_is "keyword");
      ("size", type_is "long");
      ("version_id", type_is "keyword");
      ("tags", type_is "flattened");
      ("updated_at", type_is "date")])])].

(** [Result{Total: ..., TookMS: ...}] *)
Definition result_of (raw : searchResponse) (msgs : list Document) (files : list FileDoc) : SearchResult :=
  mkResult (sp_Total raw) (sp_Took raw) msgs files.

(** The query of [SearchMessages]; maps are written in the order of their keys. *)
Definition messages_query (query : string) (limit : Z) : json :=
  JObj [("query", JObj [("match", JObj [("text", JObj [("operator", jstring "and"); ("query", jstring query)])])]);
        ("size", jint limit);
        ("sort", JArr [JObj [("created_at", jstring "desc")]])].

(** The filters of [SearchFiles]. *)
Definition file_filters (tagKey tagValue backend : string) : list json :=
  (if bool_decide (tagKey = "") then []
   else
     let field := "tags." +:+ tagKey in
     if bool_decide (tagValue = "") then [JObj [("exists", JObj [("field", jstring field)])]]
     else [JObj [("term", JObj [(quote field, jstring tagValue)])]]) ++
  (if bool_decide (backend = "") then [] else [JObj [("term", JObj [("backend", jstring backend)])]]).

Definition filtered (filters : list json) (limit : Z) : json :=
  JObj [("query", JObj [("bool", JObj [("filter", JArr filters)])]); ("size", jint limit)].

Definition files_query (tagKey tagValue backend : string) (limit : Z) : json :=
  filtered (file_filters tagKey tagValue backend) limit.

Section Client.
Context `{Runtime W, Elastic W, LocalZone}.

(** [Index.ensure] *)
Definition ensure (c : ctx) (name : string) (mapping : json) : GoM W (option error) :=
  res ← es_Exists c name;
  match res with
  | inr err => mret (Some err)
  | inl res =>
      _ ← es_Close res;
      if es_StatusCode res =? 200 then mret None
      else
        create ← es_Create c name mapping;
        match create with
        | inr err => mret (Some err)
        | inl create =>
            let err :=
              if IsError create then
                let body := readBody (es_Body create) in
                if Contains body "resource_already_exists_exception" then None
                else Some (ErrText ("не удалось создать индекс " +:+ name +:+ ": " +:+ body))
              else None in
            _ ← es_Close create;
            mret err
        end
  end.

(** [search.New] *)
Definition search_New (e : environ) (c : ctx) : GoM W (option Index * option error) :=
  let addrs := envList e "ELASTIC_URLS" in
  if bool_decide (addrs = []) then mret (None, None)
  else
    err ← es_NewClient addrs;
    match err with
    | Some err => mret (None, Some err)
    | None =>
        let idx := mkIndex (env e "ELASTIC_INDEX" "otus-messages") (env e "ELASTIC_FILE_INDEX" "otus-files")
                     (bool_decide (env e "ELASTIC_REFRESH" "false" = "true")) in
        initCtx ← gets (with_timeout c (30 * Second));
        err ← ensure initCtx (ix_msgIndex idx) messagesMapping;
        match err with
        | Some err => mret (None, Some err)
        | None =>
            err ← ensure initCtx (ix_fileIndex idx) filesMapping;
            match err with
            | Some err => mret (None, Some err)
            | None => mret (Some idx, None)
            end
        end
    end.

(** [Index.index]; the document is given by its encoding. *)
Definition index_doc (i : Index) (c : ctx) (index id : string) (doc : option string) : GoM W (option error) :=
  match doc with
  | None => mret (Some (ErrText "json"))
  | Some body =>
      res ← es_Index c index body id (refreshValue (ix_refreshAll i));
      match res with
      | inr err => mret (Some err)
      | inl res =>
          let err := if IsError res then Some (ErrText (readBody (es_Body res))) else None in
          _ ← es_Close res;
          mret err
      end
  end.

(** Indexing with its metrics. *)
Definition observed (op : string) (m : GoM W (option error)) : GoM W (option error) :=
  start ← gets now;
  err ← m;
  _ ← ObserveStorage "elasticsearch" op start (bool_decide (is_Some err));
  mret err.

Definition IndexMessage (i : option Index) (c : ctx) (doc : Document) : GoM W (option error) :=
  match i with
  | None => mret (Some ErrNotConfigured)
  | Some i => observed "index_message" (index_doc i c (ix_msgIndex i) (FormatInt (e_ID doc)) (doc_marshal doc))
  end.

Definition IndexFile (i : option Index) (c : ctx) (doc : FileDoc) : GoM W (option error) :=
  match i with
  | None => mret (Some ErrNotConfigured)
  | Some i => observed "index_file" (index_doc i c (ix_fileIndex i) (fd_Backend doc +:+ ":" +:+ fd_Key doc) (file_marshal doc))
  end.

(** [Index.search]: the metrics see the transport's error only. *)
Definition search (c : ctx) (index : string) (body : json) : GoM W (searchResponse + error) :=
  start ← gets now;
  res ← es_Search c index (print body) true;
  _ ← ObserveStorage "elasticsearch" "search" start (match res with inl _ => false | inr _ => true end);
  match res with
  | inr err => mret (inr err)
  | inl res =>
      let out := if IsError res then inr (ErrText (readBody (es_Body res))) else response_decode (es_Body res) in
      _ ← es_Close res;
      mret out
  end.

(** [Index.SearchMessages]: hits that do not decode are left out. *)
Definition SearchMessages (i : option Index) (c : ctx) (query : string) (limit : Z) : GoM W (SearchResult + error) :=
  match i with
  | None => mret (inr ErrNotConfigured)
  | Some i =>
      raw ← search c (ix_msgIndex i) (messages_query query limit);
      mret (match raw with
            | inr err => inr err
            | inl raw => inl (result_of raw (omap (λ hit, hit ≫= doc_unmarshal) (sp_Hits raw)) [])
            end)
  end.

Definition SearchFiles (i : option Index) (c : ctx) (tagKey tagValue backend : string) (limit : Z)
    : GoM W (SearchResult + error) :=
  match i with
  | None => mret (inr ErrNotConfigured)
  | Some i =>
      raw ← search c (ix_fileIndex i) (files_query tagKey tagValue backend limit);
      mret (match raw with
            | inr err => inr err
            | inl raw => inl (result_of raw [] (omap (λ hit, hit ≫= file_unmarshal) (sp_Hits raw)))
            end)
  end.

(** [Index.Health] *)
Definition Health (i : option Index) (c : ctx) : GoM W (string + error) :=
  match i with
  | None => mret (inr ErrNotConfigured)
  | Some _ =>
      res ← es_Health c;
      match res with
      | inr err => mret (inr err)
      | inl res => let out := status_decode (es_Body res) in _ ← es_Close res; mret out
      end
  end.

(** The client as the handlers' [Search] and as what the consumer writes. *)
Definition elastic_search (i : option Index) : Search_ W := {|
  se_SearchMessages := SearchMessages i;
  se_SearchFiles := SearchFiles i;
  se_IndexFile := IndexFile i
|}.

End Client.

(** The document the consumer builds of an event. *)
Definition document_of (ev : MessageCreated) (brokerName : string) : Document :=
  mkEvent (ev_ID ev) (ev_Text ev) (ev_Checksum ev) brokerName (ev_CreatedAt ev).

(** ** The service

    An index is its definition and its documents by id. *)
Record es_index := mkEsIndex { ei_mapping : json; ei_docs : gmap string string }.

(** What a call leaves of the indices while other clients may create some and
    write documents: those that exist keep their definition and lose no document. *)
Definition indices_kept (m m' : gmap string es_index) : Prop :=
  ∀ k i, m !! k = Some i → ∃ i', m' !! k = Some i' ∧ ei_mapping i' = ei_mapping i ∧ dom (ei_docs i) ⊆ dom (ei_docs i').

(** Writing a document. *)
Definition es_put (n id body : string) (m : gmap string es_index) : gmap string es_index :=
  alter (λ i, mkEsIndex (ei_mapping i) (<[id := body]> (ei_docs i))) n m.

(** The documents of an index. *)
Definition docs_in (n : string) (m : gmap string es_index) : gmap string string := default ∅ (ei_docs <$> m !! n).

#[export] Instance indices_kept_preorder : PreOrder indices_kept.
Proof.
  split; [intros m k i Hk; by exists i|]. intros m1 m2 m3 H12 H23 k i Hk.
  destruct (H12 k i Hk) as (i2 & Hk2 & Hm2 & Hd2). destruct (H23 k i2 Hk2) as (i3 & Hk3 & Hm3 & Hd3).
  exists i3. split_and!; [done|congruence|set_solver].
Qed.

(** Laws of the service.  [indices] are its indices, [bodies] the response bodies
    that were handed out and not closed. *)
Class ElasticSpec (W : Type) `{Runtime W, Elastic W} := {
  indices : W → gmap string es_index;
  bodies : W → gset nat;
  el_emit : ∀ m w, indices (emit m w) = indices w ∧ bodies (emit m w) = bodies w;
  el_client : ∀ addrs w, wp (es_NewClient addrs) (λ _ w', indices w' = indices w ∧ bodies w' = bodies w) w;
  el_close : ∀ r w, wp (es_Close r) (λ _ w', indices w' = indices w ∧ bodies w' = bodies w ∖ {[es_res r]}) w;
  (** the existence check answers 200 only for an index that exists *)
  el_exists : ∀ c n w, wp (es_Exists c n) (λ r w', indices_kept (indices w) (indices w') ∧
    match r with
    | inl r => es_res r ∉ bodies w ∧ bodies w' = {[es_res r]} ∪ bodies w ∧
               (es_StatusCode r = 200 → is_Some (indices w' !! n))
    | inr _ => bodies w' = bodies w
    end) w;
  (** creating answers with success or names the exception only when the index
      exists *)
  el_create : ∀ c n m w, wp (es_Create c n m) (λ r w', indices_kept (indices w) (indices w') ∧
    match r with
    | inl r => es_res r ∉ bodies w ∧ bodies w' = {[es_res r]} ∪ bodies w ∧
               (IsError r = false → is_Some (indices w' !! n)) ∧
               (Contains (readBody (es_Body r)) "resource_already_exists_exception" = true → is_Some (indices w' !! n))
    | inr _ => bodies w' = bodies w
    end) w;
  (** writing a document under an id replaces it; a call that fails may have been
      carried out *)
  el_index : ∀ c n body id refresh w, is_Some (indices w !! n) → wp (es_Index c n body id refresh) (λ r w',
    (indices w' = indices w ∨ indices w' = es_put n id body (indices w)) ∧
    match r with
    | inl r => es_res r ∉ bodies w ∧ bodies w' = {[es_res r]} ∪ bodies w ∧
        (IsError r = false →
         indices w' = es_put n id body (indices w))
    | inr _ => bodies w' = bodies w
    end) w;
  el_search : ∀ c n q b w, wp (es_Search c n q b) (λ r w', indices w' = indices w ∧
    match r with
    | inl r => es_res r ∉ bodies w ∧ bodies w' = {[es_res r]} ∪ bodies w
    | inr _ => bodies w' = bodies w
    end) w;
  el_health : ∀ c w, wp (es_Health c) (λ r w', indices w' = indices w ∧
    match r with
    | inl r => es_res r ∉ bodies w ∧ bodies w' = {[es_res r]} ∪ bodies w
    | inr _ => bodies w' = bodies w
    end) w
}.

Section Facts.
Context `{ElasticSpec W, LocalZone}.

(** A body handed out and closed again. *)
Lemma handed_back (r : nat) (X : gset nat) : r ∉ X → ({[r]} ∪ X) ∖ {[r]} = X.
Proof. set_solver. Qed.

Lemma ensure_spec c n m w :
  wp (ensure c n m) (λ err w', indices_kept (indices w) (indices w') ∧ bodies w' = bodies w ∧
    (err = None → is_Some (indices w' !! n))) w.
Proof.
  unfold ensure. wp_call el_exists as res w1 [K1 B1]. destruct res as [res|err]; [|by wp_pure].
  destruct B1 as (F1 & B1 & X1). wp_call el_close as u w2 [I2 B2].
  assert (bodies w2 = bodies w) as Hb by (rewrite B2, B1; by apply handed_back).
  destruct (Z.eqb_spec (es_StatusCode res) 200) as [E|E].
  { wp_pure. rewrite I2. auto. }
  wp_call el_create as cr w3 [K3 B3].
  assert (indices_kept (indices w) (indices w3)) as K by (rewrite I2 in K3; by etransitivity).
  destruct cr as [cr|err]; [|wp_pure; split_and!; [done|congruence|done]].
  destruct B3 as (F3 & B3 & X3 & X3'). wp_pure. wp_call el_close as u' w4 [I4 B4]. wp_pure. rewrite I4.
  split_and!; [done|rewrite B4, B3, Hb; apply handed_back; by rewrite <- Hb|]. destruct (IsError cr); [|auto]. destruct (Contains _ _); [auto|done].
Qed.

Lemma observe_quiet b op start failed w :
  wp (ObserveStorage b op start failed) (λ _ w', indices w' = indices w ∧ bodies w' = bodies w) w.
Proof.
  unfold ObserveStorage. wp_pure.
  match goal with |- context [emit ?m (emit ?m' w)] =>
    destruct (el_emit m (emit m' w)) as [-> ->]; apply (el_emit m' w) end.
Qed.

Lemma observed_spec op (m : GoM W (option error)) (Q : option error → gmap string es_index → gset nat → Prop) w :
  wp m (λ err w', Q err (indices w') (bodies w')) w →
  wp (observed op m) (λ err w', Q err (indices w') (bodies w')) w.
Proof.
  intros Hm. unfold observed. wp_pure. apply wp_bind. eapply wp_conseq; [exact Hm|]. intros err w' HQ.
  wp_call observe_quiet as u w2 [I2 B2]. wp_pure. by rewrite I2, B2.
Qed.

Lemma index_doc_spec i c n id doc w :
  is_Some (indices w !! n) →
  wp (index_doc i c n id doc) (λ err w', bodies w' = bodies w ∧
    (indices w' = indices w ∨ ∃ body, doc = Some body ∧ indices w' = es_put n id body (indices w)) ∧
    (err = None → ∃ body, doc = Some body ∧ indices w' = es_put n id body (indices w))) w.
Proof.
  intros Hn. unfold index_doc. destruct doc as [body|]; [|wp_pure; split_and!; [done|by left|done]].
  wp_call el_index as res w1 [I1 B1]; [done|]. destruct res as [res|err]; [|wp_pure; naive_solver].
  destruct B1 as (F1 & B1 & X1). wp_pure. wp_call el_close as u w2 [I2 B2]. wp_pure. rewrite I2.
  split_and!; [rewrite B2, B1; by apply handed_back|naive_solver|]. destruct (IsError res); [done|eauto].
Qed.

Lemma search_spec c n q w :
  wp (search c n q) (λ _ w', indices w' = indices w ∧ bodies w' = bodies w) w.
Proof.
  unfold search. wp_pure.
  wp_call el_search as res w1 [I1 B1]. wp_call observe_quiet as u w2 [I2 B2].
  destruct res as [res|err]; [|wp_pure; split; congruence]. destruct B1 as (F1 & B1).
  wp_pure. wp_call el_close as u' w4 [I4 B4]. wp_pure. split; [congruence|].
  rewrite B4, B2, B1. by apply handed_back.
Qed.

Lemma Health_spec i c w : wp (Health i c) (λ _ w', indices w' = indices w ∧ bodies w' = bodies w) w.
Proof.
  unfold Health. destruct i as [i|]; [|by wp_pure]. wp_call el_health as res w1 [I1 B1].
  destruct res as [res|err]; [|by wp_pure]. destruct B1 as (F1 & B1). wp_pure. wp_call el_close as u w2 [I2 B2]. wp_pure.
  split; [congruence|]. rewrite B2, B1. by apply handed_back.
Qed.

Lemma docs_in_put n id body m key :
  is_Some (m !! n) → docs_in n (es_put n id body m) !! key = if decide (key = id) then Some body else docs_in n m !! key.
Proof.
  intros [i Hi]. unfold docs_in, es_put. rewrite lookup_alter, decide_True, Hi by done. cbn.
  case_decide; [subst; by rewrite lookup_insert_eq|by rewrite lookup_insert_ne].
Qed.

Lemma es_put_other n id body m n' : n' ≠ n → es_put n id body m !! n' = m !! n'.
Proof. intros Hn. unfold es_put. by rewrite lookup_alter_ne. Qed.

Lemma es_put_exists n id body m n' : is_Some (m !! n') → is_Some (es_put n id body m !! n').
Proof. intros [i Hi]. unfold es_put. rewrite lookup_alter. case_decide; [subst|]; rewrite Hi; by eexists. Qed.

End Facts.

(** Indexing a sequence of documents, redeliveries included: the errors in
    order. *)
Fixpoint index_all `{Runtime W, Elastic W, LocalZone} (i : Index) (c : ctx) (docs : list Document) : GoM W (list (option error)) :=
  match docs with
  | [] => mret []
  | d :: rest => err ← IndexMessage (Some i) c d; errs ← index_all i c rest; mret (err :: errs)
  end.

(** The id determines the document. *)
Definition same_docs (docs : list Document) : Prop :=
  ∀ d d', d ∈ docs → d' ∈ docs → e_ID d = e_ID d' → d = d'.

(** One call: its effect on the index. *)
Lemma IndexMessage_spec `{ElasticSpec W, LocalZone} (i : Index) c d (w : W) :
  is_Some (indices w !! ix_msgIndex i) →
  wp (IndexMessage (Some i) c d) (λ err w', bodies w' = bodies w ∧
    (indices w' = indices w ∨
     ∃ body, doc_marshal d = Some body ∧ indices w' = es_put (ix_msgIndex i) (FormatInt (e_ID d)) body (indices w)) ∧
    (err = None →
     ∃ body, doc_marshal d = Some body ∧ indices w' = es_put (ix_msgIndex i) (FormatInt (e_ID d)) body (indices w))) w.
Proof.
  intros Hn. cbn [IndexMessage].
  apply (observed_spec _ _ (λ err ix b, b = bodies w ∧
    (ix = indices w ∨ ∃ body, doc_marshal d = Some body ∧ ix = es_put (ix_msgIndex i) (FormatInt (e_ID d)) body (indices w)) ∧
    (err = None → ∃ body, doc_marshal d = Some body ∧ ix = es_put (ix_msgIndex i) (FormatInt (e_ID d)) body (indices w)))).
  by apply index_doc_spec.
Qed.

(** A key's document afterwards is the one from before or one of those indexed. *)
Definition from_docs (n : string) (docs : list Document) `{LocalZone} (m m' : gmap string es_index) : Prop :=
  ∀ key, docs_in n m' !! key = docs_in n m !! key ∨
    ∃ d, d ∈ docs ∧ FormatInt (e_ID d) = key ∧ docs_in n m' !! key = doc_marshal d ∧ is_Some (doc_marshal d).

Lemma index_all_spec `{ElasticSpec W, LocalZone} (i : Index) c docs (w : W) :
  same_docs docs → Forall (λ d, in_int64 (e_ID d)) docs → is_Some (indices w !! ix_msgIndex i) →
  wp (index_all i c docs) (λ errs w', bodies w' = bodies w ∧
    (∀ k d, docs !! k = Some d → errs !! k = Some None →
       docs_in (ix_msgIndex i) (indices w') !! FormatInt (e_ID d) = doc_marshal d ∧ is_Some (doc_marshal d)) ∧
    from_docs (ix_msgIndex i) docs (indices w) (indices w') ∧
    (∀ n, n ≠ ix_msgIndex i → indices w' !! n = indices w !! n)) w.
Proof.
  set (n := ix_msgIndex i). revert w. induction docs as [|d docs IH]; intros w Hsame Hid Hn; cbn [index_all].
  { wp_pure. split_and!; [done|by intros k d; rewrite lookup_nil|by left|done]. }
  pose proof Hid as [Hd Hid']%Forall_cons. wp_call IndexMessage_spec as err w1 (B1 & I1 & O1); [done|]. fold n in I1, O1.
  assert (is_Some (indices w1 !! n)) as Hn1.
  { destruct I1 as [->|(body & _ & ->)]; [done|by apply es_put_exists]. }
  assert (same_docs docs) as Hsame' by (intros x y Hx Hy; apply Hsame; by right).
  wp_call IH as errs w2 (B2 & S2 & F2 & N2); [done..|]. wp_pure. split; [congruence|]. split_and!.
  - intros [|k] d' Hk He; cbn in Hk, He; [|by eapply S2]. simplify_eq. destruct (O1 eq_refl) as (body & Hm & Hw1).
    destruct (F2 (FormatInt (e_ID d'))) as [->|(d2 & Hd2 & Hf & -> & Hs)].
    + rewrite Hw1, docs_in_put, decide_True, Hm by done. by split.
    + assert (d2 = d') as ->; [|done]. apply Hsame; [by right|by left|]. apply FormatInt_inj; [|done..].
      by eapply Forall_forall in Hid'.
  - intros key. destruct (F2 key) as [->|(d2 & Hd2 & Hf & E2 & Hs)]; [|right; exists d2; split; [by right|done]].
    destruct I1 as [->|(body & Hm & ->)]; [by left|]. rewrite docs_in_put by done. case_decide as Ek; [right|by left].
    exists d. rewrite Hm. split_and!; [left|done..|by eexists].
  - intros n' Hn'. rewrite N2 by done. destruct I1 as [->|(body & _ & ->)]; [done|by apply es_put_other].
Qed.

(** Redelivered events do not multiply.  Whatever documents the consumer
    indexes, in whatever order and however often, with failed calls in between
    that may or may not have been carried out: a document whose indexing
    succeeded at some point is in the index, once, under its id and as it was
    encoded; no other document of this or another index is touched; and every
    response body has been closed. *)
Theorem redelivery_idempotent `{ElasticSpec W, LocalZone} (i : Index) (c : ctx) (docs : list Document) (w : W) :
  same_docs docs → Forall (λ d, in_int64 (e_ID d)) docs → is_Some (indices w !! ix_msgIndex i) →
  ∃ errs w', index_all i c docs w = Some (errs, w') ∧ bodies w' = bodies w ∧
    (∀ k d, docs !! k = Some d → errs !! k = Some None →
       docs_in (ix_msgIndex i) (indices w') !! FormatInt (e_ID d) = doc_marshal d ∧ is_Some (doc_marshal d)) ∧
    (∀ key, (∀ d, d ∈ docs → FormatInt (e_ID d) ≠ key) →
       docs_in (ix_msgIndex i) (indices w') !! key = docs_in (ix_msgIndex i) (indices w) !! key) ∧
    (∀ n, n ≠ ix_msgIndex i → indices w' !! n = indices w !! n).
Proof.
  intros Hsame Hid Hn. destruct (index_all_spec i c docs w Hsame Hid Hn) as (errs & w' & E & B & S & F & N).
  exists errs, w'. split_and!; [done..| |done]. intros key Hk. destruct (F key) as [?|(d & Hd & Hf & _)]; [done|].
  by destruct (Hk d Hd).
Qed.

(** A search client that starts up finds its indices in place.  With no address
    configured [New] does nothing; otherwise it fails, or returns a client both of
    whose indices exist, also when another instance created them in between; it
    never redefines an index or drops a document, and leaves no response body
    open. *)
Theorem search_New_ready `{ElasticSpec W, LocalZone} (e : environ) (c : ctx) (w : W) :
  (envList e "ELASTIC_URLS" = [] → search_New e c w = Some ((None, None), w)) ∧
  (envList e "ELASTIC_URLS" ≠ [] →
   ∃ idx err w', search_New e c w = Some ((idx, err), w') ∧
     indices_kept (indices w) (indices w') ∧ bodies w' = bodies w ∧
     match idx with
     | Some i => err = None ∧ is_Some (indices w' !! ix_msgIndex i) ∧ is_Some (indices w' !! ix_fileIndex i)
     | None => err ≠ None
     end).
Proof.
  unfold search_New. split; intros Hu; [by rewrite bool_decide_true|]. rewrite bool_decide_false by done.
  match goal with |- context [?m w = Some _] => assert (wp m (λ r w', indices_kept (indices w) (indices w') ∧ bodies w' = bodies w ∧
     match r.1 with
     | Some i => r.2 = None ∧ is_Some (indices w' !! ix_msgIndex i) ∧ is_Some (indices w' !! ix_fileIndex i)
     | None => r.2 ≠ None
     end) w) as ([idx err] & w' & E & HQ); [|by exists idx, err, w'] end.
  wp_call el_client as err w1 [I1 B1]. destruct err as [err|]; [wp_pure; rewrite I1; by split_and!|].
  wp_pure. cbn [ix_msgIndex ix_fileIndex]. wp_call ensure_spec as err w2 (K2 & B2 & X2). rewrite I1 in K2.
  destruct err as [err|]; [wp_pure; split_and!; [done|congruence|done]|].
  wp_call ensure_spec as err w3 (K3 & B3 & X3). assert (indices_kept (indices w) (indices w3)) by by etransitivity.
  destruct err as [err|]; [wp_pure; split_and!; [done|congruence|done]|].
  wp_pure. cbn [fst snd]. split_and!; [done|congruence|done| |by apply X3]. destruct (X2 eq_refl) as [i Hi].
  destruct (K3 _ _ Hi) as (i' & Hi' & _). by exists i'.
Qed.

(** ** Searching files *)

(** The query language as Elasticsearch documents it, for the queries used: a
    field of a file's document, and the [exists] and [term] queries. *)
Definition doc_field (d : FileDoc) (field : string) : option string :=
  if bool_decide (field = "backend") then Some (fd_Backend d)
  else match CutPrefix field "tags." with
       | (k, true) => fd_Tags d ≫= (!!) k
       | _ => None
       end.

Definition filter_holds (d : FileDoc) (f : json) : bool :=
  match f with
  | JObj [("exists", JObj [("field", JStr field)])] => bool_decide (is_Some (doc_field d (unquote field)))
  | JObj [("term", JObj [(field, JStr v)])] => bool_decide (doc_field d (unquote field) = Some (unquote v))
  | _ => false
  end.

(** An indexed document as a file, and the documents of an index that pass the
    filters. *)
Definition as_file (body : string) : option FileDoc := parse body ≫= file_unmarshal.

Definition passes (filters : list json) (body : string) : bool :=
  match as_file body with
  | Some d => forallb (filter_holds d) filters
  | None => false
  end.

Definition matching (filters : list json) (n : string) (m : gmap string es_index) : list string :=
  filter (λ body, passes filters body = true) ((map_to_list (docs_in n m)).*2).

(** A search that succeeds returns the first [size] of the matching documents in
    some order, as they were indexed, and how many there are. *)
Class FileSearch (W : Type) `{ElasticSpec W} := {
  fs_search : ∀ c n payload limit filters w,
    in_int64 limit → parse payload = Some (filtered filters limit) →
    wp (es_Search c n payload true) (λ r _, ∀ res raw, r = inl res → IsError res = false →
      response_decode (es_Body res) = inl raw →
      ∃ hits, hits ≡ₚ matching filters n (indices w) ∧ sp_Total raw = Z.of_nat (length hits) ∧
        sp_Hits raw = parse <$> take (Z.to_nat limit) hits) w
}.

(** What the caller of [SearchFiles] asks for. *)
Definition wanted (tagKey tagValue backend : string) (d : FileDoc) : Prop :=
  (tagKey ≠ "" → ∃ v, (fd_Tags d ≫= (!!) tagKey) = Some v ∧ (tagValue ≠ "" → v = tagValue)) ∧
  (backend ≠ "" → fd_Backend d = backend).

Lemma doc_field_tag d k : doc_field d ("tags." +:+ k) = fd_Tags d ≫= (!!) k.
Proof. unfold doc_field. by rewrite bool_decide_false, (proj2 (CutPrefix_true _ "tags." k) eq_refl). Qed.

Lemma file_filters_wanted tagKey tagValue backend d :
  utf8_valid tagKey = true → utf8_valid tagValue = true → utf8_valid backend = true →
  forallb (filter_holds d) (file_filters tagKey tagValue backend) = true ↔ wanted tagKey tagValue backend d.
Proof.
  intros Uk Uv Ub. unfold file_filters, wanted. rewrite forallb_app, andb_true_iff. f_equiv.
  - case_bool_decide as Ek; [naive_solver|].
    case_bool_decide as Ev; cbn -[String.append quote unquote]; rewrite !unquote_quote by done;
      rewrite doc_field_tag, andb_true_r, bool_decide_eq_true.
    + unfold is_Some. naive_solver.
    + naive_solver.
  - case_bool_decide as Eb; [naive_solver|]. cbn -[quote unquote]. rewrite unquote_quote by done.
    rewrite andb_true_r, bool_decide_eq_true. change (unquote "backend") with "backend".
    unfold doc_field. rewrite bool_decide_true by done. split; [congruence|intros Hb; by rewrite Hb].
Qed.

(** The query is read by the service as it was written. *)
Lemma files_query_read tagKey tagValue backend limit :
  utf8_valid tagKey = true → utf8_valid tagValue = true → utf8_valid backend = true → in_int64 limit →
  parse (print (files_query tagKey tagValue backend limit)) = Some (files_query tagKey tagValue backend limit).
Proof.
  intros Uk Uv Ub Hl. apply parse_print.
  - assert (Forall wf_json (file_filters tagKey tagValue backend)) as Hf; [|apply members_wf; members; repeat (apply members_wf; members); by constructor].
    unfold file_filters. apply Forall_app. split.
    + case_bool_decide; [apply Forall_nil_2|]. case_bool_decide; apply Forall_cons_2; try apply Forall_nil_2.
      * repeat (apply members_wf; members). 
      * apply members_wf. members. constructor. apply Forall_cons_2; [split|apply Forall_nil_2]; cbn [fst snd];
          [by apply raw_ok_quote|by apply wf_jstring].
    + case_bool_decide; [apply Forall_nil_2|]. apply Forall_cons_2; [|apply Forall_nil_2]. repeat (apply members_wf; members).
  - unfold files_query, filtered, file_filters. repeat case_bool_decide; done.
Qed.

Lemma omap_filter_decode filters (l : list string) :
  Forall (λ body, is_Some (as_file body)) (filter (λ body, passes filters body = true) l) ∧
  ∀ d, d ∈ omap as_file (filter (λ body, passes filters body = true) l) ↔
    d ∈ omap as_file l ∧ forallb (filter_holds d) filters = true.
Proof.
  split.
  - apply Forall_forall. intros body [Hp _]%list_elem_of_filter. unfold passes in Hp. by destruct (as_file body).
  - intros d. rewrite !list_elem_of_omap. unfold passes. split.
    + intros (body & [Hp Hb]%list_elem_of_filter & Hu). rewrite Hu in Hp. eauto.
    + intros ((body & Hb & Hu) & Hf). exists body. rewrite list_elem_of_filter, Hu. auto.
Qed.

Lemma omap_total {A B} (f : A → option B) (l : list A) n :
  Forall (λ x, is_Some (f x)) l → omap f (take n l) = take n (omap f l) ∧ length (omap f l) = length l.
Proof.
  intros Hl. revert n. induction Hl as [|x l [y Hy] Hl IH]; intros n; [by destruct n|].
  cbn. rewrite Hy. destruct n as [|n]; cbn; [by rewrite (proj2 (IH 0%nat))|]. rewrite Hy.
  destruct (IH n) as [-> ->]. done.
Qed.

Lemma omap_parse (l : list string) : omap (λ hit : option json, hit ≫= file_unmarshal) (parse <$> l) = omap as_file l.
Proof. by induction l as [|x l IH]; [done|]; cbn; fold (as_file x); rewrite IH. Qed.

(** The search by tag finds exactly the files asked for.  When [SearchFiles]
    succeeds, its total is the number of indexed files that carry the tag (with
    the value, if one is given) and lie in the backend (if one is given), and the
    files returned are the first [limit] of them, each decoded as it was indexed;
    a client that is not configured says so without a request. *)
Theorem SearchFiles_exact `{FileSearch W} (i : Index) (c : ctx) (tagKey tagValue backend : string) (limit : Z) (w : W) :
  utf8_valid tagKey = true → utf8_valid tagValue = true → utf8_valid backend = true → in_int64 limit →
  SearchFiles None c tagKey tagValue backend limit w = Some (inr ErrNotConfigured, w) ∧
  ∃ res w', SearchFiles (Some i) c tagKey tagValue backend limit w = Some (res, w') ∧ bodies w' = bodies w ∧
    ∀ r, res = inl r → ∃ files : list FileDoc,
      (∀ d, d ∈ files ↔ d ∈ omap as_file (map_to_list (docs_in (ix_fileIndex i) (indices w))).*2 ∧
                        wanted tagKey tagValue backend d) ∧
      sr_Total r = Z.of_nat (length files) ∧ sr_Files r = take (Z.to_nat limit) files.
Proof.
  intros Uk Uv Ub Hl. split; [done|].
  assert (wp (SearchFiles (Some i) c tagKey tagValue backend limit) (λ res w', bodies w' = bodies w ∧
    ∀ r, res = inl r → ∃ files : list FileDoc,
      (∀ d, d ∈ files ↔ d ∈ omap as_file (map_to_list (docs_in (ix_fileIndex i) (indices w))).*2 ∧
                        wanted tagKey tagValue backend d) ∧
      sr_Total r = Z.of_nat (length files) ∧ sr_Files r = take (Z.to_nat limit) files) w) as (res & w' & E & B & HQ);
    [|by exists res, w'].
  cbn [SearchFiles]. apply wp_bind. set (filters := file_filters tagKey tagValue backend).
  assert (wp (search c (ix_fileIndex i) (files_query tagKey tagValue backend limit)) (λ raw w', bodies w' = bodies w ∧
    ∀ r, raw = inl r → ∃ hits, hits ≡ₚ matching filters (ix_fileIndex i) (indices w) ∧
      sp_Total r = Z.of_nat (length hits) ∧ sp_Hits r = parse <$> take (Z.to_nat limit) hits) w) as Hs.
  { destruct (search_spec c (ix_fileIndex i) (files_query tagKey tagValue backend limit) w) as (raw & w' & E & _ & B).
    exists raw, w'. split; [done|]. split; [done|]. intros r ->. revert E. unfold search. rewrite gom_gets_bind.
    destruct (fs_search c (ix_fileIndex i) _ limit filters w Hl (files_query_read _ _ _ _ Uk Uv Ub Hl)) as (res & w1 & E1 & Hres).
    rewrite (gom_bind_run _ _ _ _ _ E1). intros Hrun. destruct res as [res|err]; gom_inv.
    destruct (IsError res) eqn:Hi; [done|]. by eapply Hres. }
  eapply wp_conseq; [exact Hs|]. intros raw w' [B HQ]. wp_pure. split; [done|]. destruct raw as [raw|]; [|done].
  intros r [= <-]. destruct (HQ raw eq_refl) as (hits & Hp & Ht & Hh). exists (omap as_file hits).
  destruct (omap_filter_decode filters ((map_to_list (docs_in (ix_fileIndex i) (indices w))).*2)) as [Hall Hin].
  assert (Forall (λ body, is_Some (as_file body)) hits) as Hall' by (by rewrite Hp).
  destruct (omap_total as_file hits (Z.to_nat limit) Hall') as [Htake Hlen]. cbn [result_of sr_Total sr_Files].
  rewrite Hh, omap_parse. split_and!.
  - intros d. rewrite Hp. unfold matching. rewrite Hin. unfold filters. by rewrite file_filters_wanted by done.
  - by rewrite Ht, Hlen.
  - done.
Qed.

(** Indexing a file. *)
Lemma IndexFile_spec `{ElasticSpec W} (i : Index) c d (w : W) :
  is_Some (indices w !! ix_fileIndex i) →
  wp (IndexFile (Some i) c d) (λ err w', bodies w' = bodies w ∧
    (err = None → ∃ body, file_marshal d = Some body ∧
       indices w' = es_put (ix_fileIndex i) (fd_Backend d +:+ ":" +:+ fd_Key d) body (indices w))) w.
Proof.
  intros Hn. cbn [IndexFile].
  apply (observed_spec _ _ (λ err ix b, b = bodies w ∧
    (err = None → ∃ body, file_marshal d = Some body ∧ ix = es_put (ix_fileIndex i) (fd_Backend d +:+ ":" +:+ fd_Key d) body (indices w)))).
  eapply wp_conseq; [by apply index_doc_spec|]. intros err w' (? & _ & ?). done.
Qed.

