(* ===== verification/SearchSim.v ===== *)
(** * SearchSim: a service that keeps the laws of [SearchClient]

    An Elasticsearch over finite maps: it shows that the laws can hold, and the
    witnesses of [SearchClient]'s theorems run on it. *)

From stdpp Require Import base option list strings gmap.
From Stdlib Require Import ZArith Lia Ascii.
From S2P Require Import Prelude GoStrings GoPaths ServeMux Env JsonText Json JsonWf Messaging EventJson Storage StorageProps FileStores RequestJson FilesApi SearchJson SearchClient.
Local Open Scope Z_scope.

(** ** The service *)

Record ew := mkEw { ew_sim : sim; ew_ix : gmap string es_index; ew_open : gset nat }.

Definition ew_set_sim (s : sim) (w : ew) : ew := mkEw s (ew_ix w) (ew_open w).

#[export] Instance ew_runtime : Runtime ew := {
  now w := now (ew_sim w);
  ctx_err c w := ctx_err c (ew_sim w);
  draw n w := let '(z, s) := draw n (ew_sim w) in (z, ew_set_sim s w);
  select_timer c d w := let '(b, s) := select_timer c d (ew_sim w) in (b, ew_set_sim s w);
  emit m w := ew_set_sim (emit m (ew_sim w)) w
}.

(** Answer with a status and a body, having changed the indices. *)
Definition respond (status : Z) (body : string) (ix : gmap string es_index → gmap string es_index)
    : GoM ew (es_response + error) := λ w,
  let r := fresh (ew_open w) in
  Some (inl (mkEs r status (mkStream body None)), mkEw (ew_sim w) (ix (ew_ix w)) ({[r]} ∪ ew_open w)).

Definition create_index (n : string) (m : json) (ix : gmap string es_index) : gmap string es_index :=
  match ix !! n with Some _ => ix | None => <[n := mkEsIndex m ∅]> ix end.

(** The size and the filters of a query. *)
Definition query_parts (q : json) : Z * list json :=
  match q with
  | JObj [(_, JObj [(_, JObj [(_, JArr filters)])]); (_, JNum limit)] => ((ParseInt limit).1, filters)
  | _ => (0, [])
  end.

(** The documents found, as the value of the answer. *)
Definition answer (n payload : string) (ix : gmap string es_index) : json :=
  let '(limit, filters) := query_parts (default JNull (parse payload)) in
  let hits := matching filters n ix in
  response_json 1 (Z.of_nat (length hits)) (omap parse (take (Z.to_nat limit) hits)).

(** A document nested so deep that the answer would be too deep, or a number of
    documents that is none, is an error. *)
Definition answerable (n payload : string) (ix : gmap string es_index) : bool :=
  bool_decide (nesting (answer n payload ix) <= maxNestingDepth) && bool_decide (in_int64 (Z.of_nat (size (docs_in n ix)))).

#[export] Instance ew_elastic : Elastic ew := {|
  es_NewClient addrs := mret None;
  es_Exists c n := λ w, respond (if ew_ix w !! n then 200 else 404) "" id w;
  es_Create c n m := λ w,
    if ew_ix w !! n then respond 400 "resource_already_exists_exception" id w
    else respond 200 "" (create_index n m) w;
  es_Index c n body doc refresh := respond 201 "" (es_put n doc body);
  es_Search c n payload track := λ w,
    respond (if answerable n payload (ew_ix w) then 200 else 500) (print (answer n payload (ew_ix w))) id w;
  es_Health c := respond 200 (print (JObj [("status", jstring "green")])) id;
  es_Close r := λ w, Some ((), mkEw (ew_sim w) (ew_ix w) (ew_open w ∖ {[es_res r]}))
|}.

Lemma respond_spec status body ix w :
  wp (respond status body ix) (λ r w', ∃ res, r = inl res ∧ es_StatusCode res = status ∧ es_Body res = mkStream body None ∧
    es_res res ∉ ew_open w ∧ ew_open w' = {[es_res res]} ∪ ew_open w ∧ ew_ix w' = ix (ew_ix w)) w.
Proof.
  eexists _, _. split; [done|]. eexists. split; [done|]. cbn. split_and!; try done. apply is_fresh.
Qed.

Ltac answered :=
  eapply wp_conseq; [apply respond_spec|];
  intros r' w' (res' & -> & Hst & Hbody & Hfresh & Hopen & Hix).

#[export] Instance ew_spec : ElasticSpec ew.
Proof.
  refine {| indices := ew_ix; bodies := ew_open |}.
  - done.
  - intros addrs w. by apply wp_ret.
  - intros r w. by eexists _, _.
  - intros c n w. unfold wp. cbn [es_Exists ew_elastic]. change (wp (respond (if ew_ix w !! n then 200 else 404) "" id) (λ r w',
      indices_kept (ew_ix w) (ew_ix w') ∧ match r with
      | inl r => es_res r ∉ ew_open w ∧ ew_open w' = {[es_res r]} ∪ ew_open w ∧ (es_StatusCode r = 200 → is_Some (ew_ix w' !! n))
      | inr _ => ew_open w' = ew_open w end) w).
    answered. rewrite Hix. split; [reflexivity|]. split_and!; [done..|]. rewrite Hst. cbn. by destruct (ew_ix w !! n).
  - intros c n m w. unfold wp. cbn [es_Create ew_elastic]. destruct (ew_ix w !! n) as [i|] eqn:E.
    + match goal with |- ∃ a w', ?m w = _ ∧ @?Q a w' => change (wp m Q w) end.
      answered. rewrite Hix. split; [reflexivity|]. unfold id. rewrite E. by split_and!; [..|eexists|eexists].
    + match goal with |- ∃ a w', ?m w = _ ∧ @?Q a w' => change (wp m Q w) end.
      answered. rewrite Hix. unfold create_index. rewrite E. split.
      { intros k i Hk. exists i. rewrite lookup_insert_ne by congruence. done. }
      rewrite lookup_insert_eq. by split_and!; [..|eexists|eexists].
  - intros c n body d refresh w _. cbn [es_Index ew_elastic]. answered. rewrite Hix. split; [by right|]. by split_and!.
  - intros c n q b w. unfold wp. cbn [es_Search ew_elastic].
    match goal with |- ∃ a w', ?m w = _ ∧ @?Q a w' => change (wp m Q w) end. answered. by rewrite Hix.
  - intros c w. cbn [es_Health ew_elastic]. answered. by rewrite Hix.
Defined.

Lemma matching_parses filters n ix : Forall (λ body, is_Some (parse body)) (matching filters n ix).
Proof.
  apply Forall_forall. intros body [Hp _]%list_elem_of_filter. unfold passes, as_file in Hp. by destruct (parse body).
Qed.

Lemma omap_parse_found (l : list string) : Forall (λ body, is_Some (parse body)) l → Some <$> omap parse l = parse <$> l.
Proof. induction 1 as [|x l [v Hv] _ IH]; [done|]. cbn -[parse]. rewrite Hv. cbn -[parse]. by rewrite IH. Qed.

Lemma matching_size filters n ix : Z.of_nat (length (matching filters n ix)) <= Z.of_nat (size (docs_in n ix)).
Proof.
  unfold matching. pose proof (length_filter (λ body, passes filters body = true) ((map_to_list (docs_in n ix)).*2)) as Hl.
  rewrite length_fmap, length_map_to_list in Hl. lia.
Qed.

#[export] Instance ew_files : FileSearch ew.
Proof.
  split. intros c n payload limit filters w Hl Hq. unfold wp. cbn [es_Search ew_elastic].
  match goal with |- ∃ a w', ?m w = _ ∧ @?Q a w' => change (wp m Q w) end. answered.
  intros res raw [= <-] Herr. unfold IsError in Herr. rewrite Hst in Herr.
  destruct (answerable n payload (ew_ix w)) eqn:Ha; [|done]. apply andb_true_iff in Ha as [Ha1%bool_decide_eq_true Ha2%bool_decide_eq_true].
  unfold answer in Ha1. rewrite Hbody. unfold answer. rewrite Hq in Ha1 |- *. cbn [default id from_option] in Ha1 |- *.
  unfold filtered, jint in Ha1 |- *. cbn [query_parts] in Ha1 |- *. rewrite ParseInt_FormatInt in Ha1 |- * by done. cbn [fst] in Ha1 |- *.
  set (hits := matching filters n (ew_ix w)) in *.
  assert (Forall (λ body, is_Some (parse body)) (take (Z.to_nat limit) hits)) as Hf by (apply Forall_take, matching_parses).
  rewrite response_read; [|done|..|done].
  - intros Hr. apply (inj inl) in Hr as <-. exists hits. split_and!; [done|done|]. cbn [sp_Hits]. by apply omap_parse_found.
  - pose proof (matching_size filters n (ew_ix w)). unfold in_int64, min_int64 in *. fold hits in H. lia.
  - apply Forall_forall. intros v (body & _ & Hv)%list_elem_of_omap. by apply parse_ok in Hv as [? _].
Qed.

(** ** Witnesses *)

#[local] Existing Instance utc.

Definition ex_index : Index := mkIndex "otus-messages" "otus-files" false.
Definition ex_file (key : string) (tag : string) : FileDoc := mkFileDoc key "s3" 10 "" (Some {["kind" := tag]}) 0.

Definition file_text (d : FileDoc) : string := default "" (file_marshal d).

Definition ew0 : ew := mkEw sim0
  {["otus-messages" := mkEsIndex messagesMapping ∅;
    "otus-files" := mkEsIndex filesMapping
      {["s3:a" := file_text (ex_file "a" "photo"); "s3:b" := file_text (ex_file "b" "text")]}]} ∅.

Definition ex_doc (id : Z) : Document := mkEvent id "t" "c" "kafka" 0.

Lemma redelivery_idempotent_witness :
  ∃ errs w', index_all ex_index Background [ex_doc 1; ex_doc 2; ex_doc 1] ew0 = Some (errs, w') ∧ ew_open w' = ∅.
Proof.
  destruct (redelivery_idempotent ex_index Background [ex_doc 1; ex_doc 2; ex_doc 1] ew0) as (errs & w' & E & B & _).
  - intros d d' Hd Hd' Hid.
    assert (∀ d, d ∈ [ex_doc 1; ex_doc 2; ex_doc 1] → d = ex_doc (e_ID d)) as Hall
      by (intros x Hx; repeat (apply elem_of_cons in Hx as [->|Hx]; [reflexivity|]); by apply elem_of_nil in Hx).
    rewrite (Hall d Hd), (Hall d' Hd'). congruence.
  - repeat constructor; vm_compute; discriminate.
  - eexists. vm_compute. reflexivity.
  - exists errs, w'. split; [exact E|exact B].
Defined.

Definition ex_elastic_env (key : string) : string := if bool_decide (key = "ELASTIC_URLS") then "http://es-1:9200" else "".

Lemma search_New_ready_witness :
  ∃ idx err w', search_New ex_elastic_env Background ew0 = Some ((idx, err), w') ∧ indices_kept (ew_ix ew0) (ew_ix w').
Proof.
  destruct (proj2 (search_New_ready ex_elastic_env Background ew0)) as (idx & err & w' & E & K & _).
  - vm_compute. discriminate.
  - exists idx, err, w'. split; [exact E|exact K].
Defined.

Lemma ex_file_ok key tag : utf8_valid key = true → utf8_valid tag = true → file_ok (ex_file key tag).
Proof.
  intros Hk Ht. split; [done|done|split; discriminate|done|]. cbn [fd_Tags ex_file]. intros m Hm. apply (inj Some) in Hm as <-.
  split; [apply insert_non_empty|]. intros k v [<- <-]%lookup_singleton_Some. by split.
Qed.


(** The one file with the tag is found. *)
Example finds_photo :
  match SearchFiles (Some ex_index) Background "kind" "photo" "" 10 ew0 with
  | Some (inl r, _) => sr_Total r = 1 ∧ fd_Key <$> sr_Files r = ["a"]
  | _ => False
  end.
Proof. vm_compute. by split. Qed.
