(* ===== verification/MessagesApi.v ===== *)
(** * MessagesApi: the message handlers and the route table

    [internal/handlers/handlers.go]: creating and listing messages over the
    application service, with the list cache and the audit log, readiness, and
    which routes stand behind which middleware. *)

From stdpp Require Import base option list strings gmap.
From Stdlib Require Import ZArith Lia.
From S2P Require Import Prelude GoStrings Sha256 Messaging Http TCache EventJson Storage StorageProps FileStores RequestJson.
Local Open Scope Z_scope.

(** ** Interfaces *)

(** [audit.Entry] *)
Record Entry := mkEntry { en_Time : Z; en_Event : string; en_Text : string }.

(** [handlers.AuditLog]; [Record] returns nothing. *)
Class AuditLog (W : Type) := {
  al_Record : ctx → string → string → GoM W unit;
  al_Last : ctx → Z → GoM W (list Entry + error)
}.

(** [handlers.MessagesCache] *)
Class MessagesCache (W : Type) := {
  mc_Get : ctx → string → GoM W (string * bool);
  mc_Set : ctx → string → string → GoM W unit;
  mc_Delete : ctx → string → GoM W unit
}.

(** Which dependencies are set; [ready] is the readiness check. *)
Record MsgAPI := mkMsgAPI { has_audit : bool; has_cache : bool; has_ready : bool }.

(** Bodies: JSON values, or bytes taken from the cache. *)
Inductive msg_body :=
| MOne (m : Message)
| MMany (ms : list Message)
| MRaw (raw : string)
| MEntries (es : list Entry)
| MStatus (s : string)
| MHello (s : string).

(** [err.Error()] of an error that is an idempotency conflict. *)
Definition conflict_text (err : option error) : string :=
  match err with
  | Some (Wrapped text _) => text
  | _ => "ключ идемпотентности уже использован для другого текста"
  end.

Section Handlers.
Context `{Runtime W, MessageStore W, AuditLog W, MessagesCache W, LocalZone}.
Variable a : MsgAPI.

(** [createMessage]; [body] is [r.Body]. *)
Definition createMessage (r : http_request) (body : stream) : GoM W (reply msg_body) :=
  match decode_text body with
  | None => mret (write_error StatusBadRequest "некорректное тело запроса")
  | Some text =>
      match ValidateText text with
      | Some _ => mret (write_error StatusBadRequest "поле text обязательно")
      | None =>
          res ← Service_Create (hq_ctx r) text (hq_header r "Idempotency-Key");
          let '(msg, err) := res in
          if is_err err ErrIdempotencyConflict
          then mret (write_error StatusConflict (conflict_text err))
          else match err with
          | Some _ => mret (write_error StatusInternalServerError "не удалось сохранить сообщение")
          | None =>
              _ ← modify (emit (MInc "otus_messages_created_total" []));
              _ ← (if has_audit a then al_Record (hq_ctx r) "создано сообщение" (m_Text msg) else mret ());
              _ ← (if has_cache a then mc_Delete (hq_ctx r) "messages" else mret ());
              mret (write_ok StatusCreated (MOne msg))
          end
      end
  end.

(** The part of [listMessages] after a miss. *)
Definition list_from_store (r : http_request) : GoM W (reply msg_body) :=
  res ← Service_List (hq_ctx r);
  match res with
  | (_, Some _) => mret (write_error StatusInternalServerError "не удалось получить сообщения")
  | (msgs, None) =>
      if has_cache a then
        _ ← (match marshal_list msgs with
             | Some raw => mc_Set (hq_ctx r) "messages" raw
             | None => mret ()
             end);
        mret (mkReply StatusOK [("X-Cache", "MISS"); ("Content-Type", "application/json")] (OkBody (MMany msgs)))
      else mret (write_ok StatusOK (MMany msgs))
  end.

Definition listMessages (r : http_request) : GoM W (reply msg_body) :=
  if has_cache a then
    hit ← mc_Get (hq_ctx r) "messages";
    let '(raw, ok) := hit in
    if (ok : bool)
    then mret (mkReply StatusOK [("Content-Type", "application/json"); ("X-Cache", "HIT")] (OkBody (MRaw raw)))
    else list_from_store r
  else list_from_store r.

Definition listAudit (r : http_request) : GoM W (reply msg_body) :=
  if negb (has_audit a) then mret (write_error StatusServiceUnavailable "аудит-лог не настроен")
  else
    res ← al_Last (hq_ctx r) 10;
    match res with
    | inr _ => mret (write_error StatusInternalServerError "не удалось получить аудит-лог")
    | inl entries => mret (write_ok StatusOK (MEntries entries))
    end.

(** [readiness]; [ready] is the check of the write database. *)
Definition readiness (ready : ctx → GoM W (option error)) (r : http_request) : GoM W (reply msg_body) :=
  c ← gets (with_timeout (hq_ctx r) Second);
  err ← (if has_ready a then ready c else mret None);
  match err with
  | Some _ => mret (write_ok StatusServiceUnavailable (MStatus "база данных недоступна"))
  | None => mret (write_ok StatusOK (MStatus "готов"))
  end.

Definition hello (r : http_request) : reply msg_body :=
  let name := if bool_decide (hq_query r "name" = "") then "мир" else hq_query r "name" in
  write_ok StatusOK (MHello ("Привет, " +:+ name +:+ "!")).

End Handlers.

(** ** Routes *)

(** The middleware around a handler, outermost first. *)
Inductive wrapper := WAuth | WLimiter.

#[export] Instance wrapper_eq_dec : EqDecision wrapper.
Proof. solve_decision. Defined.

(** The handlers the routes name. *)
Inductive endpoint :=
| Ereadiness | Ehealth | EversionInfo | Ehello | EstatusPage | ElistAudit | ElistMessages | EcreateMessage
| EsearchMessages | ElistEvents | EgetEvent | ElistFiles | EuploadFile | EdownloadFile | ElistVersions | EupdateTags.

#[export] Instance endpoint_eq_dec : EqDecision endpoint.
Proof. solve_decision. Defined.

(** [publicRoutes]: pattern, middleware, handler. *)
Definition publicRoutes : list (string * string * list wrapper * endpoint) :=
  [ ("GET", "/ready", [], Ereadiness);
    ("GET", "/health", [], Ehealth);
    ("GET", "/version", [], EversionInfo);
    ("GET", "/hello", [WLimiter], Ehello);
    ("GET", "/status", [], EstatusPage);
    ("GET", "/audit", [], ElistAudit);
    ("GET", "/messages", [WLimiter], ElistMessages);
    ("POST", "/messages", [WAuth; WLimiter], EcreateMessage);
    ("GET", "/search", [WLimiter], EsearchMessages);
    ("GET", "/events", [], ElistEvents);
    ("GET", "/events/{id}", [], EgetEvent);
    ("GET", "/files", [], ElistFiles);
    ("POST", "/files", [WAuth], EuploadFile);
    ("GET", "/files/{key}", [], EdownloadFile);
    ("GET", "/files/{key}/versions", [], ElistVersions);
    ("PUT", "/files/{key}/tags", [WAuth], EupdateTags) ].

(** ** Properties *)

(** Every outcome of [createMessage] has its status.  An undecodable body and
    a blank text are 400 and the store is not asked; otherwise the store is
    asked once, under a deadline of 5 seconds, with the request's idempotency
    key; its conflict (also wrapped) is 409, another error 500, and only its
    success 201 with the stored message. *)
Theorem createMessage_replies `{Runtime W, MessageStore W, AuditLog W, MessagesCache W} (a : MsgAPI)
    (r : http_request) (body : stream) (w : W) :
  let text := decode_text body in
  (text = None ∨ (∃ t, text = Some t ∧ Blank t) →
     ∃ rep, createMessage a r body w = Some (rep, w) ∧ rp_status rep = StatusBadRequest) ∧
  (∀ t msg err w1, text = Some t → ¬ Blank t →
     store_Create (WithTimeout (hq_ctx r) (now w + 5 * Second)) t (hq_header r "Idempotency-Key") w =
       Some ((msg, err), w1) →
     match err with
     | Some e => ∃ rep, createMessage a r body w = Some (rep, w1) ∧
         rp_status rep = (if errors_is e ErrIdempotencyConflict then StatusConflict else StatusInternalServerError)
     | None => ∀ rep w', createMessage a r body w = Some (rep, w') →
         rp_status rep = StatusCreated ∧ rp_body rep = OkBody (MOne msg)
     end).
Proof.
  intros text. unfold createMessage. fold text. split.
  - intros [->|(t & -> & Hb)]; [by eexists|]. cbn. apply ValidateText_spec in Hb. rewrite Hb. by eexists.
  - intros t msg err w1 -> Hb Hs.
    destruct (ValidateText t) eqn:Hv.
    { exfalso. apply Hb, ValidateText_spec. destruct (ValidateText_cases t); congruence. }
    assert (Service_Create (hq_ctx r) t (hq_header r "Idempotency-Key") w = Some ((msg, err), w1)) as E.
    { unfold Service_Create. rewrite Hv. by rewrite gom_gets_bind. }
    rewrite (gom_bind_run _ _ _ _ _ E). destruct err as [e|]; cbn [is_err].
    + destruct (errors_is e ErrIdempotencyConflict); by eexists.
    + intros rep w'. rewrite gom_modify_bind. intros Hrun. gom_inv. done.
Qed.

(** What the handlers rely on in a cache: a deleted entry is gone. *)
Class CacheLaws (W : Type) `{MessagesCache W} := {
  cache_deleted : ∀ c c' key w u w', mc_Delete c key w = Some (u, w') →
    ∃ w2, mc_Get c' key w' = Some (("", false), w2)
}.

(** Read your writes.  After a successful [createMessage], a list request is
    answered from the store, not from what the cache held before. *)
Theorem list_after_create_fresh `{Runtime W, MessageStore W, AuditLog W} `{CacheLaws W, LocalZone} (a : MsgAPI)
    (r r' : http_request) (body : stream) (w w1 : W) (rep : reply msg_body) :
  has_cache a = true → createMessage a r body w = Some (rep, w1) → rp_status rep = StatusCreated →
  ∃ w2, mc_Get (hq_ctx r') "messages" w1 = Some (("", false), w2) ∧
    listMessages a r' w1 = list_from_store a r' w2.
Proof.
  intros Ha Hc Hst.
  assert (∃ c w0 u, mc_Delete c "messages" w0 = Some (u, w1)) as (c & w0 & u & Hd).
  { unfold createMessage in Hc. destruct (decode_text body) as [t|]; [|injection Hc as <- <-; done].
    destruct (ValidateText t); [injection Hc as <- <-; done|].
    apply gom_bind_Some in Hc as ([msg err] & w3 & _ & Hc).
    destruct (is_err err ErrIdempotencyConflict); [injection Hc as <- <-; done|].
    destruct err; [injection Hc as <- <-; done|]. rewrite gom_modify_bind, Ha in Hc.
    apply gom_bind_Some in Hc as (u1 & w4 & _ & Hc). apply gom_bind_Some in Hc as (u2 & w5 & Hd & Hc).
    injection Hc as _ <-. eauto. }
  destruct (cache_deleted c (hq_ctx r') "messages" w0 u w1 Hd) as [w2 Hg]. exists w2. split; [done|].
  unfold listMessages. rewrite Ha. by rewrite (gom_bind_run _ _ _ _ _ Hg).
Qed.

(** The Tarantool cache keeps that law. *)
#[export] Instance tarantool_cache {W} `{Runtime W} : MessagesCache (W * space) := {
  mc_Get := Get (Some (mkCache (10 * Second)));
  mc_Set := Set_ (Some (mkCache (10 * Second)));
  mc_Delete := Delete (Some (mkCache (10 * Second)))
}.

#[export] Instance tarantool_cache_laws {W} `{Runtime W} : CacheLaws (W * space).
Proof.
  split. intros c c' key [w s] u w' Hd. cbn in Hd. unfold Delete, mbind, gom_bind in Hd. cbn in Hd.
  injection Hd as _ <-. exists (w, delete key s). cbn. unfold Get, mbind, gom_bind. cbn.
  by rewrite lookup_delete_eq.
Defined.

(** Every route that changes something. *)
Definition mutating (method : string) : bool := negb (bool_decide (method = "GET")).

(** Every route that changes something stands behind authentication, which is
    outermost (an unauthenticated request does not count against the rate
    limit), and no pattern is listed twice. *)
Theorem mutating_routes_authenticated :
  Forall (λ '(m, _, ws, _), mutating m = true → head ws = Some WAuth) publicRoutes ∧
  NoDup ((λ '(m, p, _, _), (m, p)) <$> publicRoutes).
Proof.
  split; [|apply (bool_decide_eq_true_1 _); vm_compute; reflexivity].
  repeat (constructor; [by vm_compute|]). constructor.
Qed.

(** ** Witness *)

#[local] Instance ex_store : MessageStore (sim * space) := {|
  store_Create c text key := mret (mkMessage 1 text (Checksum text) true 0, None);
  store_List c := mret ([], None)
|}.

#[local] Instance ex_audit : AuditLog (sim * space) := {|
  al_Record c ev text := mret ();
  al_Last c n := mret (inl [])
|}.

#[local] Existing Instance utc.

Definition ex_msg_request : http_request := mkReq Background "" (λ _, "") (λ _, "") (λ _, "").
Definition ex_msg_body : stream := mkStream (text_body "hi") None.
Definition ex_msg_api : MsgAPI := mkMsgAPI true true false.

Lemma list_after_create_fresh_witness :
  ∃ rep w1 w2, createMessage ex_msg_api ex_msg_request ex_msg_body
      (sim0, {["messages" := [AString "messages"; AString "[old]"; AInt64 9999999999]]}) = Some (rep, w1) ∧
    listMessages ex_msg_api ex_msg_request w1 = list_from_store ex_msg_api ex_msg_request w2.
Proof.
  destruct (createMessage ex_msg_api ex_msg_request ex_msg_body
    (sim0, {["messages" := [AString "messages"; AString "[old]"; AInt64 9999999999]]})) as [[rep w1]|] eqn:E;
    [|vm_compute in E; discriminate E].
  destruct (list_after_create_fresh ex_msg_api ex_msg_request ex_msg_request ex_msg_body _ w1 rep eq_refl E)
    as (w2 & _ & Hl).
  - vm_compute in E. injection E as <- _. reflexivity.
  - exists rep, w1, w2. split; [reflexivity|exact Hl].
Defined.
