(* ===== verification/Template.v ===== *)
(** * Template: HTML templates

    The part of [html/template] that the status page uses: text with fields,
    conditions on fields and their comparison with zero, executed with the values
    of the fields escaped for the text of an element.  Where a field stands is
    decided by reading the tags of the text, which is also how the output is read
    here: the values put in cannot add, change or remove a tag. *)

From stdpp Require Import base option list strings.
From Stdlib Require Import ZArith Lia Ascii.
From S2P Require Import Prelude GoStrings.
Local Open Scope Z_scope.

(** ** Templates *)

Inductive value := VStr (s : string) | VInt (n : Z) | VBool (b : bool).

(** [if .F] and [if eq .F 0] *)
Inductive cond := Truth (f : string) | EqZero (f : string).

(** A template is a sequence of pieces. *)
Inductive tmpl :=
| TEnd
| TText (s : string) (k : tmpl)
| TField (f : string) (k : tmpl)
| TIf (c : cond) (t e k : tmpl).

(** ** Parsing *)

Inductive token := KText (s : string) | KField (f : string) | KIf (c : cond) | KElse | KDone.

(** Before and after the first occurrence of two bytes. *)
Fixpoint cut2 (d1 d2 : ascii) (s : string) : option (string * string) :=
  match s with
  | String x (String y rest as tl) =>
      if bool_decide (x = d1) && bool_decide (y = d2) then Some (EmptyString, rest)
      else '(before, after) ← cut2 d1 d2 tl; Some (String x before, after)
  | _ => None
  end.

Definition field_name (word : string) : option string :=
  match word with String "."%char (String _ _ as name) => Some (str_drop 1 word) | _ => None end.

(** The words of an action. *)
Definition action (s : string) : option token :=
  match Split s " "%char with
  | [w] => if bool_decide (w = "else") then Some KElse
           else if bool_decide (w = "end") then Some KDone
           else KField <$> field_name w
  | [w; x] => if bool_decide (w = "if") then (λ f, KIf (Truth f)) <$> field_name x else None
  | [w; x; y; z] =>
      if bool_decide (w = "if") && bool_decide (x = "eq") && bool_decide (z = "0")
      then (λ f, KIf (EqZero f)) <$> field_name y else None
  | _ => None
  end.

(** Text and actions in turn; an action that is not closed is an error. *)
Fixpoint lex (fuel : nat) (s : string) : option (list token) :=
  match fuel with
  | O => None
  | S n =>
      match cut2 "{" "{" s with
      | None => Some [KText s]
      | Some (text, after) =>
          '(act, rest) ← cut2 "}" "}" after;
          k ← action act;
          ks ← lex n rest;
          Some (KText text :: k :: ks)
      end
  end.

(** One token, read from the end: what follows it, and for each open [end] the
    [else] branch read so far and what follows it. *)
Definition parse_token (k : token) (st : tmpl * list (option tmpl * tmpl)) : option (tmpl * list (option tmpl * tmpl)) :=
  let '(cur, stack) := st in
  match k with
  | KText s => Some (TText s cur, stack)
  | KField f => Some (TField f cur, stack)
  | KDone => Some (TEnd, (None, cur) :: stack)
  | KElse => match stack with (None, after) :: rest => Some (TEnd, (Some cur, after) :: rest) | _ => None end
  | KIf c => match stack with (els, after) :: rest => Some (TIf c cur (default TEnd els) after, rest) | [] => None end
  end.

Definition parse (s : string) : option tmpl :=
  ks ← lex (S (String.length s)) s;
  st ← foldr (λ k st, st ≫= parse_token k) (Some (TEnd, [])) ks;
  match st with (t, []) => Some t | _ => None end.

(** ** Execution *)

Section Exec.
Variable look : string → option value.

Definition holds (c : cond) : option bool :=
  match c with
  | Truth f => v ← look f; Some (match v with VStr s => negb (bool_decide (s = "")) | VInt n => negb (n =? 0) | VBool b => b end)
  | EqZero f => v ← look f; match v with VInt n => Some (n =? 0) | _ => None end
  end.

(** The output, each field printed by [pr]; [None] is an error of [Execute]. *)
Fixpoint exec (pr : value → string) (t : tmpl) : option string :=
  match t with
  | TEnd => Some ""
  | TText s k => out ← exec pr k; Some (s +:+ out)
  | TField f k => v ← look f; out ← exec pr k; Some (pr v +:+ out)
  | TIf c t e k => b ← holds c; x ← (if (b : bool) then exec pr t else exec pr e); y ← exec pr k; Some (x +:+ y)
  end.

(** The field is printed. *)
Fixpoint shows (f : string) (t : tmpl) : bool :=
  match t with
  | TEnd => false
  | TText _ k => shows f k
  | TField g k => bool_decide (f = g) || shows f k
  | TIf c t e k => (match holds c with Some true => shows f t | Some false => shows f e | None => false end) || shows f k
  end.

Lemma shown pr f v t out :
  look f = Some v → shows f t = true → exec pr t = Some out → ∃ a b, out = a +:+ (pr v +:+ b).
Proof.
  intros Hv. revert out. induction t as [|s k IH|g k IH|c t IHt e IHe k IHk]; intros out Hs E; cbn in Hs, E; [done|..].
  - apply bind_Some in E as (o & E & [= <-]). destruct (IH o Hs E) as (a & b & ->). exists (s +:+ a), b. by rewrite str_app_assoc.
  - apply bind_Some in E as (x & Hx & E). apply bind_Some in E as (o & E & [= <-]).
    apply orb_true_iff in Hs as [->%bool_decide_eq_true|Hs].
    + rewrite Hv in Hx. injection Hx as <-. by exists "", o.
    + destruct (IH o Hs E) as (a & b & ->). exists (pr x +:+ a), b. by rewrite str_app_assoc.
  - apply bind_Some in E as (h & Hh & E). apply bind_Some in E as (x & Ex & E). apply bind_Some in E as (y & Ey & [= <-]).
    rewrite Hh in Hs. apply orb_true_iff in Hs as [Hs|Hs].
    + assert (∃ a b, x = a +:+ (pr v +:+ b)) as (a & b & ->) by (destruct h; auto).
      exists a, (b +:+ y). by rewrite !str_app_assoc.
    + destruct (IHk y Hs Ey) as (a & b & ->). exists (x +:+ a), b. by rewrite str_app_assoc.
Qed.

End Exec.

(** ** Tags *)

(** [strings.HasPrefix] *)
Fixpoint starts (prefix s : string) : bool :=
  match prefix, s with
  | EmptyString, _ => true
  | String a p, String b t => bool_decide (a = b) && starts p t
  | String _ _, EmptyString => false
  end.

(** Where a reader of HTML is: in text; in the name of a tag; in a tag; in an
    attribute's quotes; in an element whose content is not read for tags, with
    what was read of its end tag. *)
Inductive hstate :=
| SText
| SOpen (name : string)
| STag (name : string)
| SQuote (name : string) (q : ascii)
| SRaw (name end_ : string).

#[export] Instance hstate_eq_dec : EqDecision hstate.
Proof. solve_decision. Defined.

Definition letter (c : ascii) : bool := let n := byte_val (lower_ascii c) in (97 <=? n) && (n <=? 122).
Definition raw_element (name : string) : bool := bool_decide (name ∈ ["title"; "style"; "script"; "textarea"]).
Definition snoc (s : string) (c : ascii) : string := s +:+ String c EmptyString.
Definition dquote : ascii := ascii_of_nat 34.
Definition squote : ascii := ascii_of_nat 39.

Definition close_tag (name : string) : hstate * list string := (if raw_element name then SRaw name "" else SText, [name]).

Definition html_step (st : hstate) (c : ascii) : hstate * list string :=
  match st with
  | SText => (if bool_decide (c = "<"%char) then SOpen "" else SText, [])
  | SOpen name =>
      if bool_decide (c = ">"%char) then close_tag name
      else if bool_decide (name = "") then
        (if letter c || bool_decide (c = "/"%char) || bool_decide (c = "!"%char) then SOpen (snoc name c) else SText, [])
      else (if space1 c then STag name else SOpen (snoc name c), [])
  | STag name =>
      if bool_decide (c = ">"%char) then close_tag name
      else (if bool_decide (c = dquote) || bool_decide (c = squote) then SQuote name c else STag name, [])
  | SQuote name q => (if bool_decide (c = q) then STag name else SQuote name q, [])
  | SRaw name end_ =>
      let e := snoc end_ c in
      let whole := "</" +:+ name +:+ ">" in
      if bool_decide (e = whole) then (SText, ["/" +:+ name])
      else (SRaw name (if starts e whole then e else if bool_decide (c = "<"%char) then "<" else ""), [])
  end.

(** The state after a text, and the tags in it. *)
Fixpoint html_run (st : hstate) (s : string) : hstate * list string :=
  match s with
  | EmptyString => (st, [])
  | String c rest => let '(st1, t1) := html_step st c in let '(st2, t2) := html_run st1 rest in (st2, t1 ++ t2)
  end.

Lemma html_run_app st a b :
  html_run st (a +:+ b) = let '(st1, t1) := html_run st a in let '(st2, t2) := html_run st1 b in (st2, t1 ++ t2).
Proof.
  revert st. induction a as [|c a IH]; intros st.
  { change ("" +:+ b) with b. cbn [html_run]. by destruct (html_run st b). }
  change (String c a +:+ b) with (String c (a +:+ b)). cbn [html_run]. destruct (html_step st c) as [st1 t1]. rewrite IH.
  destruct (html_run st1 a) as [st2 t2]. destruct (html_run st2 b) as [st3 t3]. by rewrite app_assoc.
Qed.

(** The state after a template, when every field stands in text and the branches
    of a condition end alike. *)
Fixpoint ctx_after (st : hstate) (t : tmpl) : option hstate :=
  match t with
  | TEnd => Some st
  | TText s k => ctx_after (html_run st s).1 k
  | TField _ k => if bool_decide (st = SText) then ctx_after st k else None
  | TIf _ t e k => a ← ctx_after st t; b ← ctx_after st e; if bool_decide (a = b) then ctx_after a k else None
  end.

(** ** Escaping *)

(** The escaper for text. *)
Definition escape_byte (c : ascii) : string :=
  if bool_decide (c = dquote) then "&#34;"
  else if bool_decide (c = "&"%char) then "&amp;"
  else if bool_decide (c = squote) then "&#39;"
  else if bool_decide (c = "+"%char) then "&#43;"
  else if bool_decide (c = "<"%char) then "&lt;"
  else if bool_decide (c = ">"%char) then "&gt;"
  else if bool_decide (c = zero) then String (ascii_of_nat 239) (String (ascii_of_nat 191) (String (ascii_of_nat 189) EmptyString))
  else String c EmptyString.

Fixpoint html_escape (s : string) : string :=
  match s with
  | EmptyString => EmptyString
  | String c rest => escape_byte c +:+ html_escape rest
  end.

(** How a value is printed. *)
Definition print (v : value) : string :=
  match v with VStr s => s | VInt n => FormatInt n | VBool b => if b then "true" else "false" end.

Definition print_html (v : value) : string := html_escape (print v).

(** What a browser shows for an escaped text: the character an entity stands for,
    with the length of the entity. *)
Definition entities : list (string * ascii) :=
  [("&#34;", dquote); ("&amp;", "&"%char); ("&#39;", squote); ("&#43;", "+"%char); ("&lt;", "<"%char); ("&gt;", ">"%char)].

Definition entity (s : string) : option (ascii * nat) :=
  p ← List.find (λ p : string * ascii, starts p.1 s) entities; Some (p.2, String.length p.1).

Fixpoint unescape_from (skip : nat) (s : string) : string :=
  match s, skip with
  | EmptyString, _ => EmptyString
  | String _ rest, S k => unescape_from k rest
  | String c rest, O =>
      match entity s with
      | Some (ch, n) => String ch (unescape_from (pred n) rest)
      | None => String c (unescape_from 0 rest)
      end
  end.

Definition html_unescape (s : string) : string := unescape_from 0 s.

(** ** Properties *)

(** An escaped text has no tags. *)
Lemma html_run_escape s : html_run SText (html_escape s) = (SText, []).
Proof.
  induction s as [|c s IH]; [done|]. cbn [html_escape]. rewrite html_run_app.
  assert (html_run SText (escape_byte c) = (SText, [])) as ->; [|by rewrite IH].
  unfold escape_byte. repeat case_bool_decide; try (vm_compute; reflexivity).
  cbn. by rewrite bool_decide_false.
Qed.

Lemma entity_none c rest : c ≠ "&"%char → entity (String c rest) = None.
Proof.
  intros Hc. unfold entity, entities. cbn [List.find starts fst snd]. rewrite !bool_decide_false by congruence. done.
Qed.

Lemma unescape_byte c rest : c ≠ zero → html_unescape (escape_byte c +:+ rest) = String c (html_unescape rest).
Proof.
  intros Hz. unfold escape_byte. do 6 (case_bool_decide; [subst c; reflexivity|]). rewrite bool_decide_false by done.
  change (String c "" +:+ rest) with (String c rest). unfold html_unescape. cbn [unescape_from]. by rewrite entity_none.
Qed.

(** What the browser shows is the text, when it has no NUL. *)
Lemma html_unescape_escape s : index_byte zero s = None → html_unescape (html_escape s) = s.
Proof.
  induction s as [|c s IH]; [done|]. cbn [index_byte]. case_bool_decide as Hz; [done|]. intros Hs.
  cbn [html_escape]. rewrite unescape_byte, IH; [done| |done]. by destruct (index_byte zero s).
Qed.

(** The tags of the output are those of the template's own text, in the branches
    that were taken: the values add none. *)
Lemma exec_tags look pr t st st' out :
  (∀ v, html_run SText (pr v) = (SText, [])) → ctx_after st t = Some st' → exec look pr t = Some out →
  ∃ bare tags, exec look (λ _, "") t = Some bare ∧ html_run st out = (st', tags) ∧ html_run st bare = (st', tags).
Proof.
  intros Hpr. revert st st' out. induction t as [|s k IH|f k IH|c t IHt e IHe k IHk]; intros st st' out Hc E; cbn in Hc, E |- *.
  - injection Hc as ->. injection E as <-. by exists "", [].
  - apply bind_Some in E as (o & E & [= <-]). destruct (html_run st s) as [st1 t1] eqn:Hs. cbn in Hc.
    destruct (IH _ _ _ Hc E) as (bare & tags & -> & H1 & H2). exists (s +:+ bare), (t1 ++ tags).
    cbn. rewrite !html_run_app, Hs, H1, H2. done.
  - apply bind_Some in E as (v & Hv & E). apply bind_Some in E as (o & E & [= <-]). case_bool_decide as Hst; [subst st|done].
    destruct (IH _ _ _ Hc E) as (bare & tags & Hb & H1 & H2). rewrite Hv. cbn. rewrite Hb. exists bare, tags.
    split; [done|]. split; [|done]. by rewrite html_run_app, Hpr, H1.
  - apply bind_Some in E as (b & Hb & E). apply bind_Some in E as (x & Ex & E). apply bind_Some in E as (y & Ey & [= <-]).
    apply bind_Some in Hc as (s1 & H1 & Hc). apply bind_Some in Hc as (s2 & H2 & Hc). case_bool_decide as Heq; [subst s2|done].
    assert (∃ bare tags, (if b then exec look (λ _, "") t else exec look (λ _, "") e) = Some bare ∧
      html_run st x = (s1, tags) ∧ html_run st bare = (s1, tags)) as (bx & tx & Ebx & Hx1 & Hx2) by (destruct b; eauto).
    destruct (IHk _ _ _ Hc Ey) as (by_ & ty & Eby & Hy1 & Hy2). rewrite Hb. cbn. rewrite Ebx. cbn. rewrite Eby.
    exists (bx +:+ by_), (tx ++ ty). split; [done|]. by rewrite !html_run_app, Hx1, Hx2, Hy1, Hy2.
Qed.
