(* ===== verification/ApiDocs.v ===== *)
(** * ApiDocs: the routes and their description

    [internal/handlers/apidocs/apidocs.go]: the handler of the documentation and
    [SpecRoutes], which reads the routes off [openapi.yaml]; [PublicRoutes] of
    the handlers and the route table of the gateway. *)

From stdpp Require Import base option list strings.
From Stdlib Require Import ZArith Lia Ascii.
From S2P Require Import Prelude GoStrings GoSort GoPaths Http MessagesApi OpenApi.
Local Open Scope Z_scope.

(** ** Reading lines *)

(** The whitespace of [\s]. *)
Definition is_ws (c : ascii) : bool :=
  let n := N_of_ascii c in bool_decide (n = 9%N ∨ n = 10%N ∨ n = 12%N ∨ n = 13%N ∨ n = 32%N).

(** A string of whitespace. *)
Fixpoint all_ws (s : string) : bool :=
  match s with
  | EmptyString => true
  | String c s => is_ws c && all_ws s
  end.

(** The rest of a string after a prefix. *)
Fixpoint after (prefix s : string) : option string :=
  match prefix, s with
  | EmptyString, _ => Some s
  | String p prefix, String c s => if bool_decide (p = c) then after prefix s else None
  | _, _ => None
  end.

(** [(\S* ):\s*$] with the longest group: what is before the last colon, when there
    is only whitespace after it and none before it. *)
Fixpoint up_to_colon (s : string) : option string :=
  match s with
  | EmptyString => None
  | String c s' =>
      if is_ws c then None
      else match up_to_colon s' with
           | Some g => Some (String c g)
           | None => if bool_decide (c = ":"%char) && all_ws s' then Some "" else None
           end
  end.

(** [specPathRe]: the path of the group. *)
Definition spec_path (line : string) : option string :=
  match after "  /" line with
  | Some rest => String "/" <$> up_to_colon rest
  | None => None
  end.

(** [specMethodRe]: the method of the group, in upper case. *)
Definition spec_methods : list (string * string) :=
  [("get", "GET"); ("post", "POST"); ("put", "PUT"); ("delete", "DELETE"); ("patch", "PATCH"); ("head", "HEAD");
   ("options", "OPTIONS")].

Definition spec_method (line : string) : option string :=
  match after "    " line with
  | Some rest =>
      snd <$> head (filter (λ m : string * string, match after (m.1 +:+ ":") rest with Some ws => all_ws ws | None => false end = true)
                      spec_methods)
  | None => None
  end.

(** The loop of [SpecRoutes]. *)
Fixpoint spec_loop (lines : list string) (current : string) (inPaths : bool) : list string :=
  match lines with
  | [] => []
  | line :: rest =>
      match after "paths:" line with
      | Some _ => spec_loop rest current true
      | None =>
          if negb inPaths then spec_loop rest current inPaths
          else match spec_path line with
          | Some p => spec_loop rest p inPaths
          | None =>
              match spec_method line with
              | Some m =>
                  if negb (bool_decide (current = "")) then (m +:+ " " +:+ current) :: spec_loop rest current inPaths
                  else spec_loop rest current inPaths
              | None => spec_loop rest current inPaths
              end
          end
      end
  end.

Definition SpecRoutes (yaml : string) : list string :=
  sort_Strings (spec_loop (Split yaml "010"%char) "" false).

(** ** The routes *)

Definition PublicRoutes : list string :=
  sort_Strings ((λ x : string * string * list wrapper * endpoint, x.1.1.1 +:+ " " +:+ x.1.1.2) <$> publicRoutes).

(** [gateway.publicRoutes]: pattern and handler. *)
Inductive gw_endpoint := GproxyCreate | GproxyList | GgrpcCreate | GgrpcList | GgrpcBatch | GgrpcChat.

#[export] Instance gw_endpoint_eq_dec : EqDecision gw_endpoint.
Proof. solve_decision. Defined.

Definition gw_publicRoutes : list (string * gw_endpoint) :=
  [ ("POST /gw/messages", GproxyCreate);
    ("GET /gw/messages", GproxyList);
    ("POST /gw/grpc/messages", GgrpcCreate);
    ("GET /gw/grpc/messages", GgrpcList);
    ("POST /gw/grpc/messages/batch", GgrpcBatch);
    ("POST /gw/grpc/chat", GgrpcChat) ].

(** A route of the gateway. *)
Definition is_gateway (route : string) : bool := Contains route " /gw/".

(** ** Properties *)

