(* ===== verification/AuditLogs.v ===== *)
(** * AuditLogs: the audit log in MongoDB

    [internal/audit/audit.go] over an interface for the MongoDB driver, the log
    as the handlers use it, and what [GET /audit] shows after a message was
    created. *)

From stdpp Require Import base option list strings gmap sorting.
From Stdlib Require Import ZArith Lia.
From S2P Require Import Prelude GoStrings Env Messaging EventJson Http FileStores RequestJson MessagesApi.
Local Open Scope Z_scope.

(** ** The driver *)

Inductive write_concern := Majority | Unacknowledged.
Record MongoOptions := mkMongoOptions { mo_URI : string; mo_WriteConcern : write_concern; mo_SelectionTimeout : Z }.

(** A collection: the client's handle, the database and the name. *)
Record Collection := mkCollection { co_client : nat; co_db : string; co_name : string }.

(** [mg_Find] sorts by a field, descending for -1, and limits the number of
    results; the cursor is a handle. *)
Class Mongo (W : Type) := {
  mg_Connect : ctx → MongoOptions → GoM W (nat + error);
  mg_Ping : nat → ctx → GoM W (option error);
  mg_Disconnect : nat → ctx → GoM W (option error);
  mg_InsertOne : Collection → ctx → Entry → GoM W (option error);
  mg_Find : Collection → ctx → string * Z → Z → GoM W (nat + error);
  mg_All : nat → ctx → GoM W (list Entry + error)
}.

(** ** The log *)

(** [Log]; a nil log is [None]. *)
Record Log := mkLog { lg_coll : Collection }.

Section Log.
Context `{Runtime W, Mongo W}.

Definition audit_New (e : environ) (c : ctx) : GoM W (option Log * option error) :=
  let url := e "MONGO_URL" in
  if bool_decide (url = "") then mret (None, None)
  else
    client ← mg_Connect c (mkMongoOptions url Majority (5 * Second));
    match client with
    | inr err => mret (None, Some err)
    | inl client =>
        pingCtx ← gets (with_timeout c (5 * Second));
        err ← mg_Ping client pingCtx;
        match err with
        | Some err => _ ← mg_Disconnect client Background; mret (None, Some err)
        | None => mret (Some (mkLog (mkCollection client "otus" "audit")), None)
        end
    end.

Definition Record_ (l : option Log) (c : ctx) (event text : string) : GoM W unit :=
  match l with
  | None => mret ()
  | Some l =>
      insertCtx ← gets (with_timeout c (3 * Second));
      t ← gets now;
      _ ← mg_InsertOne (lg_coll l) insertCtx (mkEntry t event text);
      mret ()
  end.

(** [Last] uses the field of a nil log without a check. *)
Definition Last (l : option Log) (c : ctx) (n : Z) : GoM W (list Entry + error) :=
  findCtx ← gets (with_timeout c (5 * Second));
  match l with
  | None => panic
  | Some l =>
      cursor ← mg_Find (lg_coll l) findCtx ("at", -1) n;
      match cursor with
      | inr err => mret (inr err)
      | inl cursor => mg_All cursor findCtx
      end
  end.

(** The log as [handlers.AuditLog]. *)
Definition audit_log (l : option Log) : AuditLog W := {| al_Record := Record_ l; al_Last := Last l |}.

End Log.

(** ** What the driver promises *)

(** A BSON date has milliseconds. *)
Definition bson_entry (e : Entry) : Entry := mkEntry (en_Time e / Millisecond * Millisecond) (en_Event e) (en_Text e).

(** The first [n] documents in descending order of their dates, documents of the
    same date in any order. *)
Definition newest (n : nat) (docs es : list Entry) : Prop :=
  ∃ p, p ≡ₚ docs ∧ StronglySorted (λ x y, en_Time y <= en_Time x) p ∧ es = take n p.

(** The documents of a collection, and a deployment that answers in time. *)
Class MongoSpec (W : Type) `{Runtime W, Mongo W} := {
  mongo_docs : Collection → W → list Entry;
  mongo_up : W → Prop;
  mongo_results : nat → W → list Entry;
  mongo_emit : ∀ m w, mongo_up w → mongo_up (emit m w) ∧ ∀ co, mongo_docs co (emit m w) = mongo_docs co w;
  mongo_insert : ∀ co c e w, mongo_up w →
    wp (mg_InsertOne co c e) (λ err w', err = None ∧ mongo_up w' ∧ mongo_docs co w' = mongo_docs co w ++ [bson_entry e]) w;
  mongo_find : ∀ co c n w, mongo_up w → 0 < n →
    wp (mg_Find co c ("at", -1) n) (λ r w', ∃ cur, r = inl cur ∧ mongo_up w' ∧
      newest (Z.to_nat n) (mongo_docs co w) (mongo_results cur w') ∧ mongo_docs co w' = mongo_docs co w) w;
  mongo_all : ∀ cur c w, mongo_up w →
    wp (mg_All cur c) (λ r w', r = inl (mongo_results cur w) ∧ mongo_up w' ∧ ∀ co, mongo_docs co w' = mongo_docs co w) w
}.

(** What the rest of the handler leaves alone: the store and the cache work on
    data of their own. *)
Class OutsideMongo (W : Type) `{MongoSpec W, MessageStore W, MessagesCache W} := {
  store_outside : ∀ c text key w r w', mongo_up w → store_Create c text key w = Some (r, w') →
    mongo_up w' ∧ ∀ co, mongo_docs co w' = mongo_docs co w;
  delete_outside : ∀ c key w r w', mongo_up w → mc_Delete c key w = Some (r, w') →
    mongo_up w' ∧ ∀ co, mongo_docs co w' = mongo_docs co w
}.

Section Props.
Context `{OutsideMongo W, LocalZone}.
Variable l : Log.

Lemma Record_adds c event text w :
  mongo_up w →
  wp (Record_ (Some l) c event text) (λ _ w', mongo_up w' ∧
    mongo_docs (lg_coll l) w' = mongo_docs (lg_coll l) w ++ [bson_entry (mkEntry (now w) event text)]) w.
Proof.
  intros Hup. unfold Record_. wp_pure.
  wp_call mongo_insert as err w1 (_ & Hup1 & Hd); [done|]. by wp_pure.
Qed.

Lemma Last_newest c n w :
  mongo_up w → 0 < n →
  wp (Last (Some l) c n) (λ r w', ∃ es, r = inl es ∧ newest (Z.to_nat n) (mongo_docs (lg_coll l) w) es) w.
Proof.
  intros Hup Hn. unfold Last. wp_pure.
  wp_call mongo_find as r w1 (cur & -> & Hup1 & Hnew & _); [done..|].
  eapply wp_conseq; [by apply mongo_all|]. intros r w2 (-> & _). by eexists.
Qed.

(** The newest document comes first. *)
Lemma newest_head n docs e es :
  newest (S n) (docs ++ [e]) es → Forall (λ d, en_Time d < en_Time e) docs → head es = Some e.
Proof.
  intros (p & Hp & Hs & ->) Hd. destruct p as [|x p].
  { apply Permutation_nil_l, (f_equal length) in Hp. rewrite length_app in Hp. cbn in Hp. lia. }
  assert (e ∈ x :: p) as He by (rewrite Hp; set_solver).
  assert (x ∈ docs ++ [e]) as Hx by (rewrite <- Hp; set_solver).
  apply elem_of_app in Hx as [Hx | ->%list_elem_of_singleton]; [|done].
  rewrite Forall_forall in Hd. specialize (Hd _ Hx).
  apply elem_of_cons in He as [-> | He]; [done|].
  apply StronglySorted_inv in Hs as [_ Hs]. rewrite Forall_forall in Hs. specialize (Hs _ He). lia.
Qed.

(** The steps of a creation that is answered with 201. *)
Lemma createMessage_created `{al : AuditLog W} (a : MsgAPI) r body rep w w' :
  has_audit a = true → createMessage a r body w = Some (rep, w') → rp_status rep = StatusCreated →
  ∃ c t key msg w1 w2, rp_body rep = OkBody (MOne msg) ∧ store_Create c t key w = Some ((msg, None), w1) ∧
    al_Record (hq_ctx r) "создано сообщение" (m_Text msg) (emit (MInc "otus_messages_created_total" []) w1) = Some ((), w2) ∧
    (w' = w2 ∨ mc_Delete (hq_ctx r) "messages" w2 = Some ((), w')).
Proof.
  intros Ha Hrun Hst. unfold createMessage in Hrun. rewrite Ha in Hrun.
  destruct (decode_text body) as [t|]; [|by gom_inv].
  destruct (ValidateText t) eqn:Hv; [by gom_inv|].
  apply gom_bind_Some in Hrun as ([msg err] & w1 & Hc & Hrun).
  destruct (is_err err ErrIdempotencyConflict); [by gom_inv|].
  destruct err as [err|]; [by gom_inv|].
  unfold Service_Create in Hc. rewrite Hv, gom_gets_bind in Hc. rewrite gom_modify_bind in Hrun.
  apply gom_bind_Some in Hrun as ([] & w2 & Hr & Hrun).
  eexists _, t, _, msg, w1, w2. split_and!; [by destruct (has_cache a); gom_inv|done|done|].
  destruct (has_cache a); gom_inv; repeat match goal with u : () |- _ => destruct u end; eauto.
Qed.

End Props.

(** A created message shows up in the audit log.  With MongoDB up, a
    [POST /messages] that answers 201 has added exactly one entry, for that
    message, at the millisecond of the answer; a [GET /audit] after it answers
    200 with the ten newest entries, newest first, and the new entry leads when
    the others are from earlier milliseconds. *)
Theorem created_is_audited `{OutsideMongo W, LocalZone} (l : Log) (a : MsgAPI) (r r' : http_request) (body : stream)
    (rep : reply msg_body) (w w' : W) :
  let _ := audit_log (Some l) in
  has_audit a = true → mongo_up w →
  createMessage a r body w = Some (rep, w') → rp_status rep = StatusCreated →
  ∃ msg e, rp_body rep = OkBody (MOne msg) ∧
    en_Event e = "создано сообщение" ∧ en_Text e = m_Text msg ∧ en_Time e `mod` Millisecond = 0 ∧
    mongo_docs (lg_coll l) w' = mongo_docs (lg_coll l) w ++ [e] ∧
    wp (listAudit a r') (λ rep' _, ∃ es,
      rep' = write_ok StatusOK (MEntries es) ∧ newest 10 (mongo_docs (lg_coll l) w') es ∧
      (Forall (λ d, en_Time d < en_Time e) (mongo_docs (lg_coll l) w) → head es = Some e)) w'.
Proof.
  intros Inst Ha Hup Hrun Hst.
  destruct (createMessage_created a r body rep w w' Ha Hrun Hst) as (c & t & key & msg & w1 & w2 & Hb & Hc & Hr & Hend).
  destruct (store_outside c t key w _ _ Hup Hc) as [Hup1 Hd1].
  destruct (mongo_emit (MInc "otus_messages_created_total" []) w1 Hup1) as [Hup1' Hd1'].
  destruct (Record_adds l (hq_ctx r) "создано сообщение" (m_Text msg) _ Hup1') as (u & w2' & Hr' & Hup2 & Hd2).
  assert (Some (u, w2') = Some ((), w2)) as [= _ ->] by (rewrite <- Hr'; exact Hr). rewrite Hd1', Hd1 in Hd2.
  assert (mongo_up w' ∧ mongo_docs (lg_coll l) w' = mongo_docs (lg_coll l) w2) as [Hup' Hd'].
  { destruct Hend as [-> | Hdel]; [done|]. destruct (delete_outside _ _ _ _ _ Hup2 Hdel). auto. }
  rewrite Hd2 in Hd'. eexists msg, _. split_and!; [done| | | |exact Hd'|]; [done|done|by apply Z.mod_mul|].
  unfold listAudit. rewrite Ha. cbn [negb].
  wp_call (Last_newest l) as res w3 (es & -> & Hes); [done..|]. wp_pure.
  exists es. split; [done|]. split; [done|]. rewrite Hd' in Hes. by apply (newest_head 9).
Qed.

(** ** A simulated MongoDB *)

Record mgw := mkMgw { mg_sim : sim; mg_entries : list Entry; mg_cursors : list (list Entry) }.

Definition mg_on (f : sim → sim) (w : mgw) : mgw := mkMgw (f (mg_sim w)) (mg_entries w) (mg_cursors w).

#[export] Instance mgw_runtime : Runtime mgw := {
  now w := now (mg_sim w);
  ctx_err c w := ctx_err c (mg_sim w);
  draw n w := let '(z, s) := draw n (mg_sim w) in (z, mg_on (λ _, s) w);
  select_timer c d w := let '(b, s) := select_timer c d (mg_sim w) in (b, mg_on (λ _, s) w);
  emit m := mg_on (emit m)
}.

Definition later (x y : Entry) : Prop := en_Time y <= en_Time x.
#[export] Instance later_dec x y : Decision (later x y) := Z_le_dec _ _.
#[export] Instance later_trans : Transitive later.
Proof. intros x y z. unfold later. lia. Defined.
#[export] Instance later_total : Total later.
Proof. intros x y. unfold later. lia. Defined.

#[export] Instance mgw_mongo : Mongo mgw := {
  mg_Connect c o := mret (inl 0%nat);
  mg_Ping h c := mret None;
  mg_Disconnect h c := mret None;
  mg_InsertOne co c e := _ ← modify (λ w, mkMgw (mg_sim w) (mg_entries w ++ [bson_entry e]) (mg_cursors w)); mret None;
  mg_Find co c s n := λ w,
    Some (inl (length (mg_cursors w)),
          mkMgw (mg_sim w) (mg_entries w) (mg_cursors w ++ [take (Z.to_nat n) (merge_sort later (mg_entries w))]));
  mg_All cur c := gets (λ w, inl (default [] (mg_cursors w !! cur)))
}.

#[export] Instance mgw_spec : MongoSpec mgw.
Proof.
  refine {| mongo_docs _ := mg_entries; mongo_up _ := True; mongo_results cur w := default [] (mg_cursors w !! cur) |};
    [done|..].
  - intros co c e w _. by repeat eexists.
  - intros co c n w _ Hn. eexists _, _. split; [done|]. eexists. split; [done|]. split; [done|]. split; [|done].
    cbn. rewrite lookup_app_r, Nat.sub_diag by done. cbn. eexists. split; [apply (merge_sort_Permutation later)|]. split; [|done].
    by apply (StronglySorted_merge_sort later).
  - intros cur c w _. by repeat eexists.
Defined.

(** A store and a cache that keep nothing. *)
#[export] Instance mgw_store : MessageStore mgw := {
  store_Create c text key := t ← gets now; mret (mkMessage 1 text (Checksum text) true t, None);
  store_List c := mret ([], None)
}.
#[export] Instance mgw_cache : MessagesCache mgw := {
  mc_Get c key := mret ("", false); mc_Set c key value := mret (); mc_Delete c key := mret ()
}.
#[export] Instance mgw_outside : OutsideMongo mgw.
Proof. split; cbn; intros; gom_inv; done. Defined.
#[export] Instance mgw_zone : LocalZone := { zone _ := 0 }.

Definition ex_audit_request : http_request := mkReq Background "" (λ _, "") (λ _, "") (λ _, "").
Definition ex_audit_world : mgw := mkMgw (sim_advance (5 * Second) sim0) [mkEntry Second "создано сообщение" "раньше"] [].

Definition ex_created : mgw :=
  mkMgw (emit (MInc "otus_messages_created_total" []) (mg_sim ex_audit_world))
    (mg_entries ex_audit_world ++ [mkEntry (5 * Second) "создано сообщение" "привет"]) [].

Lemma created_is_audited_witness :
  wp (W := mgw) (let _ := audit_log (Some (mkLog (mkCollection 0 "otus" "audit"))) in
                 listAudit (mkMsgAPI true false false) ex_audit_request)
    (λ rep' _, ∃ es, rep' = write_ok StatusOK (MEntries es) ∧
       head es = Some (mkEntry (5 * Second) "создано сообщение" "привет")) ex_created.
Proof.
  destruct (created_is_audited (W := mgw) (mkLog (mkCollection 0 "otus" "audit")) (mkMsgAPI true false false)
    ex_audit_request ex_audit_request (mkStream (text_body "привет") None)
    (write_ok StatusCreated (MOne (mkMessage 1 "привет" (Checksum "привет") true (5 * Second))))
    ex_audit_world ex_created) as (msg & e & Hb & He & Ht & _ & Hd & Hl);
    [done|exact I|vm_compute; reflexivity|done|].
  eapply wp_conseq; [exact Hl|]. intros rep' w2 (es & -> & _ & Hh). exists es. split; [done|].
  vm_compute in Hd. injection Hd as <-. rewrite Hh; [done|]. by repeat constructor.
Defined.
