(* ===== verification/GrpcServer.v ===== *)
(** * GrpcServer: the gRPC service

    [internal/grpcserver/server.go]: authentication by method, the unary call
    and the three streams over the application service.  What a stream receives
    is the list of results of [Recv]; what it sends is returned. *)

From stdpp Require Import base option list strings gmap.
From Stdlib Require Import ZArith Lia.
From S2P Require Import Prelude Framed GoStrings Sha256 Messaging Http Jwt JwtFrame MessagesApi.
Local Open Scope Z_scope.

(** ** Status and messages *)

(** The [codes] the service uses; other errors pass through. *)
Inductive status := Unauthenticated (msg : string) | InvalidArgument (msg : string)
  | AlreadyExists (msg : string) | Internal (msg : string) | Transport (e : error).

(** [grpcapi.Message]; the timestamp in nanoseconds. *)
Record PMessage := mkPMessage {
  pm_Id : Z; pm_Text : string; pm_Checksum : string; pm_ChecksumOk : bool; pm_CreatedAt : Z
}.

Definition toProto (m : Message) : PMessage :=
  mkPMessage (m_ID m) (m_Text m) (m_Checksum m) (m_ChecksumOK m) (m_CreatedAt m).

(** [metadata.MD] of an incoming context: all values of a key. *)
Definition metadata : Type := string → list string.

(** ** Authentication *)

Definition CreateMessage_FullMethodName : string := "/otus.v1.MessageService/CreateMessage".
Definition BatchCreate_FullMethodName : string := "/otus.v1.MessageService/BatchCreate".

Definition protectedMethods (method : string) : bool :=
  bool_decide (method = CreateMessage_FullMethodName) || bool_decide (method = BatchCreate_FullMethodName).

Section CheckAuth.
Context `{Runtime W, KeyServer W, JwtLibrary (W * Auth)}.

(** [checkAuth]; [enabled] is false for a nil [Auth]. *)
Definition checkAuth (enabled : bool) (md : metadata) (method : string) : GoM (W * Auth) (option status) :=
  if negb enabled || negb (protectedMethods method) then mret None
  else match md "authorization" with
  | [] => mret (Some (Unauthenticated "требуется токен авторизации"))
  | v :: _ =>
      let '(raw, found) := CutPrefix v "Bearer " in
      if negb found || bool_decide (raw = "")
      then mret (Some (Unauthenticated "требуется токен авторизации"))
      else
        err ← Validate raw;
        match err with
        | Some _ => mret (Some (Unauthenticated "недействительный токен"))
        | None => mret None
        end
  end.

(** [authUnary] and [authStream] around a handler. *)
Definition intercept {A} (enabled : bool) (md : metadata) (method : string)
    (handler : GoM (W * Auth) (A + status)) : GoM (W * Auth) (A + status) :=
  err ← checkAuth enabled md method;
  match err with
  | Some s => mret (inr s)
  | None => handler
  end.

End CheckAuth.

(** ** The service *)

(** How a stream handler ends: it has returned, or still waits in [Recv]. *)
Inductive outcome_of (A : Type) := Returned (a : A) | Waiting.
#[global] Arguments Returned {A} a.
#[global] Arguments Waiting {A}.

(** [int32(n)] *)
Definition wrap32 (z : Z) : Z := (z + 2147483648) mod 4294967296 - 2147483648.

Section Service.
Context `{Runtime W, MessageStore W}.

Definition CreateMessage (c : ctx) (md : metadata) (text : string) : GoM W (PMessage + status) :=
  if bool_decide (TrimSpace text = "") then mret (inr (InvalidArgument "поле text обязательно"))
  else
    let key := match md "idempotency-key" with v :: _ => v | [] => "" end in
    res ← Service_Create c text key;
    let '(msg, err) := res in
    if is_err err ErrIdempotencyConflict then mret (inr (AlreadyExists (conflict_text err)))
    else match err with
    | Some _ => mret (inr (Internal "не удалось сохранить сообщение"))
    | None => _ ← modify (emit (MInc "otus_messages_created_total" [])); mret (inl (toProto msg))
    end.

(** The loop of sends: [send] decides the fate of each; the result is what was
    sent and the first error. *)
Fixpoint send_all (send : nat → option error) (n : nat) (ms : list PMessage) : list PMessage * option status :=
  match ms with
  | [] => ([], None)
  | m :: rest =>
      match send n with
      | Some e => ([], Some (Transport e))
      | None => let '(sent, err) := send_all send (S n) rest in (m :: sent, err)
      end
  end.

Definition ListMessages (c : ctx) (limit : Z) (send : nat → option error) : GoM W (list PMessage * option status) :=
  res ← Service_List c;
  let '(msgs, err) := res in
  match err with
  | Some _ => mret ([], Some (Internal "не удалось получить сообщения"))
  | None =>
      let msgs := if (0 <? limit) && (limit <? Z.of_nat (length msgs)) then take (Z.to_nat limit) msgs else msgs in
      mret (send_all send 0 (toProto <$> msgs))
  end.

(** [BatchCreate]: the summary (count and identifiers), or a status. *)
Fixpoint BatchCreate (c : ctx) (ids : list Z) (recvs : list (string + error))
    : GoM W (outcome_of ((Z * list Z) + status)) :=
  match recvs with
  | [] => mret Waiting
  | inr e :: _ =>
      if errors_is e ErrEOF then mret (Returned (inl (wrap32 (Z.of_nat (length ids)), ids)))
      else mret (Returned (inr (Transport e)))
  | inl text :: rest =>
      if bool_decide (TrimSpace text = "") then mret (Returned (inr (InvalidArgument "поле text обязательно")))
      else
        res ← Service_Create c text "";
        let '(msg, err) := res in
        match err with
        | Some _ => mret (Returned (inr (Internal "не удалось сохранить сообщение")))
        | None =>
            _ ← modify (emit (MInc "otus_messages_created_total" []));
            BatchCreate c (ids ++ [m_ID msg]) rest
        end
  end.

End Service.

(** [Chat]: the replies sent, and how it ends. *)
Fixpoint Chat (send : nat → option error) (n : nat) (recvs : list (string + error))
    : list string * outcome_of (option status) :=
  match recvs with
  | [] => ([], Waiting)
  | inr e :: _ => if errors_is e ErrEOF then ([], Returned None) else ([], Returned (Some (Transport e)))
  | inl text :: rest =>
      match send n with
      | Some e => ([], Returned (Some (Transport e)))
      | None => let '(sent, o) := Chat send (S n) rest in (("эхо: " +:+ text) :: sent, o)
      end
  end.

(** ** The server *)

(** A call of a method: what it or its stream receives, and the fate of what it
    sends. *)
Inductive grpc_call :=
| CallCreateMessage (text : string)
| CallListMessages (limit : Z) (send : nat → option error)
| CallBatchCreate (recvs : list (string + error))
| CallChat (send : nat → option error) (recvs : list (string + error)).

Inductive grpc_result :=
| RCreated (m : PMessage)
| RListed (sent : list PMessage) (err : option status)
| RBatch (o : outcome_of ((Z * list Z) + status))
| RChat (sent : list string) (o : outcome_of (option status)).

(** The method that the interceptors see. *)
Definition FullMethod (k : grpc_call) : string :=
  match k with
  | CallCreateMessage _ => CreateMessage_FullMethodName
  | CallListMessages _ _ => "/otus.v1.MessageService/ListMessages"
  | CallBatchCreate _ => BatchCreate_FullMethodName
  | CallChat _ _ => "/otus.v1.MessageService/Chat"
  end.

(** The registered service. *)
Definition grpc_handle `{Runtime W, MessageStore W} (c : ctx) (md : metadata) (k : grpc_call) : GoM W (grpc_result + status) :=
  match k with
  | CallCreateMessage text =>
      r ← CreateMessage c md text;
      mret (match r with inl m => inl (RCreated m) | inr s => inr s end)
  | CallListMessages limit send => r ← ListMessages c limit send; mret (inl (RListed r.1 r.2))
  | CallBatchCreate recvs => r ← BatchCreate c [] recvs; mret (inl (RBatch r))
  | CallChat send recvs => let '(sent, o) := Chat send 0 recvs in mret (inl (RChat sent o))
  end.

(** A call to the server that [New] makes, the service behind the interceptors. *)
Definition grpc_serve `{Runtime W, MessageStore W, KeyServer W, JwtLibrary (W * Auth)}
    (enabled : bool) (c : ctx) (md : metadata) (k : grpc_call) : GoM (W * Auth) (grpc_result + status) :=
  intercept enabled md (FullMethod k) (on_fst (grpc_handle c md k)).

(** ** Properties *)

(** The calls that create messages. *)
Definition creates (k : grpc_call) : bool :=
  match k with CallCreateMessage _ | CallBatchCreate _ => true | _ => false end.

Lemma protected_creates k : protectedMethods (FullMethod k) = creates k.
Proof. by destruct k. Qed.

(** The call carries a token verified by a key that the key server published. *)
Definition grpc_authenticated `{KeyServer W, JwtLaws (W * Auth)} (md : metadata) (s : W * Auth) : Prop :=
  ∃ raw rest tok kid key s1, md "authorization" = ("Bearer " +:+ raw) :: rest ∧ raw ≠ "" ∧
    header_of raw = Some tok ∧ tok_kid tok = Some kid ∧ kid ≠ "" ∧ verified (jwt_opts s.2) key raw ∧
    a_keys s1.2 !! kid = Some key ∧
    (s1 = s ∨ ∃ body doc, Get_jwks s.1 = Some (inl (StatusOK, body), s1.1) ∧
      decode_jwks body = Some doc ∧ a_keys s1.2 = jwks_keys doc).

Section Auth.
Context `{Runtime W, MessageStore W, KeyServer W, JwtLibrary (W * Auth), !JwtLaws (W * Auth), !JwtPure (W * Auth)}.
Context (R : W → W → Prop) `{!PreOrder R} (list_keeps : ∀ c, framed R (store_List c)) (jwks_keep : framed R Get_jwks).

#[local] Hint Resolve list_keeps jwks_keep : framed.

Lemma grpc_handle_reads c md k : creates k = false → framed R (grpc_handle c md k).
Proof.
  destruct k; intros Hc; try discriminate Hc; cbn [grpc_handle]; unfold ListMessages, Service_List; framed_go.
Qed.

(** A call refused by the interceptor has changed nothing. *)
Lemma checkAuth_refuses md method s s' st :
  checkAuth true md method s = Some (Some st, s') → R s.1 s'.1 ∧ ∃ msg, st = Unauthenticated msg.
Proof.
  pose proof (Validate_framed R jwks_keep) as Hv. unfold checkAuth. destruct (negb _ || negb _); [done|].
  destruct (md "authorization") as [|v rest]; [intros [= <- <-]; split; [reflexivity|eauto]|].
  destruct (CutPrefix v "Bearer ") as [raw found]. destruct (_ || _); [intros [= <- <-]; split; [reflexivity|eauto]|].
  intros (err & s1 & E & Hrest)%gom_bind_Some. apply Hv in E. destruct err; [|done]. injection Hrest as <- <-. eauto.
Qed.

Lemma checkAuth_passes md method s s' :
  protectedMethods method = true → checkAuth true md method s = Some (None, s') → grpc_authenticated md s.
Proof.
  intros Hp. unfold checkAuth. rewrite Hp. cbn [negb orb].
  destruct (md "authorization") as [|v rest] eqn:Hmd; [done|]. destruct (CutPrefix v "Bearer ") as [raw found] eqn:Hcut.
  destruct (negb found || bool_decide (raw = "")) eqn:Hbad; [done|].
  apply orb_false_iff in Hbad as [Hf Hraw]. apply negb_false_iff in Hf as ->.
  apply bool_decide_eq_false in Hraw. apply CutPrefix_true in Hcut as ->.
  intros (err & s1 & E & Hrest)%gom_bind_Some. destruct err; [done|]. destruct s as [w a], s1 as [w1 a1].
  apply Validate_sound in E as (tok & kid & key & ? & ? & ? & ? & ? & ?). by exists raw, rest, tok, kid, key, (w1, a1).
Qed.

End Auth.

(** C27: Over gRPC, too, nothing changes without a token.  With authentication on,
    take any call of any method.  Either its first [authorization] value is a
    bearer token verified under the configured options with a key the key server
    published, or the world ends related to where it began by every relation that
    listing messages and asking the key server keep, and a call that creates
    messages ends as [Unauthenticated]. *)
Theorem grpc_mutation_needs_token `{Runtime W, MessageStore W, KeyServer W, JwtLibrary (W * Auth), !JwtLaws (W * Auth), !JwtPure (W * Auth)}
    (R : W → W → Prop) `{!PreOrder R} (c : ctx) (md : metadata) (k : grpc_call) (s s' : W * Auth) (res : grpc_result + status) :
  (∀ c, framed R (store_List c)) → framed R Get_jwks →
  grpc_serve true c md k s = Some (res, s') →
  (R s.1 s'.1 ∧ (creates k = true → ∃ msg, res = inr (Unauthenticated msg))) ∨ grpc_authenticated md s.
Proof.
  intros Hl Hk (err & s1 & E & Hrest)%gom_bind_Some. destruct err as [st|].
  - injection Hrest as <- <-. left. destruct (checkAuth_refuses R Hk _ _ _ _ _ E) as [HR [msg ->]]. eauto.
  - destruct (creates k) eqn:Hc; [right; eapply checkAuth_passes; [by rewrite protected_creates|exact E]|].
    left. split; [|done]. unfold checkAuth in E. rewrite protected_creates, Hc in E. injection E as <-.
    revert Hrest. apply framed_on_fst. by apply grpc_handle_reads.
Qed.

(** [ListMessages] streams the store's list in order: all of it when no
    positive limit below its length is given, else the first [limit] messages;
    what is sent before an error is a prefix of that, and without an error it
    is all of it. *)
Theorem ListMessages_prefix `{Runtime W, MessageStore W} (c : ctx) (limit : Z) (send : nat → option error)
    (w w' : W) (msgs : list Message) :
  store_List (WithTimeout c (now w + 3 * Second)) w = Some ((msgs, None), w') →
  ∃ sent err, ListMessages c limit send w = Some ((sent, err), w') ∧
    let want := toProto <$> (if 0 <? limit then take (Z.to_nat limit) msgs else msgs) in
    sent `prefix_of` want ∧ (err = None → sent = want) ∧
    ((∀ n, send n = None) → err = None).
Proof.
  intros Hs. unfold ListMessages, Service_List.
  unfold mbind, gom_bind, gets, with_timeout. rewrite Hs. cbn.
  assert ((if (0 <? limit) && (limit <? Z.of_nat (length msgs)) then take (Z.to_nat limit) msgs else msgs) =
    (if 0 <? limit then take (Z.to_nat limit) msgs else msgs)) as ->.
  { destruct (0 <? limit) eqn:E1; [|done]. destruct (limit <? Z.of_nat (length msgs)) eqn:E2; [done|].
    cbn. rewrite take_ge; [done|lia]. }
  generalize (toProto <$> (if 0 <? limit then take (Z.to_nat limit) msgs else msgs)). intros want.
  assert (∀ n, (send_all send n want).1 `prefix_of` want ∧
    ((send_all send n want).2 = None → (send_all send n want).1 = want) ∧
    ((∀ n, send n = None) → (send_all send n want).2 = None)) as Hall.
  { clear. induction want as [|m want IH]; intros n; cbn [send_all]; [done|].
    destruct (send n) eqn:E; [split_and!; [apply prefix_nil|done|intros Ha; by rewrite Ha in E]|].
    destruct (IH (S n)) as (Hp & He & Hn). destruct (send_all send (S n) want) as [sent err]. cbn in *.
    split_and!; [by apply prefix_cons|intros Hq; f_equal; auto|done]. }
  specialize (Hall 0%nat). destruct (send_all send 0 want) as [sent err]. by exists sent, err.
Qed.

(** The echo of a note. *)
Lemma Chat_echoes send n texts rest :
  (∀ k, send k = None) →
  Chat send n ((inl <$> texts) ++ rest) =
    (let '(sent, o) := Chat send (n + length texts) rest in (((λ t, "эхо: " +:+ t) <$> texts) ++ sent, o)).
Proof.
  intros Hsend. revert n. induction texts as [|t texts IH]; intros n.
  - cbn. rewrite Nat.add_0_r. by destruct (Chat send n rest).
  - cbn [fmap list_fmap app Chat length]. rewrite Hsend, IH.
    replace (S n + length texts)%nat with (n + S (length texts))%nat by lia.
    by destruct (Chat send (n + S (length texts)) rest).
Qed.

(** ** Witnesses *)

#[local] Existing Instances ex_key_server ex_jwt ex_jwt_laws.

Definition ex_md (token : string) : metadata := λ k, if bool_decide (k = "authorization") then [token] else [].

#[local] Instance ex_list_store : MessageStore sim := {|
  store_Create c text key := mret (mkMessage 1 text (Checksum text) true 0, None);
  store_List c := mret ([mkMessage 2 "b" "" false 0; mkMessage 1 "a" "" false 0], None)
|}.

(** With the token the message is created; listing needs none. *)
Example grpc_calls :
  (λ x, match x.1 with inl (RCreated m) => pm_Text m | _ => "" end) <$>
    grpc_serve true Background (ex_md "Bearer good") (CallCreateMessage "hi") (sim0, ex_auth) = Some "hi" ∧
  (λ x, match x.1 with inl (RListed sent _) => pm_Id <$> sent | _ => [] end) <$>
    grpc_serve true Background (λ _, []) (CallListMessages 1 (λ _, None)) (sim0, ex_auth) = Some [2].
Proof. vm_compute. done. Qed.

#[local] Instance ex_jwt_pure : JwtPure (sim * Auth).
Proof.
  split. intros P opts kf raw Hrefl Htrans Hkf s x s'. cbn. destruct (ex_header_of raw) as [tok|].
  - intros (r & s1 & Hk & Hrest)%gom_bind_Some. apply Hkf in Hk. by destruct r as [key|e]; injection Hrest as <- <-.
  - intros [= <- <-]. apply Hrefl.
Defined.

Definition same_metrics (w w' : sim) : Prop := sim_metrics w' = sim_metrics w.
#[local] Instance same_metrics_preorder : PreOrder same_metrics.
Proof. unfold same_metrics. split; [done|]. intros w1 w2 w3. congruence. Qed.

Lemma grpc_mutation_needs_token_witness :
  ∃ res s', grpc_serve true Background (ex_md "Bearer bad") (CallCreateMessage "hi") (sim0, ex_auth) = Some (res, s') ∧
    (∃ msg, res = inr (Unauthenticated msg)) ∧ sim_metrics s'.1 = [].
Proof.
  destruct (grpc_serve true Background (ex_md "Bearer bad") (CallCreateMessage "hi") (sim0, ex_auth)) as [[res s']|] eqn:E;
    [|vm_compute in E; discriminate E].
  destruct (grpc_mutation_needs_token same_metrics Background (ex_md "Bearer bad")
    (CallCreateMessage "hi") (sim0, ex_auth) s' res) as [[HR Hres]|Hauth].
  - intros c w x w' [= _ <-]. reflexivity.
  - intros w x w' [= _ <-]. reflexivity.
  - exact E.
  - exists res, s'. split; [reflexivity|]. split; [apply Hres; reflexivity|exact HR].
  - exfalso. destruct Hauth as (raw & rest & tok & kid & key & s1 & Hmd & _ & Hh & _). vm_compute in Hmd. injection Hmd as <- _.
    vm_compute in Hh. discriminate Hh.
Defined.

Lemma ListMessages_prefix_witness :
  ∃ sent err, ListMessages Background 1 (λ _, None) sim0 = Some ((sent, err), sim0) ∧ pm_Id <$> sent = [2].
Proof.
  destruct (ListMessages_prefix Background 1 (λ _, None) sim0 sim0
    [mkMessage 2 "b" "" false 0; mkMessage 1 "a" "" false 0]) as (sent & err & E & _ & Hall & Herr);
    [reflexivity|].
  exists sent, err. split; [exact E|]. rewrite (Hall (Herr (λ _, eq_refl))). reflexivity.
Defined.
