(* ===== verification/PostgresStore.v ===== *)
(** * PostgresStore: the handlers on the Postgres store

    The store interface of the application service implemented by [Storage],
    and what a client of the HTTP and gRPC interfaces sees end to end. *)

From stdpp Require Import base option list strings gmap relations.
From Stdlib Require Import ZArith Lia Ascii.
From S2P Require Import Prelude GoStrings Sha256 Messaging EventJson Storage StorageProps Http TCache FileStores RequestJson MessagesApi GrpcServer.
Local Open Scope Z_scope.

Section Instance_.
Context `{EventCodec} {W : Type} `{Runtime W}.
Variable targets : list string.

(** A transaction at the current time, without faults. *)
Definition env_at (w : W) : tx_env := mkTx (now w) (λ _, None) Ran.

Definition pg_store : MessageStore (W * db) := {|
  store_Create c text key s :=
    let '(r, d') := Create (env_at s.1) targets text key s.2 in Some (r, (s.1, d'));
  store_List c s := Some (List_messages ReadOk s.2, s)
|}.

End Instance_.

(** ** Creating in a healthy database *)

Section Create.
Context `{EventCodec}.
Variable targets : list string.
Hypothesis Htargets : Forall (λ t, target_allowed t = true) targets.

Lemma insert_targets_ok env n id payload ts d : is_Some (jsonb payload) →
  Forall (λ t, target_allowed t = true) ts → (∀ k, tx_stmt env k = None) → is_Some (db_messages d !! id) →
  ∃ d', insert_targets env n id payload ts d = (None, d') ∧ db_seq d' = db_seq d ∧
    db_messages d' = db_messages d.
Proof.
  intros [q Hq] Hts Hst. revert n d. induction Hts as [|t ts Ht _ IH]; intros n d Hid; [by eexists|].
  cbn [insert_targets]. rewrite Hst. unfold insert_outbox. rewrite Hq, Ht. cbn [negb].
  rewrite bool_decide_false by (destruct Hid; congruence).
  destruct (db_outbox d !! (id, t)); [by apply IH|].
  destruct (IH (S n) (with_outbox (<[(id, t) := mkOb id t q (tx_now env) (tx_now env) None 0 None]> (db_outbox d)) d))
    as (d' & E & ? & ?); [done|]. eauto.
Qed.

(** A valid text under a key not used before (or none) is stored under the next
    identifier. *)
Lemma Create_fresh env text key d :
  faultless env → expressible (tx_now env) → db_inv d → db_seq d < max_int64 → ValidateText text = None →
  pg_text text = true → default true (pg_text <$> nullif_empty key) = true →
  (∀ k, nullif_empty key = Some k → find_key k (db_messages d) = None) →
  let r := mkRow (db_seq d + 1) text (Checksum text) (nullif_empty key) (tx_now env) in
  ∃ d', Create env targets text key d = ((scan_message r true, None), d') ∧
    db_seq d' = db_seq d + 1 ∧ db_messages d' = <[db_seq d + 1 := r]> (db_messages d).
Proof.
  intros [Hst Hco] Hnow Hinv Hseq Hv Hpt Hpk Hkey r. unfold Create. rewrite Hv, !Hst. unfold insert_message.
  assert (pg_text text && pg_text (Checksum text) && default true (pg_text <$> nullif_empty key) = true) as Hpg
    by (by rewrite Hpt, Hpk, Checksum_pg).
  assert (0 <= db_seq d) as Hpos by apply Hinv.
  pose proof (insert_storable (db_seq d + 1) text (Checksum text) (nullif_empty key) (tx_now env)
    (proj2 (negb_false_iff _) Hpg) ltac:(lia)) as Hev.
  rewrite Hpg. cbn [negb]. replace (max_int64 <? db_seq d + 1) with false by lia. cbn [db_messages with_seq].
  assert (nullif_empty key ≫= (λ k, find_key k (db_messages d)) = None) as ->.
  { destruct (nullif_empty key) as [k|] eqn:E; [|done]. cbn. by apply Hkey. }
  assert (db_messages d !! (db_seq d + 1) = None) as Hfr.
  { destruct (db_messages d !! (db_seq d + 1)) as [x|] eqn:E; [|done].
    destruct Hinv as (_ & Hm & _). destruct (Hm _ _ E) as (_ & ? & _). lia. }
  rewrite Hfr, bool_decide_false by (by intros []). fold r.
  destruct (marshal_expressible (CreatedEvent (scan_message r true)) Hnow) as [payload Hm]. rewrite Hm.
  destruct (event_stored _ _ Hev Hm) as (q & Hq & _). clear Hm.
  destruct (insert_targets_ok env 2 (mr_id r) payload targets
    (with_messages (<[db_seq d + 1 := r]> (db_messages d)) (with_seq (db_seq d + 1) d))) as (d2 & E & Hs & Hm);
    [done|done|done|cbn; rewrite lookup_insert_eq; by eexists|].
  rewrite E. unfold commit. rewrite Hco. cbn. eexists. split; [done|]. by rewrite Hs, Hm.
Qed.

End Create.

(** ** End to end *)

Section EndToEnd.
Context `{EventCodec} {W : Type} `{RuntimeLaws W}.
Variable targets : list string.
Hypothesis Htargets : Forall (λ t, target_allowed t = true) targets.

#[local] Instance the_store : MessageStore (W * db) := pg_store targets.

Lemma Service_Create_pg c text key w d :
  ValidateText text = None →
  Service_Create c text key (w, d) =
    (let '(r, d') := Create (env_at w) targets text key d in Some (r, (w, d'))).
Proof. intros Hv. unfold Service_Create. rewrite Hv. by rewrite gom_gets_bind. Qed.

(** One item of a batch. *)
Lemma batch_step c ids text rest w d :
  expressible (now w) → db_inv d → db_seq d < max_int64 → ¬ Blank text → pg_text text = true →
  ∃ w' d', BatchCreate c ids (inl text :: rest) (w, d) = BatchCreate c (ids ++ [db_seq d + 1]) rest (w', d') ∧
    now w' = now w ∧ db_inv d' ∧ db_seq d' = db_seq d + 1 ∧
    ∃ r, db_messages d' = <[db_seq d + 1 := r]> (db_messages d) ∧ mr_text r = text.
Proof.
  intros Hnow Hinv Hseq Hb Hpt. cbn [BatchCreate].
  rewrite bool_decide_false by (by rewrite TrimSpace_empty).
  assert (ValidateText text = None) as Hv.
  { destruct (ValidateText_cases text) as [?|Hx]; [done|]. by apply ValidateText_spec in Hx. }
  destruct (Create_fresh targets Htargets (env_at w) text "" d) as (d' & E & Hs & Hm); [done..|].
  unfold mbind, gom_bind. rewrite Service_Create_pg by done. rewrite E. cbn.
  eexists _, d'. split; [done|]. split_and!; [by rewrite emit_now| |done|by eexists].
  eapply db_step_inv; [done|]. by eapply (st_create targets).
Qed.

End EndToEnd.

(** A batch over gRPC stores its messages in order.  With a healthy database,
    [BatchCreate] of texts that are not blank and that a column can hold, ended by the client, answers with
    as many consecutive new identifiers, and the message stored under each has
    the text received in that place; nothing else changes in the table. *)
Theorem batch_create_stores `{EventCodec} `{RuntimeLaws W} (targets : list string) (c : ctx) (texts : list string)
    (w : W) (d : db) :
  Forall (λ t, target_allowed t = true) targets → expressible (now w) →
  db_inv d → Forall (λ t, ¬ Blank t ∧ pg_text t = true) texts → db_seq d + Z.of_nat (length texts) < 2147483648 →
  ∃ w' d', @BatchCreate (W * db) _ (pg_store targets) c [] ((inl <$> texts) ++ [inr ErrEOF]) (w, d) =
      Some (Returned (inl (Z.of_nat (length texts), (λ i, db_seq d + 1 + Z.of_nat i) <$> seq 0 (length texts))), (w', d')) ∧
    (∀ i text, texts !! i = Some text →
       ∃ r, db_messages d' !! (db_seq d + 1 + Z.of_nat i) = Some r ∧ mr_text r = text) ∧
    (∀ id, id <= db_seq d → db_messages d' !! id = db_messages d !! id).
Proof.
  intros Ht Hm Hinv Hb Hlen.
  assert (∀ ids, Z.of_nat (length ids) + Z.of_nat (length texts) < 2147483648 → ∃ w' d',
    @BatchCreate (W * db) _ (pg_store targets) c ids ((inl <$> texts) ++ [inr ErrEOF]) (w, d) =
      Some (Returned (inl (Z.of_nat (length ids + length texts),
        ids ++ ((λ i, db_seq d + 1 + Z.of_nat i) <$> seq 0 (length texts)))), (w', d')) ∧
    (∀ i text, texts !! i = Some text →
       ∃ r, db_messages d' !! (db_seq d + 1 + Z.of_nat i) = Some r ∧ mr_text r = text) ∧
    (∀ id, id <= db_seq d → db_messages d' !! id = db_messages d !! id)) as Hgen.
  { assert (0 <= db_seq d) as Hpos by apply Hinv.
    revert w d Hm Hinv Hlen Hpos. induction Hb as [|text texts [Htext Hpt] _ IH]; intros w d Hm Hinv Hlen Hpos ids Hids.
    - cbn. eexists _, _. split; [|done]. rewrite app_nil_r, Nat.add_0_r. unfold wrap32, mret, gom_ret.
      rewrite Z.mod_small by (cbn in Hids; lia). rewrite Z.add_simpl_r. done.
    - cbn [length] in *. destruct (batch_step targets Ht c ids text ((inl <$> texts) ++ [inr ErrEOF]) w d)
        as (w1 & d1 & E & Hnow1 & Hinv1 & Hs1 & r & Hm1 & Hr); [done|done|unfold max_int64; lia|done|done|].
      destruct (IH w1 d1 ltac:(by rewrite Hnow1) Hinv1 ltac:(lia) ltac:(lia) (ids ++ [db_seq d + 1])) as (w' & d' & E' & Hget & Hold);
        [rewrite length_app; cbn; lia|].
      exists w', d'. split_and!.
      + etrans; [exact E|]. etrans; [exact E'|]. do 3 f_equal. f_equal. f_equal; [rewrite length_app; cbn; lia|].
        rewrite <- app_assoc. f_equal. cbn [seq fmap list_fmap app]. f_equal; [lia|].
        rewrite Hs1, <- (fmap_S_seq 0), <- list_fmap_compose. apply list_fmap_ext. intros i x _. cbn. lia.
      + intros [|i] t Hi; cbn in Hi.
        * injection Hi as <-. exists r. rewrite Z.add_0_r, Hold by lia. by rewrite Hm1, lookup_insert_eq.
        * destruct (Hget i t Hi) as (x & Hx & ?). exists x. split; [|done]. rewrite <- Hx. f_equal. lia.
      + intros id Hid. rewrite Hold by lia. rewrite Hm1, lookup_insert_ne by lia. done. }
  destruct (Hgen []) as (w' & d' & E & ?); [cbn; pose proof Hinv as (? & _); lia|]. exists w', d'. by rewrite E.
Qed.

(** A POST of a text that is not blank, in terms of [Create]. *)
Definition posted `{EventCodec} `{Runtime W} (targets : list string) (r : http_request) (t : string) (s : W * db)
    : option (reply msg_body * (W * db)) :=
  let '((msg, err), d') := Create (env_at s.1) targets t (hq_header r "Idempotency-Key") s.2 in
  if is_err err ErrIdempotencyConflict then Some (write_error StatusConflict (conflict_text err), (s.1, d'))
  else match err with
       | Some _ => Some (write_error StatusInternalServerError "не удалось сохранить сообщение", (s.1, d'))
       | None => Some (write_ok StatusCreated (MOne msg), (emit (MInc "otus_messages_created_total" []) s.1, d'))
       end.

Lemma createMessage_pg `{EventCodec} `{Runtime W} `{AuditLog (W * db), MessagesCache (W * db)} (targets : list string)
    (a : MsgAPI) (r : http_request) (body : stream) (t : string) (w : W) (d : db) :
  has_audit a = false → has_cache a = false → decode_text body = Some t → ¬ Blank t →
  @createMessage (W * db) _ (pg_store targets) _ _ a r body (w, d) = posted targets r t (w, d).
Proof.
  intros Haud Hca Hbody Hbt. unfold createMessage, posted. rewrite Hbody.
  assert (ValidateText t = None) as Hv by (destruct (ValidateText_cases t) as [?|Hx]; [done|by apply ValidateText_spec in Hx]).
  rewrite Hv. unfold mbind, gom_bind. rewrite Service_Create_pg by done. cbn [fst snd].
  destruct (Create (env_at w) targets t _ d) as [[msg err] d']. destruct (is_err err ErrIdempotencyConflict); [done|]. destruct err; [done|].
  rewrite Haud, Hca. done.
Qed.

(** A decoded text is UTF-8, so the database refuses it only for a zero character. *)
Lemma decoded_pg body t : decode_text body = Some t → pg_text t = no_nul t.
Proof. intros Hb%decode_text_valid. unfold pg_text. by rewrite Hb. Qed.


(** A text with a zero character, which JSON can carry, passes the validation;
    PostgreSQL refuses it, and the client is told of an internal error, though the
    request can never succeed. *)
Theorem post_nul_internal_error `{EventCodec} `{Runtime W} `{AuditLog (W * db), MessagesCache (W * db)}
    (targets : list string) (a : MsgAPI) (r : http_request) (body : stream) (text : string) (w : W) (d : db) :
  has_audit a = false → has_cache a = false → decode_text body = Some text → ¬ Blank text → no_nul text = false →
  @createMessage (W * db) _ (pg_store targets) _ _ a r body (w, d) =
    Some (write_error StatusInternalServerError "не удалось сохранить сообщение", (w, d)).
Proof.
  intros Haud Hca Hbody Hb Hn. rewrite (createMessage_pg targets a r body text w d Haud Hca Hbody Hb). unfold posted, Create.
  assert (ValidateText text = None) as -> by (destruct (ValidateText_cases text) as [?|Hx]; [done|by apply ValidateText_spec in Hx]).
  cbn [tx_stmt env_at fst snd]. unfold insert_message. rewrite (decoded_pg _ _ Hbody), Hn. cbn. by destruct d.
Qed.

(** ** Witnesses *)

Section Witnesses.
#[local] Existing Instance utc_codec.

Lemma ex_targets_allowed : Forall (λ t, target_allowed t = true) ex_targets.
Proof. apply (bool_decide_eq_true_1 _). vm_compute. reflexivity. Qed.

Lemma ex_expressible : expressible (now sim0).
Proof. vm_compute. by eexists. Qed.

Lemma not_Blank_ValidateText t : ValidateText t = None → ¬ Blank t.
Proof. intros Hv Hb%ValidateText_spec. congruence. Qed.

Lemma batch_create_stores_witness :
  ∃ w' d', @BatchCreate (sim * db) _ (pg_store ex_targets) Background [] [inl "a"; inl "b"; inr ErrEOF] (sim0, db_empty) =
      Some (Returned (inl (2, [1; 2])), (w', d')) ∧
    ∃ r, db_messages d' !! 2 = Some r ∧ mr_text r = "b".
Proof.
  destruct (batch_create_stores ex_targets Background ["a"; "b"] sim0 db_empty ex_targets_allowed ex_expressible
    db_empty_inv) as (w' & d' & E & Hget & _).
  - repeat (apply Forall_cons; split; [split; [apply not_Blank_ValidateText; vm_compute; reflexivity|reflexivity]|]). apply Forall_nil_2.
  - vm_compute. reflexivity.
  - exists w', d'. split; [exact E|]. exact (Hget 1%nat "b" eq_refl).
Defined.

#[local] Instance ex_pg_audit : AuditLog (sim * db) := {|
  al_Record c ev text := mret (); al_Last c n := mret (inl []) |}.
#[local] Instance ex_pg_cache : MessagesCache (sim * db) := {|
  mc_Get c key := mret ("", false); mc_Set c key v := mret (); mc_Delete c key := mret () |}.

Definition ex_keyed : http_request :=
  mkReq Background "" (λ h, if bool_decide (h = "Idempotency-Key") then "k9" else "") (λ _, "") (λ _, "").

Definition ex_hi : stream := mkStream (text_body "hi") None.


(** The body that carries [a\\u0000b]. *)
Definition ex_nul : stream := mkStream (text_body (String "a"%char (String (Ascii.ascii_of_nat 0) "b"))) None.

Lemma post_nul_internal_error_witness :
  @createMessage (sim * db) _ (pg_store ex_targets) _ _ (mkMsgAPI false false false) ex_keyed ex_nul (sim0, db_empty) =
    Some (write_error StatusInternalServerError "не удалось сохранить сообщение", (sim0, db_empty)).
Proof.
  apply (post_nul_internal_error ex_targets (mkMsgAPI false false false) ex_keyed ex_nul
    (String "a"%char (String (Ascii.ascii_of_nat 0) "b")) sim0 db_empty);
    [reflexivity|reflexivity|vm_compute; reflexivity| |reflexivity].
  apply not_Blank_ValidateText. vm_compute. reflexivity.
Defined.

End Witnesses.
