(* ===== verification/StatusApi.v ===== *)
(** * StatusApi: the status page and the wrapper around the router

    [internal/handlers/status.go], the [health] and [versionInfo] handlers, and
    [statusRecorder] and [WrapHTTP] of [internal/observability/metrics.go]. *)

From stdpp Require Import base option list strings gmap sorting.
From Stdlib Require Import ZArith Lia.
From S2P Require Import Prelude GoStrings Env Messaging Storage StorageProps StorageQueries Http MessagesApi PostgresStore.
Local Open Scope Z_scope.

(** ** Handlers *)

(** [version.Version] and [version.Date] *)
Definition Version : string := "1.0.0".
Definition Date : string := "17.06.2026".

Inductive info_body := IStatus (s : string) | IVersion (version date : string).

Definition health : reply info_body := write_ok StatusOK (IStatus "работает").
Definition versionInfo : reply info_body := write_ok StatusOK (IVersion Version Date).

(** [Duration.Round]: to the nearest multiple, halves away from zero, with the
    extreme durations on overflow. *)
Definition Round (d m : Z) : Z :=
  if m <=? 0 then d
  else
    let r := Z.rem d m in
    if d <? 0 then
      let r := - r in
      if r + r <? m then d + r else if wrap64 (d - m + r) <? d then wrap64 (d - m + r) else min_int64
    else if r + r <? m then d - r else if d <? wrap64 (d + m - r) then wrap64 (d + m - r) else max_int64.

(** [statusData]; times and durations are kept as such, the page shows them
    formatted. *)
Record statusData := mkStatus {
  sd_Version : string; sd_BuildDate : string; sd_Uptime : Z; sd_Now : Z; sd_DBOK : bool; sd_DBError : option error;
  sd_Total : Z; sd_BadChecksums : Z; sd_TLSEnabled : bool; sd_AuthEnabled : bool }.

(** The loop that counts. *)
Fixpoint bad_checksums (n : Z) (msgs : list Message) : Z :=
  match msgs with
  | [] => n
  | m :: rest => bad_checksums (if negb (m_ChecksumOK m) then n + 1 else n) rest
  end.

(** [statusPage]: the data the template is executed with. *)
Definition statusPage {W} `{Runtime W, MessageStore W} (e : environ) (startedAt : Z) (authEnabled : bool)
    (r : http_request) : GoM W statusData :=
  t1 ← gets now;
  t2 ← gets now;
  let page := mkStatus Version Date (Round (t1 - startedAt) Second) t2 in
  res ← Service_List (hq_ctx r);
  let tls := negb (bool_decide (e "TLS_CERT_FILE" = "")) in
  mret (match res with
        | (_, Some err) => page false (Some err) 0 0 tls authEnabled
        | (msgs, None) => page true None (Z.of_nat (length msgs)) (bad_checksums 0 msgs) tls authEnabled
        end).

(** ** The wrapper *)

(** What a handler does to the response writer. *)
Inductive wr := WriteHeader (code : Z) | Write (bytes : string).

(** The status the client gets: of the first header written, or 200 when a body
    comes first or nothing does. *)
Definition sent_status (ws : list wr) : Z :=
  match ws with WriteHeader code :: _ => code | _ => StatusOK end.

(** [statusRecorder.WriteHeader]: the status recorded, with 200 at first. *)
Definition record (status : Z) (w : wr) : Z := match w with WriteHeader code => code | Write _ => status end.
Definition recorded (ws : list wr) : Z := foldl record StatusOK ws.

(** [WrapHTTP]: run the handler and report; [pattern] is [r.Pattern]. *)
Definition WrapHTTP {W} `{Runtime W} (method pattern : string) (next : GoM W (list wr)) : GoM W (list wr) :=
  start ← gets now;
  ws ← next;
  let route := if bool_decide (pattern = "") then "other" else pattern in
  t ← gets now;
  _ ← modify (emit (MInc "otus_http_requests_total" [method; route; FormatInt (recorded ws)]));
  _ ← modify (emit (MObserve "otus_http_request_duration_seconds" [method; route] (t - start)));
  mret ws.

(** The writes of a reply made with [writeJSON]. *)
Definition writes_of {B} (encode : body_of B → string) (r : reply B) : list wr :=
  [WriteHeader (rp_status r); Write (encode (rp_body r))].

(** ** Properties *)

Lemma bad_checksums_length n msgs :
  bad_checksums n msgs = n + Z.of_nat (length (filter (λ m, m_ChecksumOK m = false) msgs)).
Proof.
  revert n. induction msgs as [|m msgs IH]; intros n; cbn [bad_checksums]; [cbn; lia|].
  rewrite IH, filter_cons. destruct (m_ChecksumOK m); cbn [negb].
  - rewrite decide_False by done. lia.
  - rewrite decide_True by done. cbn [length]. lia.
Qed.

(** A handler that writes a header before anything else and none after it. *)
Definition header_first (ws : list wr) : Prop :=
  match ws with
  | WriteHeader _ :: rest => Forall (λ w, ∃ b, w = Write b) rest
  | _ => Forall (λ w, ∃ b, w = Write b) ws
  end.

Lemma recorded_writes status ws : Forall (λ w, ∃ b, w = Write b) ws → foldl record status ws = status.
Proof. induction 1 as [|w ws [b ->] _ IH]; [done|apply IH]. Qed.

Lemma recorded_sent ws : header_first ws → recorded ws = sent_status ws.
Proof.
  unfold recorded. destruct ws as [|[code|b] ws]; cbn; [done| |].
  - apply recorded_writes.
  - intros Hws. inversion Hws; subst. by apply recorded_writes.
Qed.

(** A second header is recorded but not sent. *)
Example recorded_not_sent : recorded [WriteHeader 200; WriteHeader 500] = 500 ∧ sent_status [WriteHeader 200; WriteHeader 500] = 200.
Proof. done. Qed.

Lemma Round_second d : 0 <= d <= max_int64 - Second → Z.abs (Round d Second - d) <= 500000000 ∧ Z.rem (Round d Second) Second = 0.
Proof.
  intros Hd. unfold Round, Second, max_int64 in *. change (1000000000 <=? 0) with false. cbn iota.
  replace (d <? 0) with false by lia. rewrite Z.rem_mod_nonneg by lia.
  pose proof (Z.mod_pos_bound d 1000000000 ltac:(lia)) as Hr. pose proof (Z.div_mod d 1000000000 ltac:(lia)) as Hdm.
  set (q := d / 1000000000) in *. set (r := d `mod` 1000000000) in *.
  destruct (r + r <? 1000000000) eqn:Hlt.
  - split; [lia|]. replace (d - r) with (q * 1000000000) by lia. apply Z.rem_mul. lia.
  - rewrite wrap64_id by (unfold in_int64, min_int64, max_int64; lia). replace (d <? d + 1000000000 - r) with true by lia.
    split; [lia|]. replace (d + 1000000000 - r) with ((q + 1) * 1000000000) by lia. apply Z.rem_mul. lia.
Qed.

(** The wrapper does not touch the answer and reports it truly.  For a handler
    that writes its header first and once, as all that answer with [writeJSON] do,
    the answer is the handler's and exactly one request is counted, under the
    route's pattern ("other" without one) and the status the client got. *)
Theorem WrapHTTP_reports `{Runtime W} (method pattern : string) (next : GoM W (list wr)) (ws : list wr) (w w1 : W) :
  next w = Some (ws, w1) → header_first ws →
  let route := if bool_decide (pattern = "") then "other" else pattern in
  WrapHTTP method pattern next w =
    Some (ws, emit (MObserve "otus_http_request_duration_seconds" [method; route] (now w1 - now w))
                (emit (MInc "otus_http_requests_total" [method; route; FormatInt (sent_status ws)]) w1)).
Proof.
  intros Hn Hh route. unfold WrapHTTP. rewrite gom_gets_bind, (gom_bind_run _ _ _ _ _ Hn), gom_gets_bind.
  rewrite !gom_modify_bind. by rewrite recorded_sent.
Qed.

Lemma WrapHTTP_reports_witness :
  WrapHTTP (W := sim) "GET" "" (mret (writes_of (λ _, "{}") health)) sim0 =
    Some (writes_of (λ _, "{}") health,
      emit (MObserve "otus_http_request_duration_seconds" ["GET"; "other"] 0)
        (emit (MInc "otus_http_requests_total" ["GET"; "other"; "200"]) sim0)).
Proof.
  pose proof (WrapHTTP_reports "GET" "" (mret (writes_of (λ _, "{}") health)) (writes_of (λ _, "{}") health) sim0 sim0)
    as Hw. cbv zeta in Hw. rewrite Hw; [vm_compute; reflexivity|reflexivity|]. repeat constructor. by eexists.
Defined.

(** *** The page on the database *)

Lemma bad_rows rows :
  length (filter (λ m, m_ChecksumOK m = false) (scan_rows rows)) =
  length (filter (λ r, mr_hash r ≠ Checksum (mr_text r)) rows).
Proof.
  unfold scan_rows. induction rows as [|r rows IH]; [done|]. rewrite fmap_cons, !filter_cons.
  assert (m_ChecksumOK (scan_message r (checksum_ok r)) = false ↔ mr_hash r ≠ Checksum (mr_text r)) as Hiff.
  { cbn. unfold checksum_ok. by case_bool_decide. }
  destruct (decide (mr_hash r ≠ Checksum (mr_text r))) as [Hr|Hr].
  - rewrite decide_True by (by apply Hiff). cbn [length]. by rewrite IH.
  - rewrite decide_False by (by rewrite Hiff). exact IH.
Qed.

Section Page.
Context `{EventCodec} {W : Type} `{Runtime W}.
Variable targets : list string.
#[local] Instance page_store : MessageStore (W * db) := pg_store targets.

(** The status page counts what is wrong in the database.  On a database that
    answers it shows the number of messages listed and, of those, how many have a
    stored checksum that is not that of their text; on tables that only the
    program wrote it shows none.  It changes nothing. *)
Theorem status_page_counts (e : environ) (startedAt : Z) (auth : bool) (r : http_request) (w : W) (d : db) :
  ∃ page rows, statusPage e startedAt auth r (w, d) = Some (page, (w, d)) ∧
    rows ⊆+ (snd <$> map_to_list (db_messages d)) ∧ length rows = (100 `min` size (db_messages d))%nat ∧
    sd_DBOK page = true ∧ sd_Total page = Z.of_nat (length rows) ∧
    sd_BadChecksums page = Z.of_nat (length (filter (λ r, mr_hash r ≠ Checksum (mr_text r)) rows)) ∧
    (db_inv d → sd_BadChecksums page = 0).
Proof.
  set (rows := take 100 (rows_desc (db_messages d))).
  eexists _, rows. split; [unfold statusPage; cbn; reflexivity|]. fold rows. cbn. fold rows.
  split; [|split; [|split; [done|]]].
  - unfold rows. etrans; [apply sublist_submseteq, sublist_take|]. unfold rows_desc. by rewrite merge_sort_Permutation.
  - unfold rows. by rewrite length_take, rows_desc_length.
  - unfold scan_rows. rewrite length_fmap. split; [done|]. rewrite bad_checksums_length, bad_rows. split; [done|].
    intros Hinv. rewrite list_filter_none; [done|]. apply Forall_forall. intros x Hx.
    apply elem_of_take in Hx as (i & Hx%list_elem_of_lookup_2 & _). apply rows_desc_elem in Hx as [id Hx].
    pose proof (row_scan _ _ _ Hinv Hx) as Hok. unfold checksum_ok in Hok. apply bool_decide_eq_true in Hok. by intros [].
Qed.

End Page.

(** A database with one good row and one that was tampered with. *)
Definition ex_tampered : db :=
  mkDb 2 {[1 := mkRow 1 "hi" (Checksum "hi") None 5; 2 := mkRow 2 "no" "0000" None 6]} ∅.

#[local] Existing Instance utc_codec.
#[local] Instance ex_page_store : MessageStore (sim * db) := pg_store [].

Definition ex_page : option (statusData * (sim * db)) :=
  statusPage (λ _, "") 0 false (mkReq Background "" (λ _, "") (λ _, "") (λ _, "")) (sim0, ex_tampered).

Example status_page_tampered : (λ x, (sd_Total x.1, sd_BadChecksums x.1)) <$> ex_page = Some (2, 1).
Proof. vm_compute. reflexivity. Qed.
