(* ===== verification/Brokers.v ===== *)
(** * Brokers: publishers, consumers and their connections

    [internal/broker]: settings, [ConfiguredNames], the constructors and the
    publishers of Kafka, RabbitMQ and NATS, and the connection that RabbitMQ's
    publisher and consumer keep, over interfaces for the three client
    libraries.  ([Consumers] has the loops that read events.) *)

From stdpp Require Import base option list strings gmap.
From Stdlib Require Import ZArith Lia Ascii.
From S2P Require Import Prelude GoStrings GoPaths Env Messaging Storage.
Local Open Scope Z_scope.

(** ** Settings *)

Record KafkaSettings := mkKafkaSettings {
  ks_brokers : list string; ks_topic : string; ks_group : string; ks_partitions : Z; ks_replicas : Z }.
Record RabbitSettings := mkRabbitSettings { rs_urls : list string; rs_queue : string; rs_prefetch : Z }.
Record NatsSettings := mkNatsSettings {
  ns_urls : list string; ns_stream : string; ns_subject : string; ns_durable : string; ns_replicas : Z }.

Definition kafkaSettings (e : environ) : KafkaSettings :=
  mkKafkaSettings (envList e "KAFKA_BROKERS") (env e "KAFKA_TOPIC" "otus.messages") (env e "KAFKA_GROUP" "otus-consumer")
    (env_int e "KAFKA_PARTITIONS" "6") (env_int e "KAFKA_REPLICATION" "3").

Definition rabbitSettings (e : environ) : RabbitSettings :=
  mkRabbitSettings (envList e "RABBITMQ_URLS") (env e "RABBITMQ_QUEUE" "otus.messages") (env_int e "RABBITMQ_PREFETCH" "32").

Definition natsSettings (e : environ) : NatsSettings :=
  mkNatsSettings (envList e "NATS_URLS") (env e "NATS_STREAM" "OTUS") (env e "NATS_SUBJECT" "otus.messages")
    (env e "NATS_DURABLE" "otus-consumer") (env_int e "NATS_REPLICAS" "3").

(** [ConfiguredNames] *)
Definition ConfiguredNames (e : environ) : list string :=
  foldl (λ names entry, if bool_decide (envList e entry.2 = []) then names else names ++ [entry.1]) []
    [("kafka", "KAFKA_BROKERS"); ("rabbitmq", "RABBITMQ_URLS"); ("nats", "NATS_URLS")].

(** [errUnknownBroker] *)
Definition errUnknownBroker (name : string) : error := ErrText ("неизвестный брокер: " +:+ name).

(** [context.Context.Deadline]: the earliest deadline on the way to the root. *)
Fixpoint ctx_Deadline (c : ctx) : option Z :=
  match c with
  | Background | RequestCtx _ => None
  | WithTimeout p d => Some (match ctx_Deadline p with Some d' => Z.min d' d | None => d end)
  | WithCancel p _ => ctx_Deadline p
  end.

(** ** The client libraries *)

(** [kafka-go].  Connections and readers are handles; a writer is its
    configuration. *)
Inductive acks := RequireNone | RequireOne | RequireAll.
Record KafkaWriter := mkWriter {
  kw_Addr : list string; kw_Topic : string; kw_Hash : bool; kw_RequiredAcks : acks; kw_Async : bool;
  kw_BatchTimeout : Z; kw_WriteTimeout : Z; kw_MaxAttempts : Z }.
Record KafkaMessage := mkKMsg { km_Key : string; km_Value : string; km_Time : Z }.
Record TopicConfig := mkTopic {
  tc_Topic : string; tc_NumPartitions : Z; tc_ReplicationFactor : Z; tc_ConfigEntries : list (string * string) }.
Record ReaderConfig := mkReaderConfig {
  rc_Brokers : list string; rc_Topic : string; rc_GroupID : string; rc_MinBytes : Z; rc_MaxBytes : Z; rc_MaxWait : Z;
  rc_CommitInterval : Z; rc_FirstOffset : bool }.

Class KafkaClient (W : Type) := {
  k_Dial : Z → ctx → string → GoM W (nat + error);
  k_SetDeadline : nat → Z → GoM W unit;
  k_Controller : nat → GoM W ((string * Z) + error);
  k_CloseConn : nat → GoM W unit;
  k_CreateTopics : nat → TopicConfig → GoM W (option error);
  k_WriteMessages : KafkaWriter → ctx → KafkaMessage → GoM W (option error);
  k_CloseWriter : KafkaWriter → GoM W (option error);
  k_NewReader : ReaderConfig → GoM W nat;
  k_CloseReader : nat → GoM W (option error)
}.

(** [amqp091-go].  Connections, channels, confirmations and sockets are handles.
    [amqp_DialConfig] takes the heartbeat and the timeout of the [Dial] hook, and
    returns also the socket that hook stored, if it was reached. *)
Record Publishing := mkPublishing {
  pb_ContentType : string; pb_DeliveryMode : Z; pb_MessageId : string; pb_Timestamp : Z; pb_Body : string }.
Definition Persistent : Z := 2.

Class Amqp (W : Type) := {
  amqp_DialConfig : ctx → string → Z → Z → GoM W (option nat * (nat + error));
  amqp_Channel : nat → GoM W (nat + error);
  (** queue, durable, autoDelete, exclusive, noWait, arguments *)
  amqp_QueueDeclare : nat → string → bool → bool → bool → bool → list (string * string) → GoM W (option error);
  amqp_Confirm : nat → bool → GoM W (option error);
  amqp_ConnClosed : nat → W → bool;
  amqp_ChClosed : nat → W → bool;
  amqp_CloseDeadline : nat → Z → GoM W unit;
  amqp_CloseSocket : nat → GoM W unit;
  (** channel, exchange, routing key, mandatory, immediate; a nil confirmation
      when the channel is not in confirm mode *)
  amqp_Publish : ctx → nat → string → string → bool → bool → Publishing → GoM W (option nat + error);
  amqp_WaitConfirm : ctx → nat → GoM W (bool + error)
}.

(** [nats.go] and its [jetstream] package. *)
Inductive storage_type := FileStorage | MemoryStorage.
Inductive retention := LimitsPolicy | InterestPolicy | WorkQueuePolicy.
Record NatsOptions := mkNatsOptions { no_MaxReconnects : Z; no_ReconnectWait : Z; no_Timeout : Z }.
Record StreamConfig := mkStreamConfig {
  sc_Name : string; sc_Subjects : list string; sc_Storage : storage_type; sc_Retention : retention; sc_Replicas : Z }.
Record ConsumerConfig := mkConsumerConfig {
  cc_Durable : string; cc_AckExplicit : bool; cc_AckWait : Z; cc_MaxAckPending : Z }.

Class NatsClient (W : Type) := {
  nc_Connect : string → NatsOptions → GoM W (nat + error);
  nc_JetStream : nat → GoM W (nat + error);
  nc_CreateOrUpdateStream : ctx → nat → StreamConfig → GoM W (nat + error);
  nc_CreateOrUpdateConsumer : ctx → nat → ConsumerConfig → GoM W (nat + error);
  (** subject, payload, message id *)
  nc_Publish : ctx → nat → string → string → string → GoM W (option error);
  nc_Close : nat → GoM W unit
}.

(** ** Kafka *)

Section Kafka.
Context `{Runtime W, KafkaClient W}.

(** One iteration of the loop of [ensureTopic]: the error it stores, or none when
    the topic is ready. *)
Definition ensure_at (dialCtx : ctx) (deadline : Z) (topic : string) (partitions replicas : Z) (addr : string)
    : GoM W (option error) :=
  conn ← k_Dial (5 * Second) dialCtx addr;
  match conn with
  | inr err => mret (Some err)
  | inl conn =>
      _ ← k_SetDeadline conn deadline;
      controller ← k_Controller conn;
      _ ← k_CloseConn conn;
      match controller with
      | inr err => mret (Some err)
      | inl (host, port) =>
          ctrlConn ← k_Dial (5 * Second) dialCtx (host +:+ ":" +:+ FormatInt port);
          match ctrlConn with
          | inr err => mret (Some err)
          | inl ctrlConn =>
              _ ← k_SetDeadline ctrlConn deadline;
              err ← k_CreateTopics ctrlConn (mkTopic topic partitions replicas [("min.insync.replicas", "2")]);
              _ ← k_CloseConn ctrlConn;
              mret err
          end
      end
  end.

Fixpoint ensure_loop (dialCtx : ctx) (deadline : Z) (topic : string) (partitions replicas : Z) (brokers : list string)
    (lastErr : option error) : GoM W (option error) :=
  match brokers with
  | [] => mret lastErr
  | addr :: rest =>
      err ← ensure_at dialCtx deadline topic partitions replicas addr;
      match err with
      | None => mret None
      | Some err => ensure_loop dialCtx deadline topic partitions replicas rest (Some err)
      end
  end.

Definition ensureTopic (c : ctx) (brokers : list string) (topic : string) (partitions replicas : Z) : GoM W (option error) :=
  dialCtx ← gets (with_timeout c (15 * Second));
  ensure_loop dialCtx (default zero_time (ctx_Deadline dialCtx)) topic partitions replicas brokers None.

(** The writer of [newKafkaPublisher]. *)
Definition kafka_writer (brokers : list string) (topic : string) : KafkaWriter :=
  mkWriter brokers topic true RequireAll false (10 * Millisecond) (5 * Second) 5.

Definition newKafkaPublisher (e : environ) (c : ctx) : GoM W (option KafkaWriter * option error) :=
  let s := kafkaSettings e in
  if bool_decide (ks_brokers s = []) then mret (None, None)
  else
    err ← ensureTopic c (ks_brokers s) (ks_topic s) (ks_partitions s) (ks_replicas s);
    match err with
    | Some err => mret (None, Some err)
    | None => mret (Some (kafka_writer (ks_brokers s) (ks_topic s)), None)
    end.

(** [kafkaPublisher.Publish] *)
Definition kafka_Publish `{EventCodec} (writer : KafkaWriter) (c : ctx) (ev : MessageCreated) : GoM W (option error) :=
  match marshal ev with
  | None => mret (Some (ErrText "json"))
  | Some payload =>
      t ← gets now;
      k_WriteMessages writer c (mkKMsg (FormatInt (ev_ID ev)) payload t)
  end.

(** [time.ParseDuration] is a parameter: [None] when it reports an error. *)
Definition newKafkaConsumer (ParseDuration : string → option Z) (e : environ) (c : ctx) : GoM W (nat + error) :=
  let s := kafkaSettings e in
  if bool_decide (ks_brokers s = []) then mret (inr (ErrText "не задана переменная KAFKA_BROKERS"))
  else
    _ ← ensureTopic c (ks_brokers s) (ks_topic s) (ks_partitions s) (ks_replicas s);
    let commitInterval := default 0 (ParseDuration (env e "KAFKA_COMMIT_INTERVAL" "0s")) in
    reader ← k_NewReader (mkReaderConfig (ks_brokers s) (ks_topic s) (ks_group s) 1 (Z.shiftl 10 20)
                            (500 * Millisecond) commitInterval true);
    mret (inl reader).

End Kafka.

(** ** RabbitMQ *)

Definition quorumArgs : list (string * string) := [("x-queue-type", "quorum")].

(** [rabbitConn]; its mutex makes each operation below atomic. *)
Record rabbitConn := mkRabbitConn {
  rb_urls : list string;
  rb_queue : string;
  rb_conn : option nat;
  rb_ch : option nat;
  rb_socket : option nat
}.

Definition rb_set (conn ch socket : option nat) (r : rabbitConn) : rabbitConn :=
  mkRabbitConn (rb_urls r) (rb_queue r) conn ch socket.

Section Rabbit.
Context `{Runtime W, Amqp W}.

(** The closure [fail]. *)
Definition open_fail {A} (socket : option nat) (err : error) : GoM W (A + error) :=
  _ ← (match socket with Some s => amqp_CloseSocket s | None => mret () end);
  mret (inr err).

(** [openRabbitChannel].  The [AfterFunc] hooks close the socket when the context
    ends, which the calls report as errors. *)
Definition openRabbitChannel (c : ctx) (url queue : string) (confirm : bool) : GoM W ((nat * nat * option nat) + error) :=
  c ← gets (with_timeout c (10 * Second));
  dialled ← amqp_DialConfig c url (5 * Second) (5 * Second);
  let socket := dialled.1 in
  match dialled.2 with
  | inr err => open_fail socket err
  | inl conn =>
      ch ← amqp_Channel conn;
      match ch with
      | inr err => open_fail socket err
      | inl ch =>
          err ← amqp_QueueDeclare ch queue true false false false quorumArgs;
          match err with
          | Some err => open_fail socket err
          | None =>
              err ← (if confirm then amqp_Confirm ch false else mret None);
              match err with
              | Some err => open_fail socket err
              | None => mret (inl (conn, ch, socket))
              end
          end
      end
  end.

(** Operations on the connection object run over its fields. *)
Definition rb_upd (f : rabbitConn → rabbitConn) : GoM (W * rabbitConn) unit := modify (λ s, (s.1, f s.2)).

Definition closeLocked : GoM (W * rabbitConn) unit :=
  r ← gets snd;
  _ ← (match rb_conn r with
       | Some conn => t ← gets now; on_fst (amqp_CloseDeadline conn (t + Second))
       | None => mret ()
       end);
  rb_upd (rb_set None None None).

(** The loop over the URLs of [channel]. *)
Fixpoint open_first (c : ctx) (confirm : bool) (urls : list string) (lastErr : option error)
    : GoM (W * rabbitConn) (nat + error) :=
  match urls with
  | [] => mret (inr (default (ErrText "не задана переменная RABBITMQ_URLS") lastErr))
  | url :: rest =>
      r ← gets snd;
      res ← on_fst (openRabbitChannel c url (rb_queue r) confirm);
      match res with
      | inr err => open_first c confirm rest (Some err)
      | inl (conn, ch, socket) => _ ← rb_upd (rb_set (Some conn) (Some ch) socket); mret (inl ch)
      end
  end.

(** The channel held, unless it or its connection is closed. *)
Definition open_channel (s : W * rabbitConn) : option nat :=
  match rb_ch s.2, rb_conn s.2 with
  | Some ch, Some conn => if amqp_ChClosed ch s.1 || amqp_ConnClosed conn s.1 then None else Some ch
  | _, _ => None
  end.

Definition rabbit_channel (c : ctx) (confirm : bool) : GoM (W * rabbitConn) (nat + error) :=
  r ← gets snd;
  alive ← gets open_channel;
  match alive with
  | Some ch => mret (inl ch)
  | None => _ ← closeLocked; open_first c confirm (rb_urls r) None
  end.

Definition rabbit_Close : GoM (W * rabbitConn) (option error) := _ ← closeLocked; mret None.

Definition newRabbitPublisher (e : environ) (c : ctx) : GoM W (option rabbitConn * option error) :=
  let s := rabbitSettings e in
  if bool_decide (rs_urls s = []) then mret (None, None)
  else λ w,
    match rabbit_channel c true (w, mkRabbitConn (rs_urls s) (rs_queue s) None None None) with
    | Some (inr err, (w', _)) => Some ((None, Some err), w')
    | Some (inl _, (w', r)) => Some ((Some r, None), w')
    | None => None
    end.

(** The loop of [rabbitPublisher.Publish].  Waiting on a nil confirmation
    panics. *)
Fixpoint publish_loop (attempts : nat) (c : ctx) (ev : MessageCreated) (payload : string) (lastErr : option error)
    : GoM (W * rabbitConn) (option error) :=
  match attempts with
  | O => mret lastErr
  | S attempts' =>
      ch ← rabbit_channel c true;
      match ch with
      | inr err => publish_loop attempts' c ev payload (Some err)
      | inl ch =>
          r ← gets snd;
          t ← gets now;
          conf ← on_fst (amqp_Publish c ch "" (rb_queue r) false false
                           (mkPublishing "application/json" Persistent (FormatInt (ev_ID ev)) t payload));
          match conf with
          | inr err => _ ← closeLocked; publish_loop attempts' c ev payload (Some err)
          | inl None => panic
          | inl (Some conf) =>
              ok ← on_fst (amqp_WaitConfirm c conf);
              mret (match ok with
                    | inr err => Some err
                    | inl false => Some (ErrText "брокер не подтвердил публикацию")
                    | inl true => None
                    end)
          end
      end
  end.

Definition rabbit_Publish `{EventCodec} (c : ctx) (ev : MessageCreated) : GoM (W * rabbitConn) (option error) :=
  match marshal ev with
  | None => mret (Some (ErrText "json"))
  | Some payload => publish_loop 2 c ev payload None
  end.

Definition newRabbitConsumer (e : environ) : (rabbitConn * Z) + error :=
  let s := rabbitSettings e in
  if bool_decide (rs_urls s = []) then inr (ErrText "не задана переменная RABBITMQ_URLS")
  else inl (mkRabbitConn (rs_urls s) (rs_queue s) None None None, rs_prefetch s).

End Rabbit.

(** ** NATS *)

Section Nats.
Context `{Runtime W, NatsClient W}.

(** [natsConnect]: connection, JetStream, stream and subject; no connection and
    no error when NATS is not configured. *)
Definition natsConnect (e : environ) (c : ctx) : GoM W (option (nat * nat * nat * string) * option error) :=
  let s := natsSettings e in
  if bool_decide (ns_urls s = []) then mret (None, None)
  else
    nc ← nc_Connect (Join (ns_urls s) ","%char) (mkNatsOptions (-1) Second (5 * Second));
    match nc with
    | inr err => mret (None, Some err)
    | inl nc =>
        js ← nc_JetStream nc;
        match js with
        | inr err => _ ← nc_Close nc; mret (None, Some err)
        | inl js =>
            createCtx ← gets (with_timeout c (15 * Second));
            stream ← nc_CreateOrUpdateStream createCtx js
                       (mkStreamConfig (ns_stream s) [ns_subject s] FileStorage LimitsPolicy (ns_replicas s));
            match stream with
            | inr err => _ ← nc_Close nc; mret (None, Some err)
            | inl stream => mret (Some (nc, js, stream, ns_subject s), None)
            end
        end
    end.

(** [natsPublisher] *)
Record natsPublisher := mkNatsPublisher { np_nc : nat; np_js : nat; np_subject : string }.

Definition newNATSPublisher (e : environ) (c : ctx) : GoM W (option natsPublisher * option error) :=
  res ← natsConnect e c;
  match res with
  | (_, Some err) => mret (None, Some err)
  | (None, None) => mret (None, None)
  | (Some (nc, js, _, subject), None) => mret (Some (mkNatsPublisher nc js subject), None)
  end.

Definition nats_Publish `{EventCodec} (n : natsPublisher) (c : ctx) (ev : MessageCreated) : GoM W (option error) :=
  match marshal ev with
  | None => mret (Some (ErrText "json"))
  | Some payload => nc_Publish c (np_js n) (np_subject n) payload (FormatInt (ev_ID ev))
  end.

(** [newNATSConsumer]: the connection and the durable consumer. *)
Definition newNATSConsumer (e : environ) (c : ctx) : GoM W ((nat * nat) + error) :=
  res ← natsConnect e c;
  match res with
  | (_, Some err) => mret (inr err)
  | (None, None) => mret (inr (ErrText "не задана переменная NATS_URLS"))
  | (Some (nc, _, stream, _), None) =>
      createCtx ← gets (with_timeout c (15 * Second));
      consumer ← nc_CreateOrUpdateConsumer createCtx stream
                   (mkConsumerConfig (ns_durable (natsSettings e)) true (30 * Second) 512);
      match consumer with
      | inr err => _ ← nc_Close nc; mret (inr err)
      | inl consumer => mret (inl (nc, consumer))
      end
  end.

End Nats.

(** ** The [Publisher] interface *)

Inductive Publisher :=
| KafkaPublisher (writer : KafkaWriter)
| RabbitPublisher (r : rabbitConn)
| NATSPublisher (n : natsPublisher)
| MeasuredPublisher (p : Publisher).

Fixpoint Name (p : Publisher) : string :=
  match p with
  | KafkaPublisher _ => "kafka"
  | RabbitPublisher _ => "rabbitmq"
  | NATSPublisher _ => "nats"
  | MeasuredPublisher p => Name p
  end.

Section Publisher.
Context `{Runtime W, KafkaClient W, Amqp W, NatsClient W}.

(** Run an operation of a connection object, returning the object as it left
    it. *)
Definition with_object {A B} (k : rabbitConn → B) (m : GoM (W * rabbitConn) A) (r : rabbitConn) : GoM W (A * B) := λ w,
  match m (w, r) with
  | Some (a, (w', r')) => Some ((a, k r'), w')
  | None => None
  end.

(** [Publish]: the error, and the publisher as the call left it. *)
Fixpoint Publish `{EventCodec} (p : Publisher) (c : ctx) (ev : MessageCreated) : GoM W (option error * Publisher) :=
  match p with
  | KafkaPublisher writer => err ← kafka_Publish writer c ev; mret (err, p)
  | RabbitPublisher r => with_object RabbitPublisher (rabbit_Publish c ev) r
  | NATSPublisher n => err ← nats_Publish n c ev; mret (err, p)
  | MeasuredPublisher p =>
      start ← gets now;
      res ← Publish p c ev;
      t ← gets now;
      _ ← modify (emit (MObserve "otus_broker_publish_duration_seconds" [Name p] (t - start)));
      let result := match res.1 with None => "ok" | Some _ => "error" end in
      _ ← modify (emit (MInc "otus_broker_published_total" [Name p; result]));
      mret (res.1, MeasuredPublisher res.2)
  end.

Fixpoint Close (p : Publisher) : GoM W (option error * Publisher) :=
  match p with
  | KafkaPublisher writer => err ← k_CloseWriter writer; mret (err, p)
  | RabbitPublisher r => with_object RabbitPublisher rabbit_Close r
  | NATSPublisher n => _ ← nc_Close (np_nc n); mret (None, p)
  | MeasuredPublisher p => res ← Close p; mret (res.1, MeasuredPublisher res.2)
  end.

(** A constructor's result as the interface. *)
Definition as_publisher {A} (k : A → Publisher) (m : GoM W (option A * option error)) : GoM W (option Publisher * option error) :=
  res ← m; mret (k <$> res.1, res.2).

Definition NewPublisher (e : environ) (c : ctx) (name : string) : GoM W (option Publisher * option error) :=
  let made :=
    if bool_decide (name = "kafka") then Some (as_publisher KafkaPublisher (newKafkaPublisher e c))
    else if bool_decide (name = "rabbitmq") then Some (as_publisher RabbitPublisher (newRabbitPublisher e c))
    else if bool_decide (name = "nats") then Some (as_publisher NATSPublisher (newNATSPublisher e c))
    else None in
  match made with
  | None => mret (None, Some (errUnknownBroker name))
  | Some made =>
      res ← made;
      match res with
      | (Some p, None) => mret (Some (MeasuredPublisher p), None)
      | _ => mret res
      end
  end.

(** ** [NewConsumer] *)

Inductive Consumer :=
| KafkaConsumer (reader : nat)
| RabbitConsumer (r : rabbitConn) (prefetch : Z)
| NATSConsumer (nc consumer : nat).

Definition NewConsumer (ParseDuration : string → option Z) (e : environ) (c : ctx) (name : string) : GoM W (Consumer + error) :=
  if bool_decide (name = "kafka") then
    res ← newKafkaConsumer ParseDuration e c;
    mret (match res with inl reader => inl (KafkaConsumer reader) | inr err => inr err end)
  else if bool_decide (name = "rabbitmq") || bool_decide (name = "rabbit") then
    mret (match newRabbitConsumer e with inl (r, prefetch) => inl (RabbitConsumer r prefetch) | inr err => inr err end)
  else if bool_decide (name = "nats") then
    res ← newNATSConsumer e c;
    mret (match res with inl (nc, consumer) => inl (NATSConsumer nc consumer) | inr err => inr err end)
  else mret (inr (errUnknownBroker name)).

(** [Name] and [Close] of the consumers; [Close] returns also the consumer as it
    leaves it. *)
Definition consumer_Name (k : Consumer) : string :=
  match k with KafkaConsumer _ => "kafka" | RabbitConsumer _ _ => "rabbitmq" | NATSConsumer _ _ => "nats" end.

Definition consumer_Close (k : Consumer) : GoM W (option error * Consumer) :=
  match k with
  | KafkaConsumer reader => err ← k_CloseReader reader; mret (err, k)
  | RabbitConsumer r prefetch => with_object (λ r, RabbitConsumer r prefetch) rabbit_Close r
  | NATSConsumer nc _ => _ ← nc_Close nc; mret (None, k)
  end.

End Publisher.
