(* ===== verification/BrokerProps.v ===== *)
(** * BrokerProps: what the publishers guarantee

    The documented behaviour of the three client libraries as a class of laws,
    and the facts about [Brokers] that follow: connections do not leak, and an
    event reported as published has been taken by its broker. *)

From stdpp Require Import base option list strings gmap relations.
From Stdlib Require Import ZArith Lia Ascii.
From S2P Require Import Prelude GoStrings GoPaths Env Messaging Storage Brokers.
Local Open Scope Z_scope.

(** What a client keeps open. *)
Inductive resource := KafkaConn (n : nat) | KafkaReader (n : nat) | NatsConn (n : nat) | Socket (n : nat).

#[export] Instance resource_eq_dec : EqDecision resource.
Proof. solve_decision. Defined.
#[export] Instance resource_countable : Countable resource.
Proof.
  refine (inj_countable'
    (λ r, match r with KafkaConn n => inl (inl n) | KafkaReader n => inl (inr n) | NatsConn n => inr (inl n) | Socket n => inr (inr n) end)
    (λ s, match s with inl (inl n) => KafkaConn n | inl (inr n) => KafkaReader n | inr (inl n) => NatsConn n | inr (inr n) => Socket n end) _).
  by intros [].
Defined.

(** Laws of the client libraries.  [taken w broker destination id payload] says
    that the broker has durably taken a message; [rest] is what the calls keep of
    the rest of the world; the connections [opened] can also close by
    themselves. *)
Class BrokerSpec (W : Type) `{Runtime W, KafkaClient W, Amqp W, NatsClient W} (rest : W → W → Prop) := {
  taken : W → string → string → string → string → Prop;
  confirming : W → nat → Prop;
  durable : W → string → Prop;
  owns : W → nat → nat → Prop;
  pending : W → nat → string → string → string → Prop;
  opened : W → gset resource;

  (** facts that no call undoes *)
  grows (w w' : W) : Prop := rest w w' ∧
    (∀ b d i p, taken w b d i p → taken w' b d i p) ∧ (∀ ch, confirming w ch → confirming w' ch) ∧
    (∀ q, durable w q → durable w' q) ∧ (∀ cn s, owns w cn s → owns w' cn s) ∧
    (∀ cf q i p, pending w cf q i p → pending w' cf q i p);
  idle (w w' : W) : Prop := grows w w' ∧ opened w' ⊆ opened w;
  bs_rest : PreOrder rest;
  bs_frame : Frame idle;

  bs_k_dial : ∀ t c a w, wp (k_Dial t c a) (λ r w', grows w w' ∧
    opened w' ⊆ match r with inl n => {[KafkaConn n]} ∪ opened w | inr _ => opened w end) w;
  bs_k_deadline : ∀ n t w, wp (k_SetDeadline n t) (λ _, idle w) w;
  bs_k_controller : ∀ n w, wp (k_Controller n) (λ _, idle w) w;
  bs_k_close : ∀ n w, wp (k_CloseConn n) (λ _ w', grows w w' ∧ opened w' ⊆ opened w ∖ {[KafkaConn n]}) w;
  bs_k_create : ∀ n tc w, wp (k_CreateTopics n tc) (λ _, idle w) w;
  (** a synchronous write acknowledged by all in-sync replicas *)
  bs_k_write : ∀ wr c m w, wp (k_WriteMessages wr c m) (λ err w', idle w w' ∧
    (kw_RequiredAcks wr = RequireAll → kw_Async wr = false → err = None →
     taken w' "kafka" (kw_Topic wr) (km_Key m) (km_Value m))) w;
  bs_k_close_writer : ∀ wr w, wp (k_CloseWriter wr) (λ _, idle w) w;
  bs_k_reader : ∀ rc w, wp (k_NewReader rc) (λ n w', grows w w' ∧ opened w' ⊆ {[KafkaReader n]} ∪ opened w) w;
  bs_k_close_reader : ∀ n w, wp (k_CloseReader n) (λ _ w', grows w w' ∧ opened w' ⊆ opened w ∖ {[KafkaReader n]}) w;

  bs_n_connect : ∀ u o w, wp (nc_Connect u o) (λ r w', grows w w' ∧
    opened w' ⊆ match r with inl n => {[NatsConn n]} ∪ opened w | inr _ => opened w end) w;
  bs_n_js : ∀ n w, wp (nc_JetStream n) (λ _, idle w) w;
  bs_n_stream : ∀ c js sc w, wp (nc_CreateOrUpdateStream c js sc) (λ _, idle w) w;
  bs_n_consumer : ∀ c st cc w, wp (nc_CreateOrUpdateConsumer c st cc) (λ _, idle w) w;
  (** JetStream acknowledges a message once it is stored *)
  bs_n_publish : ∀ c js subject payload id w, wp (nc_Publish c js subject payload id) (λ err w', idle w w' ∧
    (err = None → taken w' "nats" subject id payload)) w;
  bs_n_close : ∀ n w, wp (nc_Close n) (λ _ w', grows w w' ∧ opened w' ⊆ opened w ∖ {[NatsConn n]}) w;

  bs_a_dial : ∀ c u hb dt w, wp (amqp_DialConfig c u hb dt) (λ r w', grows w w' ∧
    opened w' ⊆ match r.1 with Some s => {[Socket s]} ∪ opened w | None => opened w end ∧
    ∀ cn, r.2 = inl cn → ∃ s, r.1 = Some s ∧ owns w' cn s) w;
  bs_a_channel : ∀ cn w, wp (amqp_Channel cn) (λ _, idle w) w;
  bs_a_declare : ∀ ch q dur ad ex nw args w, wp (amqp_QueueDeclare ch q dur ad ex nw args) (λ err w', idle w w' ∧
    (dur = true → ad = false → nw = false → err = None → durable w' q)) w;
  bs_a_confirm : ∀ ch nw w, wp (amqp_Confirm ch nw) (λ err w', idle w w' ∧
    (nw = false → err = None → confirming w' ch)) w;
  bs_a_close : ∀ cn t w, wp (amqp_CloseDeadline cn t) (λ _ w', grows w w' ∧ opened w' ⊆ opened w ∧
    ∀ s, owns w cn s → opened w' ⊆ opened w ∖ {[Socket s]}) w;
  bs_a_socket : ∀ s w, wp (amqp_CloseSocket s) (λ _ w', grows w w' ∧ opened w' ⊆ opened w ∖ {[Socket s]}) w;
  (** a confirmation is handed out on a channel in confirm mode; persistent
      messages sent to a durable queue through the default exchange are kept once
      confirmed *)
  bs_a_publish : ∀ c ch q m i pb w, wp (amqp_Publish c ch "" q m i pb) (λ r w', idle w w' ∧
    (confirming w ch → r ≠ inl None) ∧
    (∀ cf, r = inl (Some cf) → durable w q → pb_DeliveryMode pb = Persistent →
       pending w' cf q (pb_MessageId pb) (pb_Body pb))) w;
  bs_a_wait : ∀ c cf w, wp (amqp_WaitConfirm c cf) (λ r w', idle w w' ∧
    (∀ q i p, r = inl true → pending w cf q i p → taken w' "rabbitmq" q i p)) w
}.

#[export] Existing Instances bs_rest bs_frame.

Lemma ConfiguredNames_spec e name :
  name ∈ ConfiguredNames e ↔
    (name = "kafka" ∧ ks_brokers (kafkaSettings e) ≠ []) ∨ (name = "rabbitmq" ∧ rs_urls (rabbitSettings e) ≠ []) ∨
    (name = "nats" ∧ ns_urls (natsSettings e) ≠ []).
Proof.
  unfold ConfiguredNames, kafkaSettings, rabbitSettings, natsSettings. cbn.
  repeat case_bool_decide; set_solver.
Qed.

Section Facts.
Context `{BrokerSpec W rest}.

#[export] Instance grows_preorder : PreOrder grows.
Proof.
  split.
  - intros w. unfold grows. split_and!; [reflexivity|auto..].
  - intros w1 w2 w3 (R1 & A1 & B1 & C1 & D1 & E1) (R2 & A2 & B2 & C2 & D2 & E2). unfold grows.
    split_and!; [by transitivity w2|auto..].
Qed.

#[export] Instance idle_preorder : PreOrder idle.
Proof.
  split.
  - intros w. split; reflexivity.
  - intros w1 w2 w3 [G1 O1] [G2 O2]. split; [by transitivity w2|set_solver].
Qed.

Lemma idle_emit m w : idle w (emit m w).
Proof. apply frame_emit. Qed.

Lemma grows_taken w w' b d i p : grows w w' → taken w b d i p → taken w' b d i p.
Proof. intros (_ & Ht & _). apply Ht. Qed.
Lemma grows_confirming w w' ch : grows w w' → confirming w ch → confirming w' ch.
Proof. intros (_ & _ & Hc & _). apply Hc. Qed.
Lemma grows_durable w w' q : grows w w' → durable w q → durable w' q.
Proof. intros (_ & _ & _ & Hd & _). apply Hd. Qed.
Lemma grows_owns w w' cn s : grows w w' → owns w cn s → owns w' cn s.
Proof. intros (_ & _ & _ & _ & Ho & _). apply Ho. Qed.
Lemma grows_pending w w' cf q i p : grows w w' → pending w cf q i p → pending w' cf q i p.
Proof. intros (_ & _ & _ & _ & _ & Hp). apply Hp. Qed.

Hint Resolve grows_taken grows_confirming grows_durable grows_owns grows_pending : otus.

(** Chains of calls that keep the facts. *)
Ltac chain := repeat first [eassumption | reflexivity | etransitivity; [eassumption|]].

(** ** Kafka *)

Lemma ensure_at_idle dialCtx deadline topic partitions replicas addr w :
  wp (ensure_at dialCtx deadline topic partitions replicas addr) (λ _, idle w) w.
Proof.
  unfold ensure_at. wp_call bs_k_dial as conn w1 [G1 O1]. destruct conn as [conn|err]; [|by wp_pure].
  wp_call bs_k_deadline as u w2 [G2 O2]. wp_call bs_k_controller as ctl w3 [G3 O3].
  wp_call bs_k_close as u' w4 [G4 O4].
  assert (idle w w4) as I4 by (split; [chain|set_solver]).
  destruct ctl as [[host port]|err]; [|by wp_pure].
  wp_call bs_k_dial as ctrl w5 [G5 O5]. destruct ctrl as [ctrl|err]; [|wp_pure; transitivity w4; [done|by split]].
  wp_call bs_k_deadline as u'' w6 [G6 O6]. wp_call bs_k_create as err w7 [G7 O7].
  wp_call bs_k_close as u''' w8 [G8 O8]. wp_pure. transitivity w4; [done|].
  split; [chain|set_solver].
Qed.

Lemma ensureTopic_idle c brokers topic partitions replicas w :
  wp (ensureTopic c brokers topic partitions replicas) (λ _, idle w) w.
Proof.
  unfold ensureTopic. wp_pure. generalize (None : option error). generalize (with_timeout c (15 * Second) w).
  intros dc. generalize (default zero_time (ctx_Deadline dc)). intros dl.
  assert (idle w w) as Hw by reflexivity. revert Hw. generalize w at 2 4. revert brokers.
  induction brokers as [|addr rest' IH]; intros w1 Hw1 le; cbn [ensure_loop]; [by wp_pure|].
  wp_call ensure_at_idle as err w2 I2. destruct err as [err|]; [apply IH|wp_pure]; by transitivity w1.
Qed.

(** ** NATS *)

Lemma natsConnect_opens e c w :
  wp (natsConnect e c) (λ res w', grows w w' ∧
    match res with
    | (Some (nc, _, _, subject), err) => err = None ∧ ns_urls (natsSettings e) ≠ [] ∧
        subject = ns_subject (natsSettings e) ∧ opened w' ⊆ {[NatsConn nc]} ∪ opened w
    | (None, err) => opened w' ⊆ opened w ∧ (err = None → ns_urls (natsSettings e) = [])
    end) w.
Proof.
  unfold natsConnect. case_bool_decide as Hu; [by wp_pure|].
  wp_call bs_n_connect as nc w1 [G1 O1]. destruct nc as [nc|err]; [|by wp_pure].
  wp_call bs_n_js as js w2 [G2 O2]. destruct js as [js|err].
  - wp_pure. wp_call bs_n_stream as stream w3 [G3 O3]. destruct stream as [stream|err].
    + wp_pure. split; [chain|]. split_and!; [done..|set_solver].
    + wp_call bs_n_close as u w4 [G4 O4]. wp_pure. split; [chain|]. split; [set_solver|done].
  - wp_call bs_n_close as u w4 [G4 O4]. wp_pure. split; [chain|]. split; [set_solver|done].
Qed.

(** ** RabbitMQ *)

Definition rabbit_held (r : rabbitConn) : gset resource :=
  match rb_socket r with Some s => {[Socket s]} | None => ∅ end.

(** The fields are set together, to a connection whose socket is the stored one
    and a channel, in confirm mode if asked for, on which the queue was
    declared. *)
Definition rabbit_ok (confirm : bool) (w : W) (r : rabbitConn) : Prop :=
  match rb_conn r, rb_ch r, rb_socket r with
  | Some cn, Some ch, Some s => owns w cn s ∧ (confirm = true → confirming w ch) ∧ durable w (rb_queue r)
  | None, None, None => True
  | _, _, _ => False
  end.

Lemma rabbit_ok_grows confirm w w' r : grows w w' → rabbit_ok confirm w r → rabbit_ok confirm w' r.
Proof.
  intros G. unfold rabbit_ok. destruct (rb_conn r), (rb_ch r), (rb_socket r); [|done..].
  intros (? & ? & ?). split_and!; eauto with otus.
Qed.

(** What an operation on a connection object does to it. *)
Definition moved (s s' : W * rabbitConn) : Prop :=
  grows s.1 s'.1 ∧ rb_urls s'.2 = rb_urls s.2 ∧ rb_queue s'.2 = rb_queue s.2 ∧
  opened s'.1 ⊆ (opened s.1 ∖ rabbit_held s.2) ∪ rabbit_held s'.2.

#[export] Instance moved_trans : Transitive moved.
Proof.
  intros [w1 r1] [w2 r2] [w3 r3] (G1 & U1 & Q1 & O1) (G2 & U2 & Q2 & O2). cbn in *.
  split_and!; cbn; [chain|congruence|congruence|]. set_solver.
Qed.

Lemma moved_idle w w' r : idle w w' → moved (w, r) (w', r).
Proof.
  intros [G O]. split_and!; cbn; [done..|]. intros x Hx. destruct (decide (x ∈ rabbit_held r)); set_solver.
Qed.

Lemma open_fail_closes {A} socket err w0 w1 :
  grows w0 w1 → opened w1 ⊆ match socket with Some s => {[Socket s]} ∪ opened w0 | None => opened w0 end →
  wp (open_fail (A := A) socket err) (λ res w', res = inr err ∧ idle w0 w') w1.
Proof.
  intros G O. unfold open_fail. destruct socket as [s|]; [|by wp_pure].
  wp_call bs_a_socket as u w2 [G2 O2]. wp_pure. split; [done|]. split; [chain|set_solver].
Qed.

Lemma openRabbitChannel_opens c url queue confirm w :
  wp (openRabbitChannel c url queue confirm) (λ res w',
    match res with
    | inl (cn, ch, sk) => ∃ s, sk = Some s ∧ grows w w' ∧ owns w' cn s ∧ (confirm = true → confirming w' ch) ∧
        durable w' queue ∧ opened w' ⊆ {[Socket s]} ∪ opened w
    | inr _ => idle w w'
    end) w.
Proof.
  unfold openRabbitChannel. wp_pure. wp_call bs_a_dial as dialled w1 (G1 & O1 & Hconn).
  destruct dialled as [sk [cn|err]]; cbn [fst snd] in *.
  2:{ eapply wp_conseq; [by apply open_fail_closes|]. by intros res w' [-> ?]. }
  destruct (Hconn cn eq_refl) as (s & -> & Hown).
  assert (∀ w2 err, grows w w2 → opened w2 ⊆ {[Socket s]} ∪ opened w →
    wp (open_fail (A := nat * nat * option nat) (Some s) err) (λ res w',
    match res with
    | inl (cn, ch, sk) => ∃ s, sk = Some s ∧ grows w w' ∧ owns w' cn s ∧ (confirm = true → confirming w' ch) ∧
        durable w' queue ∧ opened w' ⊆ {[Socket s]} ∪ opened w
    | inr _ => idle w w'
    end) w2) as Hfail.
  { intros w2 err G O. eapply wp_conseq; [by apply open_fail_closes|]. by intros res w' [-> ?]. }
  wp_call bs_a_channel as ch w2 [G2 O2]. destruct ch as [ch|err]; [|apply Hfail; [chain|set_solver]].
  wp_call bs_a_declare as err w3 ([G3 O3] & Hdur). destruct err as [err|]; [apply Hfail; [chain|set_solver]|].
  assert (wp (if confirm then amqp_Confirm ch false else mret None)
    (λ err w4, idle w3 w4 ∧ (confirm = true → err = None → confirming w4 ch)) w3) as Hc.
  { destruct confirm; [|by wp_pure]. eapply wp_conseq; [apply bs_a_confirm|]. naive_solver. }
  wp_call Hc as err w4 ([G4 O4] & Hcf). destruct err as [err|]; [apply Hfail; [chain|set_solver]|].
  wp_pure. exists s. split_and!; [done|chain| | |eauto with otus|set_solver]; [|auto].
  do 3 (eapply grows_owns; [eassumption|]). done.
Qed.

Lemma closeLocked_closes confirm w r :
  rabbit_ok confirm w r → wp closeLocked (λ _ s', moved (w, r) s' ∧ s'.2 = rb_set None None None r) (w, r).
Proof.
  intros Hok. unfold closeLocked. wp_pure. cbn [snd]. unfold rabbit_ok in Hok. unfold rb_upd.
  destruct (rb_conn r) as [cn|] eqn:Ec, (rb_ch r) as [ch|] eqn:Ech, (rb_socket r) as [s|] eqn:Es; try done.
  - apply wp_bind. wp_pure. apply wp_on_fst. eapply wp_conseq; [apply bs_a_close|].
    intros u w1 (G & _ & O). wp_pure. cbn. split; [|done]. destruct Hok as (Hown & _ & _).
    split_and!; cbn; [done..|]. unfold rabbit_held at 1. rewrite Es. specialize (O s Hown). set_solver.
  - wp_pure. cbn. split; [|done]. split_and!; cbn; [reflexivity|done..|].
    unfold rabbit_held at 1. rewrite Es. set_solver.
Qed.

Lemma open_first_opens c confirm urls le w r :
  rabbit_ok confirm w r → rabbit_held r = ∅ →
  wp (open_first c confirm urls le) (λ res s', moved (w, r) s' ∧ rabbit_ok confirm s'.1 s'.2 ∧
    match res with inl ch => rb_ch s'.2 = Some ch | inr _ => s'.2 = r end) (w, r).
Proof.
  revert le w. induction urls as [|url urls IH]; intros le w Hok Hh; cbn [open_first].
  { wp_pure. cbn. split; [apply moved_idle; reflexivity|done]. }
  wp_pure. wp_call openRabbitChannel_opens as res w1 Hres. cbn [snd] in *.
  destruct res as [[[cn ch] sk]|err].
  - destruct Hres as (s & -> & G & Hown & Hcf & Hd & O). unfold rb_upd. wp_pure. cbn.
    split; [|split; [unfold rabbit_ok; cbn; auto|done]]. split_and!; cbn; [done..|]. rewrite Hh. unfold rabbit_held; cbn. set_solver.
  - eapply wp_conseq; [apply IH; [|done]; eapply rabbit_ok_grows; [apply Hres|done]|].
    intros res s' (M & Hok' & Hm). split; [|done]. by transitivity (w1, r); [apply moved_idle|].
Qed.

(** A channel to publish on or to read from. *)
Lemma rabbit_channel_opens c confirm w r :
  rabbit_ok confirm w r →
  wp (rabbit_channel c confirm) (λ res s', moved (w, r) s' ∧ rabbit_ok confirm s'.1 s'.2 ∧
    match res with inl ch => rb_ch s'.2 = Some ch | inr _ => rabbit_held s'.2 = ∅ end) (w, r).
Proof.
  intros Hok. unfold rabbit_channel. wp_pure. cbn [fst snd].
  destruct (open_channel (w, r)) as [ch|] eqn:Ea; unfold open_channel in Ea; cbn in Ea.
  { wp_pure. cbn. split; [apply moved_idle; reflexivity|]. split; [done|].
    destruct (rb_ch r), (rb_conn r); try done. destruct (_ || _); congruence. }
  wp_call (closeLocked_closes confirm w r) as u [w1 r1] [M Hr1]; [done|]. cbn in Hr1. subst r1.
  eapply wp_conseq; [by apply open_first_opens|]. intros res s' (M' & Hok' & Hm).
  split; [by etransitivity|]. split; [done|]. destruct res; [done|by rewrite Hm].
Qed.

Lemma publish_loop_confirms n c ev payload le w r :
  rabbit_ok true w r → (n = 0%nat → le ≠ None) →
  wp (publish_loop n c ev payload le) (λ err s', moved (w, r) s' ∧ rabbit_ok true s'.1 s'.2 ∧
    (err = None → taken s'.1 "rabbitmq" (rb_queue r) (FormatInt (ev_ID ev)) payload)) (w, r).
Proof.
  revert le w r. induction n as [|n IH]; intros le w r Hok Hle; cbn [publish_loop].
  { wp_pure. cbn. split; [apply moved_idle; reflexivity|]. split; [done|]. by intros ->; specialize (Hle eq_refl). }
  wp_call (rabbit_channel_opens c true w r) as ch [w1 r1] (M1 & Hok1 & Hch); [done|]. cbn [fst snd] in *.
  pose proof M1 as (_ & _ & Hq & _). cbn in Hq.
  destruct ch as [ch|err].
  2:{ eapply wp_conseq; [apply IH; [done|done]|]. intros err' s' (M' & Hok' & Ht). rewrite Hq in Ht.
      split; [by etransitivity|done]. }
  wp_pure. cbn [snd]. wp_call bs_a_publish as conf w2 (I2 & Hnn & Hpend).
  assert (rabbit_ok true w2 r1) as Hok2 by (eapply rabbit_ok_grows; [apply I2|done]).
  pose proof (moved_idle _ _ r1 I2) as M2.
  destruct conf as [[conf|]|err].
  - wp_call bs_a_wait as ok w3 (I3 & Ht). wp_pure. cbn.
    split; [transitivity (w1, r1); [done|]; transitivity (w2, r1); [done|]; by apply moved_idle|].
    split; [eapply rabbit_ok_grows; [apply I3|done]|].
    destruct ok as [[]|]; [|done..]. intros _. apply Ht; [done|]. rewrite <- Hq. apply Hpend; [done| |done].
    unfold rabbit_ok in Hok1. rewrite Hch in Hok1. by destruct (rb_conn r1), (rb_socket r1); destruct_and?.
  - exfalso. apply Hnn; [|done]. unfold rabbit_ok in Hok1. rewrite Hch in Hok1.
    destruct (rb_conn r1), (rb_socket r1); try done. by apply Hok1.
  - wp_call (closeLocked_closes true w2 r1) as u [w3 r3] [M3 Hr3]; [done|]. cbn in Hr3. subst r3.
    eapply wp_conseq; [apply IH; [done|done]|]. intros err' s' (M' & Hok' & Ht). cbn in Ht. rewrite Hq in Ht.
    split; [|done]. transitivity (w1, r1); [done|]. transitivity (w2, r1); [done|]. by etransitivity.
Qed.

(** ** The [Publisher] interface *)

Context `{EventCodec}.
Variable e : environ.

(** Where a broker's events go. *)
Definition destination (broker : string) : string :=
  if bool_decide (broker = "kafka") then ks_topic (kafkaSettings e)
  else if bool_decide (broker = "rabbitmq") then rs_queue (rabbitSettings e)
  else ns_subject (natsSettings e).

(** The broker has the event, under the message's id. *)
Definition delivered (w : W) (broker : string) (ev : MessageCreated) : Prop :=
  ∃ payload, marshal ev = Some payload ∧ taken w broker (destination broker) (FormatInt (ev_ID ev)) payload.

Fixpoint held (p : Publisher) : gset resource :=
  match p with
  | KafkaPublisher _ => ∅
  | RabbitPublisher r => rabbit_held r
  | NATSPublisher n => {[NatsConn (np_nc n)]}
  | MeasuredPublisher p => held p
  end.

Fixpoint publisher_ok (w : W) (p : Publisher) : Prop :=
  match p with
  | KafkaPublisher writer => writer = kafka_writer (ks_brokers (kafkaSettings e)) (ks_topic (kafkaSettings e))
  | RabbitPublisher r => rb_queue r = rs_queue (rabbitSettings e) ∧ rabbit_ok true w r
  | NATSPublisher n => np_subject n = ns_subject (natsSettings e)
  | MeasuredPublisher p => publisher_ok w p
  end.

Lemma publisher_ok_grows w w' p : grows w w' → publisher_ok w p → publisher_ok w' p.
Proof.
  intros G. induction p; cbn; [done| |done|done]. intros [? ?]. split; [done|]. by eapply rabbit_ok_grows.
Qed.

Lemma delivered_grows w w' broker ev : grows w w' → delivered w broker ev → delivered w' broker ev.
Proof. intros G (payload & ? & ?). exists payload. eauto with otus. Qed.

(** What publishing and closing do to a publisher. *)
Definition publisher_step (w w' : W) (p p' : Publisher) : Prop :=
  grows w w' ∧ publisher_ok w' p' ∧ Name p' = Name p ∧ opened w' ⊆ (opened w ∖ held p) ∪ held p'.

Lemma step_idle w w' p : publisher_ok w p → idle w w' → publisher_step w w' p p.
Proof.
  intros Hok [G O]. split_and!; [done|by eapply publisher_ok_grows|done|].
  intros x Hx. destruct (decide (x ∈ held p)); set_solver.
Qed.

Lemma with_object_wp {A} (m : GoM (W * rabbitConn) A) r (Q : A * Publisher → W → Prop) w :
  wp m (λ a s', Q (a, RabbitPublisher s'.2) s'.1) (w, r) → wp (with_object RabbitPublisher m r) Q w.
Proof.
  intros (a & [w' r'] & E & HQ). exists (a, RabbitPublisher r'), w'. unfold with_object. by rewrite E.
Qed.

(** A publication reported as successful has been taken, in every branch. *)
Lemma Publish_delivers c ev p w :
  publisher_ok w p →
  wp (Publish p c ev) (λ res w', publisher_step w w' p res.2 ∧ (res.1 = None → delivered w' (Name p) ev)) w.
Proof.
  revert w. induction p as [writer|r|n|p IH]; intros w Hok; cbn [Publish].
  - unfold kafka_Publish. destruct (marshal ev) as [payload|] eqn:Em.
    2:{ wp_pure. cbn. split; [apply step_idle; [done|reflexivity]|done]. }
    cbn in Hok. subst writer. apply wp_bind. wp_pure. eapply wp_conseq; [apply bs_k_write|].
    intros err w1 (I & Ht). wp_pure. cbn [fst snd]. split; [by apply step_idle|]. intros ->. exists payload. split; [done|].
    by apply Ht.
  - apply with_object_wp. unfold rabbit_Publish. destruct (marshal ev) as [payload|] eqn:Em.
    2:{ wp_pure. cbn. split; [apply step_idle; [done|reflexivity]|done]. }
    destruct Hok as [Hq Hok]. eapply wp_conseq; [by apply publish_loop_confirms|].
    intros err [w1 r1] ((G & _ & Hq' & O) & Hok' & Ht). cbn in *.
    split; [unfold publisher_step; cbn; rewrite Hq', Hq; done|]. intros ->. exists payload. split; [done|].
    unfold destination. cbn. rewrite <- Hq. by apply Ht.
  - unfold nats_Publish. destruct (marshal ev) as [payload|] eqn:Em.
    2:{ wp_pure. cbn. split; [apply step_idle; [done|reflexivity]|done]. }
    wp_call bs_n_publish as err w1 (I & Ht). wp_pure. cbn [fst snd]. split; [by apply step_idle|]. intros ->.
    exists payload. split; [done|]. unfold destination. cbn. rewrite <- Hok. by apply Ht.
  - wp_pure. wp_call IH as res w1 ((G & Hok' & Hn & O) & Hd); [done|]. wp_pure. cbn.
    match goal with |- context [emit ?m (emit ?m' w1)] => assert (idle w1 (emit m (emit m' w1))) as [G1 O1]
      by (etransitivity; apply idle_emit) end.
    split; [split_and!; [chain|by eapply publisher_ok_grows|done|cbn; set_solver]|].
    intros Hr. eapply delivered_grows; [exact G1|by apply Hd].
Qed.

Lemma Close_closes p w :
  publisher_ok w p →
  wp (Close p) (λ res w', grows w w' ∧ publisher_ok w' res.2 ∧ Name res.2 = Name p ∧ opened w' ⊆ opened w ∖ held p) w.
Proof.
  revert w. induction p as [writer|r|n|p IH]; intros w Hok; cbn [Close].
  - wp_call bs_k_close_writer as err w1 (G & O). wp_pure. cbn. split_and!; [done|done|done|set_solver].
  - apply with_object_wp. unfold rabbit_Close. destruct Hok as [Hq Hok].
    wp_call (closeLocked_closes true w r) as u [w1 r1] [(G & _ & _ & O) Hr]; [done|]. cbn in Hr, O, G. subst r1.
    wp_pure. cbn. split_and!; [done|done|done|done|set_solver].
  - wp_call bs_n_close as u w1 (G & O). wp_pure. cbn. done.
  - wp_call IH as res w1 (G & Hok' & Hn & O); [done|]. wp_pure. cbn. done.
Qed.

(** ** Making publishers *)

Definition made (w w' : W) (name : string) (res : option Publisher * option error) : Prop :=
  grows w w' ∧
  match res with
  | (Some p, err) => err = None ∧ publisher_ok w' p ∧ Name p = name ∧ opened w' ⊆ held p ∪ opened w
  | (None, err) => opened w' ⊆ opened w ∧ (err = None → name ∉ ConfiguredNames e)
  end.

Lemma NewPublisher_makes c name w : wp (NewPublisher e c name) (λ res w', made w w' name res) w.
Proof.
  unfold NewPublisher. case_bool_decide as Ek; [|case_bool_decide as Er; [|case_bool_decide as En]].
  4:{ wp_pure. split; [reflexivity|]. split; [done|]. by intros _ Hn%ConfiguredNames_spec; naive_solver. }
  all: subst name; unfold as_publisher; apply wp_bind.
  - apply wp_bind. unfold newKafkaPublisher. case_bool_decide as Hb.
    { wp_pure. cbn. wp_pure. split; [reflexivity|]. split; [done|]. by intros _ Hn%ConfiguredNames_spec; naive_solver. }
    wp_call ensureTopic_idle as err w1 [G O]. destruct err as [err|]; wp_pure; cbn; wp_pure; (split; [done|]); [done|].
    cbn. split_and!; [done..|set_solver].
  - apply wp_bind. unfold newRabbitPublisher. case_bool_decide as Hb.
    { wp_pure. cbn. wp_pure. split; [reflexivity|]. split; [done|]. by intros _ Hn%ConfiguredNames_spec; naive_solver. }
    destruct (rabbit_channel_opens c true w (mkRabbitConn (rs_urls (rabbitSettings e)) (rs_queue (rabbitSettings e)) None None None))
      as (ch & [w1 r1] & E & (G & _ & Hq & O) & Hok & Hch); [done|]. cbn in G, Hq, O, Hok, Hch.
    unfold wp at 1. rewrite E. destruct ch as [ch|err].
    + eexists _, _. split; [done|]. wp_pure. cbn. wp_pure. split; [done|]. cbn. split_and!; [done..|]. set_solver.
    + eexists _, _. split; [done|]. wp_pure. cbn. wp_pure. split; [done|]. split; [|done]. rewrite Hch in O. set_solver.
  - apply wp_bind. unfold newNATSPublisher. wp_call natsConnect_opens as res w1 (G & Hres).
    destruct res as [[[[[nc js] stream] subject]|] [err|]]; destruct_and?; simplify_eq; wp_pure; cbn; wp_pure;
      (split; [done|]); cbn; [split_and!; [done..|set_solver]|done|]. split; [done|].
    intros _ Hn%ConfiguredNames_spec. naive_solver.
Qed.

Definition consumer_held (k : Consumer) : gset resource :=
  match k with
  | KafkaConsumer reader => {[KafkaReader reader]}
  | RabbitConsumer r _ => rabbit_held r
  | NATSConsumer nc _ => {[NatsConn nc]}
  end.

Definition consumer_ok (w : W) (k : Consumer) : Prop :=
  match k with RabbitConsumer r _ => rabbit_ok false w r | _ => True end.

Lemma consumer_Close_closes k w :
  consumer_ok w k → wp (consumer_Close k) (λ _ w', grows w w' ∧ opened w' ⊆ opened w ∖ consumer_held k) w.
Proof.
  destruct k as [rd|r prefetch|nc cons]; intros Hok; cbn [consumer_Close consumer_held].
  - wp_call bs_k_close_reader as err w1 (G & O). by wp_pure.
  - unfold rabbit_Close. destruct (closeLocked_closes false w r Hok) as (u & [w1 r1] & E & (G & _ & _ & O) & Hr). cbn in *. subst r1.
    exists (None, RabbitConsumer (rb_set None None None r) prefetch), w1. unfold with_object. rewrite (gom_bind_run _ _ _ _ _ E).
    split; [done|]. split; [done|]. set_solver.
  - wp_call bs_n_close as u w1 (G & O). by wp_pure.
Qed.

Lemma NewConsumer_makes pd c name w :
  wp (NewConsumer pd e c name) (λ res w', grows w w' ∧
    match res with inl k => consumer_ok w' k ∧ opened w' ⊆ consumer_held k ∪ opened w | inr _ => opened w' ⊆ opened w end) w.
Proof.
  unfold NewConsumer. case_bool_decide; [|destruct (_ || _); [|case_bool_decide]].
  - apply wp_bind. unfold newKafkaConsumer. case_bool_decide; [wp_pure; split; reflexivity|].
    wp_call ensureTopic_idle as err w1 [G1 O1]. wp_pure. wp_call bs_k_reader as rd w2 [G2 O2]. wp_pure.
    split; [chain|]. split; [done|set_solver].
  - wp_pure. unfold newRabbitConsumer. case_bool_decide; (split; [reflexivity|]); [done|]. split; [done|set_solver].
  - apply wp_bind. unfold newNATSConsumer. wp_call natsConnect_opens as res w1 (G & Hres).
    destruct res as [[[[[nc js] stream] subject]|] [err|]]; destruct_and?; simplify_eq; [|wp_pure; by split..].
    wp_pure. wp_call bs_n_consumer as k w2 [G2 O2]. destruct k as [k|err].
    + wp_pure. split; [chain|]. split; [done|set_solver].
    + wp_call bs_n_close as u w3 [G3 O3]. wp_pure. split; [chain|set_solver].
  - wp_pure. split; reflexivity.
Qed.

End Facts.

(** C10: An event reported as published has been taken.  Whichever broker a
    publisher speaks to and whatever its client library answers, [Publish] does
    not panic; when it returns no error the broker has durably taken the event
    under its id, at the configured topic, queue or subject; and the publisher
    remains usable. *)
Theorem publish_means_taken `{BrokerSpec W rest, EventCodec} (e : environ) (p : Publisher) (c : ctx)
    (ev : MessageCreated) (w : W) :
  publisher_ok e w p →
  ∃ err p' w', Publish p c ev w = Some ((err, p'), w') ∧ publisher_ok e w' p' ∧ Name p' = Name p ∧
    (err = None → delivered e w' (Name p) ev).
Proof.
  intros Hok. destruct (Publish_delivers e c ev p w Hok) as ([err p'] & w' & E & (_ & Hok' & Hn & _) & Hd).
  exists err, p', w'. done.
Qed.

(** C19: Connections do not leak.  A constructor that fails leaves nothing open, one
    that succeeds at most the connection of the object it returns; publishing,
    with all its reconnecting, leaves at most the connection the publisher holds
    afterwards; closing leaves none. *)
Theorem brokers_leak_nothing `{BrokerSpec W rest, EventCodec} (e : environ) (c : ctx) (w : W) :
  (∀ name, ∃ res w', NewPublisher e c name w = Some (res, w') ∧
     opened w' ⊆ match res.1 with Some p => held p ∪ opened w | None => opened w end) ∧
  (∀ pd name, ∃ res w', NewConsumer pd e c name w = Some (res, w') ∧
     opened w' ⊆ match res with inl k => consumer_held k ∪ opened w | inr _ => opened w end ∧
     ∀ k, res = inl k → ∃ res' w2, consumer_Close k w' = Some (res', w2) ∧ opened w2 ⊆ opened w) ∧
  (∀ p, publisher_ok e w p →
     (∀ ev, ∃ res w', Publish p c ev w = Some (res, w') ∧ opened w' ⊆ (opened w ∖ held p) ∪ held res.2) ∧
     (∃ res w', Close p w = Some (res, w') ∧ opened w' ⊆ opened w ∖ held p)).
Proof.
  split_and!.
  - intros name. destruct (NewPublisher_makes e c name w) as ([p err] & w' & E & _ & Hm).
    eexists _, _. split; [done|]. cbn. destruct p as [p|]; by destruct_and?.
  - intros pd name. destruct (NewConsumer_makes e pd c name w) as (res & w' & E & _ & Hm). exists res, w'. split; [done|].
    destruct res as [k|err]; [|done]. destruct Hm as [Hok O]. split; [done|]. intros k' [= <-].
    destruct (consumer_Close_closes k w' Hok) as (res' & w2 & E2 & _ & O2). exists res', w2. split; [done|set_solver].
  - intros p Hok. split.
    + intros ev. destruct (Publish_delivers e c ev p w Hok) as (res & w' & E & (_ & _ & _ & O) & _). eauto.
    + destruct (Close_closes e p w Hok) as (res & w' & E & _ & _ & _ & O). eauto.
Qed.

(** ** Selection by name *)


(** The brokers the outbox is filled for are those that can be published to.
    Every configured name passes the outbox's check on targets, occurs once, and
    [NewPublisher] makes a publisher of that broker for it or reports an error,
    never nothing; a known broker that is not configured yields neither; another
    name is an error. *)
Theorem configured_targets_served `{BrokerSpec W rest} (e : environ) (c : ctx) (w : W) :
  NoDup (ConfiguredNames e) ∧
  (∀ name, name ∈ ConfiguredNames e → target_allowed name = true ∧
     ∃ p err w', NewPublisher e c name w = Some ((p, err), w') ∧
       match p with Some p => err = None ∧ Name p = name | None => err ≠ None end) ∧
  (∀ name, name ∈ ["kafka"; "rabbitmq"; "nats"] → name ∉ ConfiguredNames e →
     NewPublisher e c name w = Some ((None, None), w)) ∧
  (∀ name, name ∉ ["kafka"; "rabbitmq"; "nats"] →
     NewPublisher e c name w = Some ((None, Some (errUnknownBroker name)), w)).
Proof.
  split; [|split; [|split]].
  - unfold ConfiguredNames. cbn. repeat case_bool_decide; cbn; repeat constructor; set_solver.
  - intros name Hn. apply ConfiguredNames_spec in Hn. split; [by destruct Hn as [[-> _]|[[-> _]|[-> _]]]|].
    destruct (NewPublisher_makes e c name w) as ([p err] & w' & E & _ & Hm). exists p, err, w'. split; [done|].
    destruct p as [p|]; [by destruct_and?|]. intros ->. destruct Hm as [_ Hm]. by apply Hm, ConfiguredNames_spec.
  - intros name Hk Hn. assert (name = "kafka" ∨ name = "rabbitmq" ∨ name = "nats") as Hk' by set_solver.
    rewrite ConfiguredNames_spec in Hn. destruct Hk' as [-> | [-> | ->]].
    + assert (ks_brokers (kafkaSettings e) = []) as Hb by (apply dec_stable; intros ?; apply Hn; auto).
      unfold NewPublisher, as_publisher, newKafkaPublisher. by rewrite Hb.
    + assert (rs_urls (rabbitSettings e) = []) as Hb by (apply dec_stable; intros ?; apply Hn; auto).
      unfold NewPublisher, as_publisher, newRabbitPublisher. by rewrite Hb.
    + assert (ns_urls (natsSettings e) = []) as Hb by (apply dec_stable; intros ?; apply Hn; auto).
      unfold NewPublisher, as_publisher, newNATSPublisher, natsConnect. by rewrite Hb.
  - intros name Hn. unfold NewPublisher. rewrite !bool_decide_false by set_solver. done.
Qed.

(** ** Failover of RabbitMQ *)

(** The nodes [up] answer everything asked of them; a channel to a node that is
    gone refuses to publish. *)
Class AmqpUp (W : Type) `{Runtime W, Amqp W} (up : string → Prop) := {
  linked : W → nat → Prop;
  works : W → nat → Prop;
  acked : W → nat → Prop;
  up_dial : ∀ c u hb dt w, wp (amqp_DialConfig c u hb dt) (λ r w',
    match r.2 with inl cn => linked w' cn | inr _ => ¬ up u end) w;
  up_channel : ∀ cn w, linked w cn → wp (amqp_Channel cn) (λ r w', ∃ ch, r = inl ch ∧ works w' ch) w;
  up_declare : ∀ ch q d a x n args w, works w ch →
    wp (amqp_QueueDeclare ch q d a x n args) (λ r w', r = None ∧ works w' ch) w;
  up_confirm : ∀ ch n w, works w ch → wp (amqp_Confirm ch n) (λ r w', r = None ∧ works w' ch) w;
  up_publish : ∀ c ch x q m i pb w, wp (amqp_Publish c ch x q m i pb) (λ r w',
    match r with inl (Some cf) => acked w' cf | inl None => False | inr _ => ¬ works w ch end) w;
  up_wait : ∀ c cf w, acked w cf → wp (amqp_WaitConfirm c cf) (λ r _, r = inl true) w;
  up_close : ∀ cn t w, wp (amqp_CloseDeadline cn t) (λ _ _, True) w;
  up_socket : ∀ s w, wp (amqp_CloseSocket s) (λ _ _, True) w
}.

Section Failover.
Context `{AmqpUp W up}.

Lemma open_up c url q w :
  wp (openRabbitChannel c url q true) (λ r w',
    match r with inl (_, ch, _) => works w' ch | inr _ => ¬ up url end) w.
Proof.
  unfold openRabbitChannel. wp_pure. wp_call up_dial as [sk [cn|err]] w1 Hd; cbn in Hd |- *.
  - wp_call up_channel as ch w2 (n & -> & Hw); [done|]. wp_call up_declare as err w3 (-> & Hw'); [done|].
    wp_call up_confirm as err w4 (-> & Hw''); [done|]. by wp_pure.
  - unfold open_fail. destruct sk as [s|]; [|by wp_pure]. wp_call up_socket as u w2 _. by wp_pure.
Qed.

Lemma close_up s : wp closeLocked (λ _ s', s'.2 = rb_set None None None s.2) s.
Proof.
  destruct s as [w r]. unfold closeLocked, rb_upd. wp_pure. cbn [snd].
  destruct (rb_conn r) as [cn|]; apply wp_bind; wp_pure; [|done].
  apply wp_on_fst. eapply wp_conseq; [apply up_close|]. intros u w1 _. by wp_pure.
Qed.

Lemma open_first_up c urls le s :
  (∃ u, u ∈ urls ∧ up u) → wp (open_first c true urls le) (λ r s', ∃ ch, r = inl ch ∧ works s'.1 ch) s.
Proof.
  destruct s as [w r]. revert le w. induction urls as [|u urls IH]; intros le w (u' & Hu & Hup); [set_solver|].
  cbn [open_first]. wp_pure. wp_call open_up as res w1 Hres. destruct res as [[[cn ch] sk]|err].
  - unfold rb_upd. wp_pure. eauto.
  - apply IH. exists u'. split; [|done]. apply elem_of_cons in Hu as [->|Hu]; [by destruct Hres|done].
Qed.

(** The channel obtained works, or is the one held before. *)
Lemma channel_up c s :
  (∃ u, u ∈ rb_urls s.2 ∧ up u) →
  wp (rabbit_channel c true) (λ r s', ∃ ch, r = inl ch ∧ (works s'.1 ch ∨ (s' = s ∧ rb_ch s.2 = Some ch))) s.
Proof.
  intros Hu. unfold rabbit_channel. wp_pure. destruct (open_channel s) as [ch|] eqn:Ea.
  - wp_pure. exists ch. split; [done|]. right. split; [done|]. unfold open_channel in Ea. by repeat case_match; simplify_eq.
  - wp_call close_up as u s1 _. eapply wp_conseq; [by apply open_first_up|]. naive_solver.
Qed.

(** One attempt: published, or the held channel was dropped and one attempt less
    is left. *)
Lemma publish_attempt_up n c ev payload le s :
  (∃ u, u ∈ rb_urls s.2 ∧ up u) →
  (rb_ch s.2 ≠ None → ∀ le w, wp (publish_loop n c ev payload le) (λ err _, err = None) (w, rb_set None None None s.2)) →
  wp (publish_loop (S n) c ev payload le) (λ err _, err = None) s.
Proof.
  intros Hu Hnext. cbn [publish_loop]. wp_call channel_up as r [w1 r1] (ch & -> & Hw); [done|]. wp_pure.
  wp_call up_publish as conf w2 Hconf. destruct conf as [[cf|]|err]; [|done|].
  { wp_call up_wait as ok w3 ->; [done|]. by wp_pure. }
  destruct Hw as [Hw|[<- Hch]]; [done|]. wp_call close_up as u [w3 r3] Hr3. cbn in Hr3. subst r3.
  apply Hnext. cbn in *. congruence.
Qed.

End Failover.

