(* ===== verification/BrokerWorker.v ===== *)
(** * BrokerWorker: the outbox worker with the brokers' publishers

    [cmd/app] gives the workers of [internal/outbox] the factory
    [broker.NewPublisher].  Here the interface [Publishers] of [OutboxWorker] is
    implemented by [Brokers], its laws are discharged from those of the client
    libraries, and the worker's guarantee is restated end to end. *)

From stdpp Require Import base option list strings gmap relations.
From Stdlib Require Import ZArith Lia Ascii.
From S2P Require Import Prelude GoStrings GoPaths Env Messaging EventJson Storage Retry StorageProps OutboxWorker PostgresWorker.
From S2P Require Import Brokers BrokerProps.
Local Open Scope Z_scope.

(** The publishers allocated, and those not closed yet. *)
Record pheap := mkHeap { ph_objs : gmap nat Publisher; ph_live : gset nat }.
Definition heap0 : pheap := mkHeap ∅ ∅.

Definition ph_store (h : nat) (p : Publisher) (l : pheap) : pheap := mkHeap (<[h := p]> (ph_objs l)) (ph_live l).

Section Factory.
Context `{Runtime W, KafkaClient W, Amqp W, NatsClient W, EventCodec}.
Variable e : environ.

(** The factory of [run] in [cmd/app/main.go]. *)
Definition app_factory (c : ctx) (name : string) : GoM (W * pheap) (option nat * option error) :=
  res ← on_fst (NewPublisher e c name);
  match res with
  | (None, err) => mret (None, err)
  | (Some p, err) =>
      l ← gets snd;
      let h := fresh (dom (ph_objs l) ∪ ph_live l) in
      _ ← modify (λ s : W * pheap, (s.1, mkHeap (<[h := p]> (ph_objs l)) ({[h]} ∪ ph_live l)));
      mret (Some h, err)
  end.

(** A method call on a publisher by handle. *)
Definition invoke (m : Publisher → GoM W (option error * Publisher)) (h : nat) : GoM (W * pheap) (option error) :=
  l ← gets snd;
  match ph_objs l !! h with
  | None => panic
  | Some p =>
      res ← on_fst (m p);
      _ ← modify (λ s : W * pheap, (s.1, ph_store h res.2 s.2));
      mret res.1
  end.

Definition heap_publishers : Publishers (W * pheap) := {|
  p_factory := app_factory;
  p_Publish h c ev := invoke (λ p, Publish p c ev) h;
  p_Close h := err ← invoke Close h; _ ← modify (λ s : W * pheap, (s.1, mkHeap (ph_objs s.2) (ph_live s.2 ∖ {[h]}))); mret err
|}.

End Factory.

(** The store as the worker sees it, on the world of the clients. *)
Definition lift_store {W L} `{OutboxStore W} : OutboxStore (W * L) := {|
  o_Claim c t lease := on_fst (o_Claim c t lease);
  o_Complete c d := on_fst (o_Complete c d);
  o_Retry c d delay := on_fst (o_Retry c d delay);
  o_OutboxStats c t := on_fst (o_OutboxStats c t)
|}.

(** What the store promises, in terms of what the brokers have taken; [rest] of
    the brokers' laws says that their calls leave the store alone. *)
Class StoreSpec (W : Type) `{BrokerSpec W rest, EventCodec, OutboxStore W} (e : environ) := {
  st_safe : W → Prop;
  st_claimed : W → Delivery → Prop;
  st_keeps (w w' : W) : Prop := st_safe w → st_safe w' ∧ ∀ d, st_claimed w d → st_claimed w' d;
  st_rest : ∀ w w', rest w w' → st_keeps w w';
  st_idle (w w' : W) : Prop := st_keeps w w' ∧ idle w w';
  st_claim : ∀ c t lease w, wp (o_Claim c t lease) (λ r w', st_idle w w' ∧
    (st_safe w → r.2 = None → ∀ dl, r.1 = Some dl →
       st_claimed w' dl ∧ d_Target dl = t ∧ d_Attempts dl <= max_int64)) w;
  st_retry : ∀ c d delay w, wp (o_Retry c d delay) (λ _, st_idle w) w;
  st_stats : ∀ c t w, wp (o_OutboxStats c t) (λ _, st_idle w) w;
  st_complete : ∀ c d w, st_claimed w d → delivered e w (d_Target d) (d_Event d) →
    wp (o_Complete c d) (λ _, st_idle w) w
}.

Section Spec.
Context `{StoreSpec W rest e}.

#[local] Existing Instance lift_store.
#[local] Instance worker_publishers : Publishers (W * pheap) := heap_publishers e.

Definition pub_speaks (s : W * pheap) (h : nat) (t : string) : Prop :=
  ∃ p, ph_objs s.2 !! h = Some p ∧ Name p = t ∧ publisher_ok e s.1 p.

(** Every connection still open is held by a publisher that was not closed. *)
Definition accounted (s : W * pheap) : Prop :=
  ∀ x, x ∈ opened s.1 → ∃ h p, h ∈ ph_live s.2 ∧ ph_objs s.2 !! h = Some p ∧ x ∈ held p.

Definition bw_safe (s : W * pheap) : Prop := st_safe s.1 ∧ accounted s.

Definition bw_keeps (s s' : W * pheap) : Prop := bw_safe s → bw_safe s' ∧
  (∀ t ev, delivered e s.1 t ev → delivered e s'.1 t ev) ∧ (∀ d, st_claimed s.1 d → st_claimed s'.1 d) ∧
  (∀ h t, pub_speaks s h t → pub_speaks s' h t).

Definition bw_quiet (s s' : W * pheap) : Prop := bw_keeps s s' ∧ ph_live s'.2 = ph_live s.2.

Lemma grows_keeps w w' : grows w w' → st_keeps w w'.
Proof. intros (Hr & _). by apply st_rest. Qed.

Lemma st_idle_quiet w w' l : st_idle w w' → bw_quiet (w, l) (w', l).
Proof.
  intros [Hk [G O]]. split; [|done]. intros [Hs Ha]. destruct (Hk Hs) as [Hs' Hc].
  split; [split; [done|]|split_and!; [by intros t ev; eapply delivered_grows|done|]].
  - intros x Hx. apply O in Hx. by apply (Ha x).
  - intros h t (p & Hp & Hn & Hok). exists p. split_and!; [done..|]. by eapply publisher_ok_grows.
Qed.

Lemma idle_quiet w w' l : idle w w' → bw_quiet (w, l) (w', l).
Proof. intros I. apply st_idle_quiet. split; [|done]. apply grows_keeps, I. Qed.

#[export] Instance bw_frame : Frame bw_quiet.
Proof.
  split.
  - intros [w l]. apply idle_quiet. reflexivity.
  - intros s1 s2 s3 [K1 L1] [K2 L2]. split; [|congruence]. intros Hs. destruct (K1 Hs) as (Hs2 & A & B & C).
    destruct (K2 Hs2) as (Hs3 & A' & B' & C'). split_and!; auto; apply Hs3.
  - intros m [w l]. apply idle_quiet, frame_emit.
  - intros n [w l]. cbn. pose proof (frame_draw (R := idle) n w). destruct (draw n w). by apply idle_quiet.
  - intros c d [w l]. cbn. pose proof (frame_select (R := idle) c d w). destruct (select_timer c d w). by apply idle_quiet.
Defined.

(** Replacing a publisher by what a call made of it. *)
Lemma store_keeps w w' l h p p' (live : gset nat) :
  ph_objs l !! h = Some p → grows w w' → publisher_ok e w' p' → Name p' = Name p →
  (∀ x, x ∈ opened w' → (x ∈ opened w ∧ x ∉ held p) ∨ (h ∈ live ∧ x ∈ held p')) →
  (∀ h', h' ∈ ph_live l → h' ≠ h → h' ∈ live) →
  bw_keeps (w, l) (w', mkHeap (<[h := p']> (ph_objs l)) live).
Proof.
  intros Hp G Hok' Hn' O Hlive [Hs Ha]. destruct (grows_keeps _ _ G Hs) as [Hs' Hc].
  split; [split; [done|]|split_and!; [by intros t ev; eapply delivered_grows|done|]].
  - intros x Hx. cbn in *. destruct (O x Hx) as [[Hx1 Hx2]|[Hh Hx']].
    + destruct (Ha x Hx1) as (h' & q & Hl & Hq & Hxq). cbn in Hl, Hq.
      assert (h' ≠ h) by (intros ->; by simplify_eq). exists h', q. rewrite lookup_insert_ne by done. auto.
    + exists h, p'. by rewrite lookup_insert_eq.
  - intros h' t (q & Hq & Hn & Hok). cbn in *. destruct (decide (h' = h)) as [->|Hne].
    + simplify_eq. exists p'. cbn. by rewrite lookup_insert_eq.
    + exists q. cbn. rewrite lookup_insert_ne by done. split_and!; [done..|]. by eapply publisher_ok_grows.
Qed.

Lemma bw_publish c h t ev s :
  bw_safe s → pub_speaks s h t → h ∈ ph_live s.2 →
  ∃ err s', p_Publish h c ev s = Some (err, s') ∧ bw_quiet s s' ∧ (err = None → delivered e s'.1 t ev).
Proof.
  destruct s as [w l]. intros [Hs Ha] (p & Hp & <- & Hok) Hl. cbn in Hp, Hok, Hl.
  assert (wp (p_Publish h c ev) (λ err s', bw_quiet (w, l) s' ∧ (err = None → delivered e s'.1 (Name p) ev)) (w, l))
    as (err & s' & E & HQ); [|eauto].
  cbn [p_Publish worker_publishers heap_publishers]. unfold invoke. wp_pure. cbn [snd]. rewrite Hp.
  wp_call (Publish_delivers e c ev p w) as res w1 ((G & Hok' & Hn & O) & Hd); [done|]. wp_pure. split; [|done].
  split; [|done]. apply store_keeps with p; [done..| |done]. intros x Hx. apply O in Hx. set_solver.
Qed.

Lemma bw_close h t s :
  pub_speaks s h t →
  ∃ err s', p_Close h s = Some (err, s') ∧ bw_keeps s s' ∧ ph_live s'.2 = ph_live s.2 ∖ {[h]}.
Proof.
  destruct s as [w l]. intros (p & Hp & <- & Hok). cbn in Hp, Hok.
  assert (wp (p_Close h) (λ _ s', bw_keeps (w, l) s' ∧ ph_live s'.2 = ph_live l ∖ {[h]}) (w, l))
    as (err & s' & E & HQ); [|eauto].
  cbn [p_Close worker_publishers heap_publishers]. unfold invoke. apply wp_bind. wp_pure. cbn [snd]. rewrite Hp.
  wp_call (Close_closes e p w) as res w1 (G & Hok' & Hn & O); [done|]. wp_pure. cbn.
  split; [|done]. apply store_keeps with p; [done..| |set_solver]. intros x Hx. apply O in Hx. set_solver.
Qed.

Lemma bw_factory c t s :
  ∃ p err s', p_factory c t s = Some ((p, err), s') ∧ bw_keeps s s' ∧
    match p with
    | Some h => h ∉ ph_live s.2 ∧ ph_live s'.2 = {[h]} ∪ ph_live s.2 ∧ pub_speaks s' h t
    | None => ph_live s'.2 = ph_live s.2
    end.
Proof.
  destruct s as [w l].
  destruct (NewPublisher_makes e c t w) as ([[p|] err] & w1 & E & G & Hm); cbn [p_factory worker_publishers heap_publishers];
    unfold app_factory; erewrite gom_bind_run by (unfold on_fst; cbn; rewrite E; done).
  - destruct Hm as (-> & Hok & Hn & O). set (h := fresh (dom (ph_objs l) ∪ ph_live l)).
    assert (h ∉ dom (ph_objs l) ∪ ph_live l) as Hf by apply is_fresh.
    assert (ph_objs l !! h = None) as Hh by (apply not_elem_of_dom; set_solver).
    assert (∀ h' q, ph_objs l !! h' = Some q → h ≠ h') as Hne by (intros h' q Hq ->; congruence).
    eexists (Some h), None, _. split; [done|]. cbn. split; [|split_and!; [set_solver|done|]].
    2:{ exists p. cbn. by rewrite lookup_insert_eq. }
    intros [Hs Ha]. destruct (grows_keeps _ _ G Hs) as [Hs' Hc].
    split; [split; [done|]|split_and!; [by intros t' ev; eapply delivered_grows|done|]].
    + intros x Hx. cbn in *. apply O, elem_of_union in Hx as [Hx|Hx].
      * exists h, p. rewrite lookup_insert_eq. set_solver.
      * destruct (Ha x Hx) as (h' & q & Hl & Hq & Hxq). cbn in Hl, Hq. exists h', q.
        rewrite lookup_insert_ne by (by eapply Hne). set_solver.
    + intros h' t' (q & Hq & Hn' & Hok'). cbn in *. exists q. cbn. rewrite lookup_insert_ne by (by eapply Hne).
      split_and!; [done..|]. by eapply publisher_ok_grows.
  - eexists None, _, _. split; [done|]. cbn. split; [|done]. apply idle_quiet. split; [done|]. apply Hm.
Qed.

(** The brokers' publishers over such a store keep the worker's interface. *)
#[export] Instance bw_spec : OutboxSpec (W * pheap).
Proof.
  refine {| accepted s t ev := delivered e s.1 t ev; claimed s d := st_claimed s.1 d; speaks := pub_speaks;
            live s := ph_live s.2; safe := bw_safe |}.
  - intros c t lease [w l]. destruct (st_claim c t lease w) as ([d err] & w1 & E & I & Hcl).
    exists d, err, (w1, l). cbn. unfold on_fst. cbn. rewrite E. split; [done|]. split; [by apply st_idle_quiet|].
    intros [Hs _] -> dl ->. by apply Hcl.
  - intros c d delay [w l]. destruct (st_retry c d delay w) as (err & w1 & E & I).
    exists err, (w1, l). cbn. unfold on_fst. cbn. rewrite E. split; [done|]. by apply st_idle_quiet.
  - intros c t [w l]. destruct (st_stats c t w) as ([s err] & w1 & E & I).
    exists s, err, (w1, l). cbn. unfold on_fst. cbn. rewrite E. split; [done|]. by apply st_idle_quiet.
  - intros c d [w l] Hcl Hd. destruct (st_complete c d w Hcl Hd) as (err & w1 & E & I).
    exists err, (w1, l). cbn. unfold on_fst. cbn. rewrite E. split; [done|]. by apply st_idle_quiet.
  - intros c t s. apply bw_factory.
  - intros c h d s Hs _. by apply bw_publish.
  - intros h t s _. apply bw_close.
Defined.

End Spec.

(** C8: At-least-once delivery by the brokers' own publishers.  With the worker
    making its publishers by [NewPublisher], over any store and client libraries
    that keep their documented promises, no run of the worker panics or lets the
    store show an event as delivered that its broker has not durably taken; every
    connection open in between belongs to the one publisher the worker holds, and
    none is left open once the worker has returned. *)
Theorem broker_worker_at_least_once `{StoreSpec W rest e} `{!RuntimeLaws W} (c : ctx) (target : string) (n : nat) (w : W) :
  st_safe w → opened w = ∅ →
  ∃ b w' hp l, @run _ _ lift_store (heap_publishers e) c target n ((w, heap0), wk0) = Some (b, ((w', hp), l)) ∧
    st_safe w' ∧
    (b = true → ∀ x, x ∈ opened w' → ∃ h p, wk_publisher l = Some h ∧ ph_objs hp !! h = Some p ∧ x ∈ held p) ∧
    (b = false → opened w' = ∅).
Proof.
  intros Hs Ho.
  destruct (run_spec (H2 := bw_spec) c target n ((w, heap0), wk0)) as (b & [[w' hp] l] & E & [[Hs' Ha] Hp] & _).
  { split; [|done]. split; [split; [done|]|done]. intros x Hx. cbn in Hx. rewrite Ho in Hx. set_solver. }
  exists b, w', hp, l. split; [done|]. split; [done|]. cbn in Hp. split; intros ->.
  - intros x Hx. destruct (Ha x Hx) as (h & p & Hl & Hh & Hxp). cbn in Hl, Hh. exists h, p. split; [|done].
    destruct (wk_publisher l); rewrite Hp in Hl; set_solver.
  - apply set_eq. intros x. split; [|set_solver]. intros Hx. destruct (Ha x Hx) as (h & p & Hl & _). cbn in Hl. set_solver.
Qed.

(** ** On the tables of PostgreSQL

    The world of [PostgresWorker], with clients of the three brokers that hand
    every message they accept to the log of its broker. *)
Section Postgres.
Context `{EventCodec, Oracle}.

Definition hand_over (broker payload : string) : GoM pw bool := λ w,
  match unmarshal payload with
  | Some ev => Some (true, take_event broker ev w)
  | None => Some (false, w)
  end.

#[export] Instance pw_kafka : KafkaClient pw := {|
  k_Dial t c a := mret (inl 1%nat);
  k_SetDeadline n t := mret ();
  k_Controller n := mret (inl ("kafka-1", 9092));
  k_CloseConn n := mret ();
  k_CreateTopics n tc := mret None;
  k_WriteMessages wr c m :=
    ok ← hand_over "kafka" (km_Value m);
    mret (if (ok : bool) then None else Some (ErrText "message rejected"));
  k_CloseWriter wr := mret None;
  k_NewReader rc := mret 1%nat;
  k_CloseReader n := mret None
|}.

#[export] Instance pw_amqp : Amqp pw := {|
  amqp_DialConfig c u hb dt := mret (Some 1%nat, inl 1%nat);
  amqp_Channel cn := mret (inl 1%nat);
  amqp_QueueDeclare ch q d a x n args := mret None;
  amqp_Confirm ch n := mret None;
  amqp_ConnClosed cn w := false;
  amqp_ChClosed ch w := false;
  amqp_CloseDeadline cn t := mret ();
  amqp_CloseSocket s := mret ();
  amqp_Publish c ch x q m i pb :=
    ok ← hand_over "rabbitmq" (pb_Body pb);
    mret (if (ok : bool) then inl (Some 1%nat) else inr (ErrText "message rejected"));
  amqp_WaitConfirm c cf := mret (inl true)
|}.

#[export] Instance pw_nats : NatsClient pw := {|
  nc_Connect u o := mret (inl 1%nat);
  nc_JetStream n := mret (inl 1%nat);
  nc_CreateOrUpdateStream c js sc := mret (inl 1%nat);
  nc_CreateOrUpdateConsumer c st cc := mret (inl 1%nat);
  nc_Publish c js subject payload id :=
    ok ← hand_over "nats" payload;
    mret (if (ok : bool) then None else Some (ErrText "message rejected"));
  nc_Close n := mret ()
|}.

Definition pw_rest (w w' : pw) : Prop :=
  (pw_safe w → pw_safe w' ∧ ∀ dl, carries dl (pw_db w) → carries dl (pw_db w')) ∧
  (∀ x, x ∈ pw_log w → x ∈ pw_log w').

#[export] Instance pw_rest_preorder : PreOrder pw_rest.
Proof.
  split; [by split|]. intros w1 w2 w3 [K1 L1] [K2 L2]. split; [|auto]. intros Hs.
  destruct (K1 Hs) as [Hs2 C1]. destruct (K2 Hs2) as [Hs3 C2]. auto.
Qed.

Definition pw_taken (w : pw) (broker dest id payload : string) : Prop :=
  ∃ ev, unmarshal payload = Some ev ∧ (broker, ev) ∈ pw_log w.

Lemma quiet_rest w w' : pw_quiet w w' → (∀ x, x ∈ pw_log w → x ∈ pw_log w') → pw_rest w w'.
Proof. intros [K _] L. split; [|done]. intros Hs. by destruct (K Hs) as (? & _ & ? & _). Qed.

Lemma hand_over_rest broker payload w :
  wp (hand_over broker payload) (λ ok w', pw_rest w w' ∧ (ok = true → ∀ d i, pw_taken w' broker d i payload)) w.
Proof.
  unfold hand_over, wp. destruct (unmarshal payload) as [ev|] eqn:E; eexists _, _; (split; [done|]).
  - split; [apply quiet_rest; [apply take_event_quiet|]; cbn; set_solver|]. intros _ d i. exists ev. cbn. set_solver.
  - split; [reflexivity|done].
Qed.

Lemma do_act_log w a x : x ∈ pw_log w → x ∈ pw_log (do_act w a).
Proof. destruct a; cbn; [done..|]. case_decide; [|done]. cbn. set_solver. Qed.

Lemma interfere_log w x : x ∈ pw_log w → x ∈ pw_log (interfere w).
Proof.
  unfold interfere. cbn. generalize (others (pw_tick w)). intros l. revert w.
  induction l as [|a l IH]; intros w Hx; [done|]. cbn. by apply IH, do_act_log.
Qed.

Lemma call_db_log {A} (f : db → A * db) w a w' x : call_db f w = Some (a, w') → x ∈ pw_log w → x ∈ pw_log w'.
Proof.
  unfold call_db. destruct (f _) as [a' d]. intros [= _ <-] Hx. cbn. by apply interfere_log.
Qed.

Lemma taken_rest w w' : pw_rest w w' → ∀ b d i p, pw_taken w b d i p → pw_taken w' b d i p.
Proof. intros [_ L] b d i p (ev & Hu & Hl). exists ev. auto. Qed.

#[export] Instance pw_brokers : BrokerSpec pw pw_rest.
Proof.
  refine {| taken := pw_taken; confirming _ _ := True; durable _ _ := True; owns _ _ _ := True;
            pending w cf q i p := pw_taken w "rabbitmq" q i p; opened _ := ∅ |}.
  1:{ split; unfold idle.
      - intros w. split; [|done]. split_and!; [reflexivity|done..].
      - intros w1 w2 w3 [(R1 & T1 & _ & _ & _ & P1) _] [(R2 & T2 & _ & _ & _ & P2) _].
        split; [|done]. split_and!; [by transitivity w2|by auto..].
      - intros m w. split; [|done]. by split_and!; [apply quiet_rest|..].
      - intros n w. split; [|done]. by split_and!; [apply quiet_rest|..].
      - intros c d w. split; [|done]. by split_and!; [apply quiet_rest|..]. }
  all: intros.
  all: try (apply wp_ret; split_and!; first [reflexivity | done | intros; apply empty_subseteq | intros; by eexists]).
  all: wp_call hand_over_rest as ok w' (R & Ht); wp_pure; destruct ok;
    (split; [split; [split_and!; [done|by apply taken_rest|done..|by intros ? ?; apply taken_rest]|done]|]); first [done | by intros; apply Ht | split; [done|]].
  intros cf _ _ _. by apply Ht.
Defined.

Lemma quiet_st_idle w w' :
  pw_quiet w w' → (∀ x, x ∈ pw_log w → x ∈ pw_log w') →
  (pw_safe w → pw_safe w' ∧ ∀ d, carries d (pw_db w) ∧ event_storable (d_Event d) →
     carries d (pw_db w') ∧ event_storable (d_Event d)) ∧ idle w w'.
Proof.
  intros Q L. pose proof (quiet_rest _ _ Q L) as R. split.
  { intros Hs. destruct (proj1 R Hs) as [? C]. split; [done|]. intros d [? ?]. auto. }
  split; [|done]. split_and!; [done|by apply taken_rest|done..|]. intros cf q i p. cbn. by apply taken_rest.
Qed.

#[export] Instance pw_store_spec (e : environ) : StoreSpec pw e.
Proof.
  refine {| st_safe := pw_safe; st_claimed w dl := carries dl (pw_db w) ∧ event_storable (d_Event dl) |}.
  - intros w w' [K _] Hs. destruct (K Hs) as [? C]. split; [done|]. intros d [? ?]. auto.
  - intros c t lease w. destruct (pw_claim_ok c t lease w) as (d & err & w' & E & Q & Hd).
    exists (d, err), w'. split; [done|]. split.
    + apply quiet_st_idle; [done|]. intros x. by apply (call_db_log _ _ _ _ _ E).
    + intros Hs He dl Hdl. destruct (Hd Hs He dl Hdl) as (Hc & Ht). split; [|done]. split; [done|].
      destruct Q as [K _]. apply (carries_storable _ (pw_db w')); [apply (K Hs)|done].
  - intros c d delay w. pose proof (spec_retry (W := pw) c d delay w) as (err & w' & E & Q).
    exists err, w'. split; [done|]. apply quiet_st_idle; [done|]. intros x. by apply (call_db_log _ _ _ _ _ E).
  - intros c t w. pose proof (spec_stats (W := pw) c t w) as (s & err & w' & E & Q).
    exists (s, err), w'. split; [done|]. apply quiet_st_idle; [done|]. intros x. by apply (call_db_log _ _ _ _ _ E).
  - intros c d w [Hc Hok] (payload & Hm & ev & Hu & Hl). rewrite (unmarshal_marshal _ _ Hok Hm) in Hu. simplify_eq.
    destruct (pw_complete_ok c d w Hc Hl) as (err & w' & E & Q).
    exists err, w'. split; [done|]. apply quiet_st_idle; [done|]. intros x. by apply (call_db_log _ _ _ _ _ E).
Defined.

End Postgres.

(** ** Witnesses *)

Definition ex_env (key : string) : string :=
  if bool_decide (key = "KAFKA_BROKERS") then "kafka-1:9092, kafka-2:9092"
  else if bool_decide (key = "RABBITMQ_URLS") then "amqp://rabbit-1,amqp://rabbit-2" else "".

Example ex_configured : ConfiguredNames ex_env = ["kafka"; "rabbitmq"].
Proof. vm_compute. reflexivity. Qed.

#[local] Existing Instance utc_codec.
#[local] Existing Instance calm_oracle.

Lemma ex_safe2 : pw_safe (pw0 ex_d2).
Proof.
  split; [apply ex_inv2|]. intros k r Hr Hd. exfalso.
  assert (map_Forall (λ _ r, ob_delivered r = None) (db_outbox (pw_db (pw0 ex_d2)))) as Hall
    by (apply (bool_decide_eq_true_1 _); vm_compute; reflexivity).
  rewrite (Hall k r Hr) in Hd. by destruct Hd.
Qed.

Lemma broker_worker_at_least_once_witness :
  ∃ b w' hp l, @run _ _ lift_store (heap_publishers ex_env) Background "rabbitmq" 2 ((pw0 ex_d2, heap0), wk0) =
    Some (b, ((w', hp), l)) ∧ pw_safe w'.
Proof.
  destruct (broker_worker_at_least_once (e := ex_env) Background "rabbitmq" 2 (pw0 ex_d2)) as (b & w' & hp & l & E & Hs & _).
  - exact ex_safe2.
  - reflexivity.
  - exists b, w', hp, l. split; [exact E|exact Hs].
Defined.

(** The run hands the events to the broker. *)
Example kafka_worker_delivers :
  match @run _ _ lift_store (heap_publishers ex_env) Background "kafka" 2 ((pw0 ex_d2, heap0), wk0) with
  | Some (b, ((w', _), _)) => b = true ∧ (λ p, (p.1, ev_ID p.2)) <$> pw_log w' = [("kafka", 2); ("kafka", 1)]
  | None => False
  end.
Proof. vm_compute. by split. Qed.

Definition ex_rabbit : rabbitConn := mkRabbitConn ["amqp://rabbit-1"] "otus.messages" (Some 1%nat) (Some 1%nat) (Some 1%nat).
Definition ex_event : MessageCreated := mkMessageCreated 7 "t" (Checksum "t") 0 "otus-app".

Lemma publish_means_taken_witness :
  ∃ err p' w', Publish (MeasuredPublisher (RabbitPublisher ex_rabbit)) Background ex_event (pw0 ex_d2) = Some ((err, p'), w') ∧
    (err = None → delivered ex_env w' "rabbitmq" ex_event).
Proof.
  destruct (publish_means_taken ex_env (MeasuredPublisher (RabbitPublisher ex_rabbit)) Background ex_event (pw0 ex_d2))
    as (err & p' & w' & E & _ & _ & Hd).
  - split; [vm_compute; reflexivity|]. by split_and!.
  - exists err, p', w'. split; [exact E|exact Hd].
Defined.

(** A cluster of two RabbitMQ nodes of which the second is up; channel 0 is a
    dead one. *)
#[local] Instance two_nodes : Amqp sim := {|
  amqp_DialConfig c u hb dt :=
    mret (if bool_decide (u = "amqp://rabbit-2") then (Some 1%nat, inl 1%nat) else (None, inr (ErrText "refused")));
  amqp_Channel cn := mret (if bool_decide (cn = 1%nat) then inl 1%nat else inr ErrEOF);
  amqp_QueueDeclare ch q d a x n args := mret (if bool_decide (ch = 1%nat) then None else Some ErrEOF);
  amqp_Confirm ch n := mret (if bool_decide (ch = 1%nat) then None else Some ErrEOF);
  amqp_ConnClosed cn w := false;
  amqp_ChClosed ch w := false;
  amqp_CloseDeadline cn t := mret ();
  amqp_CloseSocket s := mret ();
  amqp_Publish c ch x q m i pb := mret (if bool_decide (ch = 1%nat) then inl (Some 1%nat) else inr ErrEOF);
  amqp_WaitConfirm c cf := mret (inl true)
|}.

#[local] Instance two_nodes_up : AmqpUp sim (λ u, u = "amqp://rabbit-2").
Proof.
  refine {| linked _ cn := cn = 1%nat; works _ ch := ch = 1%nat; acked _ _ := True |}; intros; apply wp_ret; cbn.
  - by case_bool_decide.
  - subst. by eexists.
  - by subst.
  - by subst.
  - by case_bool_decide.
  - done.
  - done.
  - done.
Defined.

Definition ex_dead : rabbitConn :=
  mkRabbitConn ["amqp://rabbit-1"; "amqp://rabbit-2"] "otus.messages" (Some 0%nat) (Some 0%nat) (Some 0%nat).


Lemma brokers_leak_nothing_witness :
  ∃ res w', Close (RabbitPublisher ex_rabbit) (pw0 ex_d2) = Some (res, w') ∧
    opened w' ⊆ opened (pw0 ex_d2) ∖ held (RabbitPublisher ex_rabbit).
Proof.
  destruct (brokers_leak_nothing ex_env Background (pw0 ex_d2)) as (_ & _ & Hp).
  apply (Hp (RabbitPublisher ex_rabbit)). split; [vm_compute; reflexivity|]. by split_and!.
Defined.

Lemma configured_targets_served_witness :
  NoDup (ConfiguredNames ex_env) ∧ NewPublisher ex_env Background "nats" (pw0 ex_d2) = Some ((None, None), pw0 ex_d2).
Proof.
  destruct (configured_targets_served ex_env Background (pw0 ex_d2)) as (Hnd & _ & Hun & _).
  split; [exact Hnd|]. apply Hun; [set_solver|]. rewrite ex_configured. set_solver.
Defined.
