(* ===== verification/Consumers.v ===== *)
(** * Consumers: reading events from Kafka, NATS and RabbitMQ

    The [Consume] loops of [internal/broker/{kafka,nats,rabbit}.go], over
    interfaces for what they call.  A loop is observed after a number of
    iterations: it is still running, or it has returned.  ([Readers] has the
    consumers' connections and the supervisor that runs the loops.) *)

From stdpp Require Import base option list strings gmap.
From Stdlib Require Import ZArith Lia.
From S2P Require Import Prelude GoStrings Messaging Storage Retry.
Local Open Scope Z_scope.

(** A message of a broker. *)
Record delivery := mkDv { dv_id : nat; dv_body : string }.

(** The readers: [FetchMessage]/[CommitMessages] of Kafka, [Next]/[DoubleAck]/
    [NakWithDelay] of NATS, [Ack] of RabbitMQ; [time.Sleep]. *)
Class Source (W : Type) := {
  src_Fetch : ctx → GoM W (delivery + error);
  src_Ack : ctx → delivery → GoM W (option error);
  src_Nak : delivery → GoM W unit;
  src_Sleep : Z → GoM W unit
}.

(** What else the NATS and RabbitMQ loops call: opening the message iterator,
    obtaining a channel, setting its QoS and subscribing on it, the next delivery
    of a subscription ([None] when its Go channel was closed), and [reset]. *)
Class NatsSource (W : Type) := { n_Messages : GoM W (option error); n_Stop : GoM W unit }.
Class RabbitSource (W : Type) := {
  r_channel : ctx → GoM W (nat + error);
  r_Qos : nat → GoM W (option error);
  r_Subscribe : ctx → nat → GoM W (nat + error);
  r_Next : nat → GoM W (option delivery);
  r_reset : GoM W unit
}.

(** The state of a [Consume] call. *)
Inductive consume_end := Running | Stopped (err : option error).

Section Consume.
Context `{EventCodec, Runtime W, Source W}.
Variable c : ctx.
Variable handle : ctx → MessageCreated → GoM W (option error).

(** [Consumed.WithLabelValues(broker, result).Inc()] *)
Definition consumed (broker result : string) : GoM W unit :=
  modify (emit (MInc "otus_broker_consumed_total" [broker; result])).

(** [Lag.WithLabelValues(broker).Observe(time.Since(ev.CreatedAt).Seconds())],
    in nanoseconds. *)
Definition lag (broker : string) (ev : MessageCreated) : GoM W unit :=
  t ← gets now;
  modify (emit (MObserve "otus_broker_lag_seconds" [broker] (t - ev_CreatedAt ev))).

(** [kafkaConsumer.Consume] *)
Fixpoint kafka_Consume (n : nat) : GoM W consume_end :=
  match n with
  | O => mret Running
  | S n' =>
      msg ← src_Fetch c;
      match msg with
      | inr _ =>
          done ← gets (ctx_err c);
          match done with
          | Some _ => mret (Stopped None)
          | None => _ ← src_Sleep Second; kafka_Consume n'
          end
      | inl msg =>
          match unmarshal (dv_body msg) with
          | None => _ ← consumed "kafka" "malformed"; mret (Stopped (Some (ErrText "некорректное событие Kafka")))
          | Some ev =>
              err ← handle c ev;
              match err with
              | Some e => _ ← consumed "kafka" "error";
                          mret (Stopped (Some (Wrapped "не удалось обработать событие Kafka" e)))
              | None =>
                  err ← src_Ack c msg;
                  match err with
                  | Some e => mret (Stopped (Some (Wrapped "не удалось подтвердить смещение Kafka" e)))
                  | None => _ ← consumed "kafka" "ok"; _ ← lag "kafka" ev; kafka_Consume n'
                  end
              end
          end
      end
  end.

(** The loop of [natsConsumer.Consume]; [closed] tells
    [jetstream.ErrMsgIteratorClosed].  The goroutine that stops the iterator when
    the context is done shows as an error of the next fetch. *)
Variable closed : error → bool.

Fixpoint nats_loop (n : nat) : GoM W consume_end :=
  match n with
  | O => mret Running
  | S n' =>
      done ← gets (ctx_err c);
      match done with
      | Some _ => mret (Stopped None)
      | None =>
          msg ← src_Fetch c;
          match msg with
          | inr e =>
              done ← gets (ctx_err c);
              if bool_decide (is_Some done) || closed e then mret (Stopped None)
              else _ ← src_Sleep Second; nats_loop n'
          | inl msg =>
              match unmarshal (dv_body msg) with
              | None => _ ← consumed "nats" "malformed"; mret (Stopped (Some (ErrText "некорректное событие NATS")))
              | Some ev =>
                  err ← handle c ev;
                  match err with
                  | Some e => _ ← consumed "nats" "error"; _ ← src_Nak msg; mret (Stopped (Some e))
                  | None =>
                      _ ← consumed "nats" "ok"; _ ← lag "nats" ev;
                      err ← src_Ack c msg;
                      match err with
                      | Some e => mret (Stopped (Some e))
                      | None => nats_loop n'
                      end
                  end
              end
          end
      end
  end.

Definition nats_Consume `{NatsSource W} (n : nat) : GoM W consume_end :=
  err ← n_Messages;
  match err with
  | Some e => mret (Stopped (Some e))
  | None =>
      r ← nats_loop n;
      match r with
      | Running => mret Running
      | Stopped e => _ ← n_Stop; mret (Stopped e)
      end
  end.

(** [rabbitConsumer.Consume]; [sub] is the subscription being read, if any. *)
Fixpoint rabbit_Consume `{RabbitSource W} (n : nat) (sub : option nat) : GoM W consume_end :=
  match n with
  | O => mret Running
  | S n' =>
      match sub with
      | Some deliveries =>
        next ← r_Next deliveries;
        match next with
        | None =>
            done ← gets (ctx_err c);
            match done with
            | Some _ => rabbit_Consume n' None
            | None => _ ← r_reset; _ ← src_Sleep Second; rabbit_Consume n' None
            end
        | Some d =>
            match unmarshal (dv_body d) with
            | None => _ ← consumed "rabbitmq" "malformed";
                      mret (Stopped (Some (ErrText "некорректное событие RabbitMQ")))
            | Some ev =>
                err ← handle c ev;
                match err with
                | Some e => _ ← consumed "rabbitmq" "error"; mret (Stopped (Some e))
                | None =>
                    _ ← consumed "rabbitmq" "ok"; _ ← lag "rabbitmq" ev;
                    err ← src_Ack c d;
                    match err with
                    | Some e => mret (Stopped (Some e))
                    | None => rabbit_Consume n' sub
                    end
                end
            end
        end
      | None =>
        done ← gets (ctx_err c);
        match done with
        | Some _ => mret (Stopped None)
        | None =>
            ch ← r_channel c;
            match ch with
            | inr _ => _ ← src_Sleep (2 * Second); rabbit_Consume n' None
            | inl ch =>
                err ← r_Qos ch;
                match err with
                | Some _ => _ ← r_reset; rabbit_Consume n' None
                | None =>
                    deliveries ← r_Subscribe c ch;
                    match deliveries with
                    | inr _ => _ ← r_reset; _ ← src_Sleep Second; rabbit_Consume n' None
                    | inl deliveries => rabbit_Consume n' (Some deliveries)
                    end
                end
            end
        end
      end
  end.

End Consume.

(** ** What the loops rely on

    [handled] are the events the handler has processed, [fetched] the messages
    handed out by the broker, and [acks_safe] says that every acknowledged message
    carried a processed event. *)
Class ConsumeSpec (W : Type) `{EventCodec, Runtime W, Source W} (handle : ctx → MessageCreated → GoM W (option error)) := {
  handled : W → MessageCreated → Prop;
  fetched : W → delivery → Prop;
  acks_safe : W → Prop;
  cs_keeps (w w' : W) : Prop := acks_safe w →
    acks_safe w' ∧ (∀ ev, handled w ev → handled w' ev) ∧ (∀ d, fetched w d → fetched w' d);
  cs_frame : Frame cs_keeps;
  cs_fetch : ∀ c w, ∃ r w', src_Fetch c w = Some (r, w') ∧ cs_keeps w w' ∧ (acks_safe w → ∀ d, r = inl d → fetched w' d);
  cs_sleep : ∀ d w, ∃ w', src_Sleep d w = Some ((), w') ∧ cs_keeps w w';
  cs_nak : ∀ d w, ∃ w', src_Nak d w = Some ((), w') ∧ cs_keeps w w';
  (** the handler is given events of messages that were fetched *)
  cs_handle : ∀ c d ev w, acks_safe w → fetched w d → unmarshal (dv_body d) = Some ev →
    ∃ err w', handle c ev w = Some (err, w') ∧ cs_keeps w w' ∧ (err = None → handled w' ev);
  (** acknowledging is only safe for a processed event *)
  cs_ack : ∀ c d ev w, acks_safe w → fetched w d → unmarshal (dv_body d) = Some ev → handled w ev →
    ∃ err w', src_Ack c d w = Some (err, w') ∧ cs_keeps w w'
}.

#[export] Existing Instance cs_frame.

Section Facts.
Context `{ConsumeSpec W handle}.
Variable c : ctx.

(** Started safely, it does not panic and ends safely; also with a message in
    hand, and with its event processed. *)
Definition safely {A} (m : GoM W A) : Prop := triple acks_safe m (λ _, acks_safe).
Definition with_msg {A} (d : delivery) (m : GoM W A) : Prop :=
  triple (λ w, acks_safe w ∧ fetched w d) m (λ _, acks_safe).
Definition with_done {A} (d : delivery) (ev : MessageCreated) (m : GoM W A) : Prop :=
  triple (λ w, acks_safe w ∧ fetched w d ∧ handled w ev) m (λ _, acks_safe).

Lemma safely_keeps {A} (m : GoM W A) :
  (∀ w, acks_safe w → ∃ a w', m w = Some (a, w') ∧ cs_keeps w w') → safely m.
Proof. intros Hm w Hw. destruct (Hm w Hw) as (a & w' & ? & Hk). exists a, w'. split; [done|]. by apply Hk. Qed.

Lemma safely_bind {A B} (m : GoM W A) (f : A → GoM W B) : safely m → (∀ a, safely (f a)) → safely (m ≫= f).
Proof. intros Hm Hf. eapply triple_bind; [exact Hm|exact Hf]. Qed.

Lemma safely_ret {A} (a : A) : safely (mret a).
Proof. apply (triple_ret a (λ _, acks_safe)). Qed.

Lemma safely_gets {A} (f : W → A) : safely (gets f).
Proof. intros w Hw. by exists (f w), w. Qed.

Lemma safely_msg {A} d (m : GoM W A) : safely m → with_msg d m.
Proof. intros Hm w [Hw _]. by apply Hm. Qed.

Lemma safely_consumed b r : safely (consumed b r).
Proof. apply safely_keeps. intros w _. eexists _, _. split; [done|]. apply frame_emit. Qed.

Lemma lag_keeps b ev w : ∃ u w', lag b ev w = Some (u, w') ∧ cs_keeps w w'.
Proof. eexists _, _. split; [done|]. apply frame_emit. Qed.

Lemma safely_lag b ev : safely (lag b ev).
Proof. apply safely_keeps. intros w _. apply lag_keeps. Qed.

Lemma safely_sleep d : safely (src_Sleep d).
Proof. apply safely_keeps. intros w _. destruct (cs_sleep d w) as (w' & ? & ?). eauto. Qed.

Lemma safely_nak d : safely (src_Nak d).
Proof. apply safely_keeps. intros w _. destruct (cs_nak d w) as (w' & ? & ?). eauto. Qed.

Lemma safely_fetch {B} (f : delivery + error → GoM W B) :
  (∀ e, safely (f (inr e))) → (∀ d, with_msg d (f (inl d))) → safely (src_Fetch c ≫= f).
Proof.
  intros He Hd w Hw. destruct (cs_fetch c w) as (r & w1 & E & Hk & Hf). rewrite (gom_bind_run _ _ _ _ _ E).
  destruct (Hk Hw) as [Hw1 _]. destruct r as [d|e]; [apply Hd; split; auto|by apply He].
Qed.

(** Processing one message: handle it and, if that went well, acknowledge it. *)
Lemma process {B} d ev (fail : error → GoM W B) (ok : GoM W B) :
  unmarshal (dv_body d) = Some ev → (∀ e, safely (fail e)) → with_done d ev ok →
  with_msg d (err ← handle c ev; match err with Some e => fail e | None => ok end).
Proof.
  intros Hd Hf Hok w [Hw Hfe]. destruct (cs_handle c d ev w Hw Hfe Hd) as (err & w1 & E & Hk & Hh).
  rewrite (gom_bind_run _ _ _ _ _ E). destruct (Hk Hw) as (Hw1 & _ & Hfe1).
  destruct err as [e|]; [by apply Hf|]. apply Hok. auto.
Qed.

Lemma ack_then {B} d ev (k : option error → GoM W B) :
  unmarshal (dv_body d) = Some ev → (∀ e, safely (k e)) → with_done d ev (err ← src_Ack c d; k err).
Proof.
  intros Hd Hk w (Hw & Hf & Hh). destruct (cs_ack c d ev w Hw Hf Hd Hh) as (e & w3 & E3 & Hk3).
  rewrite (gom_bind_run _ _ _ _ _ E3). by apply Hk, Hk3.
Qed.

(** Counting a processed event before acknowledging it. *)
Lemma consumed_then {B} b r d ev (k : GoM W B) :
  with_done d ev k → with_done d ev (_ ← consumed b r; _ ← lag b ev; k).
Proof.
  intros Hk w (Hw & Hf & Hh). unfold consumed. rewrite gom_modify_bind.
  destruct (frame_emit (R := cs_keeps) (MInc "otus_broker_consumed_total" [b; r]) w Hw) as (Hw' & Hh' & Hf').
  edestruct (lag_keeps b ev) as (u & w2 & E & Hk2). rewrite (gom_bind_run _ _ _ _ _ E).
  destruct (Hk2 Hw') as (Hw2 & Hh2 & Hf2). apply Hk. auto.
Qed.

#[local] Hint Resolve safely_ret safely_gets safely_consumed safely_lag safely_sleep safely_nak : otus.

Ltac safe_step :=
  match goal with
  | |- safely (mret _) => apply safely_ret
  | |- safely (_ ≫= _) => apply safely_bind; [auto with otus|intros ?]
  | |- safely (match ?x with _ => _ end) => destruct x eqn:?
  | |- safely (if ?x then _ else _) => destruct x
  end.

Lemma kafka_safely n : safely (kafka_Consume c handle n).
Proof.
  induction n as [|n IH]; cbn [kafka_Consume]; [apply safely_ret|]. apply safely_fetch; intros d.
  - repeat safe_step. exact IH.
  - destruct (unmarshal (dv_body d)) as [ev|] eqn:Hd; [|apply safely_msg; repeat safe_step].
    apply process; [done|intros e; repeat safe_step|]. apply ack_then; [done|].
    intros e. repeat safe_step. exact IH.
Qed.

Lemma nats_safely closed n : safely (nats_loop c handle closed n).
Proof.
  induction n as [|n IH]; cbn [nats_loop]; [apply safely_ret|]. do 2 safe_step; [safe_step|]. apply safely_fetch; intros d.
  - repeat safe_step. exact IH.
  - destruct (unmarshal (dv_body d)) as [ev|] eqn:Hd; [|apply safely_msg; repeat safe_step].
    apply process; [done|intros e; repeat safe_step|]. apply consumed_then, ack_then; [done|].
    intros e. repeat safe_step. exact IH.
Qed.

(** The other calls of the RabbitMQ loop; the next delivery is one fetched. *)
Class RabbitQuiet `{RabbitSource W} : Prop := {
  rq_channel : ∀ c w, acks_safe w → ∃ r w', r_channel c w = Some (r, w') ∧ cs_keeps w w';
  rq_qos : ∀ ch w, acks_safe w → ∃ r w', r_Qos ch w = Some (r, w') ∧ cs_keeps w w';
  rq_subscribe : ∀ c ch w, acks_safe w → ∃ r w', r_Subscribe c ch w = Some (r, w') ∧ cs_keeps w w';
  rq_next : ∀ sub w, acks_safe w → ∃ r w', r_Next sub w = Some (r, w') ∧ cs_keeps w w' ∧ ∀ d, r = Some d → fetched w' d;
  rq_reset : ∀ w, acks_safe w → ∃ r w', r_reset w = Some (r, w') ∧ cs_keeps w w'
}.

Lemma safely_next `{RabbitQuiet} {B} sub (f : option delivery → GoM W B) :
  safely (f None) → (∀ d, with_msg d (f (Some d))) → safely (r_Next sub ≫= f).
Proof.
  intros He Hd w Hw. destruct (rq_next sub w Hw) as (r & w1 & E & Hk & Hf). rewrite (gom_bind_run _ _ _ _ _ E).
  destruct (Hk Hw) as [Hw1 _]. destruct r as [d|]; [apply Hd; split; auto|by apply He].
Qed.

Lemma rabbit_safely `{RabbitQuiet} n sub : safely (rabbit_Consume c handle n sub).
Proof.
  assert (safely (r_channel c)) by (apply safely_keeps, rq_channel).
  assert (∀ ch, safely (r_Qos ch)) by (intros; apply safely_keeps, rq_qos).
  assert (∀ ch, safely (r_Subscribe c ch)) by (intros; apply safely_keeps, rq_subscribe).
  assert (safely r_reset) by apply safely_keeps, rq_reset.
  revert sub. induction n as [|n IH]; intros sub; cbn [rabbit_Consume]; [apply safely_ret|]. destruct sub as [sub|].
  - apply safely_next; [repeat safe_step; apply IH|]. intros d.
    destruct (unmarshal (dv_body d)) as [ev|] eqn:Hd; [|apply safely_msg; repeat safe_step].
    apply process; [done|intros e; repeat safe_step|]. apply consumed_then, ack_then; [done|].
    intros e. repeat safe_step. apply IH.
  - repeat safe_step; apply IH.
Qed.

End Facts.

(** Events are acknowledged only after they were processed.  Whatever the
    client libraries and the handler answer, none of the three [Consume] loops
    panics, and each keeps "every acknowledged message carried an event that
    was processed": an event whose handler failed is left for redelivery. *)
Theorem acked_after_handled `{ConsumeSpec W handle} `{!RabbitSource W, !RabbitQuiet} (c : ctx)
    (closed : error → bool) (n : nat) (w : W) :
  acks_safe w →
  (∃ r w', kafka_Consume c handle n w = Some (r, w') ∧ acks_safe w') ∧
  (∃ r w', nats_loop c handle closed n w = Some (r, w') ∧ acks_safe w') ∧
  (∃ r w', rabbit_Consume c handle n None w = Some (r, w') ∧ acks_safe w').
Proof.
  intros Hw. split_and!; [by apply kafka_safely|by apply nats_safely|by apply rabbit_safely].
Qed.
