(* ===== verification/Readers.v ===== *)
(** * Readers: the consumers with their connections, and their supervisor

    The reading side of the client libraries by handle, [Consume] of the three
    consumers of [internal/broker] over it (RabbitMQ's with the connection that it
    opens, drops and opens again), and [supervise] of [cmd/consumer/main.go], which
    makes consumers, runs and closes them. *)

From stdpp Require Import base option list strings gmap.
From Stdlib Require Import ZArith Lia.
From S2P Require Import Prelude GoStrings Env Messaging Storage Retry Brokers Consumers.
Local Open Scope Z_scope.

(** What reading calls: the reader of Kafka and the consumer of NATS by handle;
    for RabbitMQ [Channel.Qos] with prefetch count, size and scope,
    [Channel.ConsumeWithContext] with queue, name, autoAck, exclusive, noLocal and
    noWait, the next delivery of a subscription, and [Delivery.Ack]. *)
Class Readers (W : Type) := {
  rd_kafka : nat → Source W;
  rd_nats : nat → Source W;
  rd_iter : nat → NatsSource W;
  rd_rabbit : Source W;
  amqp_Qos : nat → Z → Z → bool → GoM W (option error);
  amqp_Consume : ctx → nat → string → string → bool → bool → bool → bool → GoM W (nat + error);
  amqp_Next : nat → GoM W (option delivery)
}.

(** [context.WithCancel] and the function it returns. *)
Class Cancels (W : Type) := {
  cx_WithCancel : ctx → GoM W ctx;
  cx_Cancel : ctx → GoM W unit
}.

(** ** Sources next to local variables *)

Definition source_pair {W Y} (s : Source W) : Source (W * Y) := {|
  src_Fetch c := on_fst (src_Fetch c);
  src_Ack c d := on_fst (src_Ack c d);
  src_Nak d := on_fst (src_Nak d);
  src_Sleep d := on_fst (src_Sleep d)
|}.

Definition iter_pair {W Y} (s : NatsSource W) : NatsSource (W * Y) := {|
  n_Messages := on_fst n_Messages;
  n_Stop := on_fst n_Stop
|}.

(** Run an operation of a connection object that is one of two local variables,
    or one of the other. *)
Definition on_conn {W X A} (m : GoM (W * rabbitConn) A) : GoM (W * (rabbitConn * X)) A := λ s,
  match m (s.1, s.2.1) with
  | Some (a, (w', r')) => Some (a, (w', (r', s.2.2)))
  | None => None
  end.
Definition on_vars {W X A} (m : GoM (W * X) A) : GoM (W * (rabbitConn * X)) A := λ s,
  match m (s.1, s.2.2) with
  | Some (a, (w', x')) => Some (a, (w', (s.2.1, x')))
  | None => None
  end.

(** ** [Consume] *)

Section Consume.
Context `{EventCodec, Runtime W, KafkaClient W, Amqp W, NatsClient W, Readers W}.

(** [rabbitConsumer.reset] *)
Definition reset : GoM (W * rabbitConn) unit := closeLocked.

Definition rabbit_reader {X} (prefetch : Z) : RabbitSource (W * (rabbitConn * X)) := {|
  r_channel c := on_conn (rabbit_channel c false);
  r_Qos ch := on_fst (amqp_Qos ch prefetch 0 false);
  r_Subscribe c ch := r ← gets (λ s, s.2.1); on_fst (amqp_Consume c ch (rb_queue r) "" false false false false);
  r_Next sub := on_fst (amqp_Next sub);
  r_reset := on_conn reset
|}.

(** [Consumer.Consume], observed after [n] iterations, with a handler that has
    variables of its own; the consumer as it is then. *)
Definition Consume {X} (closed : error → bool) (k : Consumer) (c : ctx)
    (handle : ctx → MessageCreated → GoM (W * X) (option error)) (n : nat) : GoM (W * X) (consume_end * Consumer) :=
  match k with
  | KafkaConsumer reader =>
      r ← kafka_Consume (H1 := source_pair (rd_kafka reader)) c handle n; mret (r, k)
  | NATSConsumer _ consumer =>
      r ← nats_Consume (H1 := source_pair (rd_nats consumer)) (H2 := iter_pair (rd_iter consumer)) c handle closed n; mret (r, k)
  | RabbitConsumer r prefetch => λ s,
      match rabbit_Consume (H1 := source_pair rd_rabbit) (H2 := rabbit_reader prefetch)
              c (λ c ev, on_vars (handle c ev)) n None (s.1, (r, s.2)) with
      | Some (e, (w', (r', x'))) => Some ((e, RabbitConsumer r' prefetch), (w', x'))
      | None => None
      end
  end.

End Consume.

(** ** The supervisor *)

(** Where [supervise] is: reading with a consumer, between two turns, or
    returned. *)
Inductive supervised := Reading (k : Consumer) | Between | Returned.

Section Supervise.
Context `{EventCodec, Runtime W, KafkaClient W, Amqp W, NatsClient W, Readers W, Cancels W}.
Variables (closed : error → bool) (c : ctx) (name : string).
Variable factory : ctx → string → GoM W (Consumer + error).
Variable handle : ctx → MessageCreated → GoM W (option error).

(** The second component of the world is the variable [attempt], which the
    handler passed to [Consume] sets back. *)
Definition set_attempt (a : Z) : GoM (W * Z) unit := modify (λ s, (s.1, a)).

Definition resetting (c : ctx) (ev : MessageCreated) : GoM (W * Z) (option error) :=
  err ← on_fst (handle c ev);
  _ ← (match err with None => set_attempt 0 | Some _ => mret () end);
  mret err.

(** A turn's consumer: made, run for at most [m] iterations and closed; or the
    consumer when it still reads. *)
Definition read_turn (m : nat) : GoM (W * Z) (option Consumer) :=
  attemptCtx ← on_fst (cx_WithCancel c);
  attempt ← gets snd;
  _ ← (if 0 <? attempt then Retried name "consumer_start" else mret ());
  r ← on_fst (factory attemptCtx name);
  match r with
  | inr _ => _ ← on_fst (cx_Cancel attemptCtx); mret None
  | inl k =>
      res ← Consume closed k attemptCtx resetting m;
      match res.1 with
      | Running => mret (Some res.2)
      | Stopped _ => _ ← on_fst (cx_Cancel attemptCtx); _ ← on_fst (consumer_Close res.2); mret None
      end
  end.

(** One turn of the loop of [supervise]. *)
Definition supervise_turn (m : nat) : GoM (W * Z) supervised :=
  k ← read_turn m;
  match k with
  | Some k => mret (Reading k)
  | None =>
      done ← gets (ctx_err c);
      match done with
      | Some _ => mret Returned
      | None =>
          attempt ← gets (λ s, wrap64 (s.2 + 1));
          _ ← set_attempt attempt;
          delay ← Backoff attempt;
          ok ← Wait c delay;
          mret (if (ok : bool) then Between else Returned)
      end
  end.

(** [supervise], observed after [n] turns. *)
Fixpoint supervise_loop (m n : nat) : GoM (W * Z) supervised :=
  done ← gets (ctx_err c);
  match done with
  | Some _ => mret Returned
  | None =>
      match n with
      | O => mret Between
      | S n' =>
          r ← supervise_turn m;
          match r with Between => supervise_loop m n' | _ => mret r end
      end
  end.

Definition supervise (m n : nat) : GoM W supervised := λ w,
  match supervise_loop m n (w, 0) with
  | Some (r, (w', _)) => Some (r, w')
  | None => None
  end.

End Supervise.
