(* ===== verification/ReadersProps.v ===== *)
(** * ReadersProps: what a supervised consumer guarantees

    The documented behaviour of the reading side of the client libraries as a
    class of laws, and what follows for [Readers]: whatever happens, events are
    acknowledged only after they were processed, the consumer that reads holds the
    only connection, and nothing is open between turns and in the end. *)

From stdpp Require Import base option list strings gmap relations.
From Stdlib Require Import ZArith Lia.
From S2P Require Import Prelude GoStrings Env Messaging Storage Retry Brokers BrokerProps Consumers Readers.
Local Open Scope Z_scope.

(** Laws of reading.  [rs_handled] are the events processed, [rs_fetched] the
    messages handed out; [rs_safe], that every acknowledged message carried a
    processed event, is part of what the clients' other calls keep. *)
Class ReadSpec (W : Type) `{BrokerSpec W rest, EventCodec, !Readers W, !Cancels W}
    (handle : ctx → MessageCreated → GoM W (option error)) := {
  rs_handled : W → MessageCreated → Prop;
  rs_fetched : W → delivery → Prop;
  rs_safe : W → Prop;
  rs_rest : ∀ w w', rest w w' → rs_safe w →
    rs_safe w' ∧ (∀ ev, rs_handled w ev → rs_handled w' ev) ∧ (∀ d, rs_fetched w d → rs_fetched w' d);
  rs_source (s : Source W) : Prop :=
    (∀ c w, wp (src_Fetch c) (λ r w', idle w w' ∧ (rs_safe w → ∀ d, r = inl d → rs_fetched w' d)) w) ∧
    (∀ d w, wp (src_Sleep d) (λ _, idle w) w) ∧ (∀ d w, wp (src_Nak d) (λ _, idle w) w) ∧
    (** acknowledging is only safe for a processed event *)
    (∀ c d ev w, rs_safe w → rs_fetched w d → unmarshal (dv_body d) = Some ev → rs_handled w ev →
       wp (src_Ack c d) (λ _, idle w) w);
  rs_kafka : ∀ h, rs_source (rd_kafka h);
  rs_nats : ∀ h, rs_source (rd_nats h);
  rs_rabbit : rs_source rd_rabbit;
  rs_messages : ∀ h w, wp (@n_Messages _ (rd_iter h)) (λ _, idle w) w;
  rs_stop : ∀ h w, wp (@n_Stop _ (rd_iter h)) (λ _, idle w) w;
  rs_qos : ∀ ch n s g w, wp (amqp_Qos ch n s g) (λ _, idle w) w;
  rs_consume : ∀ c ch q t a x l n w, wp (amqp_Consume c ch q t a x l n) (λ _, idle w) w;
  rs_next : ∀ sub w, wp (amqp_Next sub) (λ r w', idle w w' ∧ (rs_safe w → ∀ d, r = Some d → rs_fetched w' d)) w;
  rs_cancelctx : ∀ c w, wp (cx_WithCancel c) (λ _, idle w) w;
  rs_cancel : ∀ c w, wp (cx_Cancel c) (λ _, idle w) w;
  (** the handler is given events of messages that were fetched *)
  rs_handle : ∀ c d ev w, rs_safe w → rs_fetched w d → unmarshal (dv_body d) = Some ev →
    wp (handle c ev) (λ err w', idle w w' ∧ (err = None → rs_handled w' ev)) w
}.

Section Facts.
Context `{BrokerSpec W rest, EventCodec, !Readers W, !Cancels W} {handle : ctx → MessageCreated → GoM W (option error)} `{!ReadSpec W handle}.

Lemma idle_safe w w' : idle w w' → rs_safe w →
  rs_safe w' ∧ (∀ ev, rs_handled w ev → rs_handled w' ev) ∧ (∀ d, rs_fetched w d → rs_fetched w' d).
Proof. intros [[Hr _] _]. by apply rs_rest. Qed.

Lemma grows_safe w w' : grows w w' → rs_safe w → rs_safe w'.
Proof. intros [Hr _] Hs. by destruct (rs_rest _ _ Hr Hs). Qed.

(** ** The loops next to local variables

    [J] is an invariant of the world and the local variables that idling keeps. *)
Section Beside.
Context {Y : Type} (J : W → Y → Prop) (src : Source W) (h : ctx → MessageCreated → GoM (W * Y) (option error)).

Definition handler_ok : Prop := ∀ c d ev s, rs_safe s.1 → rs_fetched s.1 d → unmarshal (dv_body d) = Some ev →
  wp (h c ev) (λ err s', idle s.1 s'.1 ∧ (J s.1 s.2 → J s'.1 s'.2) ∧ (err = None → rs_handled s'.1 ev)) s.

Hypothesis J_idle : ∀ w w' y, idle w w' → J w y → J w' y.
Hypothesis src_ok : rs_source src.
Hypothesis h_ok : handler_ok.

Definition beside_safe (s : W * Y) : Prop := rs_safe s.1 ∧ J s.1 s.2.
Definition beside_keeps (s s' : W * Y) : Prop := beside_safe s →
  beside_safe s' ∧ (∀ ev, rs_handled s.1 ev → rs_handled s'.1 ev) ∧ (∀ d, rs_fetched s.1 d → rs_fetched s'.1 d).

Lemma beside_step s s' : idle s.1 s'.1 → (J s.1 s.2 → J s'.1 s'.2) → beside_keeps s s'.
Proof. intros Hi HJ [Hs Hj]. destruct (idle_safe _ _ Hi Hs) as (? & ? & ?). by repeat split; auto. Qed.

Lemma beside_fst {A} (m : GoM W A) (Q : A → W → Prop) s :
  wp m (λ a w', idle s.1 w' ∧ Q a w') s.1 → ∃ a s', on_fst m s = Some (a, s') ∧ beside_keeps s s' ∧ Q a s'.1.
Proof.
  destruct s as [w y]. intros (a & w' & E & Hi & HQ). cbn in E. exists a, (w', y). unfold on_fst. cbn. rewrite E. split; [done|].
  split; [|done]. apply beside_step; [done|]. by apply J_idle.
Qed.

Lemma beside_fst_idle {A} (m : GoM W A) s :
  wp m (λ _, idle s.1) s.1 → ∃ a s', on_fst m s = Some (a, s') ∧ beside_keeps s s'.
Proof.
  intros Hm. destruct (beside_fst m (λ _ _, True) s) as (a & s' & E & Hk & _); [|eauto].
  eapply wp_conseq; [exact Hm|done].
Qed.

Lemma beside_frame : Frame beside_keeps.
Proof.
  split.
  - by intros s Hs.
  - intros s1 s2 s3 K12 K23 S1. destruct (K12 S1) as (S2 & ? & ?). destruct (K23 S2) as (S3 & ? & ?). auto.
  - intros m s. apply beside_step; [|apply J_idle]; apply (frame_emit (R := idle)).
  - intros n [w y]. cbn. pose proof (frame_draw (R := idle) n w). destruct (draw n w) as [z w']. cbn in *.
    apply beside_step; [done|by apply J_idle].
  - intros c d [w y]. cbn. pose proof (frame_select (R := idle) c d w). destruct (select_timer c d w) as [z w']. cbn in *.
    apply beside_step; [done|by apply J_idle].
Qed.

Definition beside_spec : @ConsumeSpec (W * Y) _ _ (source_pair src) h.
Proof.
  refine (@Build_ConsumeSpec _ _ _ (source_pair src) h (λ s, rs_handled s.1) (λ s, rs_fetched s.1) beside_safe beside_frame _ _ _ _ _);
    destruct src_ok as (Hf & Hs & Hn & Ha).
  - intros c s. destruct (beside_fst (src_Fetch c) (λ r w', rs_safe s.1 → ∀ d, r = inl d → rs_fetched w' d) s (Hf c s.1))
      as (r & s' & E & Hk & Hd). exists r, s'. split; [exact E|]. split; [exact Hk|]. intros [Hsafe _]. by apply Hd.
  - intros d s. destruct (beside_fst_idle (src_Sleep d) s (Hs d s.1)) as ([] & s' & ? & ?). eauto.
  - intros d s. destruct (beside_fst_idle (src_Nak d) s (Hn d s.1)) as ([] & s' & ? & ?). eauto.
  - intros c d ev s [Hsafe _] Hfe Hu. destruct (h_ok c d ev s Hsafe Hfe Hu) as (err & s' & E & Hi & HJ & Hh).
    exists err, s'. split; [done|]. split; [by apply beside_step|done].
  - intros c d ev s [Hsafe _] Hfe Hu Hh. by apply beside_fst_idle, (Ha c d ev).
Defined.

End Beside.

(** ** [Consume] *)

(** What reading does to a consumer. *)
Definition consumer_step (w w' : W) (k k' : Consumer) : Prop :=
  rs_safe w' ∧ consumer_ok w' k' ∧ grows w w' ∧ opened w' ⊆ (opened w ∖ consumer_held k) ∪ consumer_held k'.

Lemma step_idle_consumer w w' k : rs_safe w' → consumer_ok w k → idle w w' → consumer_step w w' k k.
Proof.
  intros Hs Hok [G O]. split_and!; [done| |done|].
  - destruct k; [done| |done]. by eapply rabbit_ok_grows.
  - intros x Hx. destruct (decide (x ∈ consumer_held k)); set_solver.
Qed.

Lemma moved_trans_idle w0 r0 w w' r : idle w w' → moved (w0, r0) (w, r) → moved (w0, r0) (w', r).
Proof. intros Hi Hm. transitivity (w, r); [done|by apply moved_idle]. Qed.

Section Consume.
Context {X : Type} (closed : error → bool) (c : ctx) (h : ctx → MessageCreated → GoM (W * X) (option error)).
Variables (w0 : W) (x0 : X) (n : nat).
Hypothesis h_ok : handler_ok (λ _ _, True) h.
Hypothesis safe0 : rs_safe w0.

Definition since (w : W) (_ : X) : Prop := idle w0 w.

Lemma since_handler : handler_ok since h.
Proof.
  intros c' d ev s Hs Hf Hu. eapply wp_conseq; [by apply (h_ok c' d)|]. intros err s' (Hi & _ & Hh).
  split; [done|]. split; [|done]. unfold since. intros. by etransitivity.
Qed.

Lemma since_idle w w' x : idle w w' → since w x → since w' x.
Proof. unfold since. intros. by etransitivity. Qed.

Lemma kafka_keeps reader : wp (Consume closed (KafkaConsumer reader) c h n) (λ res s', consumer_step w0 s'.1 (KafkaConsumer reader) res.2) (w0, x0).
Proof.
  cbn [Consume]. apply wp_bind.
  pose proof (kafka_safely (H2 := beside_spec since (rd_kafka reader) h since_idle (rs_kafka reader) since_handler) c n) as Hk.
  destruct (Hk (w0, x0)) as (r & s' & E & [Hs Hi]); [split; [exact safe0|unfold since; cbn; reflexivity]|].
  exists r, s'. split; [exact E|]. wp_pure. by apply step_idle_consumer.
Qed.

Lemma nats_keeps nc cons : wp (Consume closed (NATSConsumer nc cons) c h n) (λ res s', consumer_step w0 s'.1 (NATSConsumer nc cons) res.2) (w0, x0).
Proof.
  cbn [Consume]. apply wp_bind. unfold nats_Consume. cbn [n_Messages n_Stop iter_pair].
  wp_call rs_messages as err w1 I1.
  destruct err as [err|]; [wp_pure; wp_pure; apply step_idle_consumer; [by apply (idle_safe _ _ I1)|done..]|].
  pose proof (nats_safely (H2 := beside_spec since (rd_nats cons) h since_idle (rs_nats cons) since_handler) c closed n) as Hk.
  destruct (Hk (w1, x0)) as (r & [w2 x2] & E & [Hs Hi]); [split; [by apply (idle_safe _ _ I1)|exact I1]|].
  apply wp_bind. exists r, (w2, x2). split; [exact E|]. cbn in Hs, Hi. unfold since in Hi.
  destruct r as [|err]; [wp_pure; wp_pure; by apply step_idle_consumer|].
  wp_call rs_stop as u w3 I3. wp_pure. wp_pure. apply step_idle_consumer; [by apply (idle_safe _ _ I3)|done|by transitivity w2].
Qed.

(** RabbitMQ's loop keeps also its connection in order, whatever it drops and
    opens again. *)
Variables (r0 : rabbitConn) (prefetch : Z).

Definition rabbit_since (w : W) (y : rabbitConn * X) : Prop := moved (w0, r0) (w, y.1) ∧ rabbit_ok false w y.1.

Lemma rabbit_since_idle w w' y : idle w w' → rabbit_since w y → rabbit_since w' y.
Proof. intros Hi [Hm Hok]. split; [by eapply moved_trans_idle|]. eapply rabbit_ok_grows; [apply Hi|done]. Qed.

Lemma rabbit_handler : handler_ok rabbit_since (λ c ev, on_vars (h c ev)).
Proof.
  intros c' d ev [w [r x]] Hs Hf Hu. destruct (h_ok c' d ev (w, x) Hs Hf Hu) as (err & [w' x'] & E & Hi & _ & Hh).
  cbn in *. exists err, (w', (r, x')). unfold on_vars. cbn. rewrite E. split; [done|]. split; [done|]. split; [|done].
  exact (rabbit_since_idle w w' (r, x') Hi).
Qed.

Definition rabbit_spec := beside_spec rabbit_since rd_rabbit _ rabbit_since_idle rs_rabbit rabbit_handler.

Lemma on_conn_keeps {A} (m : GoM (W * rabbitConn) A) (s : W * (rabbitConn * X)) :
  wp m (λ _ s', moved (s.1, s.2.1) s' ∧ rabbit_ok false s'.1 s'.2) (s.1, s.2.1) →
  ∃ a s', on_conn m s = Some (a, s') ∧ beside_keeps rabbit_since s s'.
Proof.
  destruct s as [w [r x]]. intros (a & [w' r'] & E & Hm & Hok). cbn in *. exists a, (w', (r', x)). unfold on_conn. cbn. rewrite E.
  split; [done|]. intros [Hs [Hm0 _]]. cbn in *. destruct Hm as (G & Hm). pose proof G as [Hr _]. 
  destruct (rs_rest _ _ Hr Hs) as (? & ? & ?). split_and!; [|done..]. split; [done|]. split; [|done]. transitivity (w, r); [done|by split].
Qed.

Lemma rabbit_quiet : @RabbitQuiet _ _ _ _ _ rabbit_spec (rabbit_reader prefetch).
Proof.
  split; cbn [r_channel r_Qos r_Subscribe r_Next r_reset rabbit_reader].
  - intros c' [w [r x]] [_ [_ Hok]]. apply on_conn_keeps. cbn in *. eapply wp_conseq; [by apply rabbit_channel_opens|].
    by intros res s' (? & ? & _).
  - intros ch s _. apply (beside_fst_idle rabbit_since rabbit_since_idle), rs_qos.
  - intros c' ch s _. rewrite gom_gets_bind. apply (beside_fst_idle rabbit_since rabbit_since_idle), rs_consume.
  - intros sub s [Hs _]. destruct (beside_fst rabbit_since rabbit_since_idle (amqp_Next sub) (λ r w', rs_safe s.1 → ∀ d, r = Some d → rs_fetched w' d) s (rs_next sub s.1))
      as (r & s' & E & Hk & Hd). exists r, s'. split; [exact E|]. split; [exact Hk|by apply Hd].
  - intros [w [r x]] [_ [_ Hok]]. apply on_conn_keeps. cbn in *. eapply wp_conseq; [by apply (closeLocked_closes false)|].
    intros u [w' r'] [Hm Hr]. cbn in Hr. subst r'. by split.
Qed.

Lemma rabbit_keeps : rabbit_ok false w0 r0 →
  wp (Consume closed (RabbitConsumer r0 prefetch) c h n) (λ res s', consumer_step w0 s'.1 (RabbitConsumer r0 prefetch) res.2) (w0, x0).
Proof.
  intros Hok. pose proof (rabbit_safely (H2 := rabbit_spec) (H4 := rabbit_quiet) c n None) as Hk.
  destruct (Hk (w0, (r0, x0))) as (res & [w' [r' x']] & E & [Hs [(G & _ & _ & O) Hok']]).
  { split; [exact safe0|]. split; [apply moved_idle; reflexivity|done]. }
  cbn in *. exists (res, RabbitConsumer r' prefetch), (w', x'). cbn [Consume]. cbn [fst snd]. rewrite E. done.
Qed.

End Consume.

Lemma Consume_keeps {X} closed k c (h : ctx → MessageCreated → GoM (W * X) (option error)) n w x :
  handler_ok (λ _ _, True) h → rs_safe w → consumer_ok w k →
  wp (Consume closed k c h n) (λ res s', consumer_step w s'.1 k res.2) (w, x).
Proof. intros Hh Hs Hok. destruct k; [by apply kafka_keeps|by apply rabbit_keeps|by apply nats_keeps]. Qed.


(** ** The supervisor *)

Section Supervise.
Context `{!RuntimeLaws W}.
Variables (pd : string → option Z) (e : environ) (closed : error → bool) (c : ctx) (name : string) (m : nat).

Lemma resetting_ok : handler_ok (λ _ _, True) (resetting handle).
Proof.
  intros c' d ev [w a] Hs Hf Hu. unfold resetting. wp_call (rs_handle c' d ev w Hs Hf Hu) as err w1 (Hi & Hh).
  apply wp_bind. unfold set_attempt. destruct err; wp_pure; by cbn; auto.
Qed.

Definition turned (w w' : W) (k : option Consumer) : Prop :=
  rs_safe w' ∧ opened w' ⊆ match k with Some k => consumer_held k ∪ opened w | None => opened w end.

Lemma turned_idle w w' w'' k : turned w w' k → idle w' w'' → turned w w'' k.
Proof. intros [Hs O] Hi. split; [by apply (idle_safe _ _ Hi)|]. destruct Hi as [_ O']. set_solver. Qed.

Lemma retried_idle (b : bool) w a :
  wp (if b then Retried (W := W * Z) name "consumer_start" else mret ()) (λ _ s', idle w s'.1) (w, a).
Proof. destruct b; unfold Retried; wp_pure; [apply idle_emit|cbn; reflexivity]. Qed.

Lemma read_turn_turns w a :
  rs_safe w → wp (read_turn closed c name (NewConsumer pd e) handle m) (λ k s', turned w s'.1 k) (w, a).
Proof.
  intros Hs. unfold read_turn. wp_call rs_cancelctx as attemptCtx w1 I1. wp_pure. cbn [snd].
  wp_call retried_idle as u [w2 a2] I2. cbn in I1, I2.
  assert (idle w w2) as [G2 O2] by (by transitivity w1). pose proof (grows_safe _ _ G2 Hs) as Hs2.
  wp_call (NewConsumer_makes e pd attemptCtx name w2) as r w3 (G3 & Hr). pose proof (grows_safe _ _ G3 Hs2) as Hs3.
  destruct r as [k|err].
  - destruct Hr as [Hok O3]. wp_call (Consume_keeps closed k attemptCtx (resetting handle) m w3 a2 resetting_ok Hs3 Hok) as res [w4 a4] Hstep.
    destruct Hstep as (Hs4 & Hok4 & G4 & O4). cbn in *. destruct res as [[|err] k']; cbn [fst snd] in *.
    + wp_pure. split; [done|]. cbn. set_solver.
    + wp_call rs_cancel as u1 w5 [G5 O5]. wp_call (consumer_Close_closes k' w5) as u2 w6 (G6 & O6).
      { destruct k'; [done| |done]. by eapply rabbit_ok_grows. }
      wp_pure. split; [by eapply grows_safe, grows_safe, Hs4|]. cbn. set_solver.
  - wp_call rs_cancel as u1 w5 [G5 O5]. wp_pure. split; [by eapply grows_safe|]. cbn. set_solver.
Qed.

(** The consumer that [supervise] reads with. *)
Definition in_use (r : supervised) : option Consumer := match r with Reading k => Some k | _ => None end.

Lemma supervise_turn_turns w a :
  rs_safe w → wp (supervise_turn closed c name (NewConsumer pd e) handle m)
    (λ r s', turned w s'.1 (in_use r) ∧ (r = Returned → ctx_err c s'.1 ≠ None)) (w, a).
Proof.
  intros Hs. unfold supervise_turn. wp_call read_turn_turns as k [w1 a1] Ht; [done|]. cbn in Ht.
  destruct k as [k|]; [by wp_pure|]. wp_pure. cbn [ctx_err runtime_pair fst].
  destruct (ctx_err c w1) as [err|] eqn:Ec; [wp_pure; split; [done|]; cbn; congruence|].
  unfold set_attempt. wp_pure. cbn [snd fst]. pose proof (wrap64_range (a1 + 1)) as [_ Hmax].
  apply wp_bind. destruct (Jitter_run (W := W * Z) (wrap64 (a1 + 1)) Second (30 * Second) (w1, wrap64 (a1 + 1))) as (delay & s2 & E & _); [done..|].
  exists delay, s2. split; [exact E|]. pose proof (Jitter_frame (on_first idle) _ _ _ _ _ _ E) as I2.
  apply wp_bind. destruct (Wait_total c delay s2) as (ok & s3 & E3 & Hok). exists ok, s3. split; [done|].
  pose proof (Wait_frame (on_first idle) _ _ _ _ _ E3) as I3. wp_pure.
  split; [|destruct ok; [done|]; intros _ Hn; by apply Hok in Hn].
  assert (turned w s3.1 None) as Ht3 by (eapply turned_idle, I3; eapply turned_idle, I2; exact Ht). by destruct ok.
Qed.

Lemma supervise_turns n w a :
  rs_safe w → wp (supervise_loop closed c name (NewConsumer pd e) handle m n)
    (λ r s', turned w s'.1 (in_use r) ∧ (r = Returned → ctx_err c s'.1 ≠ None)) (w, a).
Proof.
  revert w a. induction n as [|n IH]; intros w a Hs; cbn [supervise_loop]; wp_pure; cbn [ctx_err runtime_pair fst];
    (destruct (ctx_err c w) eqn:Ec; [wp_pure; split; [by split|]; cbn; congruence|]); [by wp_pure|].
  wp_call supervise_turn_turns as r [w1 a1] (Ht & Hr); [done|]. cbn in Ht, Hr.
  destruct r as [k| |]; [by wp_pure| |by wp_pure]. destruct Ht as [Hs1 O1].
  eapply wp_conseq; [by apply IH|]. intros r [w2 a2] [[Hs2 O2] Hr2]. split; [|done]. split; [done|].
  cbn in *. destruct (in_use r); set_solver.
Qed.

End Supervise.

End Facts.

