(* ===== verification/Cassandra.v ===== *)
(** * Cassandra: the event feed and the consumer's handler

    [internal/cstore/cstore.go] (saving and reading events, the driver's retry
    policy) and the handler of [cmd/consumer/main.go]. *)

From stdpp Require Import base option list strings gmap sorting.
From Stdlib Require Import ZArith Lia Ascii.
From S2P Require Import Prelude GoStrings GoTime Messaging Storage StorageProps Retry FileStores FilesApi Consumers.
Local Open Scope Z_scope.

(** ** Days *)

Definition pad (width : nat) (n : Z) : string :=
  let s := FormatInt n in
  Nat.iter (width - String.length s) (String "0"%char) s.

(** [t.UTC().Format("2006-01-02")] of an instant in nanoseconds. *)
Definition day_of (t : Z) : string :=
  let '(y, m, d) := civil (t / (86400 * Second)) in
  pad 4 y +:+ "-" +:+ pad 2 m +:+ "-" +:+ pad 2 d.

(** A [timestamp] column holds milliseconds. *)
Definition to_ms (t : Z) : Z := t / Millisecond.

(** ** Tables *)

(** [message_events] by (day, created_at, id), and [events_by_id]. *)
Record tables := mkTables {
  tb_events : gmap (string * Z * Z) (string * string * string);
  tb_by_id : gmap Z (string * string * string * Z)
}.

Definition tables0 : tables := mkTables ∅ ∅.

(** The two inserts of [Save]'s batch. *)
Definition save_rows (ev : MessageCreated) (producer : string) (tb : tables) : tables :=
  let data := (ev_Text ev, ev_Checksum ev, producer) in
  mkTables
    (<[(day_of (ev_CreatedAt ev), to_ms (ev_CreatedAt ev), ev_ID ev) := data]> (tb_events tb))
    (<[ev_ID ev := (data, to_ms (ev_CreatedAt ev))]> (tb_by_id tb)).

Definition event_of (id : Z) (data : string * string * string) (ms : Z) : Event :=
  mkEvent id data.1.1 data.1.2 data.2 (ms * Millisecond).

Definition zero_Event : Event := mkEvent 0 "" "" "" zero_time.

(** [CLUSTERING ORDER BY (created_at DESC, id DESC)] *)
Definition cluster_order (a b : Z * Z) : Prop := b.1 < a.1 ∨ (b.1 = a.1 ∧ b.2 <= a.2).

#[export] Instance cluster_order_dec : RelDecision cluster_order.
Proof. intros a b. unfold cluster_order. apply _. Defined.

(** The rows of a partition, in clustering order. *)
Definition partition (day : string) (tb : tables) : list Event :=
  (λ k : Z * Z, event_of k.2 (default ("", "", "") (tb_events tb !! (day, k.1, k.2))) k.1) <$>
  merge_sort cluster_order
    (omap (λ p : (string * Z * Z) * (string * string * string),
             if bool_decide (p.1.1.1 = day) then Some (p.1.1.2, p.1.2) else None) (map_to_list (tb_events tb))).

Definition all_rows (tb : tables) : list Event :=
  (λ p : Z * (string * string * string * Z), event_of p.1 p.2.1 p.2.2) <$> map_to_list (tb_by_id tb).

(** What an iterator yields: all rows, or the rows before its error. *)
Definition iterate (fail : option (nat * error)) (rows : list Event) : list Event * option error :=
  match fail with
  | None => (rows, None)
  | Some (k, e) => (take k rows, Some e)
  end.

(** The loop of [Store.Scan] over the rows; [ToLower] is [strings.ToLower],
    with its Unicode tables. *)
Fixpoint scan_loop (ToLower : string → string) (needle : string) (limit : Z) (found : list Event)
    (scanned : Z) (rows : list Event) : list Event * Z :=
  match rows with
  | [] => (found, scanned)
  | ev :: rest =>
      let found := if (Z.of_nat (length found) <? limit) && Contains (ToLower (e_Text ev)) needle
                   then found ++ [ev] else found in
      scan_loop ToLower needle limit found (scanned + 1) rest
  end.

Section Store.
Context `{Runtime W}.
(** False for a nil store. *)
Variable enabled : bool.

Definition observe (op : string) (start : Z) (err : option error) : GoM (W * tables) unit :=
  ObserveStorage "cassandra" op start (bool_decide (is_Some err)).

(** [Store.Save]: the logged batch is applied as a whole or not at all. *)
Definition Save (fate : exec_outcome) (ev : MessageCreated) (producer : string) : GoM (W * tables) (option error) :=
  if negb enabled then mret (Some ErrNotConfigured)
  else
    start ← gets now;
    _ ← modify (λ s, (s.1, if took_effect fate then save_rows ev producer s.2 else s.2));
    let err := exec_error fate in
    _ ← observe "save" start err;
    mret err.

(** [Store.ByID]; [fail] is an error of the query other than "not found". *)
Definition ByID (fail : option error) (id : Z) : GoM (W * tables) (Event * option error) :=
  if negb enabled then mret (zero_Event, Some ErrNotConfigured)
  else
    start ← gets now;
    tb ← gets snd;
    let '(ev, err) := match fail with
      | Some e => (zero_Event, Some e)
      | None => match tb_by_id tb !! id with
                | Some (data, ms) => (event_of id data ms, None)
                | None => (zero_Event, Some (ErrText "not found"))
                end
      end in
    _ ← observe "by_id" start err;
    mret (ev, err).

(** [Store.Recent]; Cassandra refuses a limit that is not positive. *)
Definition Recent (fail : option (nat * error)) (day : string) (limit : Z)
    : GoM (W * tables) (list Event * option error) :=
  if negb enabled then mret ([], Some ErrNotConfigured)
  else
    t ← gets now;
    let day := if bool_decide (day = "") then day_of t else day in
    start ← gets now;
    tb ← gets snd;
    let '(events, err) :=
      if limit <=? 0 then ([], Some (ErrText "LIMIT must be strictly positive"))
      else iterate fail (take (Z.to_nat limit) (partition day tb)) in
    _ ← observe "recent" start err;
    mret (events, err).

(** [Store.Scan] *)
Definition Scan (ToLower : string → string) (fail : option (nat * error)) (substr : string) (limit : Z)
    : GoM (W * tables) ((list Event * Z) * option error) :=
  if negb enabled then mret (([], 0), Some ErrNotConfigured)
  else
    start ← gets now;
    tb ← gets snd;
    let needle := ToLower substr in
    let '(rows, err) := iterate fail (all_rows tb) in
    let res := scan_loop ToLower needle limit [] 0 rows in
    _ ← observe "scan" start err;
    mret (res, err).

(** [Store.Count] *)
Definition Count (fail : option error) : GoM (W * tables) (Z * option error) :=
  if negb enabled then mret (0, Some ErrNotConfigured)
  else match fail with
  | Some e => mret (0, Some e)
  | None => tb ← gets snd; mret (Z.of_nat (size (tb_by_id tb)), None)
  end.

Lemma Save_run fate ev producer (w : W) tb :
  enabled = true →
  ∃ w', Save fate ev producer (w, tb) =
    Some (exec_error fate, (w', if took_effect fate then save_rows ev producer tb else tb)).
Proof. intros E. unfold Save. rewrite E. by eexists. Qed.

End Store.

(** ** The driver's retry policy *)

Section Retry_.
Context `{Runtime W}.

(** [retryPolicy.Attempt] for a query that was tried [attempts] times. *)
Definition Attempt (c : ctx) (attempts : Z) : GoM W bool :=
  done ← gets (ctx_err c);
  match done with
  | Some _ => mret false
  | None =>
      if 3 <? attempts then _ ← Exhausted "cassandra" "query"; mret false
      else
        d ← Jitter attempts (50 * Millisecond) Second;
        ok ← Wait c d;
        if (ok : bool) then _ ← Retried "cassandra" "query"; mret true else mret false
  end.

End Retry_.

(** ** The consumer's handler *)

(** The two stores the handler writes to. *)
Class EventSink (W : Type) := {
  sink_Save : ctx → MessageCreated → string → GoM W (option error);
  sink_Index : ctx → MessageCreated → string → GoM W (option error)
}.

(** [handle] of [run]: Cassandra first, then the index. *)
Definition consumer_handle `{Runtime W, EventSink W} (has_events has_index : bool) (brokerName : string)
    (c : ctx) (ev : MessageCreated) : GoM W (option error) :=
  c ← gets (with_timeout c (10 * Second));
  err ← (if has_events then sink_Save c ev brokerName else mret None);
  match err with
  | Some e => mret (Some e)
  | None => if has_index then sink_Index c ev brokerName else mret None
  end.

(** ** Properties *)

(** Saving the events of a list, in order. *)
Definition save_all (producer : string) (evs : list MessageCreated) (tb : tables) : tables :=
  foldl (λ tb ev, save_rows ev producer tb) tb evs.

(** Events are immutable: the identifier determines the event. *)
Definition consistent (evs : list MessageCreated) : Prop :=
  ∀ ev ev', ev ∈ evs → ev' ∈ evs → ev_ID ev = ev_ID ev' → ev = ev'.

Definition key_of (ev : MessageCreated) : string * Z * Z :=
  (day_of (ev_CreatedAt ev), to_ms (ev_CreatedAt ev), ev_ID ev).

Lemma consistent_prefix l ev : consistent (l ++ [ev]) → consistent l.
Proof. intros Hc x y Hx Hy. apply Hc; set_solver. Qed.

Lemma save_all_lookup producer evs :
  consistent evs →
  (∀ ev, ev ∈ evs →
     tb_by_id (save_all producer evs tables0) !! ev_ID ev =
       Some ((ev_Text ev, ev_Checksum ev, producer), to_ms (ev_CreatedAt ev)) ∧
     tb_events (save_all producer evs tables0) !! key_of ev = Some (ev_Text ev, ev_Checksum ev, producer)) ∧
  (∀ id, is_Some (tb_by_id (save_all producer evs tables0) !! id) → ∃ ev, ev ∈ evs ∧ ev_ID ev = id) ∧
  (∀ k, is_Some (tb_events (save_all producer evs tables0) !! k) → ∃ ev, ev ∈ evs ∧ key_of ev = k).
Proof.
  induction evs as [|x evs IH] using rev_ind; intros Hc.
  { cbn. split_and!; [by intros ev ?%elem_of_nil|by intros id []..]. }
  destruct (IH (consistent_prefix _ _ Hc)) as (Hin & Hid & Hk). unfold save_all. rewrite foldl_app.
  fold (save_all producer evs tables0). cbn [foldl save_rows tb_by_id tb_events]. fold (key_of x). split_and!.
  - intros ev Hev. destruct (decide (ev_ID ev = ev_ID x)) as [Heq|Hne].
    + assert (ev = x) as -> by (apply Hc; set_solver). by rewrite !lookup_insert_eq.
    + assert (ev ∈ evs) as Hev' by set_solver. destruct (Hin ev Hev') as [H1 H2].
      rewrite !lookup_insert_ne; [done| |done]. unfold key_of. congruence.
  - intros id Hs. destruct (decide (id = ev_ID x)) as [->|Hne]; [exists x; set_solver|].
    rewrite lookup_insert_ne in Hs by done. destruct (Hid id Hs) as (ev & ? & ?). exists ev. set_solver.
  - intros k Hs. destruct (decide (k = key_of x)) as [->|Hne]; [exists x; set_solver|].
    rewrite lookup_insert_ne in Hs by done. destruct (Hk k Hs) as (ev & ? & ?). exists ev. set_solver.
Qed.

(** Redelivery and reordering do not matter.  Events being immutable, the two
    tables depend only on which events were saved: two sequences of deliveries
    with the same events, in any order and with any repetitions, leave the same
    tables. *)
Theorem save_order_irrelevant (producer : string) (evs evs' : list MessageCreated) :
  consistent evs → (∀ ev, ev ∈ evs ↔ ev ∈ evs') →
  save_all producer evs tables0 = save_all producer evs' tables0.
Proof.
  intros Hc Hsame.
  assert (consistent evs') as Hc' by (intros x y Hx Hy; apply Hc; by apply Hsame).
  destruct (save_all_lookup producer evs Hc) as (Hin & Hid & Hk).
  destruct (save_all_lookup producer evs' Hc') as (Hin' & Hid' & Hk').
  assert (∀ tb tb' : tables, tb_events tb = tb_events tb' → tb_by_id tb = tb_by_id tb' → tb = tb') as Heq
    by (intros [] []; cbn; congruence).
  apply Heq; apply map_eq.
  - intros k. destruct (tb_events (save_all producer evs tables0) !! k) as [v|] eqn:E.
    + destruct (Hk k) as (ev & Hev & <-); [by rewrite E|].
      rewrite (proj2 (Hin ev Hev)) in E. by rewrite (proj2 (Hin' ev (proj1 (Hsame ev) Hev))).
    + destruct (tb_events (save_all producer evs' tables0) !! k) as [v|] eqn:E'; [|done].
      destruct (Hk' k) as (ev & Hev & <-); [by rewrite E'|].
      by rewrite (proj2 (Hin ev (proj2 (Hsame ev) Hev))) in E.
  - intros id. destruct (tb_by_id (save_all producer evs tables0) !! id) as [v|] eqn:E.
    + destruct (Hid id) as (ev & Hev & <-); [by rewrite E|].
      rewrite (proj1 (Hin ev Hev)) in E. by rewrite (proj1 (Hin' ev (proj1 (Hsame ev) Hev))).
    + destruct (tb_by_id (save_all producer evs' tables0) !! id) as [v|] eqn:E'; [|done].
      destruct (Hid' id) as (ev & Hev & <-); [by rewrite E'|].
      by rewrite (proj1 (Hin ev (proj2 (Hsame ev) Hev))) in E.
Qed.

Definition ex_ev (id : Z) : MessageCreated := mkMessageCreated id "t" "c" (1709164800 * Second) "otus-app".

Lemma save_order_irrelevant_witness :
  save_all "kafka" [ex_ev 1; ex_ev 2; ex_ev 1] tables0 = save_all "kafka" [ex_ev 2; ex_ev 1] tables0.
Proof.
  apply save_order_irrelevant.
  - intros ev ev' He He'. rewrite !elem_of_cons, elem_of_nil in He, He'.
    destruct He as [->|[->|[->|[]]]], He' as [->|[->|[->|[]]]]; try reflexivity; discriminate.
  - intros ev. rewrite !elem_of_cons, !elem_of_nil. tauto.
Defined.

Example day_leap : day_of (1709164800 * Second) = "2024-02-29".
Proof. vm_compute. reflexivity. Qed.

(** C31: an event that was saved is read back: [ByID] returns its text and
    checksum, the broker it came through, and its creation time to the
    millisecond; [Recent] for its day, with a limit large enough, contains it. *)
Theorem saved_event_read_back `{Runtime W} (ev : MessageCreated) (producer : string) (fate : exec_outcome)
    (w w' : W) (tb tb' : tables) (err : option error) (limit : Z) :
  took_effect fate = true → day_of (ev_CreatedAt ev) ≠ "" →
  Save true fate ev producer (w, tb) = Some (err, (w', tb')) →
  0 < limit → Z.of_nat (size (tb_events tb')) <= limit →
  let stored := mkEvent (ev_ID ev) (ev_Text ev) (ev_Checksum ev) producer (to_ms (ev_CreatedAt ev) * Millisecond) in
  (∃ w1, ByID true None (ev_ID ev) (w', tb') = Some ((stored, None), (w1, tb'))) ∧
  (∃ evs w1, Recent true None (day_of (ev_CreatedAt ev)) limit (w', tb') = Some ((evs, None), (w1, tb')) ∧ stored ∈ evs).
Proof.
  intros Hfate Hday Hsave Hpos Hlim stored.
  destruct (Save_run true fate ev producer w tb eq_refl) as [w2 E]. rewrite E, Hfate in Hsave.
  injection Hsave as _ _ Htb. subst tb'. split.
  - unfold ByID. cbn [negb]. rewrite !gom_gets_bind. unfold save_rows. cbn. rewrite lookup_insert_eq. by eexists.
  - unfold Recent. cbn [negb]. rewrite !gom_gets_bind, bool_decide_false by done.
    replace (limit <=? 0) with false by lia. cbn [iterate snd]. eexists _, _. split; [done|].
    rewrite take_ge.
    + unfold partition. apply list_elem_of_fmap. exists (to_ms (ev_CreatedAt ev), ev_ID ev). split.
      * cbn. by rewrite lookup_insert_eq.
      * rewrite merge_sort_Permutation. apply list_elem_of_omap.
        exists (key_of ev, (ev_Text ev, ev_Checksum ev, producer)). split.
        { apply elem_of_map_to_list. cbn. fold (key_of ev). by rewrite lookup_insert_eq. }
        cbn. by rewrite bool_decide_true.
    + unfold partition. rewrite length_fmap, merge_sort_Permutation.
      etrans; [apply length_omap_le|]. rewrite length_map_to_list. lia.
Qed.

Lemma saved_event_read_back_witness :
  ∃ w' tb' w1, Save true Ran (ex_ev 7) "nats" (sim0, tables0) = Some (None, (w', tb')) ∧
    ByID true None 7 (w', tb') = Some ((mkEvent 7 "t" "c" "nats" (1709164800 * Second), None), (w1, tb')).
Proof.
  destruct (Save true Ran (ex_ev 7) "nats" (sim0, tables0)) as [[err [w' tb']]|] eqn:E.
  - pose proof E as E'. vm_compute in E'. injection E' as Herr _ Htb.
    destruct (saved_event_read_back (ex_ev 7) "nats" Ran sim0 w' tables0 tb' err 1) as [(w1 & Hid) _];
      [reflexivity|vm_compute; discriminate|exact E|lia|subst tb'; vm_compute; discriminate|].
    exists w', tb', w1. subst err. split; [reflexivity|exact Hid].
  - exfalso. vm_compute in E. discriminate E.
Defined.

Lemma scan_loop_spec ToLower needle limit found scanned rows :
  scan_loop ToLower needle limit found scanned rows =
    (found ++ take (Z.to_nat (limit - Z.of_nat (length found)))
       (filter (λ ev, Contains (ToLower (e_Text ev)) needle = true) rows), scanned + Z.of_nat (length rows)).
Proof.
  revert found scanned. induction rows as [|ev rows IH]; intros found scanned; cbn [scan_loop].
  { cbn. by rewrite take_nil, app_nil_r, Z.add_0_r. }
  rewrite IH, filter_cons. cbn [length]. f_equal; [|lia].
  destruct (Contains (ToLower (e_Text ev)) needle) eqn:E.
  - rewrite andb_true_r, decide_True by done. destruct (Z.of_nat (length found) <? limit) eqn:El.
    + rewrite <- app_assoc, length_app. cbn [length app].
      replace (Z.to_nat (limit - Z.of_nat (length found)))
        with (S (Z.to_nat (limit - Z.of_nat (length found + 1)))) by lia. done.
    + replace (Z.to_nat (limit - Z.of_nat (length found))) with 0%nat by lia. done.
  - rewrite andb_false_r, decide_False by congruence. done.
Qed.

(** A scan is exact: it returns the first [limit] rows, in the table's order,
    whose text contains the needle, and counts every row of the table. *)
Lemma scan_exact `{Runtime W} (ToLower : string → string) (substr : string) (limit : Z) (w : W) (tb : tables) :
  ∃ w', Scan true ToLower None substr limit (w, tb) =
    Some ((take (Z.to_nat limit) (filter (λ ev, Contains (ToLower (e_Text ev)) (ToLower substr) = true) (all_rows tb)),
           Z.of_nat (size (tb_by_id tb))), None, (w', tb)).
Proof.
  unfold Scan. cbn [negb]. rewrite !gom_gets_bind. cbn [iterate snd]. rewrite scan_loop_spec.
  cbn [app length]. rewrite Z.sub_0_r, Z.add_0_l. unfold all_rows at 2.
  rewrite length_fmap, length_map_to_list. by eexists.
Qed.

(** ** A consumer on these tables

    A world with the tables, a broker that redelivers what was not acknowledged,
    and the fates of the calls: it keeps what the loops rely on. *)
Record cw := mkCw {
  cw_sim : sim; cw_tables : tables; cw_queue : list (delivery + error); cw_acked : list delivery; cw_fates : list exec_outcome
}.

Definition cw_set_sim (s : sim) (w : cw) : cw := mkCw s (cw_tables w) (cw_queue w) (cw_acked w) (cw_fates w).

#[export] Instance cw_runtime : Runtime cw := {
  now w := now (cw_sim w);
  ctx_err c w := ctx_err c (cw_sim w);
  draw n w := let '(z, s) := draw n (cw_sim w) in (z, cw_set_sim s w);
  select_timer c d w := let '(b, s) := select_timer c d (cw_sim w) in (b, cw_set_sim s w);
  emit m w := cw_set_sim (emit m (cw_sim w)) w
}.

Definition next_fate (w : cw) : exec_outcome := default Ran (head (cw_fates w)).

#[export] Instance cw_source : Source cw := {
  src_Fetch c w := Some (default (inr (ErrText "no message")) (head (cw_queue w)),
    mkCw (cw_sim w) (cw_tables w) (tail (cw_queue w)) (cw_acked w) (cw_fates w));
  src_Ack c d w := Some (exec_error (next_fate w),
    mkCw (cw_sim w) (cw_tables w) (cw_queue w)
      (if took_effect (next_fate w) then d :: cw_acked w else cw_acked w) (tail (cw_fates w)));
  src_Nak d w := Some ((), mkCw (cw_sim w) (cw_tables w) (cw_queue w ++ [inl d]) (cw_acked w) (cw_fates w));
  src_Sleep d w := Some ((), cw_set_sim (sim_advance d (cw_sim w)) w)
}.

#[export] Instance cw_sink : EventSink cw := {
  sink_Save c ev producer w :=
    match Save true (next_fate w) ev producer (cw_sim w, cw_tables w) with
    | Some (err, (s, tb)) => Some (err, mkCw s tb (cw_queue w) (cw_acked w) (tail (cw_fates w)))
    | None => None
    end;
  sink_Index c ev producer w := Some (exec_error (next_fate w),
    mkCw (cw_sim w) (cw_tables w) (cw_queue w) (cw_acked w) (tail (cw_fates w)))
}.

#[export] Instance cw_rabbit : RabbitSource cw := {
  r_channel c := mret (inl 1%nat);
  r_Qos ch := mret None;
  r_Subscribe c ch := mret (inl 1%nat);
  r_Next sub w := match cw_queue w with
    | inl d :: rest => Some (Some d, mkCw (cw_sim w) (cw_tables w) rest (cw_acked w) (cw_fates w))
    | _ => Some (None, w)
    end;
  r_reset := mret ()
}.

Section Instance_.
Context `{EventCodec}.
Variables (has_index : bool) (brokerName : string).

(** The event is in the table. *)
Definition cw_handled (w : cw) (ev : MessageCreated) : Prop := is_Some (tb_by_id (cw_tables w) !! ev_ID ev).

Definition cw_safe (w : cw) : Prop :=
  ∀ d, d ∈ cw_acked w → ∃ ev, unmarshal (dv_body d) = Some ev ∧ cw_handled w ev.

Definition cw_keeps (w w' : cw) : Prop :=
  cw_safe w → cw_safe w' ∧ (∀ ev, cw_handled w ev → cw_handled w' ev) ∧ (∀ d : delivery, True → True).

Lemma cw_keeps_same w w' :
  cw_acked w' = cw_acked w → (∀ ev, cw_handled w ev → cw_handled w' ev) → cw_keeps w w'.
Proof.
  intros Ha Hh Hs. split; [|split; done]. intros d Hd. rewrite Ha in Hd. destruct (Hs d Hd) as (ev & ? & ?). eauto.
Qed.

#[export] Instance cw_frame : Frame cw_keeps.
Proof.
  split.
  - by intros w Hs.
  - intros w1 w2 w3 K12 K23 S1. destruct (K12 S1) as (S2 & ? & _). destruct (K23 S2) as (S3 & ? & _). auto.
  - by intros; apply cw_keeps_same.
  - by intros; apply cw_keeps_same.
  - by intros; apply cw_keeps_same.
Qed.

Lemma handled_save w w' fate ev :
  cw_tables w' = (if took_effect fate then save_rows ev brokerName (cw_tables w) else cw_tables w) →
  ∀ ev', cw_handled w ev' → cw_handled w' ev'.
Proof.
  intros Ht ev' Hh. unfold cw_handled in *. rewrite Ht.
  destruct (took_effect fate); [|done]. cbn. destruct (decide (ev_ID ev' = ev_ID ev)) as [->|].
  - rewrite lookup_insert_eq. by eexists.
  - by rewrite lookup_insert_ne.
Qed.

Lemma handle_ok c ev w :
  ∃ err w', consumer_handle true has_index brokerName c ev w = Some (err, w') ∧ cw_keeps w w' ∧
    (err = None → cw_handled w' ev).
Proof.
  unfold consumer_handle. rewrite gom_gets_bind. unfold mbind, gom_bind. cbn [sink_Save cw_sink].
  destruct (Save_run true (next_fate w) ev brokerName (cw_sim w) (cw_tables w) eq_refl) as [s' E]. rewrite E.
  match goal with |- context [mkCw s' ?tb _ _ _] => set (w1 := mkCw s' tb (cw_queue w) (cw_acked w) (tail (cw_fates w))) end.
  assert (cw_keeps w w1) as Hk1
    by (apply cw_keeps_same; [done|]; by apply (handled_save _ _ (next_fate w) ev)).
  destruct (exec_error (next_fate w)) as [e|] eqn:Ef; [by eexists _, _|].
  assert (cw_handled w1 ev) as Hh1.
  { unfold cw_handled. cbn. destruct (next_fate w); [|done..]. cbn. rewrite lookup_insert_eq. by eexists. }
  destruct has_index; [|by eexists _, _]. eexists _, _. split; [done|]. split; [|done].
  eapply (frame_trans (R := cw_keeps)); [exact Hk1|]. by apply cw_keeps_same.
Qed.

#[export] Instance cw_spec : ConsumeSpec cw (consumer_handle true has_index brokerName).
Proof.
  refine {| handled := cw_handled; fetched _ _ := True; acks_safe := cw_safe |}.
  - intros c w. eexists _, _. split; [done|]. split; [by apply cw_keeps_same|done].
  - intros d w. eexists. split; [done|]. by apply cw_keeps_same.
  - intros d w. eexists. split; [done|]. by apply cw_keeps_same.
  - intros c d ev w _ _ _. apply handle_ok.
  - intros c d ev w _ _ Hd Hh. eexists _, _. split; [done|]. intros Hs. split; [|split; done]. intros d' Hd'. cbn in Hd'.
    destruct (took_effect (next_fate w)); [|by apply Hs]. apply elem_of_cons in Hd' as [->|Hd']; [by exists ev|by apply Hs].
Defined.

End Instance_.

Definition ex_queue : list (delivery + error) :=
  [inl (mkDv 1 (event_text (ex_ev 1))); inl (mkDv 2 (event_text (ex_ev 2)))].

#[local] Existing Instance utc_codec.

#[local] Instance ex_rabbit_quiet : RabbitQuiet (handle := consumer_handle true true "kafka").
Proof.
  split.
  - intros c w _. eexists _, _. split; [done|]. by intros ?.
  - intros ch w _. eexists _, _. split; [done|]. by intros ?.
  - intros c ch w _. eexists _, _. split; [done|]. by intros ?.
  - intros sub w _. cbn. destruct (cw_queue w) as [|[d|e] rest]; eexists _, _; (split; [done|]); (split; [by intros ?|done]).
  - intros w _. eexists _, _. split; [done|]. by intros ?.
Defined.

Lemma acked_after_handled_witness :
  ∃ r w', kafka_Consume Background (consumer_handle true true "kafka") 2 (mkCw sim0 tables0 ex_queue [] []) =
    Some (r, w') ∧ cw_safe w'.
Proof.
  destruct (acked_after_handled (handle := consumer_handle true true "kafka") Background (λ _, false) 2
    (mkCw sim0 tables0 ex_queue [] [])) as ((r & w' & E & Hs) & _).
  - intros d Hd. exfalso. exact (not_elem_of_nil d Hd).
  - exists r, w'. split; [exact E|exact Hs].
Defined.
