(* ===== verification/ReadersSim.v ===== *)
(** * ReadersSim: supervised consumers on a simulated broker

    Clients of the three brokers that open numbered connections and fail when a
    schedule says so, with the stores of the consumer's handler: the laws of
    [BrokerProps] and [ReadersProps] hold for them. *)

From stdpp Require Import base option list strings gmap relations.
From Stdlib Require Import ZArith Lia.
From S2P Require Import Prelude GoStrings Env Messaging Storage Retry StorageProps Brokers BrokerProps Consumers Readers ReadersProps Cassandra.
Local Open Scope Z_scope.

(** [rw_fails] are the coming calls, whether they fail. *)
Record rw := mkRw {
  rw_sim : sim;
  rw_next : nat;
  rw_open : gset resource;
  rw_queue : list delivery;
  rw_acked : list delivery;
  rw_saved : list MessageCreated;
  rw_fails : list bool
}.

Definition rw_set_sim (s : sim) (w : rw) : rw :=
  mkRw s (rw_next w) (rw_open w) (rw_queue w) (rw_acked w) (rw_saved w) (rw_fails w).
Definition rw_set_open (o : gset resource) (w : rw) : rw :=
  mkRw (rw_sim w) (S (rw_next w)) o (rw_queue w) (rw_acked w) (rw_saved w) (rw_fails w).

#[export] Instance rw_runtime : Runtime rw := {
  now w := now (rw_sim w);
  ctx_err c w := ctx_err c (rw_sim w);
  draw n w := let '(z, s) := draw n (rw_sim w) in (z, rw_set_sim s w);
  select_timer c d w := let '(b, s) := select_timer c d (rw_sim w) in (b, rw_set_sim s w);
  emit m w := rw_set_sim (emit m (rw_sim w)) w
}.

#[export] Instance rw_runtime_laws : RuntimeLaws rw.
Proof.
  split; cbn.
  - intros n w Hn. by apply Z.mod_pos_bound.
  - intros c d w. exact (select_done (W := sim) c d (rw_sim w)).
  - done.
  - intros c w. exact (ctx_err_kind (W := sim) c (rw_sim w)).
  - done.
  - intros m c w. exact (emit_ctx (W := sim) m c (rw_sim w)).
Defined.

(** A call that may fail, and one that does something unless it fails. *)
Definition fails : GoM rw bool := λ w,
  Some (default false (head (rw_fails w)),
    mkRw (rw_sim w) (rw_next w) (rw_open w) (rw_queue w) (rw_acked w) (rw_saved w) (tail (rw_fails w))).

Definition unless {A} (m : GoM rw A) : GoM rw (A + error) :=
  b ← fails; if (b : bool) then mret (inr (ErrText "connection lost")) else a ← m; mret (inl a).
Definition unless_ (m : GoM rw unit) : GoM rw (option error) :=
  r ← unless m; mret (match r with inl _ => None | inr e => Some e end).

Definition rw_connect (k : nat → resource) : GoM rw nat := λ w, Some (rw_next w, rw_set_open ({[k (rw_next w)]} ∪ rw_open w) w).
Definition rw_disconnect (r : resource) : GoM rw unit := λ w, Some ((), rw_set_open (rw_open w ∖ {[r]}) w).

#[export] Instance rw_kafka : KafkaClient rw := {|
  k_Dial t c a := unless (rw_connect KafkaConn);
  k_SetDeadline n t := mret ();
  k_Controller n := unless (mret ("kafka-1", 9092));
  k_CloseConn n := rw_disconnect (KafkaConn n);
  k_CreateTopics n tc := unless_ (mret ());
  k_WriteMessages wr c m := unless_ (mret ());
  k_CloseWriter wr := mret None;
  k_NewReader rc := rw_connect KafkaReader;
  k_CloseReader n := _ ← rw_disconnect (KafkaReader n); mret None
|}.

#[export] Instance rw_amqp : Amqp rw := {|
  amqp_DialConfig c u hb dt :=
    r ← unless (rw_connect Socket);
    mret (match r with inl n => (Some n, inl n) | inr e => (None, inr e) end);
  amqp_Channel cn := unless (mret cn);
  amqp_QueueDeclare ch q d a x n args := unless_ (mret ());
  amqp_Confirm ch n := unless_ (mret ());
  amqp_ConnClosed cn w := bool_decide (Socket cn ∉ rw_open w);
  amqp_ChClosed ch w := bool_decide (Socket ch ∉ rw_open w);
  amqp_CloseDeadline cn t := rw_disconnect (Socket cn);
  amqp_CloseSocket s := rw_disconnect (Socket s);
  amqp_Publish c ch x q m i pb := unless (mret (Some 1%nat));
  amqp_WaitConfirm c cf := unless (mret true)
|}.

#[export] Instance rw_nats : NatsClient rw := {|
  nc_Connect u o := unless (rw_connect NatsConn);
  nc_JetStream n := unless (mret n);
  nc_CreateOrUpdateStream c js sc := unless (mret js);
  nc_CreateOrUpdateConsumer c st cc := unless (mret st);
  nc_Publish c js subject payload id := unless_ (mret ());
  nc_Close n := rw_disconnect (NatsConn n)
|}.

Definition rw_take : GoM rw (option delivery) := λ w,
  Some (head (rw_queue w), mkRw (rw_sim w) (rw_next w) (rw_open w) (tail (rw_queue w)) (rw_acked w) (rw_saved w) (rw_fails w)).
Definition rw_ack (d : delivery) : GoM rw unit := λ w,
  Some ((), mkRw (rw_sim w) (rw_next w) (rw_open w) (rw_queue w) (d :: rw_acked w) (rw_saved w) (rw_fails w)).
Definition rw_save (ev : MessageCreated) : GoM rw unit := λ w,
  Some ((), mkRw (rw_sim w) (rw_next w) (rw_open w) (rw_queue w) (rw_acked w) (ev :: rw_saved w) (rw_fails w)).

Definition rw_source : Source rw := {|
  src_Fetch c := r ← unless rw_take;
    mret (match r with inl (Some d) => inl d | inl None => inr (ErrText "no message") | inr e => inr e end);
  src_Ack c d := unless_ (rw_ack d);
  src_Nak d := mret ();
  src_Sleep d w := Some ((), rw_set_sim (sim_advance d (rw_sim w)) w)
|}.

#[export] Instance rw_readers : Readers rw := {|
  rd_kafka h := rw_source;
  rd_nats h := rw_source;
  rd_iter h := {| n_Messages := unless_ (mret ()); n_Stop := mret () |};
  rd_rabbit := rw_source;
  amqp_Qos ch n s g := unless_ (mret ());
  amqp_Consume c ch q t a x l n := unless (mret ch);
  amqp_Next sub := r ← unless rw_take; mret (match r with inl d => d | inr _ => None end)
|}.

#[export] Instance rw_cancels : Cancels rw := {|
  cx_WithCancel c w := Some (WithCancel c (rw_next w), rw_set_open (rw_open w) w);
  cx_Cancel c := mret ()
|}.

#[export] Instance rw_sink : EventSink rw := {|
  sink_Save c ev producer := unless_ (rw_save ev);
  sink_Index c ev producer := unless_ (mret ())
|}.

(** ** The laws *)

Section Laws.
Context `{EventCodec}.

(** Every acknowledged message carried an event that was saved. *)
Definition rw_safe (w : rw) : Prop := ∀ d, d ∈ rw_acked w → ∃ ev, unmarshal (dv_body d) = Some ev ∧ ev ∈ rw_saved w.

Definition rw_rest (w w' : rw) : Prop := rw_safe w → rw_safe w' ∧ ∀ ev, ev ∈ rw_saved w → ev ∈ rw_saved w'.

#[export] Instance rw_rest_preorder : PreOrder rw_rest.
Proof.
  split; [by intros w|]. intros w1 w2 w3 R1 R2 S1. destruct (R1 S1) as [S2 ?]. destruct (R2 S2) as [S3 ?]. auto.
Qed.

Lemma rest_same w w' : rw_acked w' = rw_acked w → (∀ ev, ev ∈ rw_saved w → ev ∈ rw_saved w') → rw_rest w w'.
Proof. intros Ha Hs S. split; [|done]. intros d Hd. rewrite Ha in Hd. destruct (S d Hd) as (ev & ? & ?). eauto. Qed.

Lemma unless_wp {A} (m : GoM rw A) (Q : (A + error) → rw → Prop) w :
  (∀ fs, let w1 := mkRw (rw_sim w) (rw_next w) (rw_open w) (rw_queue w) (rw_acked w) (rw_saved w) fs in
     Q (inr (ErrText "connection lost")) w1 ∧ wp m (λ a, Q (inl a)) w1) → wp (unless m) Q w.
Proof.
  intros Hm. specialize (Hm (tail (rw_fails w))) as [Hf Ha]. unfold unless, fails, wp, mbind, gom_bind in *. cbn.
  destruct (default false _); [by eexists _, _|]. destruct Ha as (a & w' & E & HQ). rewrite E. by eexists _, _.
Qed.

Lemma unless__wp (m : GoM rw unit) (Q : option error → rw → Prop) w :
  (∀ fs, let w1 := mkRw (rw_sim w) (rw_next w) (rw_open w) (rw_queue w) (rw_acked w) (rw_saved w) fs in
     Q (Some (ErrText "connection lost")) w1 ∧ wp m (λ _, Q None) w1) → wp (unless_ m) Q w.
Proof.
  intros Hm. unfold unless_. apply wp_bind, unless_wp. intros fs. destruct (Hm fs) as [Hf Ha].
  split; [by wp_pure|]. eapply wp_conseq; [exact Ha|]. intros a w' HQ. by wp_pure.
Qed.

(** Run the calls of a client, then check what they promise. *)
Ltac run_calls :=
  repeat first
    [ apply unless_wp; cbn zeta; intros ?; split
    | apply unless__wp; cbn zeta; intros ?; split
    | apply wp_bind
    | apply wp_ret
    | eexists _, _; split; [reflexivity|] ].
Ltac facts :=
  unfold grows, idle; cbn; split_and!; first [done | by apply rest_same | set_solver | naive_solver].
Ltac same := split_and!; [by apply rest_same|done..].

#[export] Instance rw_brokers : BrokerSpec rw rw_rest.
Proof.
  refine {| taken _ _ _ _ _ := True; confirming _ _ := True; durable _ _ := True; owns _ cn s := cn = s;
            pending _ _ _ _ _ := True; opened := rw_open |}.
  1:{ split; unfold idle.
      - intros w. split; [|done]. split_and!; [reflexivity|done..].
      - intros w1 w2 w3 [(R1 & _) O1] [(R2 & _) O2]. split; [|set_solver]. split_and!; [by transitivity w2|done..].
      - intros m w. split; [same|done].
      - intros n w. split; [same|done].
      - intros c d w. split; [same|done]. }
  all: intros; cbn [k_Dial k_SetDeadline k_Controller k_CloseConn k_CreateTopics k_WriteMessages k_CloseWriter k_NewReader k_CloseReader
    rw_kafka amqp_DialConfig amqp_Channel amqp_QueueDeclare amqp_Confirm amqp_CloseDeadline amqp_CloseSocket amqp_Publish amqp_WaitConfirm
    rw_amqp nc_Connect nc_JetStream nc_CreateOrUpdateStream nc_CreateOrUpdateConsumer nc_Publish nc_Close rw_nats].
  all: run_calls; facts.
Defined.

Lemma idle_facts w w' : rw_rest w w' → rw_open w' ⊆ rw_open w → idle w w'.
Proof. intros R O. split; [by split_and!|done]. Qed.

Lemma rw_source_ok : 
  (∀ c w, wp (@src_Fetch _ rw_source c) (λ r w', idle w w' ∧ (rw_safe w → ∀ d : delivery, r = inl d → True)) w) ∧
  (∀ d w, wp (@src_Sleep _ rw_source d) (λ _, idle w) w) ∧ (∀ d w, wp (@src_Nak _ rw_source d) (λ _, idle w) w) ∧
  (∀ c d ev w, rw_safe w → True → unmarshal (dv_body d) = Some ev → ev ∈ rw_saved w → wp (@src_Ack _ rw_source c d) (λ _, idle w) w).
Proof.
  split_and!; intros; cbn [src_Fetch src_Sleep src_Nak src_Ack rw_source]; run_calls.
  all: try (split; [|done]).
  all: apply idle_facts; try done; try by apply rest_same.
  intros S. split; [|done]. intros d' Hd'. cbn in Hd'. apply elem_of_cons in Hd' as [->|Hd']; [by exists ev|by apply S].
Qed.

#[export] Instance rw_reads has_index broker : ReadSpec rw (consumer_handle true has_index broker).
Proof.
  refine {| rs_handled w ev := ev ∈ rw_saved w; rs_fetched _ _ := True; rs_safe := rw_safe |}.
  - intros w w' R S. destruct (R S). by split_and!.
  - intros h. apply rw_source_ok.
  - intros h. apply rw_source_ok.
  - apply rw_source_ok.
  - intros; cbn. run_calls; by apply idle_facts; [apply rest_same|].
  - intros; cbn. run_calls; by apply idle_facts; [apply rest_same|].
  - intros; cbn. run_calls; by apply idle_facts; [apply rest_same|].
  - intros; cbn. run_calls; by apply idle_facts; [apply rest_same|].
  - intros; cbn. run_calls; (split; [|done]); by apply idle_facts; [apply rest_same|].
  - intros; cbn. run_calls; by apply idle_facts; [apply rest_same|].
  - intros; cbn. run_calls; by apply idle_facts; [apply rest_same|].
  - intros. unfold consumer_handle. wp_pure. cbn [sink_Save sink_Index rw_sink]. destruct has_index.
    all: repeat (run_calls; cbn beta iota).
    all: split; [apply idle_facts; [apply rest_same; cbn; [done|set_solver]|done]|cbn; first [done|set_solver]].
Defined.

End Laws.

(** ** A run

    A consumer of RabbitMQ, two messages waiting; the first node does not answer,
    the connection breaks after the first message, and saving the second fails
    once. *)
#[local] Existing Instance utc_codec.

Definition rw_env (key : string) : string :=
  if bool_decide (key = "RABBITMQ_URLS") then "amqp://rabbit-1,amqp://rabbit-2" else "".

Definition rw_msg (id : Z) : delivery := mkDv (Z.to_nat id) (event_text (ex_ev id)).

Definition rw0 (fs : list bool) : rw := mkRw sim0 0 ∅ [rw_msg 1; rw_msg 2; rw_msg 2; rw_msg 2] [] [] fs.

Definition rw_run (m n : nat) (fs : list bool) : option (supervised * rw) :=
  supervise (λ _, false) Background "rabbitmq" (NewConsumer (λ _, None) rw_env) (consumer_handle true true "rabbitmq") m n (rw0 fs).

Definition rw_faults : list bool :=
  [true; false; false; false; false; false; false; false; false; false; true;
   false; false; false; false; false; false; true].

Definition seen (o : option (supervised * rw)) : option (bool * list Z * list nat * nat) :=
  (λ p, (match p.1 with Reading _ => true | _ => false end, ev_ID <$> rw_saved p.2, dv_id <$> rw_acked p.2, size (rw_open p.2))) <$> o.

(** In the first turn the consumer reads the first message; it holds a connection
    while it reads and none after it failed on the second, which it has not
    acknowledged; the next turn reads on. *)
Example supervised_run :
  seen (rw_run 4 1 rw_faults) = Some (true, [1], [1%nat], 1%nat) ∧
  seen (rw_run 5 1 rw_faults) = Some (false, [1], [1%nat], 0%nat) ∧
  seen (rw_run 5 2 rw_faults) = Some (true, [2; 2; 1], [2%nat; 2%nat; 1%nat], 1%nat).
Proof. vm_compute. done. Qed.

