(* ===== verification/StatusPage.v ===== *)
(** * StatusPage: the status page as the browser gets it

    [statusTmpl] of [internal/handlers/status.go]: the template of [status.html]
    executed with the data of [statusPage], its times and durations formatted as
    the standard library does. *)

From stdpp Require Import base option list strings.
From Stdlib Require Import ZArith Lia Ascii.
From S2P Require Import Prelude GoStrings GoTime OpenApi Template StatusApi Cassandra.
Local Open Scope Z_scope.

(** ** Durations and times *)

(** The digits of a fraction with [prec] places, without trailing zeros, in front
    of [acc]; and what is left of the number. *)
Fixpoint fmtFrac (v : Z) (prec : nat) (printing : bool) (acc : string) : string * Z :=
  match prec with
  | O => (if printing then String "."%char acc else acc, v)
  | S p =>
      let d := v mod 10 in
      let printing := printing || negb (d =? 0) in
      fmtFrac (v / 10) p printing (if printing then String (digit_char d) acc else acc)
  end.

(** [time.Duration.String] *)
Definition Duration_String (d : Z) : string :=
  let u := Z.abs d in
  let text :=
    if u =? 0 then "0s"
    else if u <? Second then
      let '(prec, unit) := if u <? 1000 then (0%nat, "ns") else if u <? Millisecond then (3%nat, "µs") else (6%nat, "ms") in
      let '(frac, v) := fmtFrac u prec false "" in
      FormatInt v +:+ frac +:+ unit
    else
      let '(frac, v) := fmtFrac u 9 false "" in
      let secs := FormatInt (v mod 60) +:+ frac +:+ "s" in
      let m := v / 60 in
      if m =? 0 then secs
      else
        let mins := FormatInt (m mod 60) +:+ "m" +:+ secs in
        let h := m / 60 in
        if h =? 0 then mins else FormatInt h +:+ "h" +:+ mins in
  if d <? 0 then "-" +:+ text else text.

(** [t.Format("02.01.2006 15:04:05")] of an instant, in a zone [offset] seconds
    east of UTC. *)
Definition Format_now (offset t : Z) : string :=
  let secs := t / Second + offset in
  let '(y, m, d) := civil (secs / 86400) in
  let s := secs mod 86400 in
  pad 2 d +:+ "." +:+ pad 2 m +:+ "." +:+ pad 4 y +:+ " " +:+
  pad 2 (s / 3600) +:+ ":" +:+ pad 2 (s / 60 mod 60) +:+ ":" +:+ pad 2 (s mod 60).

(** ** The page *)

Section Page.
(** [err.Error()], and the local zone. *)
Variable error_text : error → string.
Variable local : Z → Z.

(** The fields of [statusData]. *)
Definition status_field (d : statusData) (f : string) : option value :=
  if bool_decide (f = "Version") then Some (VStr (sd_Version d))
  else if bool_decide (f = "BuildDate") then Some (VStr (sd_BuildDate d))
  else if bool_decide (f = "Uptime") then Some (VStr (Duration_String (sd_Uptime d)))
  else if bool_decide (f = "Now") then Some (VStr (Format_now (local (sd_Now d)) (sd_Now d)))
  else if bool_decide (f = "DBOK") then Some (VBool (sd_DBOK d))
  else if bool_decide (f = "DBError") then Some (VStr (match sd_DBError d with Some e => error_text e | None => "" end))
  else if bool_decide (f = "Total") then Some (VInt (sd_Total d))
  else if bool_decide (f = "BadChecksums") then Some (VInt (sd_BadChecksums d))
  else if bool_decide (f = "TLSEnabled") then Some (VBool (sd_TLSEnabled d))
  else if bool_decide (f = "AuthEnabled") then Some (VBool (sd_AuthEnabled d))
  else None.

(** [template.Must(template.New("status").Parse(statusHTML))]; [None] is the
    panic. *)
Definition statusTmpl : option tmpl := parse statusHTML.

(** [statusTmpl.Execute] *)
Definition status_html (d : statusData) : option string :=
  t ← statusTmpl; exec (status_field d) print_html t.

(** The tags of the page, by what it says of the database, the checksums, TLS and
    authentication. *)
Definition span : list string := ["span"; "/span"].
Definition row (inner : list string) : list string := ["tr"; "th"; "/th"; "td"] ++ inner ++ ["/td"; "/tr"].
Definition status_tags (tls auth : bool) : list string :=
  ["!DOCTYPE"; "html"; "head"; "meta"; "meta"; "title"; "/title"; "style"; "/style"; "/head"; "body"; "h1"; "/h1"; "table"] ++
  row [] ++ row [] ++ row [] ++ row span ++ row [] ++ row span ++ row (if tls then span else []) ++ row (if auth then span else []) ++
  ["/table"; "footer"; "/footer"; "/body"; "/html"].

End Page.

(** ** Properties *)

Definition page_t : tmpl := Eval vm_compute in default TEnd statusTmpl.

Lemma statusTmpl_parses : statusTmpl = Some page_t.
Proof. vm_compute. reflexivity. Qed.

Lemma page_ctx : ctx_after SText page_t = Some SText.
Proof. vm_compute. reflexivity. Qed.

Section Facts.
Variables (error_text : error → string) (local : Z → Z) (d : statusData).

Notation field := (status_field error_text local d).

(** The conditions of the page. *)
Lemma page_conds :
  holds field (Truth "DBOK") = Some (sd_DBOK d) ∧ holds field (EqZero "BadChecksums") = Some (sd_BadChecksums d =? 0) ∧
  holds field (Truth "TLSEnabled") = Some (sd_TLSEnabled d) ∧ holds field (Truth "AuthEnabled") = Some (sd_AuthEnabled d).
Proof. done. Qed.

(** What is put out, with any printer. *)
Lemma page_output pr : ∃ out, exec field pr page_t = Some out ∧
  (pr = (λ _, "") → html_run SText out = (SText, status_tags (sd_TLSEnabled d) (sd_AuthEnabled d))).
Proof.
  destruct page_conds as (H1 & H2 & H3 & H4). unfold page_t. cbn [exec]. rewrite H1, H2, H3, H4.
  assert (∀ f, f ∈ ["Version"; "BuildDate"; "Uptime"; "DBError"; "Total"; "BadChecksums"; "Now"] → is_Some (field f)) as Hf.
  { intros f Hf. repeat (apply elem_of_cons in Hf as [->|Hf]; [by eexists|]). by apply elem_of_nil in Hf. }
  repeat match goal with |- context [field ?f] => destruct (Hf f) as [? ->]; [repeat ((left; reflexivity) || right)|] end. cbn [mbind option_bind].
  destruct (sd_DBOK d), (sd_BadChecksums d =? 0), (sd_TLSEnabled d), (sd_AuthEnabled d); cbn [mbind option_bind];
    (eexists; split; [reflexivity|intros ->; vm_compute; reflexivity]).
Qed.
(** The text of a field that is shown. *)
Lemma page_shows f v out :
  field f = Some v → shows field f page_t = true → exec field print_html page_t = Some out →
  ∃ a b, out = a +:+ (html_escape (print v) +:+ b).
Proof. apply shown. Qed.

End Facts.

(** C38: The status page cannot be forged.  Whatever the data, the error of the
    database included, the template is parsed and executed without an error, and
    the tags of the page are those of the template for the two settings it shows:
    no value adds, changes or removes a tag.  An error of the database is shown as
    it is (unless it has a NUL). *)
Theorem status_page_safe (error_text : error → string) (local : Z → Z) (d : statusData) :
  ∃ page, status_html error_text local d = Some page ∧
    html_run SText page = (SText, status_tags (sd_TLSEnabled d) (sd_AuthEnabled d)) ∧
    ∀ e, sd_DBOK d = false → sd_DBError d = Some e →
      ∃ a shown b, page = a +:+ (shown +:+ b) ∧ (index_byte Ascii.zero (error_text e) = None → html_unescape shown = error_text e).
Proof.
  unfold status_html. rewrite statusTmpl_parses. cbn [mbind option_bind].
  destruct (page_output error_text local d print_html) as (page & Ep & _). exists page. split; [done|]. split.
  - destruct (page_output error_text local d (λ _, "")) as (bare & Eb & Hb).
    destruct (exec_tags (status_field error_text local d) print_html page_t SText SText page) as (bare' & tags & Eb' & Hp & Hb');
      [intros v; apply html_run_escape|apply page_ctx|done|].
    rewrite Eb in Eb'. injection Eb' as <-. rewrite Hp. rewrite Hb in Hb' by done. congruence.
  - intros e Hok He. destruct (page_shows error_text local d "DBError" (VStr (error_text e)) page) as (a & b & ->);
      [unfold status_field; cbn; by rewrite He| |done|].
    + unfold page_t. cbn [shows]. destruct (page_conds error_text local d) as (H1 & _). rewrite H1, Hok. reflexivity.
    + exists a, (html_escape (error_text e)), b. split; [done|]. apply html_unescape_escape.
Qed.

(** A database whose error tries to put a script on the page. *)
Definition ex_status : statusData :=
  mkStatus Version Date (3661 * Second) (1709164800 * Second) false (Some ErrEOF) 0 0 true false.

Example status_page_script :
  (page ← status_html (λ _, "<script>") (λ _, 10800) ex_status;
   Some (Contains page "<script>", Contains page "недоступна: &lt;script&gt;", Contains page "1h1m1s", Contains page "29.02.2024 03:00:00")) =
  Some (false, true, true, true).
Proof. vm_compute. reflexivity. Qed.
