(* ===== verification/Gateway.v ===== *)
(** * Gateway: the HTTP and gRPC front

    [cmd/gateway/main.go] (proxying to the app over HTTP) and
    [cmd/gateway/grpc.go] (the same API over gRPC), over interfaces for the HTTP
    and gRPC clients. *)

From stdpp Require Import base option list strings gmap fin_maps.
From Stdlib Require Import ZArith Lia Ascii.
From S2P Require Import Prelude GoStrings GoPaths Sha256 Messaging Retry Breaker Http RateLimit Jwt FileStores RequestJson MessagesApi GrpcServer.
Local Open Scope Z_scope.

(** ** [http.Header] *)

Definition upper_ascii (c : ascii) : ascii :=
  let b := byte_val c in
  if (97 <=? b) && (b <=? 122) then ascii_of_N (Z.to_N (b - 32)) else c.

(** The bytes of a header name: letters, digits and [!#$%&'*+-.^_`|~]. *)
Definition token_byte (c : ascii) : bool :=
  let b := byte_val c in
  ((48 <=? b) && (b <=? 57)) || ((65 <=? b) && (b <=? 90)) || ((97 <=? b) && (b <=? 122)) ||
  bool_decide (b ∈ [33; 35; 36; 37; 38; 39; 42; 43; 45; 46; 94; 95; 96; 124; 126]).

Fixpoint canonical_from (upper : bool) (s : string) : string :=
  match s with
  | "" => ""
  | String c s' =>
      String (if upper then upper_ascii c else lower_ascii c) (canonical_from (bool_decide (c = "-"%char)) s')
  end.

(** [http.CanonicalHeaderKey] *)
Definition CanonicalHeaderKey (s : string) : string :=
  if str_all token_byte s then canonical_from true s else s.

Notation header := (gmap string (list string)).

Definition header_add (name v : string) (h : header) : header :=
  let k := CanonicalHeaderKey name in <[k := default [] (h !! k) ++ [v]]> h.
Definition header_set (name v : string) (h : header) : header := <[CanonicalHeaderKey name := [v]]> h.
Definition header_value (name : string) (h : header) : string :=
  match h !! CanonicalHeaderKey name with Some (v :: _) => v | _ => "" end.

(** ** Proxying *)

Definition hopHeaders : list string :=
  ["Connection"; "Keep-Alive"; "Proxy-Authenticate"; "Proxy-Authorization"; "Te"; "Trailer";
   "Transfer-Encoding"; "Upgrade"].

Definition isHopHeader (name : string) : bool := existsb (EqualFold name) hopHeaders.

(** The inner loop of [copyHeaders]. *)
Definition add_values (name : string) (values : list string) (dst : header) : header :=
  foldl (λ dst v, header_add name v dst) dst values.

Definition copyHeaders (dst src : header) : header :=
  map_fold (λ name values dst, if isHopHeader name then dst else add_values name values dst) dst src.

(** [strconv.FormatInt(n, 36)] of a number that is not negative: 13 digits hold
    any 64-bit one. *)
Definition digit36 (d : Z) : ascii := ascii_of_N (Z.to_N (if d <? 10 then d + 48 else d + 87)).
Fixpoint format36_loop (fuel : nat) (n : Z) (acc : string) : string :=
  match fuel with
  | O => acc
  | S fuel' =>
      let acc' := String (digit36 (n mod 36)) acc in
      if n <? 36 then acc' else format36_loop fuel' (n / 36) acc'
  end.

(** An incoming request, the request sent on, and the answer to it. *)
Record gw_request := mkGw { gw_ctx : ctx; gw_remote : string; gw_header : header; gw_body : string }.
Record out_request := mkOut { oq_method : string; oq_url : string; oq_header : header; oq_body : option string }.
Record in_response := mkIn { ir_id : nat; ir_status : Z; ir_header : header; ir_body : string }.

(** What the gateway writes. *)
Inductive gw_out :=
| GErr (msg : string)
| GStatus (s : string)
| GRaw (bytes : string)
| GMessage (m : Message)
| GLines (ms : list Message)
| GBatch (created : Z) (ids : list Z)
| GReplies (replies : list string).
Record gw_reply := mkGwReply { gr_status : Z; gr_header : header; gr_out : gw_out }.

Definition json_header : header := {["Content-Type" := ["application/json"]]}.

(** [writeError] *)
Definition writeError (status : Z) (msg : string) : gw_reply := mkGwReply status json_header (GErr msg).

(** [health] *)
Definition gw_health : gw_reply := mkGwReply StatusOK json_header (GStatus "работает").

(** [http.Client.Do], closing a response's body, and [crypto/rand.Read] of 16
    bytes. *)
Class Upstream (W : Type) := {
  up_Do : ctx → out_request → GoM W (in_response + error);
  up_Close : in_response → GoM W unit;
  up_rand : GoM W (list Z + error)
}.

Section Proxy.
Context `{Runtime W, Upstream W}.
(** [g.appURL], and whether [http.NewRequestWithContext] accepts a URL. *)
Variable appURL : string.
Variable url_ok : string → bool.

Definition newIdemKey : GoM W string :=
  r ← up_rand;
  match r with
  | inl buf => mret (EncodeToString buf)
  | inr _ => t ← gets now; mret (format36_loop 13 t "")
  end.

(** The headers of the request to the app, from the key to use. *)
Definition forwarded_for (r : gw_request) (h : header) : header :=
  match SplitHostPort (gw_remote r) with
  | None => h
  | Some (host, _) =>
      let prior := header_value "X-Forwarded-For" (gw_header r) in
      header_set "X-Forwarded-For" (if bool_decide (prior = "") then host else prior +:+ ", " +:+ host) h
  end.

Definition forward (r : gw_request) (method : string) (body : option string) : GoM W gw_reply :=
  if negb (url_ok (appURL +:+ "/messages")) then
    mret (writeError StatusInternalServerError "не удалось собрать запрос")
  else
    let h := copyHeaders ∅ (gw_header r) in
    h ← (if bool_decide (method = "POST") && bool_decide (header_value "Idempotency-Key" h = "")
         then key ← newIdemKey; mret (header_set "Idempotency-Key" key h)
         else mret h);
    let h := forwarded_for r h in
    resp ← up_Do (gw_ctx r) (mkOut method (appURL +:+ "/messages") h body);
    match resp with
    | inr _ => mret (writeError StatusBadGateway "app недоступен")
    | inl resp =>
        let rep := mkGwReply (ir_status resp) (copyHeaders ∅ (ir_header resp)) (GRaw (ir_body resp)) in
        _ ← up_Close resp;
        mret rep
    end.

Definition proxyCreate (r : gw_request) : GoM W gw_reply := forward r "POST" (Some (gw_body r)).
Definition proxyList (r : gw_request) : GoM W gw_reply := forward r "GET" None.

End Proxy.

(** ** gRPC *)

(** [codes.Code], those the gateway tells apart. *)
Inductive code := CUnauthenticated | CAlreadyExists | CInvalidArgument | CInternal | COther (n : Z).

(** [status.FromError]: the code and message of an error of the client. *)
Record grpc_error := mkGrpcError { ge_code : code; ge_message : string }.

Definition writeGRPCError (err : grpc_error) : gw_reply :=
  writeError (match ge_code err with
              | CUnauthenticated => StatusUnauthorized
              | CAlreadyExists => StatusConflict
              | CInvalidArgument => StatusBadRequest
              | CInternal => StatusInternalServerError
              | COther _ => StatusBadGateway
              end) (ge_message err).

Definition fromProto (m : PMessage) : Message :=
  mkMessage (pm_Id m) (pm_Text m) (pm_Checksum m) (pm_ChecksumOk m) (pm_CreatedAt m).

(** [withAuth]: the metadata appended to the outgoing context. *)
Definition withAuth (r : gw_request) : list (string * string) :=
  (let token := header_value "Authorization" (gw_header r) in
   if bool_decide (token = "") then [] else [("authorization", token)]) ++
  (let key := header_value "Idempotency-Key" (gw_header r) in
   if bool_decide (key = "") then [] else [("idempotency-key", key)]).

(** [grpcapi.MessageServiceClient]: the unary call, and the streams by handle.
    [None] of a receive is [io.EOF]. *)
Class GrpcUnary (W : Type) := {
  gc_CreateMessage : ctx → list (string * string) → string → GoM W (PMessage + grpc_error)
}.
Class GrpcStreams (W : Type) := {
  gc_ListMessages : ctx → list (string * string) → Z → GoM W (nat + grpc_error);
  gc_ListRecv : nat → GoM W (option (PMessage + grpc_error));
  gc_BatchCreate : ctx → list (string * string) → GoM W (nat + grpc_error);
  gc_BatchSend : nat → string → GoM W (option grpc_error);
  gc_CloseAndRecv : nat → GoM W ((Z * list Z) + grpc_error);
  gc_Chat : ctx → list (string * string) → GoM W (nat + grpc_error);
  gc_ChatSend : nat → string → GoM W (option grpc_error);
  gc_ChatRecv : nat → GoM W (string + grpc_error);
  gc_CloseSend : nat → GoM W unit
}.

Section Grpc.
Context `{Runtime W}.

(** [r.Body] *)
Definition gw_stream (r : gw_request) : stream := mkStream (gw_body r) None.

Definition grpcCreate `{GrpcUnary W} (r : gw_request) : GoM W gw_reply :=
  match decode_text (gw_stream r) with
  | None => mret (writeError StatusBadRequest "некорректное тело запроса")
  | Some text =>
      c ← gets (with_timeout (gw_ctx r) (10 * Second));
      res ← gc_CreateMessage c (withAuth r) text;
      match res with
      | inr err => mret (writeGRPCError err)
      | inl msg => mret (mkGwReply StatusCreated json_header (GMessage (fromProto msg)))
      end
  end.

Context `{GrpcStreams W}.

(** The loop of receives of [grpcList], observed after [n] of them; the flag
    tells whether it has returned. *)
Fixpoint list_loop (n : nat) (stream : nat) (sent : list Message) : GoM W (list Message * bool) :=
  match n with
  | O => mret (sent, false)
  | S n' =>
      msg ← gc_ListRecv stream;
      match msg with
      | None => mret (sent, true)
      | Some (inr _) => mret (sent, true)
      | Some (inl msg) => list_loop n' stream (sent ++ [fromProto msg])
      end
  end.

Definition grpcList (n : nat) (r : gw_request) : GoM W (gw_reply * bool) :=
  c ← gets (with_timeout (gw_ctx r) (30 * Second));
  res ← gc_ListMessages c (withAuth r) 0;
  match res with
  | inr err => mret (writeGRPCError err, true)
  | inl stream =>
      out ← list_loop n stream [];
      mret (mkGwReply StatusOK {["Content-Type" := ["application/x-ndjson"]]} (GLines out.1), out.2)
  end.

(** The loop of sends of [grpcBatch]: stop at the first error. *)
Fixpoint batch_sends (stream : nat) (texts : list string) : GoM W unit :=
  match texts with
  | [] => mret ()
  | text :: rest =>
      err ← gc_BatchSend stream text;
      match err with
      | Some _ => mret ()
      | None => batch_sends stream rest
      end
  end.

Definition grpcBatch (r : gw_request) : GoM W gw_reply :=
  match decode_strings "texts" (gw_stream r) with
  | None => mret (writeError StatusBadRequest "некорректное тело запроса")
  | Some [] => mret (writeError StatusBadRequest "поле texts обязательно")
  | Some texts =>
      c ← gets (with_timeout (gw_ctx r) (30 * Second));
      res ← gc_BatchCreate c (withAuth r);
      match res with
      | inr err => mret (writeGRPCError err)
      | inl stream =>
          _ ← batch_sends stream texts;
          summary ← gc_CloseAndRecv stream;
          match summary with
          | inr err => mret (writeGRPCError err)
          | inl (created, ids) => mret (mkGwReply StatusCreated json_header (GBatch created ids))
          end
      end
  end.

(** The loop of [grpcChat]: one reply per note. *)
Fixpoint chat_loop (stream : nat) (notes replies : list string) : GoM W (list string + grpc_error) :=
  match notes with
  | [] => mret (inl replies)
  | note :: rest =>
      err ← gc_ChatSend stream note;
      match err with
      | Some err => mret (inr err)
      | None =>
          reply ← gc_ChatRecv stream;
          match reply with
          | inr err => mret (inr err)
          | inl reply => chat_loop stream rest (replies ++ [reply])
          end
      end
  end.

Definition grpcChat (r : gw_request) : GoM W gw_reply :=
  match decode_strings "notes" (gw_stream r) with
  | None => mret (writeError StatusBadRequest "некорректное тело запроса")
  | Some [] => mret (writeError StatusBadRequest "поле notes обязательно")
  | Some notes =>
      c ← gets (with_timeout (gw_ctx r) (30 * Second));
      res ← gc_Chat c (withAuth r);
      match res with
      | inr err => mret (writeGRPCError err)
      | inl stream =>
          res ← chat_loop stream notes [];
          match res with
          | inr err => mret (writeGRPCError err)
          | inl replies =>
              _ ← gc_CloseSend stream;
              mret (mkGwReply StatusOK json_header (GReplies replies))
          end
      end
  end.

End Grpc.

(** ** Headers *)

(** [net/http] gives the headers of parsed messages canonical names. *)
Definition canonical (h : header) : Prop := ∀ k, is_Some (h !! k) → CanonicalHeaderKey k = k.

Lemma add_values_lookup name values dst k :
  CanonicalHeaderKey name = name →
  add_values name values dst !! k =
    match values with
    | [] => dst !! k
    | _ => if decide (k = name) then Some (default [] (dst !! name) ++ values) else dst !! k
    end.
Proof.
  intros Hc. revert dst. induction values as [|v values IH]; intros dst; [done|].
  unfold add_values in *. cbn [foldl]. rewrite IH. unfold header_add. rewrite Hc.
  destruct (decide (k = name)) as [->|Hk].
  - rewrite lookup_insert_eq. destruct values; cbn; [done|]. by rewrite <- app_assoc.
  - rewrite lookup_insert_ne by done. by destruct values.
Qed.

(** Copying headers, name by name. *)
Lemma copyHeaders_lookup dst src k :
  canonical src →
  copyHeaders dst src !! k =
    match src !! k with
    | Some (v :: vs) => if isHopHeader k then dst !! k else Some (default [] (dst !! k) ++ v :: vs)
    | _ => dst !! k
    end.
Proof.
  unfold copyHeaders. revert k.
  apply (map_fold_weak_ind (λ res src, ∀ k, canonical src → res !! k =
    match src !! k with
    | Some (v :: vs) => if isHopHeader k then dst !! k else Some (default [] (dst !! k) ++ v :: vs)
    | _ => dst !! k
    end)).
  { intros k _. by rewrite lookup_empty. }
  intros name values m res Hm IH k Hc.
  assert (CanonicalHeaderKey name = name) as Hn by (apply Hc; rewrite lookup_insert_eq; by eexists).
  assert (canonical m) as Hcm.
  { intros k' Hk'. apply Hc. destruct (decide (k' = name)) as [->|]; [rewrite lookup_insert_eq; by eexists|].
    by rewrite lookup_insert_ne. }
  pose proof (IH k Hcm) as IHk. pose proof (IH name Hcm) as IHn. rewrite Hm in IHn.
  destruct (decide (k = name)) as [->|Hk].
  - rewrite lookup_insert_eq, Hm in *. destruct (isHopHeader name) eqn:Eh; [by destruct values|].
    rewrite add_values_lookup, IHn by done. destruct values; [done|]. by rewrite decide_True.
  - rewrite lookup_insert_ne by done. destruct (isHopHeader name); [done|].
    rewrite add_values_lookup by done. destruct values; [done|]. by rewrite decide_False.
Qed.

Lemma header_set_lookup name v h k :
  CanonicalHeaderKey name = name → header_set name v h !! k = if decide (k = name) then Some [v] else h !! k.
Proof.
  intros Hc. unfold header_set. rewrite Hc. destruct (decide (k = name)) as [->|].
  - by rewrite lookup_insert_eq.
  - by rewrite lookup_insert_ne.
Qed.

Lemma key_canonical : CanonicalHeaderKey "Idempotency-Key" = "Idempotency-Key".
Proof. vm_compute. reflexivity. Qed.
Lemma xff_canonical : CanonicalHeaderKey "X-Forwarded-For" = "X-Forwarded-For".
Proof. vm_compute. reflexivity. Qed.
Lemma key_not_hop : isHopHeader "Idempotency-Key" = false.
Proof. vm_compute. reflexivity. Qed.
Lemma xff_not_hop : isHopHeader "X-Forwarded-For" = false.
Proof. vm_compute. reflexivity. Qed.

(** The address header changes only itself. *)
Lemma forwarded_for_lookup r h k :
  k ≠ "X-Forwarded-For" → forwarded_for r h !! k = h !! k.
Proof.
  intros Hk. unfold forwarded_for. destruct (SplitHostPort _) as [[host port]|]; [|done].
  rewrite header_set_lookup by apply xff_canonical. by rewrite decide_False.
Qed.

Lemma header_value_forwarded name r h :
  CanonicalHeaderKey name ≠ "X-Forwarded-For" → header_value name (forwarded_for r h) = header_value name h.
Proof. intros Hn. unfold header_value. by rewrite forwarded_for_lookup. Qed.

Lemma format36_nonempty n fuel acc : format36_loop (S fuel) n acc ≠ "".
Proof.
  revert n acc. induction fuel as [|fuel IH]; intros n acc; cbn [format36_loop]; destruct (n <? 36); try done.
  apply IH.
Qed.

Section ProxyFacts.
Context `{Runtime W, Upstream W}.

Lemma newIdemKey_nonempty (w : W) :
  (∀ w, ∃ x w', up_rand w = Some (x, w') ∧ ∀ buf, x = inl buf → buf ≠ []) →
  ∃ key w', newIdemKey w = Some (key, w') ∧ key ≠ "".
Proof.
  intros Hr. destruct (Hr w) as (x & w1 & E & Hx). unfold newIdemKey. rewrite (gom_bind_run _ _ _ _ _ E).
  destruct x as [buf|e].
  - eexists _, _. split; [done|]. specialize (Hx buf eq_refl). by destruct buf.
  - rewrite gom_gets_bind. eexists _, _. split; [done|]. apply format36_nonempty.
Qed.

End ProxyFacts.

(** What the gateway answers with, given the app's answer. *)
Definition proxied `{Runtime W, Upstream W} (resp : in_response + error) : GoM W gw_reply :=
  match resp with
  | inr _ => mret (writeError StatusBadGateway "app недоступен")
  | inl resp =>
      _ ← up_Close resp;
      mret (mkGwReply (ir_status resp) (copyHeaders ∅ (ir_header resp)) (GRaw (ir_body resp)))
  end.


(** ** The client's address *)

(** The request as the app sees it from the gateway, and as it would see it from
    the client. *)
Definition via_gateway (r : gw_request) (gateway : string) (h : header) : http_request :=
  mkReq (gw_ctx r) gateway (λ name, header_value name (forwarded_for r h)) (λ _, "") (λ _, "").
Definition directly (r : gw_request) : http_request :=
  mkReq (gw_ctx r) (gw_remote r) (λ name, header_value name (gw_header r)) (λ _, "") (λ _, "").

(** What follows a separator does not change the first piece. *)
Lemma Split_hd_app a c b : List.hd "" (Split (a +:+ String c b) c) = List.hd "" (Split a c).
Proof.
  induction a as [|x a IH].
  - change ("" +:+ String c b) with (String c b). cbn [Split]. by rewrite bool_decide_true.
  - change (String x a +:+ String c b) with (String x (a +:+ String c b)). cbn [Split].
    case_bool_decide; [done|]. pose proof (Split_nonempty (a +:+ String c b) c). pose proof (Split_nonempty a c).
    destruct (Split (a +:+ String c b) c), (Split a c); [done..|]. cbn in *. by rewrite IH.
Qed.

(** The rate limiter sees the same client through the gateway.  For a client
    connected from an ordinary address, the address the app counts is the one it
    would count if the client had connected to it: the first one the client
    claims in [X-Forwarded-For], else that of its connection. *)
Theorem gateway_keeps_client (r : gw_request) (gateway host port : string) (h : header) :
  SplitHostPort (gw_remote r) = Some (host, port) →
  host ≠ "" → str_all solid host = true → str_all (not_byte ","%char) host = true →
  clientIP (via_gateway r gateway h) = clientIP (directly r).
Proof.
  intros Hr Hne Hsolid Hcomma. unfold clientIP, via_gateway, directly. cbn [hq_header hq_remote]. rewrite Hr.
  assert (header_value "X-Forwarded-For" (forwarded_for r h) =
    let prior := header_value "X-Forwarded-For" (gw_header r) in
    if bool_decide (prior = "") then host else prior +:+ ", " +:+ host) as ->.
  { unfold forwarded_for. rewrite Hr. unfold header_value at 1.
    rewrite xff_canonical, header_set_lookup by apply xff_canonical. by rewrite decide_True. }
  cbv zeta. generalize (header_value "X-Forwarded-For" (gw_header r)). intros prior.
  destruct (bool_decide_reflect (prior = "")) as [->|Hp]; cbn [negb].
  - rewrite (bool_decide_false (host = "")) by done. cbn [negb]. rewrite Split_one by done. cbn [List.hd].
    by apply TrimSpace_solid.
  - rewrite bool_decide_false by (by destruct prior). cbn [negb].
    change (", " +:+ host) with (String ","%char (" " +:+ host)). by rewrite Split_hd_app.
Qed.

(** ** Over the gRPC server *)

Lemma fromProto_toProto m : fromProto (toProto m) = m.
Proof. by destruct m. Qed.

(** The metadata as the server reads it. *)
Definition md_of (pairs : list (string * string)) : metadata :=
  λ key, snd <$> filter (λ p : string * string, p.1 = key) pairs.

(** The status of a call as the client sees it. *)
Definition received (s : status) : grpc_error :=
  match s with
  | Unauthenticated msg => mkGrpcError CUnauthenticated msg
  | InvalidArgument msg => mkGrpcError CInvalidArgument msg
  | AlreadyExists msg => mkGrpcError CAlreadyExists msg
  | Internal msg => mkGrpcError CInternal msg
  | Transport e => mkGrpcError (COther 2) "transport"
  end.

Section EndToEnd.
Context `{Runtime W, KeyServer W, !JwtLibrary (W * Auth), !MessageStore (W * Auth)}.
Variable enabled : bool.

(** The unary call answered by the service behind its interceptor; deadline and
    metadata travel with the call. *)
Definition served : GrpcUnary (W * Auth) := {|
  gc_CreateMessage c pairs text :=
    res ← intercept enabled (md_of pairs) CreateMessage_FullMethodName (CreateMessage c (md_of pairs) text);
    mret (match res with inl m => inl m | inr s => inr (received s) end)
|}.

Definition gw_post (r : gw_request) : GoM (W * Auth) gw_reply := @grpcCreate _ _ served r.

End EndToEnd.

Lemma md_of_key r :
  md_of (withAuth r) "idempotency-key" =
    let key := header_value "Idempotency-Key" (gw_header r) in if bool_decide (key = "") then [] else [key].
Proof.
  unfold md_of, withAuth. cbv zeta. rewrite filter_app, fmap_app.
  destruct (bool_decide (header_value "Authorization" _ = "")), (bool_decide (header_value "Idempotency-Key" _ = "")); done.
Qed.

Lemma md_of_auth r :
  md_of (withAuth r) "authorization" =
    let token := header_value "Authorization" (gw_header r) in if bool_decide (token = "") then [] else [token].
Proof.
  unfold md_of, withAuth. cbv zeta. rewrite filter_app, fmap_app.
  destruct (bool_decide (header_value "Authorization" _ = "")), (bool_decide (header_value "Idempotency-Key" _ = "")); done.
Qed.

Section EndToEndFacts.
Context `{Runtime W, KeyServer W, !JwtLibrary (W * Auth), !MessageStore (W * Auth)}.
Variables (enabled : bool) (r : gw_request) (t : string) (s s1 : W * Auth).
Hypothesis Hbody : decode_text (gw_stream r) = Some t.

Lemma checkAuth_status md method st :
  checkAuth enabled md method s = Some (Some st, s1) → ∃ msg, st = Unauthenticated msg.
Proof.
  unfold checkAuth. destruct (negb enabled || _); [done|].
  destruct (md "authorization") as [|v vs]; [intros [= <- _]; eauto|].
  destruct (CutPrefix v "Bearer ") as [raw found].
  destruct (negb found || _); [intros [= <- _]; eauto|]. unfold mbind, gom_bind.
  destruct (Validate raw s) as [[[e|] s2]|]; [intros [= <- _]; eauto|done|done].
Qed.

(** A refused call. *)
Lemma gw_post_refused st :
  checkAuth enabled (md_of (withAuth r)) CreateMessage_FullMethodName s = Some (Some st, s1) →
  ∃ rep, gw_post enabled r s = Some (rep, s1) ∧ gr_status rep = StatusUnauthorized.
Proof.
  intros E. destruct (checkAuth_status _ _ _ E) as [msg ->]. unfold gw_post, grpcCreate. rewrite Hbody, gom_gets_bind.
  cbn [gc_CreateMessage served]. unfold intercept, mbind, gom_bind. rewrite E. by eexists.
Qed.

(** A call that reaches the service. *)
Lemma gw_post_served :
  checkAuth enabled (md_of (withAuth r)) CreateMessage_FullMethodName s = Some (None, s1) →
  gw_post enabled r s =
    (res ← CreateMessage (WithTimeout (gw_ctx r) (now s + 10 * Second)) (md_of (withAuth r)) t;
     mret (match res with
           | inr st => writeGRPCError (received st)
           | inl msg => mkGwReply StatusCreated json_header (GMessage (fromProto msg))
           end)) s1.
Proof.
  intros E. unfold gw_post, grpcCreate. rewrite Hbody, gom_gets_bind. cbn [gc_CreateMessage served].
  unfold intercept, mbind, gom_bind. rewrite E. unfold with_timeout.
  destruct (CreateMessage _ _ t s1) as [[[m|st] s2]|]; done.
Qed.

(** The service asks the store with the client's key, in time. *)
Lemma CreateMessage_asks c msg err s2 :
  ¬ Blank t →
  store_Create (WithTimeout c (now s1 + 5 * Second)) t (header_value "Idempotency-Key" (gw_header r)) s1 =
    Some ((msg, err), s2) →
  ∃ s3, CreateMessage c (md_of (withAuth r)) t s1 = Some
    (match err with
     | Some e => inr (if errors_is e ErrIdempotencyConflict then AlreadyExists (conflict_text err)
                      else Internal "не удалось сохранить сообщение")
     | None => inl (toProto msg)
     end, s3) ∧ (is_Some err → s3 = s2).
Proof.
  intros Hnb Hst. unfold CreateMessage. rewrite bool_decide_false by (by rewrite TrimSpace_empty). rewrite md_of_key.
  assert (Service_Create c t (header_value "Idempotency-Key" (gw_header r)) s1 = Some ((msg, err), s2)) as Hsc.
  { unfold Service_Create. destruct (ValidateText_cases t) as [->|Hv%ValidateText_spec]; [|done]. exact Hst. }
  cbv zeta. destruct (bool_decide_reflect (header_value "Idempotency-Key" (gw_header r) = "")) as [Hk|Hk];
    [rewrite Hk in Hsc|]; rewrite (gom_bind_run _ _ _ _ _ Hsc); cbv beta iota;
    (destruct err as [e|]; cbn [is_err];
      [destruct (errors_is e ErrIdempotencyConflict); by eexists|eexists; split; [done|by intros []]]).
Qed.

End EndToEndFacts.


(** ** Witnesses *)

(** An app that answers with the headers it got. *)
#[local] Instance ex_upstream : Upstream sim := {|
  up_Do c q := mret (inl (mkIn 0 201 (<["Connection" := ["close"]]> (oq_header q)) (default "" (oq_body q))));
  up_Close r := mret ();
  up_rand := mret (inl [1; 255])
|}.

Definition ex_gw : gw_request :=
  mkGw Background "10.0.0.7:5000" {["Content-Type" := ["application/json"]; "Keep-Alive" := ["5"]; "X-A" := ["1"; "2"]]} "{}".

Lemma ex_gw_canonical : canonical (gw_header ex_gw).
Proof.
  intros k Hk. apply elem_of_dom in Hk.
  assert (set_Forall (λ k, CanonicalHeaderKey k = k) (dom (gw_header ex_gw))) as Hall
    by (apply (bool_decide_eq_true_1 _); vm_compute; reflexivity).
  by apply Hall.
Qed.


Lemma gateway_keeps_client_witness :
  clientIP (via_gateway ex_gw "172.18.0.2:40000" ∅) = clientIP (directly ex_gw).
Proof.
  apply (gateway_keeps_client ex_gw "172.18.0.2:40000" "10.0.0.7" "5000" ∅);
    [vm_compute; reflexivity|discriminate|vm_compute; reflexivity|vm_compute; reflexivity].
Defined.

Example client_address : clientIP (directly ex_gw) = "10.0.0.7".
Proof. vm_compute. reflexivity. Qed.
