(* ===== verification/Connect.v ===== *)
(** * Connect: the clients the processes open

    The constructors that read the environment and connect a client:
    [internal/coord/coord.go], [internal/storage/postgres.go],
    [internal/blobstore/blobstore.go], [internal/hdfsstore/hdfsstore.go],
    [internal/cstore/cstore.go], tracing ([internal/observability]) and the TLS
    settings ([internal/security/tls.go]), each over an interface for the
    library it calls. *)

From stdpp Require Import base option list strings gmap.
From Stdlib Require Import ZArith Lia Ascii.
From S2P Require Import Prelude GoStrings GoPaths Env Messaging Storage.
Local Open Scope Z_scope.

(** ** Tracing *)

(** The OpenTelemetry SDK: the exporter and the resource may fail, the provider
    is a handle. *)
Class Otel (W : Type) := {
  ot_Exporter : ctx → GoM W (option error);
  ot_Resource : ctx → string → GoM W (option error);
  ot_Provider : GoM W nat;
  ot_Shutdown : nat → ctx → GoM W (option error)
}.

Section Tracing.
Context `{Otel W}.

(** [SetupTracing]: the provider whose [Shutdown] is returned, [None] for
    [noop]. *)
Definition SetupTracing (e : environ) (c : ctx) (service : string) : GoM W (option nat * option error) :=
  if bool_decide (e "OTEL_EXPORTER_OTLP_ENDPOINT" = "") then mret (None, None)
  else
    err ← ot_Exporter c;
    match err with
    | Some err => mret (None, Some err)
    | None =>
        err ← ot_Resource c service;
        match err with
        | Some err => mret (None, Some err)
        | None => tp ← ot_Provider; mret (Some tp, None)
        end
    end.

(** The deferred call of the function returned. *)
Definition shutdownTracing (tp : option nat) : GoM W unit :=
  match tp with
  | None => mret ()
  | Some tp => _ ← ot_Shutdown tp Background; mret ()
  end.

End Tracing.

(** ** etcd *)

Class EtcdDial (W : Type) := {
  et_New : list string → Z → GoM W (nat + error);
  et_Close : nat → GoM W unit
}.

(** [Coordinator]; a nil coordinator is [None]. *)
Record Coordinator := mkCoordinator { co_etcd : nat }.

Section Coordinator.
Context `{EtcdDial W}.

Definition coord_New (e : environ) : GoM W (option Coordinator * option error) :=
  let endpoints := e "ETCD_ENDPOINTS" in
  if bool_decide (endpoints = "") then mret (None, None)
  else
    client ← et_New (Split endpoints ","%char) (5 * Second);
    match client with
    | inr err => mret (None, Some err)
    | inl client => mret (Some (mkCoordinator client), None)
    end.

Definition coord_Close (co : option Coordinator) : GoM W unit :=
  match co with
  | None => mret ()
  | Some co => et_Close (co_etcd co)
  end.

End Coordinator.

(** ** PostgreSQL *)

(** The pool, and the database behind it: its schema and tables, and the faults
    and the time a transaction on it meets. *)
Class PgxPool (W : Type) := {
  px_ParseConfig : string → option error;
  px_NewWithConfig : ctx → string → GoM W (nat + error);
  px_Ping : nat → ctx → GoM W (option error);
  px_Close : nat → GoM W unit;
  px_tx : nat → W → tx_env;
  px_get : nat → W → schema * db;
  px_put : nat → schema * db → W → W
}.

Record Postgres := mkPostgres { pg_pool : nat; pg_targets : list string }.

Section Postgres.
Context `{PgxPool W}.

(** [Postgres.migrate] on the database of the pool. *)
Definition pool_migrate (pool : nat) : GoM W (option error) := λ w,
  let '(err, x) := migrate (px_tx pool w) (px_get pool w) in Some (err, px_put pool x w).

Definition storage_New (c : ctx) (dsn : string) (targets : list string) : GoM W (option Postgres * option error) :=
  match px_ParseConfig (W := W) dsn with
  | Some err => mret (None, Some err)
  | None =>
      pool ← px_NewWithConfig c dsn;
      match pool with
      | inr err => mret (None, Some err)
      | inl pool =>
          err ← px_Ping pool c;
          match err with
          | Some err => _ ← px_Close pool; mret (None, Some err)
          | None =>
              err ← pool_migrate pool;
              match err with
              | Some err => _ ← px_Close pool; mret (None, Some err)
              | None => mret (Some (mkPostgres pool targets), None)
              end
          end
      end
  end.

Definition storage_Ping (p : Postgres) (c : ctx) : GoM W (option error) := px_Ping (pg_pool p) c.
Definition storage_Close (p : Postgres) : GoM W unit := px_Close (pg_pool p).

End Postgres.

(** ** S3 *)

Class MinioDial (W : Type) := {
  mn_New : string → string * string → bool → GoM W (nat + error);
  mn_BucketExists : nat → ctx → string → GoM W (bool + error);
  mn_MakeBucket : nat → ctx → string → GoM W (option error);
  mn_EnableVersioning : nat → ctx → string → GoM W (option error)
}.

Record BlobStore := mkBlobStore { bs_client : nat; bs_bucket : string; bs_partSize : Z }.

(** The part size in MiB that [New] settles on. *)
Definition part_size_mb (e : environ) : Z :=
  let '(partSize, err) := ParseUint (env e "S3_PART_SIZE_MB" "16") in
  match err with
  | Some _ => 16
  | None => if partSize <? 5 then 16 else partSize
  end.

(** [partSize << 20] on [uint64] *)
Definition part_size (e : environ) : Z := wrapu64 (Z.shiftl (part_size_mb e) 20).

Section Blobs.
Context `{Runtime W, MinioDial W}.

Definition blobstore_New (e : environ) (c : ctx) : GoM W (option BlobStore * option error) :=
  let endpoint := TrimSpace (e "S3_ENDPOINT") in
  if bool_decide (endpoint = "") then mret (None, None)
  else
    let bucket := env e "S3_BUCKET" "otus-files" in
    let useSSL := bool_decide (e "S3_USE_SSL" = "true") in
    client ← mn_New endpoint (env e "S3_ACCESS_KEY" "minioadmin", env e "S3_SECRET_KEY" "minioadmin") useSSL;
    match client with
    | inr err => mret (None, Some err)
    | inl client =>
        initCtx ← gets (with_timeout c (30 * Second));
        exists_ ← mn_BucketExists client initCtx bucket;
        match exists_ with
        | inr err => mret (None, Some err)
        | inl exists_ =>
            err ← (if (exists_ : bool) then mret None else mn_MakeBucket client initCtx bucket);
            match err with
            | Some err => mret (None, Some err)
            | None =>
                _ ← mn_EnableVersioning client initCtx bucket;
                mret (Some (mkBlobStore client bucket (part_size e)), None)
            end
        end
    end.

End Blobs.

(** ** HDFS *)

(** [hd_IsExist] is [os.IsExist]. *)
Class HdfsDial (W : Type) := {
  hd_NewClient : list string → string → GoM W (nat + error);
  hd_MkdirAll : nat → string → Z → GoM W (option error);
  hd_IsExist : error → bool;
  hd_Close : nat → GoM W (option error)
}.

Record HdfsStore := mkHdfsStore { hs_client : nat; hs_dir : string; hs_replication : Z; hs_blockSize : Z }.

Section Hdfs.
Context `{HdfsDial W}.

Definition hdfsstore_New (e : environ) : GoM W (option HdfsStore * option error) :=
  let addrs := envList e "HDFS_NAMENODES" in
  if bool_decide (addrs = []) then mret (None, None)
  else
    let user := env e "HDFS_USER" "root" in
    client ← hd_NewClient addrs user;
    match client with
    | inr err => mret (None, Some err)
    | inl client =>
        let replication := env_int e "HDFS_REPLICATION" "3" in
        let blockMB := env_int e "HDFS_BLOCK_SIZE_MB" "16" in
        let dir := env e "HDFS_DIR" "/otus/files" in
        err ← hd_MkdirAll client dir 493;
        let failed := match err with Some err => negb (hd_IsExist (W := W) err) | None => false end in
        if (failed : bool) then _ ← hd_Close client; mret (None, err)
        else mret (Some (mkHdfsStore client dir replication (wrap64 (Z.shiftl blockMB 20))), None)
    end.

End Hdfs.

(** ** Cassandra *)

(** The levels of consistency of the driver. *)
Inductive Consistency := CAny | COne | CTwo | CThree | CQuorum | CAll | CLocalQuorum | CEachQuorum | CLocalOne.
Inductive host_policy := RoundRobinHostPolicy | TokenAwareHostPolicy (fallback : host_policy).
Inductive RetryType := CRetry | RetryNextHost | CIgnore | CRethrow.

Record ClusterConfig := mkCluster {
  cl_hosts : list string; cl_Keyspace : string; cl_ProtoVersion : Z; cl_Timeout : Z; cl_ConnectTimeout : Z;
  cl_Consistency : Consistency; cl_HostSelection : host_policy; cl_ReconnectInterval : Z }.

(** [cq_ParseConsistency] is [gocql.ParseConsistencyWrapper]. *)
Class Gocql (W : Type) := {
  cq_ParseConsistency : string → option Consistency;
  cq_CreateSession : ClusterConfig → GoM W (nat + error);
  cq_Exec : nat → string → GoM W (option error);
  cq_Close : nat → GoM W unit
}.

Record EventStore := mkEventStore { es_session : nat; es_ks : string }.

Definition GetRetryType (err : error) : RetryType := RetryNextHost.

(** The statements of [Store.migrate]. *)
Definition cassandra_schema : list string := [
"CREATE TABLE IF NOT EXISTS message_events (
			day        text,
			created_at timestamp,
			id         bigint,
			text       text,
			checksum   text,
			producer   text,
			PRIMARY KEY ((day), created_at, id)
		) WITH CLUSTERING ORDER BY (created_at DESC, id DESC)";
"CREATE TABLE IF NOT EXISTS events_by_id (
			id         bigint PRIMARY KEY,
			text       text,
			checksum   text,
			producer   text,
			created_at timestamp
		)"].

Section Cassandra.
Context `{Gocql W}.
Variable e : environ.

Definition consistency : Consistency :=
  let raw := TrimSpace (e "CASSANDRA_CONSISTENCY") in
  if bool_decide (raw = "") then CQuorum
  else match cq_ParseConsistency (W := W) raw with Some c => c | None => CQuorum end.

Definition newCluster (hosts : list string) (keyspace : string) : ClusterConfig :=
  mkCluster hosts keyspace 4 (5 * Second) (5 * Second) consistency
    (TokenAwareHostPolicy RoundRobinHostPolicy) Second.

(** The loop of [Store.migrate]. *)
Fixpoint exec_all (session : nat) (statements : list string) : GoM W (option error) :=
  match statements with
  | [] => mret None
  | stmt :: rest =>
      err ← cq_Exec session stmt;
      match err with
      | Some err => mret (Some err)
      | None => exec_all session rest
      end
  end.

Definition create_keyspace (ks : string) (rf : Z) : string :=
  "CREATE KEYSPACE IF NOT EXISTS " +:+ ks +:+
  " WITH replication = {'class': 'SimpleStrategy', 'replication_factor': " +:+ FormatInt rf +:+ "}".

Definition cstore_New : GoM W (option EventStore * option error) :=
  let hosts := envList e "CASSANDRA_HOSTS" in
  if bool_decide (hosts = []) then mret (None, None)
  else
    let ks := env e "CASSANDRA_KEYSPACE" "otus" in
    let rf := env_int e "CASSANDRA_RF" "3" in
    adminSession ← cq_CreateSession (newCluster hosts "");
    match adminSession with
    | inr err => mret (None, Some err)
    | inl adminSession =>
        err ← cq_Exec adminSession (create_keyspace ks rf);
        _ ← cq_Close adminSession;
        match err with
        | Some err => mret (None, Some err)
        | None =>
            session ← cq_CreateSession (newCluster hosts ks);
            match session with
            | inr err => mret (None, Some err)
            | inl session =>
                err ← exec_all session cassandra_schema;
                match err with
                | Some err => _ ← cq_Close session; mret (None, Some err)
                | None => mret (Some (mkEventStore session ks), None)
                end
            end
        end
    end.

Definition cstore_Close (s : option EventStore) : GoM W unit :=
  match s with
  | None => mret ()
  | Some s => cq_Close (es_session s)
  end.

End Cassandra.

(** ** TLS *)

(** Certificates are numbered; a pool is the certificates parsed into it. *)
Record tls_config := mkTls {
  tls_Certificates : list nat; tls_MinVersion : Z;
  tls_ClientCAs : option (list nat); tls_RequireClient : bool; tls_RootCAs : option (list nat) }.

#[export] Instance tls_config_eq_dec : EqDecision tls_config.
Proof. solve_decision. Defined.

Definition VersionTLS12 : Z := 771.

(** The files; [fs_pem] is what [AppendCertsFromPEM] parses of a text, and it
    reports whether there is any certificate in it. *)
Class CertFiles (W : Type) := {
  fs_LoadX509KeyPair : string → string → W → nat + error;
  fs_ReadFile : string → W → string + error;
  fs_pem : string → list nat
}.

Section Tls.
Context `{CertFiles W}.
Variable e : environ.

Definition loadCA (path : string) (w : W) : list nat + error :=
  match fs_ReadFile path w with
  | inr err => inr err
  | inl pem =>
      if bool_decide (fs_pem (W := W) pem = [])
      then inr (ErrText ("не удалось разобрать сертификат CA: " +:+ path))
      else inl (fs_pem (W := W) pem)
  end.

Definition ServerTLS (w : W) : option tls_config + error :=
  let certFile := e "TLS_CERT_FILE" in
  let keyFile := e "TLS_KEY_FILE" in
  if bool_decide (certFile = "") && bool_decide (keyFile = "") then inl None
  else
    match fs_LoadX509KeyPair certFile keyFile w with
    | inr err => inr err
    | inl cert =>
        let caFile := e "TLS_CA_FILE" in
        if negb (bool_decide (caFile = "")) then
          match loadCA caFile w with
          | inr err => inr err
          | inl pool => inl (Some (mkTls [cert] VersionTLS12 (Some pool) true None))
          end
        else inl (Some (mkTls [cert] VersionTLS12 None false None))
    end.

Definition ClientTLS (w : W) : option tls_config + error :=
  let certFile := e "TLS_CERT_FILE" in
  let keyFile := e "TLS_KEY_FILE" in
  let caFile := e "TLS_CA_FILE" in
  if bool_decide (certFile = "") && bool_decide (keyFile = "") && bool_decide (caFile = "") then inl None
  else
    let roots := if negb (bool_decide (caFile = ""))
                 then match loadCA caFile w with inl pool => inl (Some pool) | inr err => inr err end
                 else inl None in
    match roots with
    | inr err => inr err
    | inl roots =>
        if negb (bool_decide (certFile = "")) || negb (bool_decide (keyFile = "")) then
          match fs_LoadX509KeyPair certFile keyFile w with
          | inr err => inr err
          | inl cert => inl (Some (mkTls [cert] VersionTLS12 None false roots))
          end
        else inl (Some (mkTls [] VersionTLS12 None false roots))
    end.

End Tls.
