(* ===== verification/Startup.v ===== *)
(** * Startup: the processes from start to exit

    [cmd/app], [cmd/consumer], [cmd/gateway] and [cmd/chaosproxy]: what each
    opens, starts, serves and releases, with [internal/httpserver] and
    [outbox.Start]. *)

From stdpp Require Import base option list strings gmap.
From Stdlib Require Import ZArith Lia Ascii.
From S2P Require Import Prelude GoStrings GoPaths Env Messaging Storage Breaker RateLimit Jwt TCache Coord MessagesApi.
From S2P Require Import FilesApi AuditLogs SearchClient Brokers Gateway Connect.
Local Open Scope Z_scope.

(** ** Goroutines and servers *)

(** The goroutines the processes start: [TWorker] runs [OutboxWorker.run],
    [TWatch] the loop of [Coord.WatchInt] from a revision, [TServe] a gRPC
    server on a listener, [TConsumer] [Consumers.supervise], [TListen] an HTTP
    server of its own. *)
Inductive thread :=
| TWorker (c : ctx) (target : string)
| TWatch (c : ctx) (key : string) (rev : Z)
| TServe (server lis : nat)
| TConsumer (c : ctx) (worker : Z) (broker : string)
| TListen (addr : string).

#[export] Instance ctx_eq_dec : EqDecision ctx.
Proof. solve_decision. Defined.
#[export] Instance thread_eq_dec : EqDecision thread.
Proof. solve_decision. Defined.

(** Goroutines, cancellation and signals: [th_Notify] is
    [signal.NotifyContext], [th_Done] blocks until a context is done, [th_Wait]
    until the goroutines of a group have returned. *)
Class Threads (W : Type) := {
  th_WithCancel : ctx → GoM W ctx;
  th_Notify : GoM W ctx;
  th_Cancel : ctx → GoM W unit;
  th_Go : thread → GoM W nat;
  th_Done : ctx → GoM W unit;
  th_Wait : list (nat * thread) → GoM W unit
}.

(** What a server is asked to serve; the gateway and the proxy hold a client with
    TLS settings, the gateway a gRPC client too. *)
Inductive handler (A : Type) := HApi (a : A) | HGateway (appURL : string) (tls : option tls_config) (grpc : nat)
| HProxy (appURL : string) (tls : option tls_config) | HMetrics.
Arguments HApi {A} _. Arguments HGateway {A} _ _ _. Arguments HProxy {A} _ _. Arguments HMetrics {A}.

(** [http.Server] *)
Record Server (A : Type) := mkServer {
  sv_Addr : string; sv_Handler : handler A; sv_ReadHeaderTimeout : Z; sv_TLSConfig : option tls_config }.
Arguments mkServer {A} _ _ _ _. Arguments sv_Addr {A} _. Arguments sv_Handler {A} _. Arguments sv_TLSConfig {A} _.

(** Serving: [hs_ListenAndServe] and its TLS variant run until the server fails
    or a signal arrives ([None]); credentials [None] are insecure. *)
Class Net (W A : Type) := {
  hs_ListenAndServe : Server A → GoM W (option error);
  hs_ListenAndServeTLS : Server A → GoM W (option error);
  hs_Shutdown : Server A → ctx → GoM W (option error);
  nt_Listen : string → GoM W (nat + error);
  gs_NewServer : option tls_config → GoM W nat;
  gs_GracefulStop : nat → GoM W unit;
  gc_NewClient : string → option tls_config → GoM W (nat + error)
}.

(** A body with a deferred call.  A panic ends the process, so its deferred calls
    are left out. *)
Definition deferring {W A} (release : GoM W unit) (body : GoM W A) : GoM W A :=
  r ← body; _ ← release; mret r.

(** A body with a local variable, which closures may assign. *)
Definition with_local {W L A} (l : L) (m : GoM (W * L) A) : GoM W (A * L) := λ w,
  match m (w, l) with
  | Some (a, (w', l')) => Some ((a, l'), w')
  | None => None
  end.

(** [httpserver.Run] *)
Definition Run {W A} `{Runtime W, Net W A} (srv : Server A) : GoM W (option error) :=
  r ← (match sv_TLSConfig srv with
       | Some _ => hs_ListenAndServeTLS srv
       | None => hs_ListenAndServe srv
       end);
  match r with
  | Some err => mret (Some err)
  | None => shutdownCtx ← gets (with_timeout Background (10 * Second)); hs_Shutdown srv shutdownCtx
  end.

(** ** [outbox.Start] *)

Section Outbox.
Context `{Threads W}.

(** The goroutines of a [sync.WaitGroup]. *)
Fixpoint go_all (ts : list thread) : GoM W (list (nat * thread)) :=
  match ts with
  | [] => mret []
  | t :: rest => id ← th_Go t; ids ← go_all rest; mret ((id, t) :: ids)
  end.

(** [Start]: the context of the workers and the workers; [stop] is the function
    returned. *)
Definition Start (parent : ctx) (targets : list string) : GoM W (ctx * list (nat * thread)) :=
  c ← th_WithCancel parent;
  ids ← go_all (TWorker c <$> targets);
  mret (c, ids).

Definition stop (started : ctx * list (nat * thread)) : GoM W unit := _ ← th_Cancel started.1; th_Wait started.2.

End Outbox.

(** ** The API and its options *)

(** [handlers.API] *)
Record ApiState := mkApi {
  as_store : Postgres; as_authEnabled : bool; as_ready : bool; as_limiter : option Limiter; as_auditLog : option Log;
  as_cache : option Cache; as_blobs : option BlobStore; as_files : option HdfsStore; as_events : option EventStore;
  as_search : option Index }.

Definition Option_ : Type := ApiState → ApiState.

Definition WithLimiter (l : option Limiter) : Option_ := λ a,
  mkApi (as_store a) (as_authEnabled a) (as_ready a) l (as_auditLog a) (as_cache a) (as_blobs a) (as_files a) (as_events a) (as_search a).
Definition WithAudit (l : option Log) : Option_ := λ a,
  mkApi (as_store a) (as_authEnabled a) (as_ready a) (as_limiter a) l (as_cache a) (as_blobs a) (as_files a) (as_events a) (as_search a).
Definition WithCache (c : option Cache) : Option_ := λ a,
  mkApi (as_store a) (as_authEnabled a) (as_ready a) (as_limiter a) (as_auditLog a) c (as_blobs a) (as_files a) (as_events a) (as_search a).
Definition WithReadiness : Option_ := λ a,
  mkApi (as_store a) (as_authEnabled a) true (as_limiter a) (as_auditLog a) (as_cache a) (as_blobs a) (as_files a) (as_events a) (as_search a).
Definition WithBlobs (b : option BlobStore) : Option_ := λ a,
  mkApi (as_store a) (as_authEnabled a) (as_ready a) (as_limiter a) (as_auditLog a) (as_cache a) b (as_files a) (as_events a) (as_search a).
Definition WithFiles (f : option HdfsStore) : Option_ := λ a,
  mkApi (as_store a) (as_authEnabled a) (as_ready a) (as_limiter a) (as_auditLog a) (as_cache a) (as_blobs a) f (as_events a) (as_search a).
Definition WithEvents (ev : option EventStore) : Option_ := λ a,
  mkApi (as_store a) (as_authEnabled a) (as_ready a) (as_limiter a) (as_auditLog a) (as_cache a) (as_blobs a) (as_files a) ev (as_search a).
Definition WithSearch (i : option Index) : Option_ := λ a,
  mkApi (as_store a) (as_authEnabled a) (as_ready a) (as_limiter a) (as_auditLog a) (as_cache a) (as_blobs a) (as_files a) (as_events a) i.

(** The [API] that [handlers.New] builds. *)
Definition handlers_New (store : Postgres) (auth : option Auth) (opts : list Option_) : ApiState :=
  foldl (λ a opt, opt a) (mkApi store (bool_decide (is_Some auth)) false None None None None None None None) opts.

(** The dependencies of an API, as the handlers test them. *)
Definition msg_api (a : ApiState) : MsgAPI :=
  mkMsgAPI (bool_decide (is_Some (as_auditLog a))) (bool_decide (is_Some (as_cache a))) (as_ready a).
Definition files_api (a : ApiState) : API :=
  mkAPI (bool_decide (is_Some (as_blobs a))) (bool_decide (is_Some (as_files a)))
    (bool_decide (is_Some (as_events a))) (bool_decide (is_Some (as_search a))) true.

(** [append(opts, With(x))], for a component that is not nil. *)
Definition with_some {A} (with_ : option A → Option_) (x : option A) : list Option_ :=
  match x with None => [] | Some _ => [with_ x] end.

(** etcd next to a local variable. *)
#[export] Instance etcd_pair {W L} `{Etcd W} : Etcd (W * L) := {
  e_NewSession c := on_fst (e_NewSession c);
  e_SessionClose := on_fst e_SessionClose;
  e_Lock c name := on_fst (e_Lock c name);
  e_Unlock c name := on_fst (e_Unlock c name);
  e_Get c key := on_fst (e_Get c key);
  e_Watch c key rev := on_fst (e_Watch c key rev)
}.

(** A setting taken as it is, with a default for the empty one. *)
Definition or_default (v fallback : string) : string := if bool_decide (v = "") then fallback else v.

(** ** [cmd/app] *)

Section App.
Context `{Runtime W, Otel W, EtcdDial W, Etcd W, PgxPool W, Mongo W, MinioDial W, HdfsDial W, Gocql W, Elastic W,
  CertFiles W, Threads W, Net W ApiState}.
(** [pool.Connect] of the Tarantool driver; the zero time. *)
Variable tarantool_Connect : ctx → list Instance_ → GoM W (option error).
Variable zero : Z.
Variable e : environ.

(** Opening the store under the lock; the closure assigns [store]. *)
Definition open_store (co : option Coordinator) (dsn : string) : GoM W (option error * option Postgres) :=
  with_local None
    (WithLock (bool_decide (is_Some co)) Background "/otus/lock/migrate"
       (res ← on_fst (storage_New Background dsn (ConfiguredNames e));
        _ ← modify (λ s : W * option Postgres, (s.1, res.1));
        mret res.2)).

(** [WatchInt] up to the start of its goroutine, on the limit. *)
Definition watch_limit (co : option Coordinator) (c : ctx) (key : string) : GoM (W * option Limiter) unit :=
  match co with
  | None => mret ()
  | Some _ =>
      rev ← fetchInt (λ n, modify (λ s : W * option Limiter, (s.1, SetLimit n s.2))) c key;
      _ ← on_fst (th_Go (TWatch c key rev));
      mret ()
  end.

(** The end of [run]: TLS, the gRPC server and the HTTP server. *)
Definition app_serve (store : Postgres) (apiOpts : list Option_) : GoM W (option error) :=
  tlsCfg ← gets (ServerTLS e);
  match tlsCfg with
  | inr err => mret (Some err)
  | inl tlsCfg =>
      let auth := NewAuth (e "AUTH_JWKS_URL") (e "AUTH_ISSUER") zero in
      let grpcPort := or_default (e "GRPC_PORT") "9091" in
      gsrv ← gs_NewServer tlsCfg;
      lis ← nt_Listen (":" +:+ grpcPort);
      match lis with
      | inr err => mret (Some err)
      | inl lis =>
          _ ← th_Go (TServe gsrv lis);
          deferring (gs_GracefulStop gsrv)
            (Run (mkServer (":" +:+ or_default (e "PORT") "8080") (HApi (handlers_New store auth apiOpts)) (5 * Second) tlsCfg))
      end
  end.

(** The stores that the API has besides PostgreSQL, connected one after the
    other; the session to Cassandra is closed at the end. *)
Definition app_stores (store : Postgres) (apiOpts : list Option_) : GoM W (option error) :=
  blobs ← blobstore_New e Background;
  files ← hdfsstore_New e;
  events ← cstore_New e;
  deferring (cstore_Close events.1)
    (index ← search_New e Background;
     app_serve store (apiOpts ++ with_some WithBlobs blobs.1 ++ with_some WithFiles files.1 ++
                with_some WithEvents events.1 ++ with_some WithSearch index.1)).

(** From the store on. *)
Definition app_with_store (store : Postgres) (co : option Coordinator) : GoM W (option error) :=
  lim ← lift_state (RateLimit.New (e "VALKEY_ADDRS") (e "RATE_LIMIT") zero);
  res ← with_local (fst <$> lim) (watch_limit co Background "/otus/config/rate_limit");
  auditLog ← audit_New e Background;
  cache ← TCache.New e tarantool_Connect Background;
  let apiOpts := [WithLimiter res.2; WithReadiness] ++ with_some WithAudit auditLog.1 ++ with_some WithCache cache.1 in
  started ← Start Background (ConfiguredNames e);
  deferring (stop started) (app_stores store apiOpts).

(** [run] of [cmd/app/main.go].  Closing a nil store panics. *)
Definition app_run : GoM W (option error) :=
  let dsn := e "DATABASE_URL" in
  if bool_decide (dsn = "") then mret (Some (ErrText "не задана переменная DATABASE_URL"))
  else
    tracing ← SetupTracing e Background "otus-app";
    match tracing with
    | (_, Some err) => mret (Some err)
    | (tp, None) =>
        deferring (shutdownTracing tp)
          (coordinator ← coord_New e;
           match coordinator with
           | (_, Some err) => mret (Some err)
           | (co, None) =>
               deferring (coord_Close co)
                 (opened ← open_store co dsn;
                  match opened with
                  | (Some err, _) => mret (Some err)
                  | (None, None) => panic
                  | (None, Some store) => deferring (storage_Close store) (app_with_store store co)
                  end)
           end)
    end.

End App.

(** ** [cmd/consumer] *)

Section Consumer.
Context `{Runtime W, Otel W, Gocql W, Elastic W, Threads W, Net W ApiState}.
Variable e : environ.

Definition metricsServer : Server ApiState :=
  mkServer (":" +:+ or_default (e "METRICS_PORT") "8091") HMetrics (5 * Second) None.

(** The number of workers. *)
Definition consumer_workers : Z := let '(workers, _) := Atoi (e "CONSUMER_WORKERS") in if workers <=? 0 then 1 else workers.

Definition consumer_serve (c : ctx) : GoM W (option error) :=
  let brokerName := or_default (e "BROKER") "kafka" in
  _ ← th_Go (TListen (sv_Addr metricsServer));
  deferring (shutdownCtx ← gets (with_timeout Background (5 * Second)); _ ← hs_Shutdown metricsServer shutdownCtx; mret ())
    (ids ← go_all ((λ i : nat, TConsumer c (Z.of_nat i) brokerName) <$> seq 0 (Z.to_nat consumer_workers));
     _ ← th_Done c;
     _ ← th_Wait ids;
     mret None).

(** [run] of [cmd/consumer/main.go] *)
Definition consumer_run : GoM W (option error) :=
  c ← th_Notify;
  deferring (th_Cancel c)
    (tracing ← SetupTracing e c "otus-consumer";
     match tracing with
     | (_, Some err) => mret (Some err)
     | (tp, None) =>
         deferring (shutdownTracing tp)
           (opened ← cstore_New e;
            match opened with
            | (_, Some err) => mret (Some err)
            | (events, None) =>
                deferring (cstore_Close events)
                  (found ← search_New e c;
                   match found with
                   | (_, Some err) => mret (Some err)
                   | (index, None) =>
                       match events, index with
                       | None, None =>
                           mret (Some (ErrText "не настроено ни одно хранилище: нужны CASSANDRA_HOSTS или ELASTIC_URLS"))
                       | _, _ => consumer_serve c
                       end
                   end)
            end)
     end).

End Consumer.

(** ** [cmd/gateway] and [cmd/chaosproxy] *)

Section Proxies.
Context `{Runtime W, Otel W, CertFiles W, Threads W, Net W ApiState}.
Variable e : environ.

(** [newGRPCClient] *)
Definition newGRPCClient (addr : string) : GoM W (nat + error) :=
  clientTLS ← gets (ClientTLS e);
  match clientTLS with
  | inr err => mret (inr err)
  | inl creds => gc_NewClient addr creds
  end.

(** [run] of [cmd/gateway/main.go] *)
Definition gateway_run : GoM W (option error) :=
  let appURL := or_default (e "APP_URL") "http://app:8080" in
  tracing ← SetupTracing e Background "otus-gateway";
  match tracing with
  | (_, Some err) => mret (Some err)
  | (tp, None) =>
      deferring (shutdownTracing tp)
        (clientTLS ← gets (ClientTLS e);
         match clientTLS with
         | inr err => mret (Some err)
         | inl clientTLS =>
             grpcClient ← newGRPCClient (or_default (e "APP_GRPC_ADDR") "app:9091");
             match grpcClient with
             | inr err => mret (Some err)
             | inl grpcClient =>
                 Run (mkServer (":" +:+ or_default (e "PORT") "8090") (HGateway appURL clientTLS grpcClient) (5 * Second) None)
             end
         end)
  end.

(** [run] of [cmd/chaosproxy/main.go] *)
Definition proxy_run : GoM W (option error) :=
  let appURL := or_default (e "APP_URL") "http://app:8080" in
  tlsCfg ← gets (ServerTLS e);
  match tlsCfg with
  | inr err => mret (Some err)
  | inl tlsCfg =>
      clientTLS ← gets (ClientTLS e);
      match clientTLS with
      | inr err => mret (Some err)
      | inl clientTLS =>
          _ ← th_Go (TListen (":" +:+ or_default (e "CONTROL_PORT") "8091"));
          Run (mkServer (":" +:+ or_default (e "PORT") "8080") (HProxy (TrimRightByte appURL "/"%char) clientTLS) (5 * Second) tlsCfg)
      end
  end.

End Proxies.
