(* ===== verification/StartupProps.v ===== *)
(** * StartupProps: what the processes hold while they run

    The resources a process opens, the goroutines it starts and the servers it
    runs are recorded in a trace; [play] runs a trace on the stack of what is
    held.  A process releases what it manages in the reverse order, whatever
    fails, and what it serves with is open. *)

From stdpp Require Import base option list strings gmap.
From Stdlib Require Import ZArith Lia Ascii.
From S2P Require Import Prelude GoStrings GoPaths Env Messaging Storage StorageQueries Breaker RateLimit Jwt TCache Coord.
From S2P Require Import MessagesApi FilesApi AuditLogs SearchClient Brokers Gateway Connect Startup.
Local Open Scope Z_scope.

(** ** Traces *)

Inductive res :=
| RTracing (h : nat) | REtcd (h : nat) | RPool (h : nat) | RMongo (h : nat) | RTarantool | RHdfs (h : nat)
| RSession (h : nat) | RServe (server : nat) | RThread (id : nat) (t : thread).

#[export] Instance res_eq_dec : EqDecision res.
Proof. solve_decision. Defined.

(** What a process is there for: an HTTP server, a gRPC server with its TLS
    settings, a reader of a broker. *)
Inductive endpoint := EHttp (srv : Server ApiState) | EGrpc (tls : option tls_config) | EReader (worker : Z) (broker : string).

Inductive life := Acquired (r : res) | Released (r : res) | Serving (ep : endpoint).

(** What the process leaves to its exit: clients that have no deferred call, and
    goroutines nobody waits for. *)
Definition lifetime (r : res) : bool :=
  match r with
  | RMongo _ | RTarantool | RHdfs _ | RThread _ (TWatch _ _ _) | RThread _ (TListen _) => true
  | _ => false
  end.

(** The clients behind an API, and behind what a server serves. *)
Definition api_uses (a : ApiState) : list res :=
  RPool (pg_pool (as_store a)) ::
  (match as_auditLog a with Some l => [RMongo (co_client (lg_coll l))] | None => [] end) ++
  (match as_cache a with Some _ => [RTarantool] | None => [] end) ++
  (match as_files a with Some f => [RHdfs (hs_client f)] | None => [] end) ++
  (match as_events a with Some ev => [RSession (es_session ev)] | None => [] end).
Definition uses (ep : endpoint) : list res :=
  match ep with
  | EHttp srv => match sv_Handler srv with HApi a => api_uses a | _ => [] end
  | _ => []
  end.

(** Releasing: the resource is the last one acquired of those that are not left
    to the exit. *)
Fixpoint release (r : res) (st : list res) : option (list res) :=
  match st with
  | [] => None
  | x :: st =>
      if decide (x = r) then Some st
      else if lifetime x then (x ::.) <$> release r st
      else None
  end.

(** A server may run when everything it uses is held. *)
Definition step (st : list res) (ev : life) : option (list res) :=
  match ev with
  | Acquired r => Some (r :: st)
  | Released r => release r st
  | Serving ep => if decide (Forall (λ r, r ∈ st) (uses ep)) then Some st else None
  end.

Fixpoint play (st : list res) (es : list life) : option (list res) :=
  match es with
  | [] => Some st
  | ev :: es => step st ev ≫= λ st, play st es
  end.

(** The goroutines that read a broker. *)
Definition reader (t : thread) : option endpoint :=
  match t with TConsumer _ worker broker => Some (EReader worker broker) | _ => None end.

Definition served (es : list life) : list endpoint :=
  omap (λ ev, match ev with Serving ep => Some ep | Acquired (RThread _ t) => reader t | _ => None end) es.

Lemma play_app st es es' : play st (es ++ es') = play st es ≫= λ st, play st es'.
Proof.
  revert st. induction es as [|ev es IH]; intros st; [done|]. cbn. destruct (step st ev); [apply IH|done].
Qed.

Lemma release_skip r ls st :
  Forall (λ x, lifetime x = true) ls → lifetime r = false → release r (ls ++ r :: st) = Some (ls ++ st).
Proof.
  intros Hls Hr. induction Hls as [|x ls Hx _ IH]; cbn; [by rewrite decide_True|].
  rewrite decide_False by congruence. by rewrite Hx, IH.
Qed.

Lemma play_releases rs ls st :
  Forall (λ x, lifetime x = true) ls → Forall (λ r, lifetime r = false) rs →
  play (ls ++ rs ++ st) (Released <$> rs) = Some (ls ++ st).
Proof.
  intros Hls Hrs. induction Hrs as [|r rs Hr _ IH]; [done|]. cbn. by rewrite release_skip.
Qed.

Lemma served_releases rs : served (Released <$> rs) = [].
Proof. by induction rs. Qed.

(** ** What the libraries do to the trace *)

Section Laws.
Context {W : Type} (trace : W → list life).

Definition quiet {A} (m : GoM W A) : Prop := ∀ w, wp m (λ _ w', trace w' = trace w) w.
Definition logs {A} (m : GoM W A) (f : A → list life) : Prop := ∀ w, wp m (λ a w', trace w' = trace w ++ f a) w.
Definition opens {A} (r : A → res) (x : A + error) : list life :=
  match x with inl h => [Acquired (r h)] | inr _ => [] end.
End Laws.

Definition succeeds {A} (x : A + error) : Prop := ∃ a, x = inl a.

(** ** Runs on the stack

    [own tr m st Q w]: from world [w] with [st] held, [m] returns, and its result,
    what is held then, the servers it ran and the world satisfy [Q]. *)

Section Own.
Context {W : Type} (tr : W → list life).

Definition own {A} (m : GoM W A) (st : list res) (Q : A → list res → list endpoint → W → Prop) (w : W) : Prop :=
  wp m (λ a w', ∃ es st', tr w' = tr w ++ es ∧ play st es = Some st' ∧ Q a st' (served es) w') w.

Lemma own_conseq {A} (m : GoM W A) st (Q Q' : A → list res → list endpoint → W → Prop) w :
  own m st Q w → (∀ a st' s w', Q a st' s w' → Q' a st' s w') → own m st Q' w.
Proof. intros Hm HQ. eapply wp_conseq; [exact Hm|]. intros a w' (es & st' & ? & ? & ?). exists es, st'. auto. Qed.

Lemma own_ret {A} (a : A) st (Q : A → list res → list endpoint → W → Prop) w :
  Q a st [] w → own (mret a) st Q w.
Proof. intros HQ. apply wp_ret. exists [], st. by rewrite app_nil_r. Qed.

Lemma own_bind {A B} (m : GoM W A) (f : A → GoM W B) st (Q : B → list res → list endpoint → W → Prop) w :
  own m st (λ a st1 s1, own (f a) st1 (λ b st2 s2, Q b st2 (s1 ++ s2))) w → own (m ≫= f) st Q w.
Proof.
  intros Hm. apply wp_bind. eapply wp_conseq; [exact Hm|]. intros a w1 (es & st1 & Ht & Hp & Hf).
  eapply wp_conseq; [exact Hf|]. intros b w2 (es' & st2 & Ht' & Hp' & HQ). exists (es ++ es'), st2.
  rewrite Ht', Ht, <- app_assoc, play_app, Hp. cbn. split; [done|]. split; [done|].
  unfold served in *. by rewrite omap_app.
Qed.

Lemma own_gets {A} (f : W → A) st (Q : A → list res → list endpoint → W → Prop) w :
  Q (f w) st [] w → own (gets f) st Q w.
Proof. intros HQ. apply wp_gets. exists [], st. by rewrite app_nil_r. Qed.

Lemma own_modify (f : W → W) st (Q : unit → list res → list endpoint → W → Prop) w :
  tr (f w) = tr w → Q () st [] (f w) → own (modify f) st Q w.
Proof. intros Ht HQ. apply wp_modify. exists [], st. by rewrite app_nil_r. Qed.

(** A call of a library, by what it logs. *)
Lemma own_call {A} (m : GoM W A) f (R : A → Prop) st (Q : A → list res → list endpoint → W → Prop) w :
  wp m (λ a w', tr w' = tr w ++ f a ∧ R a) w →
  (∀ a w', R a → ∃ st', play st (f a) = Some st' ∧ Q a st' (served (f a)) w') → own m st Q w.
Proof.
  intros Hm HQ. eapply wp_conseq; [exact Hm|]. intros a w' [Ht HR]. destruct (HQ a w' HR) as (st' & ? & ?).
  by exists (f a), st'.
Qed.

Lemma own_logs {A} (m : GoM W A) f st (Q : A → list res → list endpoint → W → Prop) w :
  logs tr m f → (∀ a w', ∃ st', play st (f a) = Some st' ∧ Q a st' (served (f a)) w') → own m st Q w.
Proof. intros Hm HQ. apply (own_call m f (λ _, True)); [|by auto]. eapply wp_conseq; [apply Hm|done]. Qed.

Lemma own_checked {A} (m : GoM W A) (R : A → Prop) st (Q : A → list res → list endpoint → W → Prop) w :
  wp m (λ a w', tr w' = tr w ∧ R a) w → (∀ a w', R a → Q a st [] w') → own m st Q w.
Proof.
  intros Hm HQ. apply (own_call m (λ _, []) R).
  - eapply wp_conseq; [exact Hm|]. intros a w' [-> ?]. by rewrite app_nil_r.
  - intros a w' HR. exists st. auto.
Qed.

Lemma own_quiet {A} (m : GoM W A) st (Q : A → list res → list endpoint → W → Prop) w :
  quiet tr m → (∀ a w', Q a st [] w') → own m st Q w.
Proof. intros Hm HQ. apply (own_checked m (λ _, True)); [|by auto]. eapply wp_conseq; [apply Hm|done]. Qed.

Lemma own_opens {A} (m : GoM W (A + error)) r st (Q : A + error → list res → list endpoint → W → Prop) w :
  logs tr m (opens r) → (∀ h, served [Acquired (r h)] = []) → (∀ x w', Q x (match x with inl h => r h :: st | inr _ => st end) [] w') → own m st Q w.
Proof.
  intros Hm Hr HQ. eapply own_logs; [exact Hm|]. intros [h|err] w'; eexists; (split; [reflexivity|]).
  - cbn [opens]. rewrite Hr. apply (HQ (inl h)).
  - apply (HQ (inr err)).
Qed.

Lemma own_releases {A} (m : GoM W A) r st (Q : A → list res → list endpoint → W → Prop) w :
  logs tr m (λ _, [Released r]) → (∀ a w', Q a st [] w') → own m (r :: st) Q w.
Proof. intros Hm HQ. eapply own_logs; [exact Hm|]. intros a w'. exists st. cbn. by rewrite decide_True. Qed.

(** The end of a scope: the resources [rs] are on top, behind what is left to the
    exit. *)
Definition scope {A} (rs st : list res) (Q : A → list res → list endpoint → W → Prop) (a : A) (st' : list res)
    (s : list endpoint) (w : W) : Prop :=
  ∃ ls, Forall (λ x, lifetime x = true) ls ∧ st' = ls ++ rs ++ st ∧ ∀ w', Q a (ls ++ st) s w'.

Lemma scope_nil {A} rs st (Q : A → list res → list endpoint → W → Prop) a s w :
  (∀ w', Q a st s w') → scope rs st Q a (rs ++ st) s w.
Proof. intros HQ. by exists []. Qed.

Lemma scope_left {A} rs st (Q : A → list res → list endpoint → W → Prop) a ls s w :
  Forall (λ x, lifetime x = true) ls → (∀ w', Q a (ls ++ st) s w') → scope rs st Q a (ls ++ rs ++ st) s w.
Proof. intros Hls HQ. by exists ls. Qed.

Lemma own_deferring {A} (rel : GoM W unit) rs (body : GoM W A) st
    (Q : A → list res → list endpoint → W → Prop) w :
  Forall (λ r, lifetime r = false) rs → logs tr rel (λ _, Released <$> rs) →
  own body (rs ++ st) (scope rs st Q) w → own (deferring rel body) (rs ++ st) Q w.
Proof.
  intros Hr Hrel Hb. unfold deferring. apply own_bind. eapply own_conseq; [exact Hb|].
  intros a st' s w1 (ls & Hls & -> & HQ). apply own_bind. eapply own_logs; [exact Hrel|].
  intros [] w2. exists (ls ++ st). split; [by apply play_releases|].
  apply own_ret. by rewrite served_releases, !app_nil_r.
Qed.

End Own.

Lemma own_on_fst {W L A} (tr : W → list life) (m : GoM W A) st
    (Q : A → list res → list endpoint → W * L → Prop) w l :
  own tr m st (λ a st' s w', Q a st' s (w', l)) w → own (λ s, tr s.1) (on_fst m) st Q (w, l).
Proof. intros Hm. apply wp_on_fst. exact Hm. Qed.

Lemma own_with_local {W L A} (tr : W → list life) (l : L) (m : GoM (W * L) A) st
    (Q : A * L → list res → list endpoint → W → Prop) w :
  own (λ s, tr s.1) m st (λ a st' s x, Q (a, x.2) st' s x.1) (w, l) → own tr (with_local l m) st Q w.
Proof.
  intros (a & [w' l'] & E & HQ). exists (a, l'), w'. unfold with_local. by rewrite E.
Qed.

(** [required_up]: what [cmd/app] cannot do without works (the tracing exporter,
    the etcd client and its lock, PostgreSQL, the gRPC port).  Nothing is assumed
    of the other services. *)
Class LifeSpec (W : Type) `{Runtime W, Otel W, EtcdDial W, Etcd W, PgxPool W, Mongo W, MinioDial W, HdfsDial W, Gocql W,
    Elastic W, CertFiles W, Threads W, Net W ApiState} (tarantool_Connect : ctx → list Instance_ → GoM W (option error)) := {
  trace : W → list life;
  required_up : Prop;
  law_emit : ∀ m w, trace (emit m w) = trace w;
  law_exporter : ∀ c w, wp (ot_Exporter c) (λ r w', trace w' = trace w ∧ (required_up → r = None)) w;
  law_resource : ∀ c s w, wp (ot_Resource c s) (λ r w', trace w' = trace w ∧ (required_up → r = None)) w;
  law_provider : logs trace ot_Provider (λ h, [Acquired (RTracing h)]);
  law_shutdown : ∀ h c, logs trace (ot_Shutdown h c) (λ _, [Released (RTracing h)]);
  law_etcd : ∀ eps d w, wp (et_New eps d) (λ r w', trace w' = trace w ++ opens REtcd r ∧ (required_up → succeeds r)) w;
  law_etcd_close : ∀ h, logs trace (et_Close h) (λ _, [Released (REtcd h)]);
  law_session : ∀ c, quiet trace (e_NewSession c);
  law_session_close : quiet trace e_SessionClose;
  law_lock : ∀ c name w, wp (e_Lock c name) (λ r w', trace w' = trace w ∧ (required_up → r = None)) w;
  law_unlock : ∀ c name, quiet trace (e_Unlock c name);
  law_get : ∀ c key, quiet trace (e_Get c key);
  law_config : required_up → ∀ dsn, px_ParseConfig (W := W) dsn = None;
  law_pool : ∀ c dsn w, wp (px_NewWithConfig c dsn) (λ r w', trace w' = trace w ++ opens RPool r ∧ (required_up → succeeds r)) w;
  law_ping : ∀ h c w, wp (px_Ping h c) (λ r w', trace w' = trace w ∧ (required_up → r = None)) w;
  law_pool_close : ∀ h, logs trace (px_Close h) (λ _, [Released (RPool h)]);
  law_put : ∀ h x w, trace (px_put h x w) = trace w;
  law_migrate : required_up → ∀ h w, (migrate (px_tx h w) (px_get h w)).1 = None;
  law_mongo : ∀ c o, logs trace (mg_Connect c o) (opens RMongo);
  law_mongo_ping : ∀ h c, quiet trace (mg_Ping h c);
  law_mongo_close : ∀ h c, logs trace (mg_Disconnect h c) (λ _, [Released (RMongo h)]);
  law_tarantool : ∀ c nodes, logs trace (tarantool_Connect c nodes) (λ r, match r with None => [Acquired RTarantool] | Some _ => [] end);
  law_minio : ∀ ep cr ssl, quiet trace (mn_New ep cr ssl);
  law_bucket : ∀ h c b, quiet trace (mn_BucketExists h c b);
  law_make : ∀ h c b, quiet trace (mn_MakeBucket h c b);
  law_versioning : ∀ h c b, quiet trace (mn_EnableVersioning h c b);
  law_hdfs : ∀ a u, logs trace (hd_NewClient a u) (opens RHdfs);
  law_mkdir : ∀ h d p, quiet trace (hd_MkdirAll h d p);
  law_hdfs_close : ∀ h, logs trace (hd_Close h) (λ _, [Released (RHdfs h)]);
  law_cassandra : ∀ cl, logs trace (cq_CreateSession cl) (opens RSession);
  law_exec : ∀ h s, quiet trace (cq_Exec h s);
  law_cassandra_close : ∀ h, logs trace (cq_Close h) (λ _, [Released (RSession h)]);
  law_es_new : ∀ a, quiet trace (es_NewClient a);
  law_es_exists : ∀ c n, quiet trace (es_Exists c n);
  law_es_create : ∀ c n m, quiet trace (es_Create c n m);
  law_es_close : ∀ r, quiet trace (es_Close r);
  law_cancelctx : ∀ c, quiet trace (th_WithCancel c);
  law_notify : quiet trace th_Notify;
  law_cancel : ∀ c, quiet trace (th_Cancel c);
  law_done : ∀ c, quiet trace (th_Done c);
  law_go : ∀ t, logs trace (th_Go t) (λ id, [Acquired (match t with TServe g _ => RServe g | _ => RThread id t end)]);
  law_wait : ∀ ids, logs trace (th_Wait ids) (λ _, (λ x, Released (RThread x.1 x.2)) <$> reverse ids);
  law_serve : ∀ srv, logs trace (hs_ListenAndServe srv) (λ _, [Serving (EHttp srv)]);
  law_serve_tls : ∀ srv, logs trace (hs_ListenAndServeTLS srv) (λ _, [Serving (EHttp srv)]);
  law_http_stop : ∀ srv c, quiet trace (hs_Shutdown srv c);
  law_listen : ∀ a w, wp (nt_Listen a) (λ r w', trace w' = trace w ∧ (required_up → succeeds r)) w;
  law_grpc : ∀ t, logs trace (gs_NewServer t) (λ _, [Serving (EGrpc t)]);
  law_grpc_stop : ∀ g, logs trace (gs_GracefulStop g) (λ _, [Released (RServe g)]);
  law_client : ∀ a t, quiet trace (gc_NewClient a t)
}.

(** ** The constructors *)

(** The resource of a component that may be absent. *)
Definition opt_res {X} (r : X → res) (o : option X) : list res := match o with Some x => [r x] | None => [] end.

(** Step over a call: one that keeps, opens or releases. *)
Ltac drop_units := repeat match goal with u : () |- _ => destruct u end.
Ltac own_quiet L := apply own_bind, own_quiet; [apply L|intros ? ?; drop_units; cbn [app]].
Ltac own_open L := apply own_bind; eapply own_opens; [apply L|done|intros [?|?] ?; cbn [app]].
Ltac own_release L := apply own_bind, own_releases; [apply L|intros ? ?; drop_units; cbn [app]].
Ltac own_pure := repeat first [progress cbn [app] | apply own_bind, own_gets | apply own_bind, own_ret | apply own_ret].
(** The end of a run, by the goal's requirement on results. *)
Ltac own_done HQ := match goal with |- _ ?r _ _ ?w => apply (HQ r w) end.

Section Constructors.
Context `{LifeSpec W tarantool_Connect}.
Notation held := (own trace).

Lemma shutdownTracing_logs tp : logs trace (shutdownTracing tp) (λ _, Released <$> opt_res RTracing tp).
Proof.
  destruct tp as [h|]; intros w; cbn; [|apply wp_ret; by rewrite app_nil_r].
  wp_call law_shutdown as r w1 Ht. by wp_pure.
Qed.

Lemma coord_Close_logs co : logs trace (coord_Close co) (λ _, Released <$> opt_res (λ co, REtcd (co_etcd co)) co).
Proof. destruct co as [co|]; [apply law_etcd_close|]. intros w. apply wp_ret. by rewrite app_nil_r. Qed.

Lemma cstore_Close_logs ev : logs trace (cstore_Close ev) (λ _, Released <$> opt_res (λ ev, RSession (es_session ev)) ev).
Proof. destruct ev as [ev|]; [apply law_cassandra_close|]. intros w. apply wp_ret. by rewrite app_nil_r. Qed.

Lemma opt_res_managed {X} (r : X → res) (o : option X) :
  (∀ x, lifetime (r x) = false) → Forall (λ r, lifetime r = false) (opt_res r o).
Proof. destruct o; by repeat constructor. Qed.

Lemma SetupTracing_held e c service st (Q : option nat * option error → list res → list endpoint → W → Prop) w :
  (∀ r w', (required_up → r.2 = None) → (r.2 ≠ None → r.1 = None) → Q r (opt_res RTracing r.1 ++ st) [] w') →
  held (SetupTracing e c service) st Q w.
Proof.
  intros HQ. unfold SetupTracing. case_bool_decide; [own_pure; by apply HQ|].
  apply own_bind. eapply own_checked; [apply law_exporter|]. intros [err|] w1 Hup; own_pure.
  { apply HQ; cbn; [by intros ?%Hup|done]. }
  eapply own_bind, own_checked; [apply law_resource|]. intros [err'|] w2 Hup'; own_pure.
  { apply HQ; cbn; [by intros ?%Hup'|done]. }
  eapply own_bind, own_logs; [apply law_provider|]. intros tp w3. eexists. split; [reflexivity|]. own_pure.
  by own_done HQ.
Qed.

Lemma coord_New_held e st (Q : option Coordinator * option error → list res → list endpoint → W → Prop) w :
  (∀ r w', (required_up → r.2 = None) → (r.2 ≠ None → r.1 = None) → Q r (opt_res (λ co, REtcd (co_etcd co)) r.1 ++ st) [] w') →
  held (coord_New e) st Q w.
Proof.
  intros HQ. unfold coord_New. case_bool_decide; [own_pure; by apply HQ|].
  eapply own_bind, own_call; [apply law_etcd|]. intros [h|err] w1 Hup; eexists; (split; [reflexivity|]); own_pure.
  - by own_done HQ.
  - apply HQ; cbn; [|done]. by intros [? ?]%Hup.
Qed.

Lemma audit_New_held e c st (Q : option Log * option error → list res → list endpoint → W → Prop) w :
  (∀ r w', Q r (opt_res (λ l, RMongo (co_client (lg_coll l))) r.1 ++ st) [] w') →
  held (audit_New e c) st Q w.
Proof.
  intros HQ. unfold audit_New. case_bool_decide; [own_pure; by apply HQ|].
  own_open law_mongo; own_pure; [|by own_done HQ].
  own_quiet law_mongo_ping. destruct a as [err|]; own_pure; [|by own_done HQ].
  own_release law_mongo_close. own_pure. by own_done HQ.
Qed.

Lemma tcache_New_held e c st (Q : option Cache * option error → list res → list endpoint → W → Prop) w :
  (∀ r w', Q r (opt_res (λ _, RTarantool) r.1 ++ st) [] w') →
  held (TCache.New e tarantool_Connect c) st Q w.
Proof.
  intros HQ. unfold TCache.New. case_bool_decide; [own_pure; by apply HQ|]. own_pure.
  eapply own_bind, own_logs; [apply law_tarantool|]. intros [err|] w1; eexists; (split; [reflexivity|]); own_pure.
  - by own_done HQ.
  - by own_done HQ.
Qed.

Lemma blobstore_New_held e c st (Q : option BlobStore * option error → list res → list endpoint → W → Prop) w :
  (∀ r w', Q r st [] w') → held (blobstore_New e c) st Q w.
Proof.
  intros HQ. unfold blobstore_New. case_bool_decide; [own_pure; apply HQ|].
  own_quiet law_minio. destruct a as [h|err]; own_pure; [|apply HQ].
  own_quiet law_bucket. destruct a as [ex|err]; own_pure; [|apply HQ].
  apply own_bind, own_quiet; [destruct ex; [by intros w0; apply wp_ret|apply law_make]|].
  intros [err|] w2; own_pure; [apply HQ|]. own_quiet law_versioning. own_pure. apply HQ.
Qed.

Lemma hdfsstore_New_held e st (Q : option HdfsStore * option error → list res → list endpoint → W → Prop) w :
  (∀ r w', Q r (opt_res (λ f, RHdfs (hs_client f)) r.1 ++ st) [] w') → held (hdfsstore_New e) st Q w.
Proof.
  intros HQ. unfold hdfsstore_New. case_bool_decide; [own_pure; by apply HQ|].
  own_open law_hdfs; own_pure; [|by own_done HQ].
  own_quiet law_mkdir. destruct a as [err|]; [destruct (hd_IsExist err)|]; cbn [negb]; own_pure;
    try by own_done HQ.
  own_release law_hdfs_close. own_pure. by own_done HQ.
Qed.

Lemma exec_all_held h stmts st (Q : option error → list res → list endpoint → W → Prop) w :
  (∀ r w', Q r st [] w') → held (exec_all h stmts) st Q w.
Proof.
  intros HQ. revert w. induction stmts as [|stmt stmts IH]; intros w; cbn [exec_all]; [own_pure; apply HQ|].
  own_quiet law_exec. destruct a; [own_pure; apply HQ|]. apply IH.
Qed.

Lemma cstore_New_held e st (Q : option EventStore * option error → list res → list endpoint → W → Prop) w :
  (∀ r w', (r.2 ≠ None → r.1 = None) → Q r (opt_res (λ ev, RSession (es_session ev)) r.1 ++ st) [] w') →
  held (cstore_New e) st Q w.
Proof.
  intros HQ. unfold cstore_New. case_bool_decide; [own_pure; by apply HQ|].
  own_open law_cassandra; own_pure; [|by own_done HQ].
  own_quiet law_exec. own_release law_cassandra_close. destruct a as [err|]; own_pure; [by own_done HQ|].
  own_open law_cassandra; own_pure; [|by own_done HQ].
  apply own_bind, exec_all_held. intros [err|] w3; own_pure; [|by own_done HQ].
  own_release law_cassandra_close. own_pure. by own_done HQ.
Qed.

Lemma ensure_held c name mapping st (Q : option error → list res → list endpoint → W → Prop) w :
  (∀ r w', Q r st [] w') → held (ensure c name mapping) st Q w.
Proof.
  intros HQ. unfold ensure. own_quiet law_es_exists. destruct a as [r|]; [|own_pure; apply HQ].
  own_quiet law_es_close. destruct (_ =? 200); [own_pure; apply HQ|].
  own_quiet law_es_create. destruct a as [cr|]; [|own_pure; apply HQ].
  own_quiet law_es_close. own_pure. apply HQ.
Qed.

Lemma search_New_held e c st (Q : option Index * option error → list res → list endpoint → W → Prop) w :
  (∀ r w', Q r st [] w') → held (search_New e c) st Q w.
Proof.
  intros HQ. unfold search_New. case_bool_decide; [own_pure; apply HQ|].
  own_quiet law_es_new. destruct a as [err|]; own_pure; [apply HQ|].
  apply own_bind, ensure_held. intros [err|] w1; own_pure; [apply HQ|].
  apply own_bind, ensure_held. intros [err|] w2; own_pure; apply HQ.
Qed.

(** The store is open and its schema current. *)
Lemma storage_New_held c dsn targets st (Q : option Postgres * option error → list res → list endpoint → W → Prop) w :
  (∀ r w', (required_up → r.2 = None) → (r.2 = None ↔ is_Some r.1) → Q r (opt_res (λ p, RPool (pg_pool p)) r.1 ++ st) [] w') →
  held (storage_New c dsn targets) st Q w.
Proof.
  intros HQ. unfold storage_New.
  assert (∀ err w', (required_up → False) → Q (None, Some err) st [] w') as Hfail.
  { intros err w' Hno. apply (HQ (None, Some err)); cbn; [by intros ?%Hno|]. split; [done|by intros []]. }
  destruct (px_ParseConfig dsn) as [err|] eqn:Hcfg.
  { own_pure. apply Hfail. intros Hup. pose proof (law_config Hup dsn). congruence. }
  eapply own_bind, own_call; [apply law_pool|]. intros [h|err] w1 Hup; eexists; (split; [reflexivity|]); own_pure.
  2: { apply Hfail. by intros [? ?]%Hup. }
  eapply own_bind, own_checked; [apply law_ping|]. intros [err|] w2 Hup2; own_pure.
  { own_release law_pool_close. own_pure. apply Hfail. by intros ?%Hup2. }
  apply own_bind.
  apply (own_checked _ _ (λ r, required_up → r = None)).
  { unfold wp, pool_migrate. destruct (migrate (px_tx h w2) (px_get h w2)) as [r x] eqn:Hm. eexists _, _. split; [done|].
    split; [apply law_put|]. intros Hup3. pose proof (law_migrate Hup3 h w2) as Hr. by rewrite Hm in Hr. }
  intros [err|] w3 Hup3; own_pure.
  { own_release law_pool_close. own_pure. apply Hfail. by intros ?%Hup3. }
  by own_done HQ.
Qed.

(** ** Goroutines *)

Definition thread_res (x : nat * thread) : res := RThread x.1 x.2.

Lemma no_readers c targets : omap reader (TWorker c <$> targets) = [].
Proof. by induction targets. Qed.

Lemma go_all_held ts st (Q : list (nat * thread) → list res → list endpoint → W → Prop) w :
  Forall (λ t, match t with TServe _ _ => False | _ => True end) ts →
  (∀ ids w', ids.*2 = ts → Q ids (reverse (thread_res <$> ids) ++ st) (omap reader ts) w') →
  held (go_all ts) st Q w.
Proof.
  intros Hts. revert st Q w. induction Hts as [|t ts Ht Hts IH]; intros st Q w HQ; cbn [go_all]; [own_pure; by apply HQ|].
  eapply own_bind, own_logs; [apply law_go|]. intros id w1. eexists. split; [reflexivity|].
  apply own_bind, IH. intros ids w2 Hids. own_pure. rewrite app_nil_r.
  replace (served _ ++ omap reader ts) with (omap reader (t :: ts)) by (by destruct t).
  assert ((match t with TServe g _ => RServe g | _ => RThread id t end) = thread_res (id, t)) as -> by (by destruct t).
  replace (reverse (thread_res <$> ids) ++ thread_res (id, t) :: st)
    with (reverse (thread_res <$> (id, t) :: ids) ++ st) by (by rewrite fmap_cons, reverse_cons, <- app_assoc).
  apply HQ. cbn. by rewrite Hids.
Qed.

Lemma wait_logs ids : logs trace (th_Wait ids) (λ _, Released <$> reverse (thread_res <$> ids)).
Proof.
  intros w. eapply wp_conseq; [apply law_wait|]. intros _ w' ->. f_equal.
  by rewrite <- fmap_reverse, <- list_fmap_compose.
Qed.

Lemma stop_logs started : logs trace (stop started) (λ _, Released <$> reverse (thread_res <$> started.2)).
Proof. intros w. unfold stop. wp_call law_cancel as r w1 Ht. rewrite <- Ht. apply wait_logs. Qed.

(** ** The store and the limit *)

Lemma open_store_held e co dsn st (Q : option error * option Postgres → list res → list endpoint → W → Prop) w :
  (∀ r w', (required_up → r.1 = None) → (r.1 = None ↔ is_Some r.2) → Q r (opt_res (λ p, RPool (pg_pool p)) r.2 ++ st) [] w') →
  held (open_store e co dsn) st Q w.
Proof.
  intros HQ. unfold open_store. apply own_with_local.
  set (fn := on_fst (storage_New _ _ _) ≫= _).
  assert (∀ w0 (Q' : option error → list res → list endpoint → W * option Postgres → Prop),
    (∀ r w', (required_up → r.1 = None) → (r.1 = None ↔ is_Some r.2) →
       Q' r.1 (opt_res (λ p, RPool (pg_pool p)) r.2 ++ st) [] (w', r.2)) →
    own (λ s : W * option Postgres, trace s.1) fn st Q' (w0, None)) as Hfn.
  { intros w0 Q' HQ'. apply own_bind, own_on_fst, storage_New_held. intros [p err] w1 Hup Hiff.
    apply own_bind, own_modify; [done|]. own_pure. exact (HQ' (err, p) w1 Hup Hiff). }
  assert (∀ w0, own (λ s : W * option Postgres, trace s.1) fn st (λ a st' s x, Q (a, x.2) st' s x.1) (w0, None)) as Hbare.
  { intros w0. apply Hfn. intros [err p]. apply (HQ (err, p)). }
  unfold WithLock. destruct (bool_decide (is_Some co)); cbn [negb]; [|apply Hbare].
  apply own_bind, own_on_fst, own_quiet; [apply law_session|]. intros [err|] w1; [apply Hbare|].
  apply own_bind, own_gets, own_bind, own_on_fst. eapply own_checked; [apply law_lock|]. intros [err|] w2 Hup.
  - apply own_bind, own_on_fst, own_quiet; [apply law_session_close|]. intros [] w3. own_pure.
    apply (HQ (Some err, None)); cbn; [by intros ?%Hup|]. split; [done|by intros []].
  - apply own_bind, Hfn. intros [err p] w3 Hup' Hiff. apply own_bind, own_gets.
    apply own_bind, own_on_fst, own_quiet; [apply law_unlock|]. intros _ w4.
    apply own_bind, own_on_fst, own_quiet; [apply law_session_close|]. intros [] w5. own_pure. exact (HQ (err, p) w5 Hup' Hiff).
Qed.

Lemma fetchInt_quiet (apply_ : Z → GoM (W * option Limiter) unit) c key :
  (∀ n, quiet (λ s, trace s.1) (apply_ n)) → quiet (λ s : W * option Limiter, trace s.1) (fetchInt apply_ c key).
Proof.
  intros Ha [w l]. unfold fetchInt. wp_pure. wp_call law_get as r w1 Ht.
  destruct r as [[[|v kvs] rev]|err]; wp_pure; [done| |done].
  unfold applyInt. destruct (ParseInt (TrimSpace v)) as [n [err|]]; wp_pure; [done|].
  apply wp_bind. eapply wp_conseq; [apply Ha|]. intros u s2 Ht2. wp_pure. cbn in *. congruence.
Qed.

Lemma watch_limit_held co c key l st
    (Q : unit * option Limiter → list res → list endpoint → W → Prop) w :
  (∀ x ls w', Forall (λ r, lifetime r = true) ls → Q x (ls ++ st) [] w') →
  held (with_local l (watch_limit co c key)) st Q w.
Proof.
  intros HQ. apply own_with_local. unfold watch_limit. destruct co as [co|]; [|own_pure; by apply (HQ _ [])].
  apply own_bind, own_quiet.
  { apply fetchInt_quiet. intros n s. by apply wp_modify. }
  intros rev [w1 l1]. eapply own_bind, own_on_fst, own_logs; [apply law_go|].
  intros id w2. eexists. split; [reflexivity|]. own_pure. apply (HQ _ [_]). by repeat constructor.
Qed.

End Constructors.

(** ** Options of the API *)

(** An option makes the API use nothing beyond [st]. *)
Definition opt_within (st : list res) (opt : Option_) : Prop :=
  ∃ rs, Forall (λ r, r ∈ st) rs ∧ ∀ a r, r ∈ api_uses (opt a) → r ∈ api_uses a ∨ r ∈ rs.

(** Options that keep what is set before them. *)
Definition opt_neutral (opt : Option_) : Prop := ∀ a, as_ready a = true → as_ready (opt a) = true.

Lemma opt_within_mono st st' opt : (∀ r, r ∈ st → r ∈ st') → opt_within st opt → opt_within st' opt.
Proof.
  intros Hst (rs & Hrs & Ho). exists rs. split; [|done]. eapply Forall_impl; [exact Hrs|]. cbn. auto.
Qed.

Lemma handlers_New_within st store auth opts :
  RPool (pg_pool store) ∈ st → Forall (opt_within st) opts → Forall (λ r, r ∈ st) (api_uses (handlers_New store auth opts)).
Proof.
  unfold handlers_New. intros Hpool Hopts.
  set (a := mkApi store _ _ _ _ _ _ _ _ _).
  assert (Forall (λ r, r ∈ st) (api_uses a)) as Ha by (by repeat constructor). clearbody a.
  revert a Ha. induction Hopts as [|opt opts (rs & Hrs & Ho) _ IH]; intros a Ha; cbn [foldl]; [done|].
  apply IH. rewrite Forall_forall in *. intros r [Hr | Hr]%Ho; auto.
Qed.

Lemma handlers_New_ready store auth opts opts' :
  Forall opt_neutral opts' → as_ready (handlers_New store auth (opts ++ WithReadiness :: opts')) = true.
Proof.
  unfold handlers_New. rewrite foldl_app. cbn [foldl]. generalize (foldl (λ a opt, opt a)
    (mkApi store (bool_decide (is_Some auth)) false None None None None None None None) opts). intros a Hn.
  assert (as_ready (WithReadiness a) = true) as Ha by done. revert Ha. generalize (WithReadiness a). clear a.
  induction Hn as [|opt opts' Hopt _ IH]; intros a Ha; cbn [foldl]; auto.
Qed.

(** What the options of a component add. *)
Ltac opt_cases := let a := fresh "a" in let r := fresh "r" in
  intros a r; unfold api_uses; cbn; set_solver.

Lemma with_some_within {X} (with_ : option X → Option_) (r : X → res) st o :
  (∀ x, opt_within [r x] (with_ (Some x))) → Forall (λ r, r ∈ st) (opt_res r o) → Forall (opt_within st) (with_some with_ o).
Proof.
  intros Hw Hr. destruct o as [x|]; [|constructor]. constructor; [|constructor].
  eapply opt_within_mono; [|apply Hw]. intros y ->%list_elem_of_singleton. by inversion Hr.
Qed.

Lemma WithAudit_within l : opt_within [RMongo (co_client (lg_coll l))] (WithAudit (Some l)).
Proof. exists [RMongo (co_client (lg_coll l))]. split; [by repeat constructor|]. opt_cases. Qed.
Lemma WithCache_within c : opt_within [RTarantool] (WithCache (Some c)).
Proof. exists [RTarantool]. split; [by repeat constructor|]. opt_cases. Qed.
Lemma WithFiles_within f : opt_within [RHdfs (hs_client f)] (WithFiles (Some f)).
Proof. exists [RHdfs (hs_client f)]. split; [by repeat constructor|]. opt_cases. Qed.
Lemma WithEvents_within ev : opt_within [RSession (es_session ev)] (WithEvents (Some ev)).
Proof. exists [RSession (es_session ev)]. split; [by repeat constructor|]. opt_cases. Qed.
Lemma with_free_within {X} (with_ : option X → Option_) st o :
  (∀ x a, api_uses (with_ x a) = api_uses a) → Forall (opt_within st) (with_some with_ o).
Proof.
  intros Hw. destruct o as [x|]; [|constructor]. constructor; [|constructor].
  exists []. split; [constructor|]. intros a r. rewrite Hw. auto.
Qed.

Lemma with_some_neutral {X} (with_ : option X → Option_) o :
  (∀ x a, as_ready (with_ x a) = as_ready a) → Forall opt_neutral (with_some with_ o).
Proof. intros Hw. destruct o as [x|]; constructor; [|constructor]. intros a. by rewrite Hw. Qed.

(** ** [cmd/app] *)

Section App.
Context `{LifeSpec W tarantool_Connect}.
Variables (zero : Z) (e : environ).
Notation held := (own trace).

(** What [cmd/app] needs to serve. *)
Definition can_serve : Prop :=
  required_up ∧ e "DATABASE_URL" ≠ "" ∧ ∀ w : W, ∃ cfg, ServerTLS e w = inl cfg.

(** The servers of a run: both, with the TLS settings of the environment; without
    them only when something required failed. *)
Definition serves_both (s : list endpoint) : Prop :=
  ∃ (w : W) cfg srv a, ServerTLS e w = inl cfg ∧ s = [EGrpc cfg; EHttp srv] ∧
    sv_TLSConfig srv = cfg ∧ sv_Handler srv = HApi a ∧ as_ready a = true.
Definition outcome (s : list endpoint) : Prop :=
  serves_both s ∨
  (¬ can_serve ∧ (s = [] ∨ ∃ (w : W) cfg, ServerTLS e w = inl cfg ∧ s = [EGrpc cfg])).

Lemma outcome_none : ¬ can_serve → outcome [].
Proof. right. auto. Qed.

Lemma Run_held srv st (Q : option error → list res → list endpoint → W → Prop) w :
  Forall (λ r, r ∈ st) (uses (EHttp srv)) → (∀ r w', Q r st [EHttp srv] w') → held (Run srv) st Q w.
Proof.
  intros Hu HQ. unfold Run. apply own_bind.
  eapply own_logs; [destruct (sv_TLSConfig srv); [apply law_serve_tls|apply law_serve]|].
  intros r w1. exists st. cbn [play step]. rewrite decide_True by done. split; [done|].
  destruct r as [err|]; own_pure; [apply HQ|]. apply own_quiet; [apply law_http_stop|]. intros r w2. apply HQ.
Qed.

Lemma app_serve_held store opts st (Q : option error → list res → list endpoint → W → Prop) w :
  RPool (pg_pool store) ∈ st → Forall (opt_within st) opts →
  (∀ auth, as_ready (handlers_New store auth opts) = true) →
  (∀ r s w', outcome s → Q r st s w') → held (app_serve zero e store opts) st Q w.
Proof.
  intros Hpool Hopts Hready HQ. unfold app_serve. own_pure. destruct (ServerTLS e w) as [cfg|err] eqn:Hcfg.
  2: { own_pure. apply HQ, outcome_none. intros (_ & _ & Htls). destruct (Htls w). congruence. }
  eapply own_bind, own_logs; [apply law_grpc|]. intros g w1. exists st. cbn [play step uses].
  rewrite decide_True by constructor. split; [done|].
  eapply own_bind, own_checked; [apply law_listen|]. intros [lis|err] w2 Hup.
  2: { own_pure. apply HQ. right. split; [by intros [[? ?]%Hup _]|]. right. by exists w, cfg. }
  eapply own_bind, own_logs; [apply law_go|]. intros id w3. eexists. split; [reflexivity|]. cbn [app served omap list_omap].
  apply (own_deferring _ _ [RServe g]); [by repeat constructor|apply law_grpc_stop|].
  apply Run_held.
  - cbn [uses sv_Handler]. eapply Forall_impl; [by apply handlers_New_within|]. intros r. apply list_elem_of_further.
  - intros r w4. apply (scope_nil [RServe g]). intros w'. apply HQ.
    left. eexists w, cfg, _, _. by split_and!.
Qed.

Definition opts_ready (opts : list Option_) : Prop :=
  ∃ l r, opts = l ++ WithReadiness :: r ∧ Forall opt_neutral r.

Lemma app_stores_held store opts st (Q : option error → list res → list endpoint → W → Prop) w :
  RPool (pg_pool store) ∈ st → Forall (opt_within st) opts → opts_ready opts →
  (∀ r ls s w', Forall (λ x, lifetime x = true) ls → outcome s → Q r (ls ++ st) s w') →
  held (app_stores zero e store opts) st Q w.
Proof.
  intros Hpool Hopts (ol & or & -> & Hneutral) HQ. unfold app_stores.
  apply own_bind, blobstore_New_held. intros [blobs err1] w1. apply own_bind, hdfsstore_New_held.
  intros [files err2] w2. apply own_bind, cstore_New_held. intros [events err3] w3 _. cbn [fst snd app].
  apply own_deferring; [by apply opt_res_managed|apply cstore_Close_logs|].
  apply own_bind, search_New_held. intros [index err4] w4. cbn [fst snd].
  set (st2 := opt_res _ events ++ _).
  assert (∀ r, r ∈ st → r ∈ st2) as Hsub by (intros r Hr; unfold st2; rewrite !elem_of_app; auto).
  apply app_serve_held.
  - auto.
  - apply Forall_app. split; [eapply Forall_impl; [exact Hopts|]; intros opt; by apply opt_within_mono|].
    rewrite !Forall_app. split_and!.
    + by apply with_free_within.
    + apply (with_some_within _ (λ f, RHdfs (hs_client f))); [apply WithFiles_within|].
      apply Forall_forall. intros r Hr. unfold st2. rewrite !elem_of_app. auto.
    + apply (with_some_within _ (λ ev, RSession (es_session ev))); [apply WithEvents_within|].
      apply Forall_forall. intros r Hr. unfold st2. rewrite !elem_of_app. auto.
    + by apply with_free_within.
  - intros auth. rewrite <- app_assoc. apply handlers_New_ready. rewrite !Forall_app.
    split_and!; [done|by apply with_some_neutral..].
  - intros r s w5 Hs. apply scope_nil. intros w'. cbn [app].
    apply (HQ r (opt_res _ files)); [|done]. destruct files; by repeat constructor.
Qed.

Lemma app_with_store_held store co st (Q : option error → list res → list endpoint → W → Prop) w :
  RPool (pg_pool store) ∈ st →
  (∀ r ls s w', Forall (λ x, lifetime x = true) ls → outcome s → Q r (ls ++ st) s w') →
  held (app_with_store tarantool_Connect zero e store co) st Q w.
Proof.
  intros Hpool HQ. unfold app_with_store. apply own_bind, own_quiet.
  { intros w0. unfold RateLimit.New. case_bool_decide; eexists _, _; (split; [reflexivity|]); cbn; [done|apply law_emit]. }
  intros lim w1. cbn [app]. apply own_bind, watch_limit_held. intros [u limiter] ls1 w2 Hls1.
  apply own_bind, audit_New_held. intros [auditLog err1] w3. apply own_bind, tcache_New_held. intros [cache err2] w4.
  cbn [fst snd app].
  set (st2 := opt_res _ cache ++ _).
  unfold Start. apply own_bind, own_bind, own_quiet; [apply law_cancelctx|]. intros c w5.
  apply own_bind, go_all_held; [apply Forall_fmap, Forall_true; done|].
  intros ids w6 Hids. own_pure.
  apply own_deferring; [|apply stop_logs|].
  { apply Forall_reverse, Forall_fmap, Forall_forall. intros [id t] Hin. cbn.
    assert (t ∈ ids.*2) as Ht by (by apply (list_elem_of_fmap_2 snd _ (id, t))).
    rewrite Hids in Ht. apply list_elem_of_fmap in Ht as (target & -> & _). done. }
  assert (∀ r, r ∈ st → r ∈ st2) as Hsub by (intros r Hr; unfold st2; rewrite !elem_of_app; auto).
  apply app_stores_held.
  - apply elem_of_app. auto.
  - do 2 (constructor; [exists []; split; [constructor|by left]|]). apply Forall_app. split.
    + apply (with_some_within _ (λ l, RMongo (co_client (lg_coll l)))); [apply WithAudit_within|].
      apply Forall_forall. intros r Hr. unfold st2. rewrite !elem_of_app. auto.
    + apply (with_some_within _ (λ _, RTarantool)); [apply WithCache_within|].
      apply Forall_forall. intros r Hr. unfold st2. rewrite !elem_of_app. auto.
  - eexists [_], _. split; [reflexivity|]. rewrite Forall_app. split; by apply with_some_neutral.
  - intros r ls s w7 Hls Hs. apply scope_left; [done|]. intros w'.
    unfold st2. rewrite !app_assoc. apply HQ; [|by rewrite no_readers]. rewrite !Forall_app. split_and!; [done| | |done].
    + destruct cache; by repeat constructor.
    + destruct auditLog; by repeat constructor.
Qed.

Lemma app_run_held st (Q : option error → list res → list endpoint → W → Prop) w :
  (∀ r ls s w', Forall (λ x, lifetime x = true) ls → outcome s → Q r (ls ++ st) s w') →
  held (app_run tarantool_Connect zero e) st Q w.
Proof.
  intros HQ. unfold app_run. case_bool_decide as Hd.
  { own_pure. apply (HQ _ []); [constructor|]. apply outcome_none. by intros (_ & ? & _). }
  apply own_bind, SetupTracing_held. intros [tp [err|]] w1 Hup1 Htp; cbn [fst snd] in *.
  { rewrite Htp by done. own_pure. apply (HQ _ []); [constructor|]. apply outcome_none. by intros [?%Hup1 _]. }
  apply own_deferring; [by apply opt_res_managed|apply shutdownTracing_logs|].
  apply own_bind, coord_New_held. intros [co [err|]] w2 Hup2 Hco; cbn [fst snd] in *.
  { rewrite Hco by done. cbn [opt_res]. own_pure. apply scope_nil. intros w'.
    apply (HQ _ []); [constructor|]. apply outcome_none. by intros [?%Hup2 _]. }
  apply own_deferring; [by apply opt_res_managed|apply coord_Close_logs|].
  apply own_bind, open_store_held. intros [[err|] store] w3 Hup3 Hst; cbn [fst snd] in *.
  { destruct store as [p|]; [by destruct Hst as [_ Hst]; discriminate Hst|]. cbn [opt_res]. own_pure.
    do 2 (apply scope_nil; intros ?). apply (HQ _ []); [constructor|]. apply outcome_none. by intros [?%Hup3 _]. }
  destruct store as [p|]; [|by destruct Hst as [[? ?] _]].
  apply (own_deferring _ _ [RPool (pg_pool p)]); [by repeat constructor|apply law_pool_close|].
  apply app_with_store_held; [set_solver|]. intros r ls s w4 Hls Hs.
  apply (scope_left [RPool (pg_pool p)]); [done|]. intros w5. do 2 (apply scope_left; [done|]; intros ?). by apply HQ.
Qed.

End App.

(** ** [cmd/consumer] *)

Section Consumer.
Context `{LifeSpec W tarantool_Connect}.
Variable e : environ.
Notation held := (own trace).

(** The readers of a run that was not refused. *)
Definition all_readers : list endpoint :=
  (λ i : nat, EReader (Z.of_nat i) (or_default (e "BROKER") "kafka")) <$> seq 0 (Z.to_nat (consumer_workers e)).

Lemma readers_all c : omap reader ((λ i : nat, TConsumer c (Z.of_nat i) (or_default (e "BROKER") "kafka")) <$>
    seq 0 (Z.to_nat (consumer_workers e))) = all_readers.
Proof. unfold all_readers. by induction (seq 0 _) as [|i l IH]; cbn; [|rewrite IH]. Qed.

Lemma quiet_logs {A} (m : GoM W A) : quiet trace m → logs trace m (λ _, []).
Proof. intros Hm w. eapply wp_conseq; [apply Hm|]. intros a w' ->. by rewrite app_nil_r. Qed.

Lemma consumer_serve_held c st (Q : option error → list res → list endpoint → W → Prop) w :
  (∀ ls w', Forall (λ x, lifetime x = true) ls → Q None (ls ++ st) all_readers w') →
  held (consumer_serve e c) st Q w.
Proof.
  intros HQ. unfold consumer_serve. eapply own_bind, own_logs; [apply law_go|].
  intros id w1. eexists. split; [reflexivity|]. cbn [app served omap list_omap reader].
  apply (own_deferring _ _ []); [constructor| |].
  { apply quiet_logs. intros w2. wp_pure. wp_call law_http_stop as r w3 Ht. by wp_pure. }
  apply own_bind, go_all_held; [apply Forall_fmap, Forall_true; done|]. intros ids w2 Hids. rewrite readers_all.
  own_quiet law_done. apply own_bind. eapply own_logs; [apply wait_logs|]. intros [] w3. eexists.
  split; [apply (play_releases _ [])|].
  - constructor.
  - apply Forall_reverse, Forall_fmap, Forall_forall. intros [id' t] Hin. cbn.
    assert (t ∈ ids.*2) as Ht by (by apply (list_elem_of_fmap_2 snd _ (id', t))).
    rewrite Hids in Ht. apply list_elem_of_fmap in Ht as (i & -> & _). done.
  - own_pure. rewrite served_releases, !app_nil_r. apply (scope_nil []). intros w4. apply (HQ [_]). by repeat constructor.
Qed.

(** The end of a run: refused without a reader, or all readers were there. *)
Definition consumed_with (r : option error) (s : list endpoint) : Prop :=
  (r ≠ None ∧ s = []) ∨
  (r = None ∧ s = all_readers ∧ (envList e "CASSANDRA_HOSTS" ≠ [] ∨ envList e "ELASTIC_URLS" ≠ [])).

(** A component that is not configured is absent. *)
Lemma cstore_New_absent (w w' : W) r : envList e "CASSANDRA_HOSTS" = [] → cstore_New e w = Some (r, w') → r.1 = None.
Proof. intros He Hr. unfold cstore_New in Hr. rewrite He in Hr. cbn in Hr. by injection Hr as <-. Qed.
Lemma search_New_absent c (w w' : W) r : envList e "ELASTIC_URLS" = [] → search_New e c w = Some (r, w') → r.1 = None.
Proof. intros He Hr. unfold search_New in Hr. rewrite He in Hr. cbn in Hr. by injection Hr as <-. Qed.

(** A fact about results, beside a run. *)
Lemma own_fact {A} (m : GoM W A) (P : A → Prop) st (Q : A → list res → list endpoint → W → Prop) w :
  (∀ a w', m w = Some (a, w') → P a) → held m st (λ a st' s w', P a → Q a st' s w') w → held m st Q w.
Proof. intros HP (a & w' & E & es & st' & ? & ? & HQ). exists a, w'. split; [done|]. exists es, st'. eauto. Qed.

Lemma consumer_run_held st (Q : option error → list res → list endpoint → W → Prop) w :
  (∀ r ls s w', Forall (λ x, lifetime x = true) ls → consumed_with r s → Q r (ls ++ st) s w') →
  held (consumer_run e) st Q w.
Proof.
  intros HQ. unfold consumer_run. apply own_bind, own_quiet; [apply law_notify|]. intros c w0.
  apply (own_deferring _ _ []); [constructor|apply quiet_logs, law_cancel|]. cbn [app].
  assert (∀ err w', Q (Some err) st [] w') as Hrefused.
  { intros err w'. apply (HQ _ []); [constructor|]. by left. }
  apply own_bind, SetupTracing_held. intros [tp [err|]] w1 _ Htp; cbn [fst snd] in *.
  { rewrite Htp by done. own_pure. by apply (scope_nil []). }
  apply own_deferring; [by apply opt_res_managed|apply shutdownTracing_logs|].
  apply own_bind, (own_fact _ (λ r, envList e "CASSANDRA_HOSTS" = [] → r.1 = None)).
  { intros r w2 Hr He. by apply (cstore_New_absent w1 w2). }
  apply cstore_New_held. intros [events [err|]] w2 Hev Hcass; cbn [fst snd] in *.
  { rewrite Hev by done. cbn [opt_res]. own_pure. apply scope_nil. intros w3. by apply (scope_nil []). }
  apply own_deferring; [by apply opt_res_managed|apply cstore_Close_logs|].
  apply own_bind, (own_fact _ (λ r, envList e "ELASTIC_URLS" = [] → r.1 = None)).
  { intros r w3 Hr He. by apply (search_New_absent c w2 w3). }
  apply search_New_held. intros [index [err|]] w3 Hes; cbn [fst snd] in *.
  { own_pure. do 2 (apply scope_nil; intros ?). by apply (scope_nil []). }
  assert (¬ (events = None ∧ index = None) → envList e "CASSANDRA_HOSTS" ≠ [] ∨ envList e "ELASTIC_URLS" ≠ []) as Hconf.
  { intros Hsome. destruct (decide (envList e "CASSANDRA_HOSTS" = [])), (decide (envList e "ELASTIC_URLS" = [])); auto.
    exfalso. auto. }
  destruct events as [ev|], index as [i|].
  4: { own_pure. do 2 (apply scope_nil; intros ?). by apply (scope_nil []). }
  all: apply consumer_serve_held; intros ls w4 Hls; do 2 (apply scope_left; [done|]; intros ?);
    apply (scope_left []); [done|]; intros ?; apply HQ; [done|]; right; (split; [done|]); (split; [done|]);
    apply Hconf; naive_solver.
Qed.

End Consumer.

(** ** Properties *)


(** C16: [cmd/app] serves when PostgreSQL does.  If the tracing exporter, the etcd
    client and lock, the database with its migration, the TLS files and the gRPC
    port work, [run] sets up the gRPC server and then the HTTP server, with the
    readiness check in place and the same TLS settings, no matter which of
    MongoDB, Tarantool, S3, HDFS, Cassandra and Elasticsearch fail. *)
Theorem app_serves `{LifeSpec W tarantool_Connect} (zero : Z) (e : environ) (w : W) :
  can_serve e →
  wp (app_run tarantool_Connect zero e) (λ _ w', ∃ es, trace w' = trace w ++ es ∧ serves_both e (served es)) w.
Proof.
  intros Hup. eapply wp_conseq; [apply (app_run_held zero e [] (λ _ _ s _, outcome e s)); by intros|].
  intros r w' (es & st & Ht & _ & [Hs | [Hno _]]); [eauto|done].
Qed.

Lemma consumer_workers_pos e : 1 <= consumer_workers e.
Proof. unfold consumer_workers. destruct (Atoi _) as [n ?]. destruct (n <=? 0) eqn:?; lia. Qed.


(** *** Mutual TLS *)

(** A handshake: [signed] tells whether a certificate chains to a pool, [system]
    is the host's pool, used where a configuration names none. *)
Definition handshake (signed : nat → list nat → bool) (system : list nat) (srv cli : tls_config) : bool :=
  existsb (λ cert, signed cert (default system (tls_RootCAs cli))) (tls_Certificates srv) &&
  (negb (tls_RequireClient srv) ||
   existsb (λ cert, signed cert (default system (tls_ClientCAs srv))) (tls_Certificates cli)).


(** *** The store *)

Class PoolLaws (W : Type) `{PgxPool W} := {
  px_get_put : ∀ h x w, px_get h (px_put h x w) = x
}.

(** [storage.New] hands out a store only on a current schema.  When it returns
    one, the schema of its database is the current one and every message has a
    checksum, whatever schema the database had before. *)
Theorem storage_New_ready `{PoolLaws W} (c : ctx) (dsn : string) (targets : list string) (p : Postgres) err (w w' : W) :
  storage_New c dsn targets w = Some ((Some p, err), w') →
  err = None ∧ pg_targets p = targets ∧ (px_get (pg_pool p) w').1 = current ∧
  ∀ id r, db_messages (px_get (pg_pool p) w').2 !! id = Some r → mr_hash r ≠ "".
Proof.
  unfold storage_New. intros Hrun. destruct (px_ParseConfig dsn); [by gom_inv|].
  apply gom_bind_Some in Hrun as ([h|err1] & w1 & _ & Hrun); [|by gom_inv].
  apply gom_bind_Some in Hrun as ([err2|] & w2 & _ & Hrun); [by gom_inv|].
  apply gom_bind_Some in Hrun as (merr & w3 & Hmig & Hrun). destruct merr as [err3|]; [by gom_inv|].
  unfold pool_migrate in Hmig. destruct (migrate (px_tx h w2) (px_get h w2)) as [me x] eqn:Hm.
  injection Hmig as -> <-. gom_inv. cbn. rewrite px_get_put. split; [done|]. split; [done|].
  destruct (px_get h w2) as [s0 d0]. apply migrate_ok in Hm as (Hc & _ & Hrows). split; [done|]. apply Hrows.
Qed.

(** *** Sizes *)

(** The part size of S3 uploads is what is configured, and large enough for the
    protocol.  Whatever [S3_PART_SIZE_MB] is, the number of MiB that [New] settles
    on is at least 5 (16 for a value that is no number, out of range or too
    small); as long as it is below 2^44 the part size in bytes is exactly that
    many MiB, so at least the 5 MiB that S3 requires. *)
Theorem part_size_bounds (e : environ) :
  5 <= part_size_mb e ∧
  (part_size_mb e < 2 ^ 44 → part_size e = part_size_mb e * 1048576 ∧ 5 * 1048576 <= part_size e).
Proof.
  assert (5 <= part_size_mb e) as Hmin.
  { unfold part_size_mb. destruct (ParseUint _) as [n [err|]]; [lia|]. destruct (n <? 5) eqn:?; lia. }
  split; [done|]. intros Hmax. unfold part_size. rewrite Z.shiftl_mul_pow2 by lia. change (2 ^ 20) with 1048576.
  rewrite wrapu64_id by lia. lia.
Qed.

(** From 2^44 on the shift wraps: the parts have no bytes at all. *)
Example part_size_wraps :
  part_size (λ key, if bool_decide (key = "S3_PART_SIZE_MB") then "17592186044416" else "") = 0.
Proof. vm_compute. reflexivity. Qed.
