(* ===== verification/StartupSim.v ===== *)
(** * StartupSim: a simulated environment for the processes

    Every service is up or down by name; opening and closing is recorded.  The
    witnesses of [StartupProps] run here. *)

From stdpp Require Import base option list strings gmap.
From Stdlib Require Import ZArith Lia Ascii.
From S2P Require Import Prelude GoStrings GoPaths Env Messaging Storage StorageQueries Breaker RateLimit Jwt TCache Coord.
From S2P Require Import MessagesApi FilesApi AuditLogs SearchClient Brokers Gateway Connect Startup StartupProps.
Local Open Scope Z_scope.

(** The clock, the trace, the next handle, the database (its schema is current),
    and the services that are down. *)
Record lw := mkLw { lw_sim : sim; lw_trace : list life; lw_next : nat; lw_db : db; lw_down : list string }.

Definition lw_on (f : sim → sim) (w : lw) : lw := mkLw (f (lw_sim w)) (lw_trace w) (lw_next w) (lw_db w) (lw_down w).
Definition lw_log (es : list life) : GoM lw unit := modify (λ w, mkLw (lw_sim w) (lw_trace w ++ es) (lw_next w) (lw_db w) (lw_down w)).
Definition lw_fresh : GoM lw nat := λ w, Some (lw_next w, mkLw (lw_sim w) (lw_trace w) (S (lw_next w)) (lw_db w) (lw_down w)).

#[export] Instance lw_runtime : Runtime lw := {
  now w := now (lw_sim w);
  ctx_err c w := ctx_err c (lw_sim w);
  draw n w := let '(z, s) := draw n (lw_sim w) in (z, lw_on (λ _, s) w);
  select_timer c d w := let '(b, s) := select_timer c d (lw_sim w) in (b, lw_on (λ _, s) w);
  emit m := lw_on (emit m)
}.

Definition refused : error := NetError "connection refused".

Definition lw_is_down (service : string) (w : lw) : bool := bool_decide (service ∈ lw_down w).

(** Open a client of a service. *)
Definition lw_open (service : string) (r : nat → res) : GoM lw (nat + error) :=
  down ← gets (lw_is_down service);
  if (down : bool) then mret (inr refused) else h ← lw_fresh; _ ← lw_log [Acquired (r h)]; mret (inl h).
Definition lw_call (service : string) : GoM lw (option error) :=
  gets (λ w, if lw_is_down service w then Some refused else None).

#[export] Instance lw_otel : Otel lw := {
  ot_Exporter c := mret None;
  ot_Resource c s := mret None;
  ot_Provider := h ← lw_fresh; _ ← lw_log [Acquired (RTracing h)]; mret h;
  ot_Shutdown h c := _ ← lw_log [Released (RTracing h)]; mret None
}.
#[export] Instance lw_etcd_dial : EtcdDial lw := {
  et_New eps d := h ← lw_fresh; _ ← lw_log [Acquired (REtcd h)]; mret (inl h);
  et_Close h := lw_log [Released (REtcd h)]
}.
#[export] Instance lw_etcd : Etcd lw := {
  e_NewSession c := lw_call "etcd";
  e_SessionClose := mret ();
  e_Lock c name := mret None;
  e_Unlock c name := mret None;
  e_Get c key := mret (inl (["250"], 7));
  e_Watch c key rev := mret []
}.
#[export] Instance lw_pgx : PgxPool lw := {
  px_ParseConfig dsn := None;
  px_NewWithConfig c dsn := h ← lw_fresh; _ ← lw_log [Acquired (RPool h)]; mret (inl h);
  px_Ping h c := mret None;
  px_Close h := lw_log [Released (RPool h)];
  px_tx h w := mkTx (now w) (λ _, None) Ran;
  px_get h w := (current, lw_db w);
  px_put h x w := mkLw (lw_sim w) (lw_trace w) (lw_next w) x.2 (lw_down w)
}.
#[export] Instance lw_mongo : Mongo lw := {
  mg_Connect c o := h ← lw_fresh; _ ← lw_log [Acquired (RMongo h)]; mret (inl h);
  mg_Ping h c := lw_call "mongo";
  mg_Disconnect h c := _ ← lw_log [Released (RMongo h)]; mret None;
  mg_InsertOne co c en := lw_call "mongo";
  mg_Find co c s n := mret (inr refused);
  mg_All cur c := mret (inr refused)
}.
Definition lw_tarantool (c : ctx) (nodes : list Instance_) : GoM lw (option error) :=
  down ← gets (lw_is_down "tarantool");
  if (down : bool) then mret (Some refused) else _ ← lw_log [Acquired RTarantool]; mret None.
#[export] Instance lw_minio : MinioDial lw := {
  mn_New ep cr ssl := mret (inl 0%nat);
  mn_BucketExists h c b := gets (λ w, if lw_is_down "s3" w then inr refused else inl true);
  mn_MakeBucket h c b := mret None;
  mn_EnableVersioning h c b := mret None
}.
#[export] Instance lw_hdfs : HdfsDial lw := {
  hd_NewClient a u := lw_open "hdfs" RHdfs;
  hd_MkdirAll h d p := mret None;
  hd_IsExist err := false;
  hd_Close h := _ ← lw_log [Released (RHdfs h)]; mret None
}.
#[export] Instance lw_gocql : Gocql lw := {
  cq_ParseConsistency s := None;
  cq_CreateSession cl := lw_open "cassandra" RSession;
  cq_Exec h s := mret None;
  cq_Close h := lw_log [Released (RSession h)]
}.
#[export] Instance lw_elastic : Elastic lw := {
  es_NewClient a := mret None;
  es_Exists c n := gets (λ w, if lw_is_down "elastic" w then inr refused else inl (mkEs 0 200 (mkStream "" None)));
  es_Create c n m := mret (inr refused);
  es_Index c i b d r := mret (inr refused);
  es_Search c i b t := mret (inr refused);
  es_Health c := mret (inr refused);
  es_Close r := mret ()
}.
#[export] Instance lw_files : CertFiles lw := {
  fs_LoadX509KeyPair cert key w := if bool_decide (cert = "/certs/server.crt") then inl 7%nat else inr refused;
  fs_ReadFile path w := inl path;
  fs_pem text := [1%nat]
}.
#[export] Instance lw_threads : Threads lw := {
  th_WithCancel c := h ← lw_fresh; mret (WithCancel c h);
  th_Notify := h ← lw_fresh; mret (WithCancel Background h);
  th_Cancel c := mret ();
  th_Go t := id ← lw_fresh; _ ← lw_log [Acquired (match t with TServe g _ => RServe g | _ => RThread id t end)]; mret id;
  th_Done c := mret ();
  th_Wait ids := lw_log ((λ x, Released (RThread x.1 x.2)) <$> reverse ids)
}.
#[export] Instance lw_net : Net lw ApiState := {
  hs_ListenAndServe srv := _ ← lw_log [Serving (EHttp srv)]; mret None;
  hs_ListenAndServeTLS srv := _ ← lw_log [Serving (EHttp srv)]; mret None;
  hs_Shutdown srv c := mret None;
  nt_Listen a := h ← lw_fresh; mret (inl h);
  gs_NewServer t := h ← lw_fresh; _ ← lw_log [Serving (EGrpc t)]; mret h;
  gs_GracefulStop g := lw_log [Released (RServe g)];
  gc_NewClient a t := h ← lw_fresh; mret (inl h)
}.

#[export] Instance lw_spec : LifeSpec lw lw_tarantool.
Proof.
  refine {| trace := lw_trace; required_up := True |}; try done;
    intros; try intros ?; cbn; unfold lw_open, lw_call, lw_tarantool, logs, quiet, wp, mbind, gom_bind, gets; cbn;
    repeat case_match; simplify_eq/=; try (eexists _, _; split; [reflexivity|]); cbn; rewrite ?app_nil_r; try done;
    (split; [done|]); intros _; by eexists.
Defined.

(** ** Witnesses *)

(** Everything configured, with mutual TLS. *)
Definition ex_settings (key : string) : string :=
  if bool_decide (key = "DATABASE_URL") then "postgres://db/otus"
  else if bool_decide (key = "ETCD_ENDPOINTS") then "etcd1:2379,etcd2:2379"
  else if bool_decide (key = "VALKEY_ADDRS") then "valkey:6379"
  else if bool_decide (key = "OTEL_EXPORTER_OTLP_ENDPOINT") then "http://otel:4318"
  else if bool_decide (key = "MONGO_URL") then "mongodb://mongo"
  else if bool_decide (key = "TARANTOOL_ADDRS") then "tnt1:3301,tnt2:3301"
  else if bool_decide (key = "KAFKA_BROKERS") then "kafka:9092"
  else if bool_decide (key = "NATS_URLS") then "nats:4222"
  else if bool_decide (key = "S3_ENDPOINT") then "minio:9000"
  else if bool_decide (key = "HDFS_NAMENODES") then "nn1:8020"
  else if bool_decide (key = "CASSANDRA_HOSTS") then "c1,c2,c3"
  else if bool_decide (key = "ELASTIC_URLS") then "http://es1:9200"
  else if bool_decide (key = "CONSUMER_WORKERS") then "3"
  else if bool_decide (key = "TLS_CERT_FILE") then "/certs/server.crt"
  else if bool_decide (key = "TLS_KEY_FILE") then "/certs/server.key"
  else if bool_decide (key = "TLS_CA_FILE") then "/certs/ca.crt"
  else "".

(** MongoDB and Cassandra are down. *)
Definition lw0 : lw := mkLw sim0 [] 0 (mkDb 0 ∅ ∅) ["mongo"; "cassandra"].

Lemma ex_can_serve : can_serve (W := lw) ex_settings.
Proof. split; [exact I|]. split; [done|]. intros w. eexists. vm_compute. reflexivity. Defined.

Lemma app_serves_witness :
  ∃ r w' es, app_run lw_tarantool 0 ex_settings lw0 = Some (r, w') ∧ lw_trace w' = es ∧
    serves_both (W := lw) ex_settings (served es).
Proof.
  destruct (app_serves (W := lw) 0 ex_settings lw0 ex_can_serve) as (r & w' & Hr & es & Ht & Hs).
  exists r, w', es. split; [done|]. by split.
Defined.



(** A pool on a database of an earlier schema. *)
Record pgw := mkPgw { pgw_db : schema * db }.
#[export] Instance pgw_pool : PgxPool pgw := {
  px_ParseConfig dsn := None;
  px_NewWithConfig c dsn := mret (inl 0%nat);
  px_Ping h c := mret None;
  px_Close h := mret ();
  px_tx h w := mkTx 5 (λ _, None) Ran;
  px_get h w := pgw_db w;
  px_put h x w := mkPgw x
}.
#[export] Instance pgw_laws : PoolLaws pgw.
Proof. by split. Defined.

Lemma storage_New_ready_witness :
  ∃ p w', storage_New Background "postgres://db/otus" ["kafka"] (mkPgw ex_legacy) = Some ((Some p, None), w') ∧
    (px_get (pg_pool p) w').1 = current.
Proof.
  eexists _, _. split; [vm_compute; reflexivity|].
  eapply (storage_New_ready (W := pgw) Background "postgres://db/otus" ["kafka"] _ None (mkPgw ex_legacy)).
  vm_compute. reflexivity.
Defined.

