(* ===== verification/ChaosProxy.v ===== *)
(** * ChaosProxy: the fault-injecting proxy

    [cmd/chaosproxy/main.go]: the settings of the faults, the proxying of a
    request with dropping, delay, repetition and throttling, and the control
    endpoints, over an interface for the network. *)

From stdpp Require Import base option list strings gmap.
From Stdlib Require Import ZArith Lia Ascii QArith.
From S2P Require Import Prelude GoStrings GoPaths JsonText Json Env Messaging FileStores Http Gateway.
Local Open Scope Z_scope.

(** [faults]; the rate is the rational the float stands for. *)
Record faults := mkFaults { f_DelayMs : Z; f_Repeat : bool; f_DropRate : Q; f_ThrottleBPS : Z }.

(** [&controls{}] *)
Definition no_faults : faults := mkFaults 0 false 0 0.

(** What the handler reads of a request. *)
Record px_request := mkPx {
  px_ctx : ctx; px_method : string; px_uri : string; px_header : header; px_body : stream }.

(** The network: sending a request (the answer is a body's handle, a status and
    headers), reading and closing a body, writing to the client, sleeping.
    [io_Flusher] tells whether the response writer is an [http.Flusher]. *)
Class ProxyIO (W : Type) := {
  io_Do : ctx → out_request → GoM W ((nat * Z * header) + error);
  io_Read : nat → Z → GoM W (string * option error);
  io_Close : nat → GoM W unit;
  io_WriteHeader : Z → header → GoM W unit;
  io_Write : string → GoM W (Z * option error);
  io_Flusher : bool;
  io_Flush : GoM W unit;
  io_Sleep : Z → GoM W unit
}.

(** [io.ReadAll(io.LimitReader(r, n))] *)
Definition read_limited (r : stream) (n : Z) : string * option error :=
  if Z.of_nat (String.length (s_bytes r)) <? n then (s_bytes r, s_err r)
  else (str_take (Z.to_nat n) (s_bytes r), None).

Section Proxy.
Context `{Runtime W, ProxyIO W}.

(** [writeError]: the object with the text and the line end of [json.Encoder]. *)
Definition px_error (status : Z) (msg : string) : GoM W unit :=
  _ ← io_WriteHeader status json_header;
  _ ← io_Write (print (JObj [("error", jstring msg)]) +:+ String (ascii_of_nat 10) "");
  mret ().

(** The loop of [copyThrottled], [None] when not finished after [fuel]
    iterations. *)
Fixpoint throttle_loop (fuel : nat) (src : nat) (chunk total : Z) : GoM W (option Z) :=
  match fuel with
  | O => mret None
  | S fuel' =>
      r ← io_Read src chunk;
      let '(buf, err) := r in
      res ← (if bool_decide (buf = "") then mret (inl total)
             else
               wr ← io_Write buf;
               let '(written, werr) := wr in
               let total := wrap64 (total + written) in
               _ ← (if io_Flusher then io_Flush else mret ());
               match werr with
               | Some _ => mret (inr total)
               | None => _ ← io_Sleep (100 * Millisecond); mret (inl total)
               end);
      match res with
      | inr total => mret (Some total)
      | inl total => match err with Some _ => mret (Some total) | None => throttle_loop fuel' src chunk total end
      end
  end.

Definition copyThrottled (fuel : nat) (src : nat) (bps : Z) : GoM W (option Z) :=
  let chunk := Z.quot bps 10 in
  throttle_loop fuel src (if chunk <? 1 then 1 else chunk) 0.

(** [io.Copy] to a writer, with its 32 KiB buffer: the bytes written.  It stops at
    an error of either side and at a short write. *)
Fixpoint copy_loop (fuel : nat) (write : string → GoM W (Z * option error)) (src : nat) (total : Z) : GoM W (option Z) :=
  match fuel with
  | O => mret None
  | S fuel' =>
      r ← io_Read src 32768;
      let '(buf, err) := r in
      if bool_decide (buf = "") then
        match err with Some _ => mret (Some total) | None => copy_loop fuel' write src total end
      else
        wr ← write buf;
        let '(written, werr) := wr in
        let total := wrap64 (total + written) in
        if bool_decide (werr = None) && bool_decide (written = Z.of_nat (String.length buf)) && bool_decide (err = None)
        then copy_loop fuel' write src total
        else mret (Some total)
  end.

(** [io.Discard] *)
Definition discard (s : string) : GoM W (Z * option error) := mret (Z.of_nat (String.length s), None).

Definition count (name label : string) : GoM W unit := modify (emit (MInc name [label])).
Definition traffic (direction : string) (n : Z) : GoM W unit :=
  modify (emit (MAdd "otus_proxy_traffic_bytes_total" [direction] n)).

(** [p.appURL], and whether [http.NewRequestWithContext] accepts a URL. *)
Variables (appURL : string) (url_ok : string → bool).

(** The loop of attempts, each with the same request: the last answer, or [None] when an error was
    reported to the client (or the fuel of a copy ran out, which is [false]). *)
Fixpoint attempts_loop (fuel : nat) (c : ctx) (req : out_request) (left : nat) : GoM W (option (nat * Z * header) * bool) :=
  match left with
  | O => mret (None, true)
  | S left' =>
      if negb (url_ok (oq_url req)) then
        _ ← px_error StatusInternalServerError "не удалось собрать запрос"; mret (None, true)
      else
        resp ← io_Do c req;
        match resp with
        | inr _ =>
            _ ← count "otus_proxy_requests_total" "error";
            _ ← px_error StatusBadGateway "app недоступен";
            mret (None, true)
        | inl (src, status, h) =>
            match left' with
            | O => mret (Some (src, status, h), true)
            | S _ =>
                n ← copy_loop fuel discard src 0;
                match n with
                | None => mret (None, false)
                | Some n =>
                    _ ← traffic "from_app" n;
                    _ ← io_Close src;
                    attempts_loop fuel c req left'
                end
            end
        end
  end.

(** The end of [ServeHTTP]: pass the answer on. *)
Definition pass_on (fuel : nat) (f : faults) (src : nat) (status : Z) (h : header) : GoM W bool :=
  _ ← io_WriteHeader status (map_fold add_values ∅ h);
  written ← (if 0 <? f_ThrottleBPS f then
               _ ← count "otus_proxy_faults_total" "throttle"; copyThrottled fuel src (f_ThrottleBPS f)
             else copy_loop fuel io_Write src 0);
  match written with
  | None => mret false
  | Some n =>
      _ ← traffic "from_app" n;
      _ ← count "otus_proxy_requests_total" "ok";
      _ ← io_Close src;
      mret true
  end.

(** [rand.Float64() < f.DropRate]: the random number is a multiple of 2^-53. *)
Definition dropped (f : faults) : GoM W bool :=
  if Qle_bool (f_DropRate f) 0 then mret false
  else k ← lift_state (draw 9007199254740992); mret (negb (Qle_bool (f_DropRate f) (k # 9007199254740992))).

(** [proxy.ServeHTTP], with the settings read at its start; [false] when a copy
    did not finish within [fuel] reads. *)
Definition ServeHTTP (fuel : nat) (f : faults) (r : px_request) : GoM W bool :=
  drop ← dropped f;
  if (drop : bool) then
    _ ← count "otus_proxy_faults_total" "drop";
    _ ← count "otus_proxy_requests_total" "dropped";
    _ ← px_error StatusBadGateway "запрос оборван прокси";
    mret true
  else
    _ ← (if 0 <? f_DelayMs f
         then _ ← count "otus_proxy_faults_total" "delay"; io_Sleep (wrap64 (f_DelayMs f * Millisecond))
         else mret ());
    let '(body, err) := read_limited (px_body r) (Z.shiftl 1 20) in
    match err with
    | Some _ => _ ← px_error StatusBadRequest "не удалось прочитать тело запроса"; mret true
    | None =>
        _ ← traffic "to_app" (Z.of_nat (String.length body));
        attempts ← (if f_Repeat f && negb (bool_decide (px_method r = "GET"))
                    then _ ← count "otus_proxy_faults_total" "repeat"; mret 2%nat
                    else mret 1%nat);
        res ← attempts_loop fuel (px_ctx r) (mkOut (px_method r) (appURL +:+ px_uri r) (px_header r) (Some body)) attempts;
        match res with
        | (None, finished) => mret finished
        | (Some (src, status, h), _) => pass_on fuel f src status h
        end
    end.

(** ** Control *)

(** [controls.get] and [controls.set], over the settings. *)
Definition ctl_get : GoM (W * faults) faults := gets snd.
Definition ctl_set (f : faults) : GoM (W * faults) unit := modify (λ s, (s.1, f)).

Inductive control_body := CStatus (text : string) | CFaults (f : faults).

Definition controlHealth : reply control_body := write_ok StatusOK (CStatus "работает").

Definition controlGet : GoM (W * faults) (reply control_body) := f ← ctl_get; mret (write_ok StatusOK (CFaults f)).

(** [proxy.controlSet]; the decoded body is [None] when it is not the expected
    JSON. *)
Definition controlSet (body : option faults) : GoM (W * faults) (reply control_body) :=
  match body with
  | None => mret (write_error StatusBadRequest "некорректное тело запроса")
  | Some f =>
      if (f_DelayMs f <? 0) || (f_ThrottleBPS f <? 0) || negb (Qle_bool 0 (f_DropRate f)) || negb (Qle_bool (f_DropRate f) 1)
      then mret (write_error StatusBadRequest "недопустимые значения помех")
      else _ ← ctl_set f; mret (write_ok StatusOK (CFaults f))
  end.

(** The handler of the proxy's port. *)
Definition proxy_handle (fuel : nat) (r : px_request) : GoM (W * faults) bool :=
  f ← ctl_get; on_fst (ServeHTTP fuel f r).

End Proxy.
