(* ===== verification/ChaosProps.v ===== *)
(** * ChaosProps: what the proxy does to requests

    The settings stay valid; a copy, throttled or not, passes every byte on and
    ends; throttling bounds the rate; and a request repeated by the proxy reaches
    an app on the tables of [Storage] without storing a message twice. *)

From stdpp Require Import base option list strings gmap relations.
From Stdlib Require Import ZArith Lia Ascii QArith.
From S2P Require Import Prelude GoStrings GoPaths Env Messaging EventJson Storage StorageProps FileStores RequestJson Http MessagesApi PostgresStore.
From S2P Require Import Gateway ChaosProxy.
Local Open Scope Z_scope.

(** ** The settings *)

Definition valid_faults (f : faults) : Prop :=
  0 <= f_DelayMs f ∧ 0 <= f_ThrottleBPS f ∧ (0 <= f_DropRate f <= 1)%Q.

(** Requests to the control port. *)
Inductive control_call := CallGet | CallSet (body : option faults).

Definition control `{Runtime W} (k : control_call) : GoM (W * faults) (reply control_body) :=
  match k with
  | CallGet => controlGet
  | CallSet body => controlSet body
  end.

Fixpoint control_all `{Runtime W} (ks : list control_call) : GoM (W * faults) (list (reply control_body)) :=
  match ks with
  | [] => mret []
  | k :: rest => r ← control k; rs ← control_all rest; mret (r :: rs)
  end.

(** What one request does. *)
Lemma control_spec `{Runtime W} (k : control_call) (w : W) (f : faults) :
  valid_faults f →
  ∃ rep f', control k (w, f) = Some (rep, (w, f')) ∧ valid_faults f' ∧
    ((rp_status rep = StatusOK ∧ rp_body rep = OkBody (CFaults f')) ∨ (rp_status rep = StatusBadRequest ∧ f' = f)).
Proof.
  intros Hf. destruct k as [|[f'|]]; cbn [control].
  - eexists _, f. split; [done|]. split; [done|]. by left.
  - unfold controlSet. destruct (_ || _) eqn:E.
    + eexists _, f. split; [done|]. split; [done|]. by right.
    + eexists _, f'. split; [done|]. split; [|by left].
      rewrite !orb_false_iff, !negb_false_iff, !Qle_bool_iff, !Z.ltb_ge in E. unfold valid_faults. tauto.
  - eexists _, f. split; [done|]. split; [done|]. by right.
Qed.

Section Drop.
Context `{RuntimeLaws W}.

Lemma dropped_run f (w : W) :
  valid_faults f →
  wp (dropped f) (λ b _, (f_DropRate f == 0 → b = false) ∧ (f_DropRate f == 1 → b = true))%Q w.
Proof.
  intros (_ & _ & Hlo & Hhi). unfold dropped. destruct (Qle_bool (f_DropRate f) 0) eqn:E.
  - apply Qle_bool_iff in E. wp_pure. split; [done|]. intros E1. rewrite E1 in E. unfold Qle in E. cbn in E. lia.
  - apply wp_bind. pose proof (draw_range 9007199254740992 w ltac:(lia)) as Hr.
    destruct (draw 9007199254740992 w) as [k w'] eqn:Ed. cbn in Hr. exists k, w'. unfold lift_state. split; [by rewrite Ed|].
    wp_pure. split.
    + intros E0. assert (Qle_bool (f_DropRate f) 0 = true) by (apply Qle_bool_iff; rewrite E0; apply Qle_refl). congruence.
    + intros E1. apply negb_true_iff, not_true_is_false. intros E2%Qle_bool_iff.
      rewrite E1 in E2. unfold Qle in E2. cbn in E2. lia.
Qed.

End Drop.

(** The settings of the faults are always sane and obeyed.  From any sane
    settings, whatever requests the control port gets, it does not fail, refuses
    the bad ones with 400 leaving the settings alone, confirms the others with
    what is now set, and delay, throttle and drop rate stay in their ranges.
    Under sane settings, at rate 0 no request is dropped and at rate 1 every
    request is answered 502 without reaching the app. *)
Theorem controls_sane `{RuntimeLaws W} (ks : list control_call) (w : W) (f : faults) :
  valid_faults f →
  (∃ reps f', control_all ks (w, f) = Some (reps, (w, f')) ∧ valid_faults f' ∧
     Forall (λ rep, rp_status rep = StatusOK ∨ rp_status rep = StatusBadRequest) reps ∧
     (∀ rep, last reps = Some rep → rp_status rep = StatusOK → rp_body rep = OkBody (CFaults f'))) ∧
  wp (dropped f) (λ b _, (f_DropRate f == 0 → b = false) ∧ (f_DropRate f == 1 → b = true))%Q w.
Proof.
  intros Hf. split; [|by apply dropped_run]. revert f Hf. induction ks as [|k ks IH]; intros f Hf; cbn [control_all].
  { exists [], f. by split_and!. }
  destruct (control_spec k w f Hf) as (rep & f1 & E & Hf1 & Hrep). rewrite (gom_bind_run _ _ _ _ _ E).
  destruct (IH f1 Hf1) as (reps & f2 & E2 & Hf2 & Hall & Hlast). rewrite (gom_bind_run _ _ _ _ _ E2).
  exists (rep :: reps), f2. split_and!; [done|done|constructor; [naive_solver|done]|].
  destruct reps as [|rep' reps]; [|exact Hlast]. destruct ks as [|k' ks].
  - cbn in E2. injection E2 as <-. intros r [= <-]. destruct Hrep as [[? ?]|[Hs _]]; [done|]. by rewrite Hs.
  - exfalso. cbn [control_all] in E2. gom_inv.
Qed.

(** ** Copying *)

(** A network that works: [rest] is what is left to read of a body, [output] what
    the client has been sent; a read yields bytes or an error, and an error only
    at the end.  [A] is the part of the world the calls leave alone. *)
Class Lossless (W A : Type) `{Runtime W, ProxyIO W} (kept : W → A) := {
  rest : W → nat → string;
  output : W → string;
  heading : W → option (Z * header);
  others_same (w w' : W) : Prop := kept w' = kept w ∧ heading w' = heading w;
  ll_read : ∀ src k w, 0 < k → wp (io_Read src k) (λ r w', others_same w w' ∧ output w' = output w ∧
    rest w src = r.1 +:+ rest w' src ∧ (∀ s, s ≠ src → rest w' s = rest w s) ∧
    Z.of_nat (String.length r.1) <= k ∧ (r.1 = "" → r.2 ≠ None) ∧ (r.2 ≠ None → rest w' src = "")) w;
  ll_write : ∀ s w, wp (io_Write s) (λ r w', r = (Z.of_nat (String.length s), None) ∧ others_same w w' ∧
    output w' = output w +:+ s ∧ rest w' = rest w) w;
  ll_flush : ∀ w, wp io_Flush (λ _ w', others_same w w' ∧ output w' = output w ∧ rest w' = rest w ∧ now w <= now w') w;
  ll_sleep : ∀ d w, wp (io_Sleep d) (λ _ w', others_same w w' ∧ output w' = output w ∧ rest w' = rest w) w;
  ll_close : ∀ src w, wp (io_Close src) (λ _ w', others_same w w' ∧ output w' = output w) w;
  ll_emit : ∀ m w, others_same w (emit m w) ∧ output (emit m w) = output w ∧ rest (emit m w) = rest w
}.

Lemma str_length_pos s : s ≠ "" → (0 < String.length s)%nat.
Proof. destruct s; [done|cbn; lia]. Qed.

Definition str_len (s : string) : Z := Z.of_nat (String.length s).

Section Copy.
Context `{Lossless W A kept}.

#[export] Instance others_same_preorder : PreOrder others_same.
Proof.
  split; [by intros w; split|]. intros w1 w2 w3 [A1 B1] [A2 B2]. split; congruence.
Qed.

(** The copy of a body that is read to its end. *)
Definition copied (w w' : W) (src : nat) (out : string → string) : Prop :=
  others_same w w' ∧ output w' = output w +:+ out (rest w src) ∧ rest w' src = "".

Lemma throttle_loop_spec fuel src chunk total w :
  0 < chunk → (String.length (rest w src) < fuel)%nat → 0 <= total → total + str_len (rest w src) <= max_int64 →
  wp (throttle_loop fuel src chunk total) (λ n w', n = Some (total + str_len (rest w src)) ∧ copied w w' src id) w.
Proof.
  intros Hc. revert total w. induction fuel as [|fuel IH]; intros total w Hf Ht Hm; [lia|]. cbn [throttle_loop].
  wp_call ll_read as [buf err] w1 (S1 & O1 & R1 & _ & Hk & He & Hend); [done|]. cbn [fst snd] in *.
  rewrite R1, str_length_app in Hf. unfold str_len in *. rewrite R1, str_length_app, Nat2Z.inj_add in Hm.
  destruct (bool_decide_reflect (buf = "")) as [->|Hne].
  { wp_pure. destruct err as [err|]; [|by destruct He]. wp_pure. assert (rest w1 src = "") as Hr by by apply Hend.
    rewrite Hr in R1. rewrite R1. cbn. split; [by rewrite Z.add_0_r|]. split; [done|].
    unfold id. by rewrite R1, str_app_nil_r. }
  apply wp_bind. wp_call ll_write as r w2 (-> & S2 & O2 & R2). wp_pure.
  assert (∀ w3, others_same w2 w3 → output w3 = output w2 → rest w3 = rest w2 →
    wp (match err with
        | Some _ => mret (Some (wrap64 (total + Z.of_nat (String.length buf))))
        | None => throttle_loop fuel src chunk (wrap64 (total + Z.of_nat (String.length buf)))
        end) (λ n w', n = Some (total + str_len (rest w src)) ∧ copied w w' src id) w3) as Hnext.
  { intros w3 S3 O3 R3. pose proof (str_length_pos _ Hne).
    rewrite wrap64_id by (unfold in_int64, min_int64; lia). unfold str_len in *. rewrite R1, str_length_app, Nat2Z.inj_add.
    assert (rest w3 src = rest w1 src) as Hr3 by by rewrite R3, R2.
    destruct err as [err|].
    - wp_pure. assert (rest w1 src = "") as Hr by by apply Hend. rewrite Hr in *. cbn. split; [f_equal; lia|].
      split; [by repeat (etransitivity; [eassumption|])|]. unfold id. split; [|by rewrite Hr3].
      by rewrite O3, O2, O1, R1, str_app_nil_r.
    - eapply wp_conseq; [apply IH; rewrite ?Hr3; lia|]. intros n w4 (-> & S4 & O4 & R4). rewrite Hr3 in *.
      split; [f_equal; lia|]. split; [by repeat (etransitivity; [eassumption|])|]. split; [|done].
      unfold id in *. by rewrite O4, O3, O2, O1, R1, str_app_assoc. }
  apply wp_bind. destruct io_Flusher.
  - eapply wp_conseq; [apply ll_flush|]. intros u w3 (S3 & O3 & R3 & _). wp_call ll_sleep as u' w4 (S4 & O4 & R4). wp_pure.
    apply Hnext; [by etransitivity|congruence|congruence].
  - wp_pure. wp_call ll_sleep as u' w4 (S4 & O4 & R4). wp_pure. by apply Hnext.
Qed.

(** A writer that takes everything and shows [out] of it to the client. *)
Definition takes (write : string → GoM W (Z * option error)) (out : string → string) : Prop :=
  (∀ s w, wp (write s) (λ r w', r = (str_len s, None) ∧ others_same w w' ∧ output w' = output w +:+ out s ∧ rest w' = rest w) w) ∧
  out "" = "" ∧ ∀ a b, out (a +:+ b) = out a +:+ out b.

Lemma client_takes : takes io_Write id.
Proof. split; [intros s w; apply ll_write|done]. Qed.

Lemma discard_takes : takes discard (λ _, "").
Proof.
  split; [|done]. intros s w. unfold discard. wp_pure. split_and!; [done|reflexivity|by rewrite str_app_nil_r|done].
Qed.

Lemma copy_loop_spec write out fuel src total w :
  takes write out → (String.length (rest w src) < fuel)%nat → 0 <= total → total + str_len (rest w src) <= max_int64 →
  wp (copy_loop fuel write src total) (λ n w', n = Some (total + str_len (rest w src)) ∧ copied w w' src out) w.
Proof.
  intros (Hw & Hout0 & Hout). revert total w. induction fuel as [|fuel IH]; intros total w Hf Ht Hm; [lia|]. cbn [copy_loop].
  wp_call ll_read as [buf err] w1 (S1 & O1 & R1 & _ & Hk & He & Hend); [done|]. cbn [fst snd] in *.
  rewrite R1, str_length_app in Hf. unfold str_len in *. rewrite R1, str_length_app, Nat2Z.inj_add in Hm.
  destruct (bool_decide_reflect (buf = "")) as [->|Hne].
  { destruct err as [err|]; [|by destruct He]. wp_pure. assert (rest w1 src = "") as Hr by by apply Hend.
    rewrite Hr in R1. rewrite R1. cbn. split; [by rewrite Z.add_0_r|]. split; [done|].
    change ("" +:+ "") with "" in R1. by rewrite R1, Hout0, str_app_nil_r. }
  wp_call Hw as r w2 (-> & S2 & O2 & R2). wp_pure. pose proof (str_length_pos _ Hne).
  assert (rest w2 src = rest w1 src) as Hr2 by by rewrite R2. unfold str_len.
  rewrite wrap64_id by (unfold in_int64, min_int64; lia). rewrite !bool_decide_true by done. cbn [andb].
  rewrite R1, str_length_app, Nat2Z.inj_add. destruct (bool_decide_reflect (err = None)) as [->|Herr].
  - eapply wp_conseq; [apply IH; unfold str_len; rewrite ?Hr2; lia|]. intros n w4 (-> & S4 & O4 & R4). unfold str_len. rewrite Hr2 in *.
    split; [f_equal; lia|]. split; [by repeat (etransitivity; [eassumption|])|]. split; [|done].
    by rewrite O4, O2, O1, R1, Hout, str_app_assoc.
  - wp_pure. assert (rest w1 src = "") as Hr by by apply Hend. rewrite Hr in *. cbn. split; [f_equal; lia|].
    split; [by etransitivity|]. split; [|done]. by rewrite O2, O1, R1, str_app_nil_r.
Qed.

End Copy.

(** Throttling changes the pace, not the data.  Over a network that works,
    whatever sizes its reads have, [copyThrottled] ends after at most one read
    more than the body has bytes, and the client has then been sent exactly the
    body, as [io.Copy] would have sent it; both report its length. *)
Theorem copyThrottled_exact `{Lossless W A kept} (fuel src : nat) (bps : Z) (w : W) :
  (String.length (rest w src) < fuel)%nat → str_len (rest w src) <= max_int64 →
  ∃ w1 w2, copyThrottled fuel src bps w = Some (Some (str_len (rest w src)), w1) ∧
    copy_loop fuel io_Write src 0 w = Some (Some (str_len (rest w src)), w2) ∧
    output w1 = output w +:+ rest w src ∧ output w2 = output w1.
Proof.
  intros Hf Hm. unfold copyThrottled.
  destruct (throttle_loop_spec fuel src (if Z.quot bps 10 <? 1 then 1 else Z.quot bps 10) 0 w)
    as (n & w1 & E1 & -> & _ & O1 & _); [by destruct (Z.ltb_spec (Z.quot bps 10) 1); lia|done..|].
  destruct (copy_loop_spec io_Write id fuel src 0 w client_takes) as (n & w2 & E2 & -> & _ & O2 & _); [done..|].
  exists w1, w2. unfold id in *. split_and!; [done..|congruence].
Qed.

(** ** The rate *)

(** The clock: calls take time, sleeping at least as long as asked. *)
Class Timed (W : Type) `{Runtime W, ProxyIO W} := {
  tm_read : ∀ src k w r w', io_Read src k w = Some (r, w') → now w <= now w';
  tm_write : ∀ s w r w', io_Write s w = Some (r, w') → now w <= now w';
  tm_sleep : ∀ d w r w', io_Sleep d w = Some (r, w') → now w + d <= now w'
}.

Lemma wp_and {W A} (m : GoM W A) (Q P : A → W → Prop) w :
  wp m Q w → (∀ a w', m w = Some (a, w') → P a w') → wp m (λ a w', Q a w' ∧ P a w') w.
Proof. intros (a & w' & E & HQ) HP. exists a, w'. auto. Qed.

(** At most [chunk] bytes per tenth of a second. *)
Definition at_rate `{Lossless W A kept} (chunk : Z) (w w' : W) : Prop :=
  now w <= now w' ∧ (str_len (output w') - str_len (output w)) * (100 * Millisecond) <= chunk * (now w' - now w).

Lemma throttle_rate `{Lossless W A kept} `{!Timed W} fuel src chunk total (w : W) :
  0 < chunk →
  wp (throttle_loop fuel src chunk total) (λ _ w',
    at_rate chunk w w') w.
Proof.
  intros Hc. revert total w. induction fuel as [|fuel IH]; intros total w; cbn [throttle_loop]; [wp_pure; unfold at_rate; lia|].
  wp_call (wp_and _ _ (λ _ w', now w <= now w') _ (ll_read src chunk w Hc)) as [buf err] w1 ((_ & O1 & _ & _ & Hk & _) & T1);
    [intros r w'; apply tm_read|]. cbn [fst] in Hk.
  assert (∀ total' w3, at_rate chunk w w3 →
    wp (match err with Some _ => mret (Some total') | None => throttle_loop fuel src chunk total' end) (λ _ w',
      at_rate chunk w w') w3) as Hnext.
  { intros total' w3 H3. destruct err as [err|]; [by wp_pure|]. eapply wp_conseq; [apply IH|]. unfold at_rate in *. cbn. intros _ w4 H4. nia. }
  destruct (bool_decide_reflect (buf = "")) as [->|Hne]; [wp_pure; apply Hnext; unfold at_rate; rewrite O1; nia|].
  apply wp_bind. wp_call (wp_and _ _ (λ _ w', now w1 <= now w') _ (ll_write buf w1)) as r w2 ((-> & _ & O2 & _) & T2);
    [intros r w'; apply tm_write|].
  wp_pure. apply wp_bind.
  assert (∀ w3, output w3 = output w2 → now w2 <= now w3 →
    wp (_ ← io_Sleep (100 * Millisecond); mret (inl (wrap64 (total + Z.of_nat (String.length buf))) : Z + Z))
      (λ res, wp (match res with
        | inl total0 => match err with Some _ => mret (Some total0) | None => throttle_loop fuel src chunk total0 end
        | inr total0 => mret (Some total0) end) (λ _ w',
      at_rate chunk w w')) w3) as Hsleep.
  { intros w3 O3 T3.
    wp_call (wp_and _ _ (λ _ w', now w3 + 100 * Millisecond <= now w') _ (ll_sleep (100 * Millisecond) w3)) as u w4 ((_ & O4 & _) & T4);
      [intros r w'; apply tm_sleep|].
    wp_pure. apply Hnext. unfold at_rate. rewrite O4, O3, O2, O1. unfold str_len in *. rewrite str_length_app, Nat2Z.inj_add.
    unfold Millisecond in *. nia. }
  destruct io_Flusher.
  - eapply wp_conseq; [apply ll_flush|]. intros u w3 (_ & O3 & _ & T3). by apply Hsleep.
  - wp_pure. by apply Hsleep.
Qed.

(** C39: The throttle bounds the rate.  However long a throttled copy has run, it has
    sent at most [bps] bytes per second of elapsed time, except that settings
    below 10 allow 10 bytes per second. *)
Theorem throttle_bounds_rate `{Lossless W A kept} `{!Timed W} (fuel src : nat) (bps : Z) (w : W) :
  ∃ n w', copyThrottled fuel src bps w = Some (n, w') ∧
    (str_len (output w') - str_len (output w)) * Second <= Z.max 10 bps * (now w' - now w).
Proof.
  unfold copyThrottled. set (chunk := if _ <? 1 then 1 else _).
  assert (0 < chunk ∧ 10 * chunk <= Z.max 10 bps) as [Hc Hb].
  { unfold chunk. destruct (Z.ltb_spec (Z.quot bps 10) 1); [lia|]. pose proof (Z.quot_rem' bps 10).
    assert (0 <= bps) by (destruct (Z.le_gt_cases 0 bps); [done|];
      pose proof (Z.quot_le_mono bps 0 10 ltac:(lia) ltac:(lia)) as Hq; rewrite Z.quot_0_l in Hq; lia).
    pose proof (Z.rem_bound_pos bps 10). lia. }
  destruct (throttle_rate fuel src chunk 0 w Hc) as (n & w' & E & Ht & Hr). exists n, w'. split; [done|].
  unfold Millisecond, Second in *. nia.
Qed.

(** ** Passing requests on *)

(** An app behind the network, as a function on its state. *)
Notation answer A := (Z * header * string * A)%type.

Class AppNet (W A : Type) `{Lossless W A kept} (serve : out_request → A → answer A) := {
  an_Do : ∀ c q w, wp (io_Do c q) (λ r w', let '(st, h, body, a) := serve q (kept w) in
    ∃ src, r = inl (src, st, h) ∧ rest w' src = body ∧ kept w' = a ∧ output w' = output w ∧ heading w' = heading w) w;
  an_WriteHeader : ∀ st h w, wp (io_WriteHeader st h) (λ _ w', heading w' = Some (st, h) ∧ kept w' = kept w ∧
    output w' = output w ∧ rest w' = rest w) w
}.

Section PassOn.
Context `{AppNet W A kept serve} `{!RuntimeLaws W}.
Variables (appURL : string) (url_ok : string → bool).

Lemma count_same name label (w : W) :
  wp (count name label) (λ _ w', others_same w w' ∧ output w' = output w ∧ rest w' = rest w) w.
Proof. unfold count. wp_pure. apply ll_emit. Qed.

Lemma traffic_same dir n (w : W) :
  wp (traffic dir n) (λ _ w', others_same w w' ∧ output w' = output w ∧ rest w' = rest w) w.
Proof. unfold traffic. wp_pure. apply ll_emit. Qed.

(** The answer after [n + 1] times the same request. *)
Fixpoint serve_again (n : nat) (q : out_request) (a : A) : answer A :=
  match n with
  | O => serve q a
  | S n' => serve_again n' q (serve q a).2
  end.

Definition out_of (r : px_request) (body : string) : out_request :=
  mkOut (px_method r) (appURL +:+ px_uri r) (px_header r) (Some body).

(** Bodies that a copy with the given fuel gets to the end of. *)
Definition small (fuel : nat) (q : out_request) : Prop :=
  ∀ a, (String.length (serve q a).1.2 < fuel)%nat ∧ str_len (serve q a).1.2 <= max_int64.

Lemma attempts_loop_S fuel c q n :
  attempts_loop (W := W) url_ok fuel c q (S (S n)) =
    (if negb (url_ok (oq_url q)) then
       _ ← px_error StatusInternalServerError "не удалось собрать запрос"; mret (None, true)
     else
       resp ← io_Do c q;
       match resp with
       | inr _ =>
           _ ← count "otus_proxy_requests_total" "error";
           _ ← px_error StatusBadGateway "app недоступен";
           mret (None, true)
       | inl (src, status, h) =>
           n' ← copy_loop fuel discard src 0;
           match n' with
           | None => mret (None, false)
           | Some k => _ ← traffic "from_app" k; _ ← io_Close src; attempts_loop url_ok fuel c q (S n)
           end
       end).
Proof. reflexivity. Qed.

Lemma attempts_loop_spec fuel c q n (w : W) :
  url_ok (oq_url q) = true → small fuel q →
  wp (attempts_loop url_ok fuel c q (S n)) (λ res w',
    let '(st, h, b, a) := serve_again n q (kept w) in
    ∃ src, res = (Some (src, st, h), true) ∧ rest w' src = b ∧ kept w' = a ∧ output w' = output w ∧ heading w' = heading w) w.
Proof.
  intros Hu Hs. revert w. induction n as [|n IH]; intros w; [cbn [attempts_loop]|rewrite attempts_loop_S]; rewrite Hu; cbn [negb].
  - wp_call an_Do as resp w1 HD. cbn [serve_again].
    destruct (serve q (kept w)) as [[[st h] b] a]. destruct HD as (src & -> & HD). wp_pure. eauto.
  - wp_call an_Do as resp w1 HD. cbn [serve_again]. pose proof (Hs (kept w)) as [Hs1 Hs2].
    destruct (serve q (kept w)) as [[[st h] b] a] eqn:Eq. cbn [fst snd] in *.
    destruct HD as (src & -> & Hr & Ha & Ho & Hh). cbv beta iota.
    wp_call (copy_loop_spec discard (λ _, "") fuel src 0 w1 discard_takes) as nn w2 (-> & [S2 S2'] & O2 & _);
      [by rewrite Hr|done|by rewrite Hr|]. rewrite str_app_nil_r in O2.
    wp_call traffic_same as u w3 ([S3 S3'] & O3 & _). wp_call ll_close as u' w4 ([S4 S4'] & O4).
    eapply wp_conseq; [apply IH|]. cbv beta. replace (kept w4) with a by congruence. intros res w5.
    destruct (serve_again n q a) as [[[st' h'] b'] a']. intros (src' & -> & ? & ? & ? & ?).
    exists src'. split_and!; congruence.
Qed.

Lemma pass_on_spec fuel f src st h (w : W) :
  (String.length (rest w src) < fuel)%nat → str_len (rest w src) <= max_int64 →
  wp (pass_on fuel f src st h) (λ ok w', ok = true ∧ heading w' = Some (st, map_fold add_values ∅ h) ∧
    output w' = output w +:+ rest w src ∧ kept w' = kept w) w.
Proof.
  intros Hf Hm. unfold pass_on. wp_call an_WriteHeader as u w1 (Hh1 & K1 & O1 & R1).
  assert (wp (if 0 <? f_ThrottleBPS f then _ ← count "otus_proxy_faults_total" "throttle"; copyThrottled fuel src (f_ThrottleBPS f)
              else copy_loop fuel io_Write src 0) (λ n w', n = Some (str_len (rest w src)) ∧
      others_same w1 w' ∧ output w' = output w1 +:+ rest w src) w1) as Hc.
  { rewrite <- R1 in Hf, Hm |- *. destruct (0 <? f_ThrottleBPS f).
    - wp_call count_same as u' w2 (S2 & O2 & R2). unfold copyThrottled.
      eapply wp_conseq; [apply throttle_loop_spec; rewrite ?R2; [|done..]|].
      { destruct (Z.ltb_spec (Z.quot (f_ThrottleBPS f) 10) 1); lia. }
      intros n w3 (-> & S3 & O3 & _). rewrite R2 in *. unfold id in *. split_and!; [done|by etransitivity|congruence].
    - eapply wp_conseq; [by apply (copy_loop_spec io_Write id fuel src 0 w1 client_takes)|].
      by intros n w3 (-> & S3 & O3 & _). }
  wp_call Hc as n w2 (-> & [S2 S2'] & O2). wp_call traffic_same as u2 w3 ([S3 S3'] & O3 & _).
  wp_call count_same as u3 w4 ([S4 S4'] & O4 & _). wp_call ll_close as u4 w5 ([S5 S5'] & O5). wp_pure.
  split_and!; congruence.
Qed.

(** The whole handler, when nothing is dropped and the body is readable and
    within the limit. *)
Lemma ServeHTTP_spec fuel f r (w : W) :
  valid_faults f → (f_DropRate f == 0)%Q → url_ok (appURL +:+ px_uri r) = true →
  str_len (s_bytes (px_body r)) < Z.shiftl 1 20 → s_err (px_body r) = None →
  small fuel (out_of r (s_bytes (px_body r))) →
  wp (ServeHTTP appURL url_ok fuel f r) (λ ok w', ok = true ∧
    let n := if f_Repeat f && negb (bool_decide (px_method r = "GET")) then 1%nat else 0%nat in
    let '(st, h, b, a) := serve_again n (out_of r (s_bytes (px_body r))) (kept w) in
    heading w' = Some (st, map_fold add_values ∅ h) ∧ output w' = output w +:+ b ∧ kept w' = a) w.
Proof.
  intros Hv Hd Hu Hlen Herr Hs. unfold ServeHTTP.
  assert (dropped f w = Some (false, w)) as Hnd.
  { unfold dropped. replace (Qle_bool (f_DropRate f) 0) with true; [done|]. symmetry. apply Qle_bool_iff. rewrite Hd. apply Qle_refl. }
  apply wp_bind. exists false, w. split; [done|].
  assert (wp (if 0 <? f_DelayMs f then _ ← count "otus_proxy_faults_total" "delay"; io_Sleep (wrap64 (f_DelayMs f * Millisecond))
              else mret ()) (λ _ w', others_same w w' ∧ output w' = output w ∧ rest w' = rest w) w) as Hdelay.
  { destruct (0 <? f_DelayMs f); [|wp_pure; split_and!; [reflexivity|done..]].
    wp_call count_same as u w1 (S1 & O1 & R1). eapply wp_conseq; [apply ll_sleep|].
    intros u' w2 (S2 & O2 & R2). split_and!; [by etransitivity|congruence..]. }
  wp_call Hdelay as u w1 ([S1 S1'] & O1 & _). unfold read_limited. fold (str_len (s_bytes (px_body r))).
  rewrite (proj2 (Z.ltb_lt _ _) Hlen), Herr. cbv beta iota. wp_call traffic_same as u2 w2 ([S2 S2'] & O2 & _).
  assert (∀ n w3, kept w3 = kept w → output w3 = output w →
    wp (res ← attempts_loop url_ok fuel (px_ctx r) (out_of r (s_bytes (px_body r))) (S n);
        match res with
        | (None, finished) => mret finished
        | (Some (src, status, h), _) => pass_on fuel f src status h
        end) (λ ok w', ok = true ∧
      let '(st, h, b, a) := serve_again n (out_of r (s_bytes (px_body r))) (kept w) in
      heading w' = Some (st, map_fold add_values ∅ h) ∧ output w' = output w +:+ b ∧ kept w' = a) w3) as Hrun.
  { intros n w3 K3 O3. wp_call attempts_loop_spec as res w4 HA; [done..|]. rewrite K3 in HA.
    assert (∀ n a, (String.length (serve_again n (out_of r (s_bytes (px_body r))) a).1.2 < fuel)%nat ∧
      str_len (serve_again n (out_of r (s_bytes (px_body r))) a).1.2 <= max_int64) as Hsm.
    { intros n0. induction n0 as [|n0 IHn]; intros a0; [apply Hs|apply IHn]. }
    specialize (Hsm n (kept w)). destruct (serve_again n _ (kept w)) as [[[st h] b] a]. cbn [fst snd] in Hsm.
    destruct HA as (src & -> & R4 & K4 & O4 & _). cbv beta iota.
    eapply wp_conseq; [apply pass_on_spec; rewrite R4; apply Hsm|]. intros ok w5 (-> & Hh5 & O5 & K5).
    split_and!; [done|done|congruence|congruence]. }
  cbv zeta. destruct (f_Repeat f && _).
  - apply wp_bind. wp_call count_same as u3 w3 ([S3 S3'] & O3 & _). wp_pure. apply Hrun; congruence.
  - wp_pure. apply Hrun; congruence.
Qed.

End PassOn.

(** ** Repetition and idempotency *)

(** [POST /messages] of the app on the tables of [Storage]; [render] encodes the
    reply. *)
Section App.
Context `{EventCodec} `{Runtime W0} `{AuditLog (W0 * db), MessagesCache (W0 * db)}.
Variables (targets : list string) (a : MsgAPI) (render : reply msg_body → string).

(** [r.Body] of the request that arrives. *)
Definition body_of_request (q : out_request) : stream := mkStream (default "" (oq_body q)) None.

Definition request_of (q : out_request) : http_request :=
  mkReq Background "" (λ name, header_value name (oq_header q)) (λ _, "") (λ _, "").

Definition app_serve (q : out_request) (s : W0 * db) : answer (W0 * db) :=
  match @createMessage (W0 * db) _ (pg_store targets) _ _ a (request_of q) (body_of_request q) s with
  | Some (rep, s') => (rp_status rep, json_header, render rep, s')
  | None => (StatusInternalServerError, json_header, "", s)
  end.

Hypothesis Htargets : Forall (λ t, target_allowed t = true) targets.
Hypothesis Haudit : has_audit a = false.
Hypothesis Hcache : has_cache a = false.

(** The first time and every further time. *)
Lemma serve_keyed q text (w : W0) d :
  expressible (now w) → db_inv d → db_seq d < max_int64 - 1 →
  decode_text (body_of_request q) = Some text → ¬ Blank text → no_nul text = true →
  pg_text (header_value "Idempotency-Key" (oq_header q)) = true →
  header_value "Idempotency-Key" (oq_header q) ≠ "" →
  find_key (header_value "Idempotency-Key" (oq_header q)) (db_messages d) = None →
  ∃ row d1, mr_text row = text ∧ db_messages d1 = <[db_seq d + 1 := row]> (db_messages d) ∧
    (∃ w1, app_serve q (w, d) = (StatusCreated, json_header, render (write_ok StatusCreated (MOne (scan_message row true))), (w1, d1))) ∧
    ∀ w2, ∃ w3, app_serve q (w2, d1) =
      (StatusCreated, json_header, render (write_ok StatusCreated (MOne (scan_message row true))), (w3, with_seq (db_seq d1 + 1) d1)).
Proof.
  intros Hnow Hinv Hseq Htext Hb Hpt Hpk Hkey Hfree. rewrite <- (decoded_pg _ _ Htext) in Hpt. set (key := header_value _ _) in *.
  assert (ValidateText text = None) as Hv by (destruct (ValidateText_cases text) as [?|Hx]; [done|by apply ValidateText_spec in Hx]).
  assert (nullif_empty key = Some key) as Hnull by (unfold nullif_empty; by rewrite bool_decide_false).
  destruct (Create_fresh targets Htargets (env_at w) text key d) as (d1 & E & Hs1 & Hm1);
    [done|done|done|lia|done|done|by rewrite Hnull|rewrite Hnull; by intros k [= <-]|].
  rewrite Hnull in E, Hm1. set (row := mkRow _ text _ _ _) in E, Hm1. exists row, d1. split_and!; [done|done| |].
  - unfold app_serve. rewrite (createMessage_pg _ _ _ _ text) by done. unfold posted. cbn [fst snd request_of hq_header]. fold key.
    rewrite E. by eexists.
  - intros w2. unfold app_serve. rewrite (createMessage_pg _ _ _ _ text) by done. unfold posted. cbn [fst snd request_of hq_header]. fold key.
    assert (db_inv d1) as Hinv1 by (eapply db_step_inv, (st_create targets); [done|exact E]).
    rewrite (Create_stored (env_at w2) targets text key d1 (db_seq d + 1) row);
      [|done|by rewrite Hm1, lookup_insert_eq|done|done|lia|done|done].
    rewrite bool_decide_true by done. by eexists.
Qed.

End App.

Lemma json_header_copied : map_fold add_values ∅ json_header = json_header.
Proof. vm_compute. reflexivity. Qed.


(** ** Large bodies *)

Lemma str_take_take n s : str_take n (str_take n s) = str_take n s.
Proof. revert s. induction n as [|n IH]; intros [|x s]; cbn; [done..|]. by rewrite IH. Qed.

Lemma str_take_length n s : (n <= String.length s)%nat → String.length (str_take n s) = n.
Proof. revert s. induction n as [|n IH]; intros [|x s]; cbn; [done..|lia|]. intros ?. rewrite IH; lia. Qed.

(** A request whose body has a mebibyte or more is passed on with its first
    mebibyte only, as if the client had sent just that. *)
Theorem proxy_truncates `{Runtime W, ProxyIO W} (appURL : string) (url_ok : string → bool)
    (fuel : nat) (f : faults) (r : px_request) (w : W) :
  Z.shiftl 1 20 <= str_len (s_bytes (px_body r)) →
  ServeHTTP appURL url_ok fuel f r w =
    ServeHTTP appURL url_ok fuel f
      (mkPx (px_ctx r) (px_method r) (px_uri r) (px_header r)
         (mkStream (str_take (Z.to_nat (Z.shiftl 1 20)) (s_bytes (px_body r))) None)) w.
Proof.
  set (n := Z.shiftl 1 20). intros Hlen. assert (0 <= n) as Hn by (vm_compute; discriminate).
  assert (read_limited (px_body r) n = (str_take (Z.to_nat n) (s_bytes (px_body r)), None)) as E1.
  { unfold read_limited. fold (str_len (s_bytes (px_body r))). by rewrite (proj2 (Z.ltb_ge _ _) Hlen). }
  assert (read_limited (mkStream (str_take (Z.to_nat n) (s_bytes (px_body r))) None) n =
    (str_take (Z.to_nat n) (s_bytes (px_body r)), None)) as E2.
  { unfold read_limited. cbn [s_bytes]. unfold str_len in Hlen. clearbody n. rewrite str_take_length by lia.
    rewrite Z2Nat.id, Z.ltb_irrefl by done. by rewrite str_take_take. }
  unfold ServeHTTP. fold n. cbn [px_ctx px_method px_uri px_header px_body]. by rewrite E1, E2.
Qed.
