(* ===== verification/ChaosSim.v ===== *)
(** * ChaosSim: a network for the proxy

    Bodies, a client and an app in one world: it keeps the laws of [ChaosProps],
    and the witnesses of its theorems run on it. *)

From stdpp Require Import base option list strings gmap relations.
From Stdlib Require Import ZArith Lia Ascii QArith.
From S2P Require Import Prelude GoStrings GoPaths Env Messaging Storage StorageProps FileStores RequestJson Http MessagesApi PostgresStore.
From S2P Require Import Gateway ChaosProxy ChaosProps.
Local Open Scope Z_scope.

Record nw := mkNw {
  nw_sim : sim; nw_bodies : nat → string; nw_next : nat; nw_out : string; nw_head : option (Z * header); nw_app : sim * db }.

Definition nw_set_sim (s : sim) (w : nw) : nw :=
  mkNw s (nw_bodies w) (nw_next w) (nw_out w) (nw_head w) (nw_app w).

#[export] Instance nw_runtime : Runtime nw := {
  now w := now (nw_sim w);
  ctx_err c w := ctx_err c (nw_sim w);
  draw n w := let '(z, s) := draw n (nw_sim w) in (z, nw_set_sim s w);
  select_timer c d w := let '(b, s) := select_timer c d (nw_sim w) in (b, nw_set_sim s w);
  emit m w := nw_set_sim (emit m (nw_sim w)) w
}.

#[export] Instance nw_laws : RuntimeLaws nw.
Proof.
  split.
  - intros n w Hn. exact (draw_range n (nw_sim w) Hn).
  - intros c d w. exact (select_done c d (nw_sim w)).
  - intros w. exact (background_alive (nw_sim w)).
  - intros c w e. exact (ctx_err_kind c (nw_sim w) e).
  - intros m w. exact (emit_now m (nw_sim w)).
  - intros m c w. exact (emit_ctx m c (nw_sim w)).
Defined.

Definition set_body (src : nat) (s : string) (b : nat → string) : nat → string :=
  λ n, if decide (n = src) then s else b n.

Section Net.
Variable serve : out_request → sim * db → answer (sim * db).

(** Reads come in pieces of at most three bytes; the end is reported with the
    last piece. *)
#[local] Instance nw_io : ProxyIO nw := {|
  io_Do c q w := let '(st, h, body, a) := serve q (nw_app w) in
    Some (inl (nw_next w, st, h),
          mkNw (nw_sim w) (set_body (nw_next w) body (nw_bodies w)) (S (nw_next w)) (nw_out w) (nw_head w) a);
  io_Read src k w :=
    let n := Z.to_nat (Z.min k 3) in
    let left := str_drop n (nw_bodies w src) in
    Some ((str_take n (nw_bodies w src), if bool_decide (left = "") then Some ErrEOF else None),
          mkNw (nw_sim w) (set_body src left (nw_bodies w)) (nw_next w) (nw_out w) (nw_head w) (nw_app w));
  io_Close src := mret ();
  io_WriteHeader st h w :=
    Some ((), mkNw (nw_sim w) (nw_bodies w) (nw_next w) (nw_out w) (Some (st, h)) (nw_app w));
  io_Write s w :=
    Some ((str_len s, None), mkNw (nw_sim w) (nw_bodies w) (nw_next w) (nw_out w +:+ s) (nw_head w) (nw_app w));
  io_Flusher := true;
  io_Flush := mret ();
  io_Sleep d w := Some ((), nw_set_sim (sim_advance (Z.max 0 d) (nw_sim w)) w)
|}.

Lemma str_take_drop n s : str_take n s +:+ str_drop n s = s.
Proof.
  revert s. induction n as [|n IH]; intros [|x s]; cbn [str_take str_drop]; [done..|].
  change (String x (str_take n s) +:+ str_drop n s) with (String x (str_take n s +:+ str_drop n s)). by rewrite IH.
Qed.

Lemma str_take_len_le n s : (String.length (str_take n s) <= n)%nat.
Proof. revert s. induction n as [|n IH]; intros [|x s]; cbn; [lia..|]. specialize (IH s). lia. Qed.

#[local] Instance nw_lossless : Lossless nw (sim * db) nw_app.
Proof.
  refine {| rest := nw_bodies; output := nw_out; heading := nw_head |}.
  - intros src k w Hk. eexists _, _. split; [done|]. cbn. split_and!; [done..| | | | |].
    + unfold set_body. rewrite decide_True by done. symmetry. apply str_take_drop.
    + intros s Hs. unfold set_body. by rewrite decide_False.
    + pose proof (str_take_len_le (Z.to_nat (Z.min k 3)) (nw_bodies w src)). lia.
    + intros Ht. case_bool_decide as E; [done|]. exfalso. destruct (Z.to_nat (Z.min k 3)) as [|n] eqn:En; [lia|].
      destruct (nw_bodies w src); [done|]. by cbn in Ht.
    + unfold set_body. rewrite decide_True by done. by case_bool_decide.
  - intros s w. by eexists _, _.
  - intros w. eexists _, _. split; [done|]. split_and!; try done; lia.
  - intros d w. by eexists _, _.
  - intros src w. by eexists _, _.
  - done.
Defined.

#[local] Instance nw_timed : Timed nw.
Proof.
  split.
  - intros src k w r w' [= _ <-]. cbn. lia.
  - intros s w r w' [= _ <-]. cbn. lia.
  - intros d w r w' [= _ <-]. cbn. lia.
Defined.

#[local] Instance nw_appnet : AppNet nw (sim * db) serve.
Proof.
  split.
  - intros c q w. unfold wp. cbn. destruct (serve q (nw_app w)) as [[[st h] body] a]. eexists _, _. split; [done|].
    exists (nw_next w). cbn. unfold set_body. by rewrite decide_True.
  - intros st h w. by eexists _, _.
Defined.

End Net.

(** ** Witnesses *)

Definition idle_app (q : out_request) (a : sim * db) : answer (sim * db) := (200, ∅, "", a).

Definition nw0 (body : string) : nw := mkNw sim0 (λ _, body) 1 "" None (sim0, db_empty).

Lemma copyThrottled_exact_witness :
  ∃ w1 w2, @copyThrottled nw (nw_io idle_app) 6 0 20 (nw0 "hello") = Some (Some 5, w1) ∧
    @copy_loop nw (nw_io idle_app) 6 (@io_Write nw (nw_io idle_app)) 0 0 (nw0 "hello") = Some (Some 5, w2) ∧
    nw_out w1 = "hello".
Proof.
  destruct (copyThrottled_exact (H1 := nw_lossless idle_app) 6 0 20 (nw0 "hello")) as (w1 & w2 & E1 & E2 & O1 & _).
  - cbn. lia.
  - vm_compute. discriminate.
  - exists w1, w2. split; [exact E1|]. split; [exact E2|exact O1].
Defined.

Lemma controls_sane_witness :
  ∃ reps f', control_all [CallSet (Some (mkFaults 5 true (1 # 2) 0)); CallSet (Some (mkFaults (-1) true 0 0)); CallGet]
      (sim0, no_faults) = Some (reps, (sim0, f')) ∧ valid_faults f'.
Proof.
  destruct (controls_sane [CallSet (Some (mkFaults 5 true (1 # 2) 0)); CallSet (Some (mkFaults (-1) true 0 0)); CallGet]
    sim0 no_faults) as [(reps & f' & E & Hf & _) _].
  - split; [discriminate|]. split; [discriminate|]. split; discriminate.
  - exists reps, f'. split; [exact E|exact Hf].
Defined.

Section Post.
#[local] Existing Instance utc_codec.
#[local] Instance px_audit : AuditLog (sim * db) := {|
  al_Record c ev text := mret (); al_Last c n := mret (inl []) |}.
#[local] Instance px_cache : MessagesCache (sim * db) := {|
  mc_Get c key := mret ("", false); mc_Set c key v := mret (); mc_Delete c key := mret () |}.

Definition ex_app : out_request → sim * db → answer (sim * db) :=
  app_serve ex_targets (mkMsgAPI false false false) (λ rep, "done").

Definition ex_post : px_request :=
  mkPx Background "POST" "/messages" {["Idempotency-Key" := ["k1"]]} (mkStream (text_body "hi") None).

Definition repeating : faults := mkFaults 0 true 0 100.

Lemma ex_app_small q : small (serve := ex_app) 20 q.
Proof.
  intros s. unfold ex_app, app_serve. destruct (createMessage _ _ _ s) as [[rep s']|]; cbn; split; lia || (vm_compute; discriminate).
Qed.


(** The client sees one answer. *)
Example repeated_post_answer :
  match @ServeHTTP nw nw_runtime (nw_io ex_app) "http://app:8080" (λ _, true) 20 repeating ex_post (nw0 "") with
  | Some (b, w') => b = true ∧ nw_out w' = "done" ∧ size (db_messages (nw_app w').2) = 1%nat
  | None => False
  end.
Proof. vm_compute. by split_and!. Qed.

End Post.

Lemma proxy_truncates_witness :
  ∃ r : px_request, @ServeHTTP nw nw_runtime (nw_io idle_app) "" (λ _, true) 3 no_faults r (nw0 "") =
    @ServeHTTP nw nw_runtime (nw_io idle_app) "" (λ _, true) 3 no_faults
      (mkPx (px_ctx r) (px_method r) (px_uri r) (px_header r)
         (mkStream (str_take (Z.to_nat (Z.shiftl 1 20)) (s_bytes (px_body r))) None)) (nw0 "").
Proof.
  exists (mkPx Background "PUT" "/files" ∅ (mkStream (String.rev (Nat.iter 1048577 (String "x"%char) "")) None)).
  apply (proxy_truncates (W := nw)). unfold str_len. cbn [px_body s_bytes].
  vm_compute. discriminate.
Defined.

Lemma throttle_bounds_rate_witness :
  ∃ n w', @copyThrottled nw (nw_io idle_app) 3 0 20 (nw0 "hello") = Some (n, w') ∧
    (str_len (nw_out w') - 0) * Second <= 20 * (now w' - 0).
Proof.
  destruct (throttle_bounds_rate (H1 := nw_lossless idle_app) (Timed0 := nw_timed idle_app) 3 0 20 (nw0 "hello")) as (n & w' & E & Hr).
  exists n, w'. split; [exact E|exact Hr].
Defined.
