(* ===== verification/Pipeline.v ===== *)
(** * Pipeline: from the request to the stores

    The whole path of a message: [Create] writes it with its outbox rows, the
    outbox workers publish the rows to the brokers, the consumers save and index
    the events and acknowledge them.  The state is that of PostgreSQL, of the
    brokers' queues, of Cassandra and of Elasticsearch; a step is one operation of
    one of any number of clients, workers and consumers, with its faults.  The
    guards are what the loops of [OutboxWorker] and [Consumers] establish before
    the operation; [PipelineCode] proves that they do. *)

From stdpp Require Import base option list strings gmap relations.
From Stdlib Require Import ZArith Lia.
From S2P Require Import Prelude GoStrings GoPaths Messaging Storage StorageProps OutboxWorker PostgresWorker FilesApi SearchJson SearchClient Consumers Cassandra.
Local Open Scope Z_scope.

(** ** The state *)

(** The queues hold payloads by message number, with the broker they are in. *)
Record pipe := mkPipe {
  pi_db : db;
  pi_queue : gmap nat (string * string);
  pi_acked : gset nat;
  pi_tables : tables;
  pi_index : gmap string es_index
}.

Definition pi_set_db (d : db) (p : pipe) : pipe := mkPipe d (pi_queue p) (pi_acked p) (pi_tables p) (pi_index p).
Definition pi_enqueue (n : nat) (broker payload : string) (p : pipe) : pipe :=
  mkPipe (pi_db p) (<[n := (broker, payload)]> (pi_queue p)) (pi_acked p) (pi_tables p) (pi_index p).
Definition pi_ack (n : nat) (p : pipe) : pipe :=
  mkPipe (pi_db p) (pi_queue p) ({[n]} ∪ pi_acked p) (pi_tables p) (pi_index p).
Definition pi_save (ev : MessageCreated) (broker : string) (p : pipe) : pipe :=
  mkPipe (pi_db p) (pi_queue p) (pi_acked p) (save_rows ev broker (pi_tables p)) (pi_index p).
Definition pi_put (n id body : string) (p : pipe) : pipe :=
  mkPipe (pi_db p) (pi_queue p) (pi_acked p) (pi_tables p) (es_put n id body (pi_index p)).

(** What the consumer has: a session to Cassandra, an index. *)
Record stores := mkStores { st_events : bool; st_index : option string }.

Section Pipeline.
Context `{EventCodec}.
Variables (targets : list string) (cfg : stores).

(** The event of a stored message. *)
Definition message_event (p : pipe) (ev : MessageCreated) : Prop :=
  ∃ r, db_messages (pi_db p) !! ev_ID ev = Some r ∧ ev = CreatedEvent (scan_message r true).

(** The broker has taken the event. *)
Definition published (broker : string) (ev : MessageCreated) (p : pipe) : Prop :=
  ∃ n payload, pi_queue p !! n = Some (broker, payload) ∧ unmarshal payload = Some ev.

Definition in_tables (ev : MessageCreated) (p : pipe) : Prop :=
  ∃ producer, tb_by_id (pi_tables p) !! ev_ID ev = Some ((ev_Text ev, ev_Checksum ev, producer), to_ms (ev_CreatedAt ev)) ∧
    tb_events (pi_tables p) !! key_of ev = Some (ev_Text ev, ev_Checksum ev, producer).

Definition in_index (index : string) (ev : MessageCreated) (p : pipe) : Prop :=
  ∃ broker, docs_in index (pi_index p) !! FormatInt (ev_ID ev) = doc_marshal (document_of ev broker) ∧
    is_Some (doc_marshal (document_of ev broker)).

(** The consumer is done with the event. *)
Definition saved (ev : MessageCreated) (p : pipe) : Prop := st_events cfg = true → in_tables ev p.
Definition stored (ev : MessageCreated) (p : pipe) : Prop :=
  saved ev p ∧ ∀ index, st_index cfg = Some index → in_index index ev p.

(** ** Steps *)

Inductive pipe_step : pipe → pipe → Prop :=
(** a request creates a message *)
| ps_create env text key res p d' :
    Create env targets text key (pi_db p) = (res, d') → pipe_step p (pi_set_db d' p)
(** a worker leases a row *)
| ps_claim env target lease token res p d' :
    Claim env target lease token (pi_db p) = (res, d') → pipe_step p (pi_set_db d' p)
(** a worker publishes the event of a row it was given *)
| ps_publish dl payload n p :
    carries dl (pi_db p) → marshal (d_Event dl) = Some payload → pi_queue p !! n = None →
    pipe_step p (pi_enqueue n (d_Target dl) payload p)
(** it completes the row after the broker has taken the event *)
| ps_complete env dl res p d' :
    carries dl (pi_db p) → published (d_Target dl) (d_Event dl) p →
    Complete env dl (pi_db p) = (res, d') → pipe_step p (pi_set_db d' p)
(** or postpones it *)
| ps_retry env dl delay res p d' :
    Retry env dl delay (pi_db p) = (res, d') → pipe_step p (pi_set_db d' p)
(** a consumer saves the event of a message of its broker *)
| ps_save n broker payload ev p :
    pi_queue p !! n = Some (broker, payload) → unmarshal payload = Some ev → pipe_step p (pi_save ev broker p)
(** then indexes it *)
| ps_index n broker payload ev index body p :
    pi_queue p !! n = Some (broker, payload) → unmarshal payload = Some ev → saved ev p →
    st_index cfg = Some index → doc_marshal (document_of ev broker) = Some body →
    pipe_step p (pi_put index (FormatInt (ev_ID ev)) body p)
(** and acknowledges the message when both stores have it *)
| ps_ack n broker payload ev p :
    pi_queue p !! n = Some (broker, payload) → unmarshal payload = Some ev → stored ev p → pipe_step p (pi_ack n p).

(** Where the system starts: empty, with the index created. *)
Definition pipe0 (p : pipe) : Prop :=
  pi_db p = db_empty ∧ pi_queue p = ∅ ∧ pi_acked p = ∅ ∧ pi_tables p = tables0 ∧
  ∀ index, st_index cfg = Some index → is_Some (pi_index p !! index) ∧ docs_in index (pi_index p) = ∅.

Definition reachable (p : pipe) : Prop := ∃ p0, pipe0 p0 ∧ rtc pipe_step p0 p.

(** ** The invariant *)

Record pipe_inv (p : pipe) : Prop := mkInv {
  pv_db : db_inv (pi_db p) ∧ db_seq (pi_db p) <= max_int64;
  pv_rows : ∀ id r t, db_messages (pi_db p) !! id = Some r → t ∈ targets → is_Some (db_outbox (pi_db p) !! (id, t));
  pv_queue : ∀ n broker payload, pi_queue p !! n = Some (broker, payload) →
    ∃ ev, unmarshal payload = Some ev ∧ message_event p ev;
  pv_delivered : ∀ k r, db_outbox (pi_db p) !! k = Some r → is_Some (ob_delivered r) →
    ∃ ev, message_event p ev ∧ ev_ID ev = k.1 ∧ published k.2 ev p;
  pv_acked : ∀ n, n ∈ pi_acked p → ∃ broker payload ev,
    pi_queue p !! n = Some (broker, payload) ∧ unmarshal payload = Some ev ∧ stored ev p;
  pv_by_id : ∀ id v, tb_by_id (pi_tables p) !! id = Some v → ∃ ev, message_event p ev ∧ ev_ID ev = id ∧ in_tables ev p;
  pv_events : ∀ k v, tb_events (pi_tables p) !! k = Some v → ∃ ev, message_event p ev ∧ key_of ev = k ∧ in_tables ev p;
  pv_index : ∀ index, st_index cfg = Some index → is_Some (pi_index p !! index) ∧
    ∀ key body, docs_in index (pi_index p) !! key = Some body →
      ∃ ev, message_event p ev ∧ FormatInt (ev_ID ev) = key ∧ in_index index ev p
}.

(** An identifier stands for one event. *)
Lemma message_event_inj p ev ev' : message_event p ev → message_event p ev' → ev_ID ev = ev_ID ev' → ev = ev'.
Proof. intros (r & Hr & ->) (r' & Hr' & ->) E. rewrite E in Hr. congruence. Qed.

Lemma message_event_id p ev : pipe_inv p → message_event p ev → 0 < ev_ID ev <= max_int64.
Proof.
  intros Hinv (r & Hr & _). destruct (pv_db _ Hinv) as [(_ & Hm & _) Hseq]. destruct (Hm _ _ Hr) as (_ & ? & _). lia.
Qed.

Lemma message_event_db p p' ev :
  db_messages (pi_db p) ⊆ db_messages (pi_db p') → message_event p ev → message_event p' ev.
Proof. intros Hsub (r & Hr & E). exists r. split; [|done]. by eapply lookup_weaken. Qed.

Lemma Create_seq env text key d res d' :
  Create env targets text key d = (res, d') → db_seq d <= max_int64 → db_seq d' <= max_int64.
Proof.
  intros E Hd. unfold Create in E. destruct (ValidateText text); [by simplify_eq|].
  destruct (tx_stmt env 0); [by simplify_eq|]. destruct (tx_stmt env 1); [by simplify_eq|].
  unfold insert_message in E. destruct (negb _); [by simplify_eq|].
  destruct (max_int64 <? db_seq d + 1) eqn:Hmax; [by simplify_eq|].
  apply Z.ltb_ge in Hmax. destruct (nullif_empty key ≫= _).
  - destruct (tx_stmt env 2); [by simplify_eq|]. destruct (find_key _ _); [|by simplify_eq].
    destruct (negb _); [by simplify_eq|]. unfold commit in E. destruct (took_effect _); by simplify_eq.
  - destruct (bool_decide _); [by simplify_eq|]. destruct (marshal _); [|by simplify_eq].
    destruct (insert_targets _ _ _ _ _ _) as [err d2] eqn:Ei. pose proof (insert_targets_seq _ _ _ _ _ _ _ _ Ei) as Hs.
    cbn in Hs. destruct err; [simplify_eq; cbn; lia|]. unfold commit in E. destruct (took_effect _); simplify_eq; cbn; lia.
Qed.

(** ** Every step keeps the invariant *)

Definition rows_ok (d : db) : Prop :=
  ∀ id r t, db_messages d !! id = Some r → t ∈ targets → is_Some (db_outbox d !! (id, t)).

Lemma rows_kept d d' : db_inv d → db_step targets d d' → rows_ok d → rows_ok d'.
Proof.
  intros Hinv Hs Hrows id r t Hr Ht.
  assert (∀ r0, db_messages d !! id = Some r0 → is_Some (db_outbox d' !! (id, t))) as Hold.
  { intros r0 Hr0. destruct (Hrows id r0 t Hr0 Ht) as [o Ho].
    destruct (db_step_evolves targets _ _ _ _ Hinv Hs Ho) as (o' & -> & _). by eexists. }
  destruct Hs as [env text key res d1 d2 Hc|env target lease token res d1 d2 Hc
    |env dl res d1 d2 Hc|env dl delay res d1 d2 Hc|d1 Hs].
  - apply Create_effect in Hc as [(Hm & _)|(_ & x & [_ _ _ _ _ _ _ (payload & _ & _ & ->)] & _)]; [rewrite Hm in Hr; by eapply Hold| |apply Hinv].
    cbn in Hr. apply lookup_insert_Some in Hr as [[<- _]|[_ Hr]]; [|by eapply Hold]. cbn. rewrite add_targets_lookup.
    destruct (db_outbox d1 !! _); [by eexists|]. rewrite bool_decide_true by done. by eexists.
  - apply Claim_effect in Hc as [[-> _]|(x & _ & _ & -> & _)]; by eapply Hold.
  - apply update_leased_effect in Hc as [[-> _]|(x & _ & _ & _ & ->)]; by eapply Hold.
  - apply update_leased_effect in Hc as [[-> _]|(x & _ & _ & _ & ->)]; by eapply Hold.
  - by eapply Hold.
Qed.

(** Changing only PostgreSQL. *)
Lemma inv_set_db p d' :
  pipe_inv p → db_step targets (pi_db p) d' → db_seq d' <= max_int64 →
  (∀ k r', db_outbox d' !! k = Some r' → is_Some (ob_delivered r') →
     (∃ r, db_outbox (pi_db p) !! k = Some r ∧ is_Some (ob_delivered r)) ∨
     ∃ ev, message_event p ev ∧ ev_ID ev = k.1 ∧ published k.2 ev p) →
  pipe_inv (pi_set_db d' p).
Proof.
  intros Hinv Hs Hseq Hdel. pose proof (pv_db _ Hinv) as [Hdb _].
  assert (∀ ev, message_event p ev → message_event (pi_set_db d' p) ev) as Hev
    by (intros ev; apply message_event_db; by eapply db_step_messages).
  split; cbn.
  - split; [by eapply db_step_inv|done].
  - eapply rows_kept; [done..|]. exact (pv_rows _ Hinv).
  - intros n broker payload Hn. destruct (pv_queue _ Hinv _ _ _ Hn) as (ev & ? & ?). eauto.
  - intros k r' Hr' Hd. destruct (Hdel k r' Hr' Hd) as [(r & Hr & Hrd)|(ev & ? & ? & ?)]; [|eauto].
    destruct (pv_delivered _ Hinv k r Hr Hrd) as (ev & ? & ? & ?). eauto.
  - exact (pv_acked _ Hinv).
  - intros id v Hv. destruct (pv_by_id _ Hinv id v Hv) as (ev & ? & ? & ?). eauto.
  - intros k v Hv. destruct (pv_events _ Hinv k v Hv) as (ev & ? & ? & ?). eauto.
  - intros index Hi. destruct (pv_index _ Hinv index Hi) as [? Hdocs]. split; [done|]. intros key body Hb.
    destruct (Hdocs key body Hb) as (ev & ? & ? & ?). eauto.
Qed.

Lemma inv_marks p d' :
  pipe_inv p → db_step targets (pi_db p) d' → db_seq d' <= max_int64 → marks_kept (pi_db p) d' → pipe_inv (pi_set_db d' p).
Proof. intros Hinv Hs Hseq Hm. apply inv_set_db; [done..|]. intros k r' Hr' Hd. left. destruct (Hm k r' Hr' Hd) as (r & ? & ? & _). eauto. Qed.

(** The event of a delivery is that of its message. *)
Lemma carries_event p dl :
  pipe_inv p → carries dl (pi_db p) → message_event p (d_Event dl) ∧ ev_ID (d_Event dl) = d_MessageID dl.
Proof.
  intros Hinv Hc. pose proof (pv_db _ Hinv) as [Hdb _]. unfold carries in Hc. apply bind_Some in Hc as (r & Hr & Hu).
  destruct (outbox_event _ _ _ Hdb Hr) as (x & Hx & Hux). cbn in Hx. rewrite Hu in Hux. injection Hux as ->.
  pose proof Hdb as (_ & Hm & _). destruct (Hm _ _ Hx) as (Hid & _). cbn. rewrite Hid. split; [|done].
  exists x. cbn. by rewrite Hid.
Qed.

Lemma published_enqueue b ev n broker payload p :
  pi_queue p !! n = None → published b ev p → published b ev (pi_enqueue n broker payload p).
Proof.
  intros Hn (m & pl & Hm & Hu). exists m, pl. cbn. rewrite lookup_insert_ne; [done|]. intros ->. congruence.
Qed.

Lemma inv_enqueue n dl payload p :
  pipe_inv p → carries dl (pi_db p) → marshal (d_Event dl) = Some payload → pi_queue p !! n = None →
  pipe_inv (pi_enqueue n (d_Target dl) payload p).
Proof.
  intros Hinv Hc Hm Hn. destruct (carries_event p dl Hinv Hc) as [Hev _]. split; cbn.
  - exact (pv_db _ Hinv).
  - exact (pv_rows _ Hinv).
  - intros m broker pl [[<- [= <- <-]]|[_ Hq]]%lookup_insert_Some; [|exact (pv_queue _ Hinv _ _ _ Hq)].
    exists (d_Event dl). split; [|done]. apply unmarshal_marshal; [|done]. by apply (carries_storable _ (pi_db p)), Hc; apply (pv_db _ Hinv).
  - intros k r Hr Hd. destruct (pv_delivered _ Hinv k r Hr Hd) as (ev & ? & ? & ?). exists ev. split_and!; [done..|].
    by apply published_enqueue.
  - intros m Hmk. destruct (pv_acked _ Hinv m Hmk) as (b & pl & ev & Hq & ? & ?). exists b, pl, ev.
    rewrite lookup_insert_ne by (intros ->; congruence). done.
  - exact (pv_by_id _ Hinv).
  - exact (pv_events _ Hinv).
  - exact (pv_index _ Hinv).
Qed.

(** Saving an event of a message leaves the other events saved. *)
Lemma in_tables_save p ev ev' broker :
  message_event p ev → message_event p ev' → in_tables ev p → in_tables ev (pi_save ev' broker p).
Proof.
  intros Hev Hev' (producer & H1 & H2). unfold in_tables. cbn. destruct (decide (ev_ID ev = ev_ID ev')) as [E|E].
  - pose proof (message_event_inj _ _ _ Hev Hev' E) as ->. exists broker. by rewrite !lookup_insert_eq.
  - exists producer. rewrite !lookup_insert_ne; [done| |done]. unfold key_of. congruence.
Qed.

Lemma in_tables_saved p ev broker : in_tables ev (pi_save ev broker p).
Proof. exists broker. cbn. by rewrite !lookup_insert_eq. Qed.

Lemma inv_save p n broker payload ev :
  pipe_inv p → pi_queue p !! n = Some (broker, payload) → unmarshal payload = Some ev → pipe_inv (pi_save ev broker p).
Proof.
  intros Hinv Hq Hu. destruct (pv_queue _ Hinv _ _ _ Hq) as (ev' & Hu' & Hev). rewrite Hu in Hu'. injection Hu' as <-.
  split; cbn.
  - exact (pv_db _ Hinv).
  - exact (pv_rows _ Hinv).
  - exact (pv_queue _ Hinv).
  - exact (pv_delivered _ Hinv).
  - intros m Hm. destruct (pv_acked _ Hinv m Hm) as (b & pl & ev' & Hq' & Hu' & [Hs Hi]). exists b, pl, ev'.
    split_and!; [done..|]. split; [|exact Hi]. intros Hc. apply in_tables_save; [|done|by apply Hs].
    destruct (pv_queue _ Hinv _ _ _ Hq') as (ev2 & Hu2 & Hev2). congruence.
  - intros id v Hv. apply lookup_insert_Some in Hv as [[<- _]|[_ Hv]].
    + exists ev. split_and!; [exact Hev|done|apply in_tables_saved].
    + destruct (pv_by_id _ Hinv id v Hv) as (ev' & ? & ? & ?). exists ev'. split_and!; [done..|]. by apply in_tables_save.
  - intros k v Hv. apply lookup_insert_Some in Hv as [[<- _]|[_ Hv]].
    + exists ev. split_and!; [exact Hev|done|apply in_tables_saved].
    + destruct (pv_events _ Hinv k v Hv) as (ev' & ? & ? & ?). exists ev'. split_and!; [done..|]. by apply in_tables_save.
  - exact (pv_index _ Hinv).
Qed.

Lemma in_index_put p index ev ev' broker body :
  pipe_inv p → st_index cfg = Some index → message_event p ev → message_event p ev' →
  doc_marshal (document_of ev' broker) = Some body → in_index index ev p ∨ ev = ev' →
  in_index index ev (pi_put index (FormatInt (ev_ID ev')) body p).
Proof.
  intros Hinv Hi Hev Hev' Hb Hin. unfold in_index. cbn. destruct (pv_index _ Hinv index Hi) as [Hex _].
  rewrite docs_in_put by done. case_decide as Hk.
  - assert (ev = ev') as ->.
    { apply (message_event_inj p); [done..|]. pose proof (message_event_id _ _ Hinv Hev). pose proof (message_event_id _ _ Hinv Hev').
      apply FormatInt_inj; [unfold in_int64, min_int64; lia..|done]. }
    exists broker. by rewrite Hb.
  - destruct Hin as [(b & ? & ?)| ->]; [by exists b|done].
Qed.

Lemma inv_put p n broker payload ev index body :
  pipe_inv p → pi_queue p !! n = Some (broker, payload) → unmarshal payload = Some ev →
  st_index cfg = Some index → doc_marshal (document_of ev broker) = Some body →
  pipe_inv (pi_put index (FormatInt (ev_ID ev)) body p).
Proof.
  intros Hinv Hq Hu Hi Hb. destruct (pv_queue _ Hinv _ _ _ Hq) as (ev' & Hu' & Hev). rewrite Hu in Hu'. injection Hu' as <-.
  split; cbn.
  - exact (pv_db _ Hinv).
  - exact (pv_rows _ Hinv).
  - exact (pv_queue _ Hinv).
  - exact (pv_delivered _ Hinv).
  - intros m Hm. destruct (pv_acked _ Hinv m Hm) as (b & pl & ev' & Hq' & Hu' & [Hs Hi']). exists b, pl, ev'.
    split_and!; [done..|]. split; [exact Hs|]. intros index' Hindex. rewrite Hi in Hindex. injection Hindex as <-.
    eapply in_index_put; [done..| |done|done|left; by apply Hi'].
    destruct (pv_queue _ Hinv _ _ _ Hq') as (ev2 & Hu2 & Hev2). congruence.
  - exact (pv_by_id _ Hinv).
  - exact (pv_events _ Hinv).
  - intros index' Hindex. rewrite Hi in Hindex. injection Hindex as <-.
    destruct (pv_index _ Hinv index Hi) as [Hex Hdocs]. split; [by apply es_put_exists|].
    intros key b Hk. rewrite docs_in_put in Hk by done. case_decide as Ek.
    + exists ev. split_and!; [exact Hev|done|]. by eapply in_index_put; [..|right].
    + destruct (Hdocs key b Hk) as (ev' & Hev' & <- & Hin). exists ev'. split_and!; [exact Hev'|done|].
      by eapply in_index_put; [..|left].
Qed.

Lemma inv_ack p n broker payload ev :
  pipe_inv p → pi_queue p !! n = Some (broker, payload) → unmarshal payload = Some ev → stored ev p → pipe_inv (pi_ack n p).
Proof.
  intros Hinv Hq Hu Hs. split; cbn.
  - exact (pv_db _ Hinv).
  - exact (pv_rows _ Hinv).
  - exact (pv_queue _ Hinv).
  - exact (pv_delivered _ Hinv).
  - intros m [->%elem_of_singleton|Hm]%elem_of_union; [by exists broker, payload, ev|exact (pv_acked _ Hinv m Hm)].
  - exact (pv_by_id _ Hinv).
  - exact (pv_events _ Hinv).
  - exact (pv_index _ Hinv).
Qed.

Lemma pipe_step_inv p p' : pipe_inv p → pipe_step p p' → pipe_inv p'.
Proof.
  intros Hinv Hs. revert Hinv.
  destruct Hs as [env text key res p d' Hc|env target lease token res p d' Hc|dl payload n p Hc Hm Hn
    |env dl res p d' Hca Hpub Hc|env dl delay res p d' Hc|n broker payload ev p Hq Hu
    |n broker payload ev index body p Hq Hu Hsv Hi Hb|n broker payload ev p Hq Hu Hst]; intros Hinv;
    pose proof (pv_db _ Hinv) as [Hdb Hseq].
  - apply inv_marks; [done|by eapply st_create|by eapply Create_seq|by eapply create_marks].
  - apply inv_marks; [done|by eapply st_claim| |by eapply claim_marks].
    apply Claim_effect in Hc as [[-> _]|(x & _ & _ & -> & _)]; done.
  - by apply inv_enqueue.
  - destruct (carries_event p dl Hinv Hca) as [Hev Hid].
    assert (db_seq d' = db_seq (pi_db p)) as Hs' by (apply update_leased_effect in Hc as [[-> _]|(x & _ & _ & _ & ->)]; done).
    apply inv_set_db; [done|by eapply st_complete|lia|]. intros k r' Hr' Hd.
    apply update_leased_effect in Hc as [[-> _]|(x & Hl & _ & _ & ->)]; [eauto|]. cbn in Hr'.
    apply lookup_insert_Some in Hr' as [[<- <-]|[_ Hr']]; [right|eauto]. by exists (d_Event dl).
  - apply inv_marks; [done|by eapply st_retry| |by eapply retry_marks].
    apply update_leased_effect in Hc as [[-> _]|(x & _ & _ & _ & ->)]; done.
  - by eapply inv_save.
  - by eapply inv_put.
  - by eapply inv_ack.
Qed.

Lemma pipe0_inv p : pipe0 p → pipe_inv p.
Proof.
  intros (Hdb & Hq & Ha & Ht & Hi). destruct p as [d q a t i]. cbn in *. subst. split; cbn.
  - split; [apply db_empty_inv|done].
  - by intros id r t ?%lookup_empty_Some.
  - by intros n b pl ?%lookup_empty_Some.
  - by intros k r ?%lookup_empty_Some.
  - set_solver.
  - by intros id v ?%lookup_empty_Some.
  - by intros k v ?%lookup_empty_Some.
  - intros index Hindex. destruct (Hi index Hindex) as [Hex Hdocs]. split; [done|]. rewrite Hdocs.
    by intros key body ?%lookup_empty_Some.
Qed.

Lemma pipe_steps_inv p p' : pipe_inv p → rtc pipe_step p p' → pipe_inv p'.
Proof. intros Hinv Hs. induction Hs as [|p1 p2 p3 H12 H23 IH]; [done|]. apply IH. by eapply pipe_step_inv. Qed.

Lemma reachable_inv p : reachable p → pipe_inv p.
Proof. intros (p0 & Hp0 & Hs). eapply pipe_steps_inv; [by apply pipe0_inv|done]. Qed.

(** What no step undoes: published messages, the events of rows handed out, and
    stored events. *)
Record kept (p p' : pipe) : Prop := mkKept {
  kp_queue : pi_queue p ⊆ pi_queue p';
  kp_carries : ∀ dl, carries dl (pi_db p) → carries dl (pi_db p');
  kp_message : ∀ ev, message_event p ev → message_event p' ev;
  kp_saved : ∀ ev, message_event p ev → saved ev p → saved ev p';
  kp_stored : ∀ ev, message_event p ev → stored ev p → stored ev p'
}.

#[export] Instance kept_preorder : PreOrder kept.
Proof.
  split; [by split|]. intros p1 p2 p3 [Q1 C1 M1 S1 T1] [Q2 C2 M2 S2 T2]. split; [by etransitivity|auto..].
Qed.

Lemma kept_db p d' : pipe_inv p → db_step targets (pi_db p) d' → kept p (pi_set_db d' p).
Proof.
  intros Hinv Hs. pose proof (pv_db _ Hinv) as [Hdb _]. split; cbn; [done| | |done..].
  - intros dl. unfold carries. destruct (db_outbox (pi_db p) !! _) as [r|] eqn:E; [|done]. cbn.
    destruct (db_step_evolves targets _ _ _ _ Hdb Hs E) as (r' & -> & _ & Hp & _). cbn. by rewrite Hp.
  - intros ev. apply message_event_db. by eapply db_step_messages.
Qed.

Lemma pipe_step_kept p p' : pipe_inv p → pipe_step p p' → kept p p'.
Proof.
  intros Hinv Hs. revert Hinv.
  destruct Hs as [env text key res p d' Hc|env target lease token res p d' Hc|dl payload n p Hc Hm Hn
    |env dl res p d' Hca Hpub Hc|env dl delay res p d' Hc|n broker payload ev p Hq Hu
    |n broker payload ev index body p Hq Hu Hsv Hi Hb|n broker payload ev p Hq Hu Hst]; intros Hinv.
  - apply kept_db; [done|by eapply st_create].
  - apply kept_db; [done|by eapply st_claim].
  - split; try done. by apply insert_subseteq.
  - apply kept_db; [done|by eapply st_complete].
  - apply kept_db; [done|by eapply st_retry].
  - destruct (pv_queue _ Hinv _ _ _ Hq) as (ev' & Hu' & Hev). rewrite Hu in Hu'. injection Hu' as <-.
    assert (∀ ev', message_event p ev' → saved ev' p → saved ev' (pi_save ev broker p)) as Hsv
      by (intros ev' Hev' Hs' Hc; by apply in_tables_save; [..|apply Hs']).
    split; try done. intros ev' Hev' [Hs' Hi']. split; [by apply Hsv|exact Hi'].
  - destruct (pv_queue _ Hinv _ _ _ Hq) as (ev' & Hu' & Hev). rewrite Hu in Hu'. injection Hu' as <-.
    split; try done. intros ev' Hev' [Hs' Hi']. split; [exact Hs'|]. intros index' Hindex.
    rewrite Hi in Hindex. injection Hindex as <-. eapply in_index_put; [done..|]. left. by apply Hi'.
  - by split.
Qed.

Lemma pipe_steps_kept p p' : pipe_inv p → rtc pipe_step p p' → kept p p'.
Proof.
  intros Hinv Hs. induction Hs as [|p1 p2 p3 H12 H23 IH]; [done|].
  etransitivity; [by eapply pipe_step_kept|]. apply IH. by eapply pipe_step_inv.
Qed.

Lemma kept_published p p' t ev : kept p p' → published t ev p → published t ev p'.
Proof. intros Hk (n & payload & Hq & Hu). exists n, payload. split; [|done]. by eapply lookup_weaken, kp_queue. Qed.

Lemma reachable_step p p' : reachable p → rtc pipe_step p p' → reachable p'.
Proof. intros (p0 & Hp0 & Hs) Hs'. exists p0. split; [done|]. by etransitivity. Qed.

End Pipeline.
