(* ===== verification/PipelineProps.v ===== *)
(** * PipelineProps: nothing is invented, nothing is lost

    The guarantees of the pipeline as a whole, over all interleavings of clients,
    workers and consumers and all faults: what is in the queues and stores comes
    from a stored message, a message is always in the outbox, in a queue or in the
    stores, the work left can always be finished, and the pipeline refines a
    specification with three kinds of steps. *)

From stdpp Require Import base option list strings gmap relations.
From Stdlib Require Import ZArith Lia.
From S2P Require Import Prelude GoStrings GoPaths Messaging Storage StorageProps OutboxWorker PostgresWorker FilesApi SearchJson SearchClient Consumers Cassandra.
From S2P Require Import SearchSim Pipeline.
Local Open Scope Z_scope.

(** ** Soundness and completeness of the stores *)

(** The event of a row. *)
Definition row_event (r : msg_row) : MessageCreated := CreatedEvent (scan_message r true).

Section Props.
Context `{EventCodec}.
Variables (targets : list string) (cfg : stores).

Lemma message_event_row p ev : message_event p ev ↔ ∃ r, db_messages (pi_db p) !! ev_ID ev = Some r ∧ ev = row_event r.
Proof. done. Qed.

Lemma row_event_id p id r : pipe_inv targets cfg p → db_messages (pi_db p) !! id = Some r → ev_ID (row_event r) = id.
Proof. intros Hinv Hr. destruct (pv_db _ _ _ Hinv) as [(_ & Hm & _) _]. by destruct (Hm _ _ Hr) as (Hid & _). Qed.

Lemma row_message_event p id r :
  pipe_inv targets cfg p → db_messages (pi_db p) !! id = Some r → message_event p (row_event r).
Proof. intros Hinv Hr. exists r. by rewrite (row_event_id p id r). Qed.

(** C5: Nothing is invented.  In every reachable state, every payload in a queue is
    the event of a stored message, every row of the two Cassandra tables holds the
    text and checksum of a stored message under its identifier, day and time, and
    every document of the index is the encoding of a stored message's event under
    its identifier; and the checksum of a stored message is that of its text. *)
Theorem pipeline_invents_nothing (p : pipe) :
  reachable targets cfg p →
  (∀ n broker payload, pi_queue p !! n = Some (broker, payload) →
     ∃ id r, db_messages (pi_db p) !! id = Some r ∧ unmarshal payload = Some (row_event r)) ∧
  (∀ id v, tb_by_id (pi_tables p) !! id = Some v → ∃ r producer, db_messages (pi_db p) !! id = Some r ∧
     v = ((mr_text r, mr_hash r, producer), to_ms (mr_created r))) ∧
  (∀ k v, tb_events (pi_tables p) !! k = Some v → ∃ r producer, db_messages (pi_db p) !! k.2 = Some r ∧
     k = key_of (row_event r) ∧ v = (mr_text r, mr_hash r, producer)) ∧
  (∀ index key body, st_index cfg = Some index → docs_in index (pi_index p) !! key = Some body →
     ∃ id r broker, db_messages (pi_db p) !! id = Some r ∧ key = FormatInt id ∧
       doc_marshal (document_of (row_event r) broker) = Some body) ∧
  (∀ id r, db_messages (pi_db p) !! id = Some r → mr_id r = id ∧ mr_hash r = Checksum (mr_text r)).
Proof.
  intros Hinv%reachable_inv. split_and!.
  - intros n broker payload Hq. destruct (pv_queue _ _ _ Hinv _ _ _ Hq) as (ev & Hu & (r & Hr & ->)). eauto.
  - intros id v Hv. destruct (pv_by_id _ _ _ Hinv _ _ Hv) as (ev & (r & Hr & ->) & <- & (producer & Ht & _)).
    exists r, producer. split; [done|]. rewrite Hv in Ht. by injection Ht as ->.
  - intros k v Hv. destruct (pv_events _ _ _ Hinv _ _ Hv) as (ev & (r & Hr & ->) & <- & (producer & _ & Ht)).
    exists r, producer. split; [done|]. rewrite Hv in Ht. by injection Ht as ->.
  - intros index key body Hi Hb. destruct (pv_index _ _ _ Hinv index Hi) as [_ Hdocs].
    destruct (Hdocs key body Hb) as (ev & (r & Hr & ->) & <- & (broker & Hd & _)). eexists _, r, broker.
    split_and!; [exact Hr|done|]. by transitivity (docs_in index (pi_index p) !! FormatInt (ev_ID (row_event r))).
  - intros id r Hr. destruct (pv_db _ _ _ Hinv) as [(_ & Hm & _) _]. destruct (Hm _ _ Hr) as (? & _ & ? & _). done.
Qed.

(** Where a message is, for one broker. *)
Lemma message_whereabouts p id r t :
  pipe_inv targets cfg p → db_messages (pi_db p) !! id = Some r → t ∈ targets →
  ∃ o, db_outbox (pi_db p) !! (id, t) = Some o ∧
    (ob_delivered o = None ∨
     ∃ n payload, pi_queue p !! n = Some (t, payload) ∧ unmarshal payload = Some (row_event r) ∧
       (n ∉ pi_acked p ∨ stored cfg (row_event r) p)).
Proof.
  intros Hinv Hr Ht. destruct (pv_rows _ _ _ Hinv _ _ _ Hr Ht) as [o Ho]. exists o. split; [done|].
  destruct (ob_delivered o) as [at_|] eqn:Hd; [|by left]. right.
  destruct (pv_delivered _ _ _ Hinv _ _ Ho) as (ev & Hev & Hid & (n & payload & Hq & Hu)); [by rewrite Hd|]. cbn in Hid, Hq.
  assert (ev = row_event r) as ->.
  { apply (message_event_inj p); [done|by eapply row_message_event|]. by rewrite Hid, (row_event_id p id r). }
  exists n, payload. split_and!; [done..|]. destruct (decide (n ∈ pi_acked p)) as [Ha|Ha]; [right|by left].
  destruct (pv_acked _ _ _ Hinv n Ha) as (b & pl & ev & Hq' & Hu' & Hs). rewrite Hq in Hq'. injection Hq' as <- <-.
  congruence.
Qed.

(** C1: Nothing is lost.  In every reachable state, for every stored message and
    every configured broker: its delivery is still pending in the outbox, or its
    event waits in that broker's queue unacknowledged, or it is in the consumer's
    stores, Cassandra and the index, as they are configured. *)
Theorem pipeline_loses_nothing (p : pipe) (id : Z) (r : msg_row) (t : string) :
  reachable targets cfg p → db_messages (pi_db p) !! id = Some r → t ∈ targets →
  (∃ o, db_outbox (pi_db p) !! (id, t) = Some o ∧ ob_delivered o = None) ∨
  (∃ n payload, pi_queue p !! n = Some (t, payload) ∧ n ∉ pi_acked p ∧ unmarshal payload = Some (row_event r)) ∨
  stored cfg (row_event r) p.
Proof.
  intros Hinv%reachable_inv Hr Ht.
  destruct (message_whereabouts p id r t Hinv Hr Ht) as (o & Ho & [Hd|(n & payload & Hq & Hu & [Ha|Hs])]); eauto 10.
Qed.

(** ** The specification

    What the pipeline promises, without queues, leases and faults: messages are
    created once, with the checksum of their text, and never change, each is
    delivered to each of its brokers once, and its text and checksum are stored
    once, under its identifier. *)
Record spec := mkSpec {
  sp_messages : gmap Z MessageCreated;
  sp_delivered : gset (Z * string);
  sp_stored : gmap Z (string * string)
}.

Inductive spec_step : spec → spec → Prop :=
| ss_create id ev s :
    sp_messages s !! id = None → ev_ID ev = id → ev_Checksum ev = Checksum (ev_Text ev) → ¬ Blank (ev_Text ev) →
    spec_step s (mkSpec (<[id := ev]> (sp_messages s)) (sp_delivered s) (sp_stored s))
| ss_deliver id t s :
    is_Some (sp_messages s !! id) → (id, t) ∉ sp_delivered s →
    spec_step s (mkSpec (sp_messages s) ({[(id, t)]} ∪ sp_delivered s) (sp_stored s))
| ss_store id ev s :
    sp_messages s !! id = Some ev → sp_stored s !! id = None →
    spec_step s (mkSpec (sp_messages s) (sp_delivered s) (<[id := (ev_Text ev, ev_Checksum ev)]> (sp_stored s))).

Definition delivered_keys (d : db) : gset (Z * string) :=
  dom (filter (λ x : (Z * string) * ob_row, is_Some (ob_delivered x.2)) (db_outbox d)).

Definition abstract (p : pipe) : spec :=
  mkSpec (row_event <$> db_messages (pi_db p)) (delivered_keys (pi_db p))
    ((λ v, (v.1.1.1, v.1.1.2)) <$> tb_by_id (pi_tables p)).

Lemma elem_delivered d k : k ∈ delivered_keys d ↔ ∃ r, db_outbox d !! k = Some r ∧ is_Some (ob_delivered r).
Proof.
  unfold delivered_keys. rewrite elem_of_dom. split; intros [r Hr]; [apply map_lookup_filter_Some in Hr as [? ?]; eauto|].
  exists r. by apply map_lookup_filter_Some.
Qed.

Lemma abstract_pipe0 p : pipe0 cfg p → abstract p = mkSpec ∅ ∅ ∅.
Proof.
  intros (Hdb & _ & _ & Ht & _). unfold abstract, delivered_keys. rewrite Hdb, Ht. cbn.
  by rewrite !fmap_empty, map_filter_empty, dom_empty_L.
Qed.

(** An operation that marks nothing new leaves the delivered rows. *)
Lemma delivered_same d d' : db_inv d → db_step targets d d' → marks_kept d d' → delivered_keys d' = delivered_keys d.
Proof.
  intros Hinv Hs Hm. apply set_eq. intros k. rewrite !elem_delivered. split.
  - intros (r & Hr & Hd). destruct (Hm k r Hr Hd) as (r0 & ? & ? & _). eauto.
  - intros (r & Hr & Hd). destruct (db_step_evolves targets _ _ _ _ Hinv Hs Hr) as (r' & Hr' & _ & _ & _ & _ & He).
    rewrite (He Hd) in Hr'. eauto.
Qed.

Lemma pipe_step_refines p p' :
  pipe_inv targets cfg p → pipe_step targets cfg p p' → abstract p' = abstract p ∨ spec_step (abstract p) (abstract p').
Proof.
  intros Hinv Hs. revert Hinv.
  destruct Hs as [env text key res p d' Hc|env target lease token res p d' Hc|dl payload n p Hc Hm Hn
    |env dl res p d' Hca Hpub Hc|env dl delay res p d' Hc|n broker payload ev p Hq Hu
    |n broker payload ev index body p Hq Hu Hsv Hi Hb|n broker payload ev p Hq Hu Hst]; intros Hinv;
    pose proof (pv_db _ _ _ Hinv) as [Hdb Hseq]; [..|by left|by left].
  - assert (delivered_keys d' = delivered_keys (pi_db p)) as Hd
      by (apply delivered_same; [done|by eapply st_create|by eapply create_marks]).
    apply Create_effect in Hc as [(Hm & _)|(_ & x & [-> Hb _ _ Hf _ _ (payload & _ & _ & ->)] & _)]; [| |apply Hinv].
    + left. unfold abstract. cbn. by rewrite Hm, Hd.
    + right. unfold abstract at 2. cbn in *. rewrite Hd, fmap_insert. apply ss_create; [|done|done|done].
      cbn. by rewrite lookup_fmap, Hf.
  - left. unfold abstract. cbn. rewrite (delivered_same (pi_db p) d'); [|done|by eapply st_claim|by eapply claim_marks].
    by apply Claim_effect in Hc as [[-> _]|(x & _ & _ & -> & _)].
  - by left.
  - destruct (carries_event targets cfg p dl Hinv Hca) as [(r & Hr & _) Hid]. rewrite Hid in Hr.
    apply update_leased_effect in Hc as [[-> _]|(x & Hl & _ & _ & ->)]; [by left; destruct p|]. right.
    apply leased_Some in Hl as (Hx & _ & Hnd).
    assert (delivered_keys (with_outbox (<[(d_MessageID dl, d_Target dl) := complete_row (st_now env) x]> (db_outbox (pi_db p))) (pi_db p))
      = {[(d_MessageID dl, d_Target dl)]} ∪ delivered_keys (pi_db p)) as Hd.
    { apply set_eq. intros k. rewrite elem_of_union, elem_of_singleton, !elem_delivered. cbn.
      setoid_rewrite lookup_insert_Some. split.
      - intros (r' & [[<- <-]|[Hne Hr']] & Hdr); eauto.
      - intros [->|(r' & Hr' & Hdr)]; [eexists; split; [by left|by eexists]|]. exists r'. split; [|done]. right. split; [|done].
        intros <-. rewrite Hx in Hr'. injection Hr' as ->. rewrite Hnd in Hdr. by destruct Hdr. }
    unfold abstract at 2. cbn. rewrite Hd. apply ss_deliver.
    + cbn. rewrite lookup_fmap, Hr. by eexists.
    + cbn. rewrite elem_delivered. intros (r' & Hr' & Hdr). rewrite Hx in Hr'. injection Hr' as ->. rewrite Hnd in Hdr. by destruct Hdr.
  - left. unfold abstract. cbn. rewrite (delivered_same (pi_db p) d'); [|done|by eapply st_retry|by eapply retry_marks].
    by apply update_leased_effect in Hc as [[-> _]|(x & _ & _ & _ & ->)].
  - destruct (pv_queue _ _ _ Hinv _ _ _ Hq) as (ev' & Hu' & (r & Hr & Hev)). rewrite Hu in Hu'. injection Hu' as <-.
    unfold abstract at 1 4. cbn. rewrite fmap_insert. cbn. destruct (tb_by_id (pi_tables p) !! ev_ID ev) as [v|] eqn:Hv.
    + left. unfold abstract. f_equal. apply insert_id. rewrite lookup_fmap, Hv. cbn.
      destruct (pv_by_id _ _ _ Hinv _ _ Hv) as (ev' & Hev' & Hid & (producer & Hb & _)).
      assert (ev' = ev) as -> by (apply (message_event_inj p); [done|by exists r|done]). rewrite Hv in Hb. by injection Hb as ->.
    + right. apply (ss_store _ ev); cbn; [|by rewrite lookup_fmap, Hv]. by rewrite lookup_fmap, Hr, Hev.
Qed.

Lemma pipe_steps_refine p p' :
  pipe_inv targets cfg p → rtc (pipe_step targets cfg) p p' → rtc spec_step (abstract p) (abstract p').
Proof.
  intros Hinv Hs. induction Hs as [|p1 p2 p3 H12 _ IH]; [done|]. pose proof (pipe_step_inv _ _ _ _ Hinv H12) as Hinv2.
  destruct (pipe_step_refines _ _ Hinv H12) as [<-|Hstep]; [by apply IH|]. eapply rtc_l; [done|by apply IH].
Qed.

(** C2: The pipeline refines the specification: every run of the pipeline, seen
    through its tables, is a run of the specification from its empty state, and so
    is every continuation of it; a step of the pipeline is at most one step of the
    specification. *)
Theorem pipeline_refines_spec (p p' : pipe) :
  reachable targets cfg p → rtc (pipe_step targets cfg) p p' →
  rtc spec_step (mkSpec ∅ ∅ ∅) (abstract p) ∧ rtc spec_step (abstract p) (abstract p') ∧
  ∀ p'', pipe_step targets cfg p' p'' → abstract p'' = abstract p' ∨ spec_step (abstract p') (abstract p'').
Proof.
  intros Hreach Hs. pose proof (reachable_inv _ _ _ Hreach) as Hinv. split_and!.
  - destruct Hreach as (p0 & Hp0 & Hr). pose proof (pipe_steps_refine _ _ (pipe0_inv _ _ _ Hp0) Hr) as Hrun.
    by rewrite (abstract_pipe0 _ Hp0) in Hrun.
  - by apply pipe_steps_refine.
  - intros p''. apply pipe_step_refines. by eapply pipe_steps_inv.
Qed.

End Props.
