(* ===== verification/PipelineCode.v ===== *)
(** * PipelineCode: the loops run the pipeline

    The worker of [OutboxWorker] and the consumers of [Consumers], with the
    handler, [Save] and [IndexMessage] they call, run here on the state of
    [Pipeline].  Before each of their calls the rest of the system takes any
    number of steps.  Every run of the code is then a run of the pipeline: the
    guards of its steps are established by the loops, so that what is proved of
    the pipeline holds of the programs. *)

From stdpp Require Import base option list strings gmap relations.
From Stdlib Require Import ZArith Lia.
From S2P Require Import Prelude GoStrings GoPaths Messaging Storage StorageProps Retry OutboxWorker PostgresWorker FileStores FilesApi SearchJson SearchClient Consumers Cassandra.
From S2P Require Import SearchSim Pipeline.
Local Open Scope Z_scope.

(** ** A process of the pipeline *)

(** Its runtime and its connections, beside the shared state. *)
Record proc := mkProc {
  pr_sim : sim;
  pr_pipe : pipe;
  pr_open : gset nat;
  pr_dialled : gmap nat string;
  pr_tick : nat
}.

Definition pr_set_sim (s : sim) (w : proc) : proc := mkProc s (pr_pipe w) (pr_open w) (pr_dialled w) (pr_tick w).
Definition pr_set_pipe (p : pipe) (w : proc) : proc := mkProc (pr_sim w) p (pr_open w) (pr_dialled w) (pr_tick w).
Definition pr_conns (o : gset nat) (d : gmap nat string) (w : proc) : proc := mkProc (pr_sim w) (pr_pipe w) o d (pr_tick w).

#[export] Instance pr_runtime : Runtime proc := {
  now w := now (pr_sim w);
  ctx_err c w := ctx_err c (pr_sim w);
  draw n w := let '(z, s) := draw n (pr_sim w) in (z, pr_set_sim s w);
  select_timer c d w := let '(b, s) := select_timer c d (pr_sim w) in (b, pr_set_sim s w);
  emit m w := pr_set_sim (emit m (pr_sim w)) w
}.

#[export] Instance pr_laws : RuntimeLaws proc.
Proof.
  split.
  - intros n w Hn. exact (draw_range n (pr_sim w) Hn).
  - intros c d w. exact (select_done c d (pr_sim w)).
  - intros w. exact (background_alive (pr_sim w)).
  - intros c w e. exact (ctx_err_kind c (pr_sim w) e).
  - intros m w. exact (emit_now m (pr_sim w)).
  - intros m c w. exact (emit_ctx m c (pr_sim w)).
Defined.

(** The consumer's configuration: whether it has a session to Cassandra, and its
    index. *)
Definition cfg_of (has_events : bool) (idx : option Index) : stores := mkStores has_events (ix_msgIndex <$> idx).

(** The choices left to the environment: the fate of each call, the tokens, the
    message a broker offers, and what the rest of the system does before the
    call. *)
Class Environment `{EventCodec} (targets : list string) (cfg : stores) := {
  en_st : nat → st_env;
  en_token : nat → string;
  en_fate : nat → exec_outcome;
  en_dial : nat → bool * option error;
  en_offer : nat → nat;
  en_status : nat → Z;
  en_rest : nat → pipe → pipe;
  en_rest_steps : ∀ n p, rtc (pipe_step targets cfg) p (en_rest n p)
}.

Section Process.
Context `{EventCodec}.
Variables (targets : list string) (has_events : bool) (idx : option Index) (broker : string).
Context `{En : !Environment targets (cfg_of has_events idx)}.

Notation step := (pipe_step targets (cfg_of has_events idx)).
Notation reach := (reachable targets (cfg_of has_events idx)).

(** The rest of the system acts, then the call runs. *)
Definition meanwhile (w : proc) : proc :=
  mkProc (pr_sim w) (en_rest (pr_tick w) (pr_pipe w)) (pr_open w) (pr_dialled w) (S (pr_tick w)).

Definition call {A} (f : nat → pipe → A * pipe) : GoM proc A := λ w,
  let '(a, p) := f (pr_tick w) (pr_pipe (meanwhile w)) in Some (a, pr_set_pipe p (meanwhile w)).

(** A call on the tables. *)
Definition on_db {A} (f : nat → db → A * db) : GoM proc A :=
  call (λ n p, let '(a, d) := f n (pi_db p) in (a, pi_set_db d p)).

#[export] Instance pr_store : OutboxStore proc := {
  o_Claim c t lease := on_db (λ n, Claim (en_st n) t lease (en_token n));
  o_Complete c dl := on_db (λ n, Complete (en_st n) dl);
  o_Retry c dl delay := on_db (λ n, Retry (en_st n) dl delay);
  o_OutboxStats c t := on_db (λ n d, (OutboxStats (en_st n) t d, d))
}.

Definition pr_factory (t : string) (w : proc) : (option nat * option error) * proc :=
  let '(got, err) := en_dial (pr_tick w) in
  let w := meanwhile w in
  if (got : bool) then
    let h := fresh (pr_open w ∪ dom (pr_dialled w)) in
    ((Some h, err), pr_conns ({[h]} ∪ pr_open w) (<[h := t]> (pr_dialled w)) w)
  else ((None, err), w).

(** A publisher encodes the event and puts it into its broker's queue. *)
Definition pr_publish (h : nat) (ev : MessageCreated) (w : proc) : option error * proc :=
  let fate := en_fate (pr_tick w) in
  let w := meanwhile w in
  match pr_dialled w !! h, marshal ev with
  | Some t, Some payload =>
      (exec_error fate,
       if took_effect fate
       then pr_set_pipe (pi_enqueue (fresh (dom (pi_queue (pr_pipe w)))) t payload (pr_pipe w)) w else w)
  | Some _, None => (Some (ErrText "json"), w)
  | None, _ => (Some (ErrText "closed"), w)
  end.

#[export] Instance pr_publishers : Publishers proc := {
  p_factory c t w := Some (pr_factory t w);
  p_Publish h c ev w := Some (pr_publish h ev w);
  p_Close h w := Some (None, let w := meanwhile w in pr_conns (pr_open w ∖ {[h]}) (pr_dialled w) w)
}.

(** The broker offers some message of its queue, acknowledged or not. *)
Definition offered (n : nat) (p : pipe) : option delivery :=
  '(b, payload) ← pi_queue p !! en_offer n; if bool_decide (b = broker) then Some (mkDv (en_offer n) payload) else None.

#[export] Instance pr_source : Source proc := {
  src_Fetch c := call (λ n p, (match offered n p with Some d => inl d | None => inr (ErrText "no message") end, p));
  src_Ack c d := call (λ n p, (exec_error (en_fate n), if took_effect (en_fate n) then pi_ack (dv_id d) p else p));
  src_Nak d := call (λ n p, ((), p));
  src_Sleep d w := Some ((), pr_set_sim (sim_advance d (pr_sim w)) (meanwhile w))
}.

#[export] Instance pr_rabbit : RabbitSource proc := {
  r_channel c := call (λ n p, (match exec_error (en_fate n) with Some e => inr e | None => inl n end, p));
  r_Qos ch := call (λ n p, (exec_error (en_fate n), p));
  r_Subscribe c ch := call (λ n p, (match exec_error (en_fate n) with Some e => inr e | None => inl n end, p));
  r_Next sub := call (λ n p, (offered n p, p));
  r_reset := call (λ n p, ((), p))
}.

(** Elasticsearch: a document is written, refused with some status, or lost on
    the way; the other calls, which the handler does not make, change nothing. *)
Definition refused {A} : GoM proc (A + error) := call (λ n p, (inr (ErrText "refused"), p)).

#[export] Instance pr_elastic : Elastic proc := {|
  es_NewClient addrs := mret None;
  es_Exists c n := refused;
  es_Create c n m := refused;
  es_Index c index body id refresh := call (λ n p,
    (match en_fate n with
     | Ran => inl (mkEs 0 201 (mkStream "" None))
     | NotRun _ => inl (mkEs 0 (Z.max 300 (en_status n)) (mkStream "" None))
     | RanUnknown e => inr e
     end, if took_effect (en_fate n) then pi_put index id body p else p));
  es_Search c n payload track := refused;
  es_Health c := refused;
  es_Close r := mret ()
|}.

#[export] Instance pr_sink : EventSink proc := {
  sink_Save c ev producer w :=
    let fate := en_fate (pr_tick w) in
    let w := meanwhile w in
    match Save true fate ev producer (pr_sim w, pi_tables (pr_pipe w)) with
    | Some (err, (s, tb)) =>
        let p := pr_pipe w in
        Some (err, pr_set_sim s (pr_set_pipe (mkPipe (pi_db p) (pi_queue p) (pi_acked p) tb (pi_index p)) w))
    | None => None
    end;
  sink_Index c ev producer := IndexMessage idx c (document_of ev producer)
}.

(** The consumer's handler. *)
Definition pr_handle : ctx → MessageCreated → GoM proc (option error) :=
  consumer_handle has_events (bool_decide (is_Some idx)) broker.

(** ** Runs of the pipeline *)

(** [p0] is where the process found the system. *)
Variable p0 : pipe.
Hypothesis Hp0 : reach p0.

Definition runs (w : proc) : Prop := rtc step p0 (pr_pipe w).

Lemma runs_inv w : runs w → pipe_inv targets (cfg_of has_events idx) (pr_pipe w).
Proof. intros Hr. eapply reachable_inv, reachable_step; [exact Hp0|exact Hr]. Qed.

(** From a run, a longer one. *)
Definition advances (w w' : proc) : Prop := runs w → rtc step (pr_pipe w) (pr_pipe w').

Lemma advances_kept w w' : advances w w' → runs w → runs w' ∧ kept (cfg_of has_events idx) (pr_pipe w) (pr_pipe w').
Proof.
  intros Ha Hr. split; [unfold runs; by etransitivity; [exact Hr|apply Ha]|]. eapply pipe_steps_kept; [by apply runs_inv|by apply Ha].
Qed.

Lemma advances_meanwhile w : advances w (meanwhile w).
Proof. intros _. apply en_rest_steps. Qed.

#[export] Instance advances_preorder : PreOrder advances.
Proof.
  split; [by intros w _|]. intros w1 w2 w3 H12 H23 Hr. etransitivity; [by apply H12|]. apply H23.
  by apply advances_kept in H12 as [? _].
Qed.

Lemma advances_call {A} (f : nat → pipe → A * pipe) w :
  (runs w → runs (meanwhile w) → kept (cfg_of has_events idx) (pr_pipe w) (pr_pipe (meanwhile w)) →
     rtc step (pr_pipe (meanwhile w)) (f (pr_tick w) (pr_pipe (meanwhile w))).2) →
  ∃ a p', call f w = Some (a, pr_set_pipe p' (meanwhile w)) ∧ advances w (pr_set_pipe p' (meanwhile w)) ∧
    f (pr_tick w) (pr_pipe (meanwhile w)) = (a, p').
Proof.
  intros Hf. unfold call. destruct (f _ _) as [a p'] eqn:E. eexists _, _. split; [done|]. split; [|done].
  intros Hr. destruct (advances_kept _ _ (advances_meanwhile w) Hr) as [Hr' Hk].
  etransitivity; [by apply advances_meanwhile|]. by apply Hf.
Qed.

Lemma advances_on_db {A} (f : nat → db → A * db) w :
  (∀ n p, pipe_inv targets (cfg_of has_events idx) p → rtc step p (pi_set_db (f n (pi_db p)).2 p)) →
  ∃ a w', on_db f w = Some (a, w') ∧ advances w w' ∧ pr_open w' = pr_open w ∧ pr_dialled w' = pr_dialled w ∧
    ∃ d, f (pr_tick w) (pi_db (en_rest (pr_tick w) (pr_pipe w))) = (a, d) ∧ pi_db (pr_pipe w') = d.
Proof.
  intros Hf. unfold on_db. edestruct (@advances_call A) as (a & p' & E & Ha & Ef); [|exists a; eexists; split; [exact E|]].
  { intros _ Hr _. cbv beta. specialize (Hf (pr_tick w) _ (runs_inv _ Hr)). by destruct (f _ _) as [a d]. }
  split; [exact Ha|]. split; [done|]. split; [done|]. cbn in Ef |- *. destruct (f _ _) as [a' d]. by injection Ef as -> <-; eexists.
Qed.

(** ** The worker *)

Definition pr_keeps (w w' : proc) : Prop := runs w → runs w' ∧
  (∀ t ev, published t ev (pr_pipe w) → published t ev (pr_pipe w')) ∧
  (∀ dl, carries dl (pi_db (pr_pipe w)) → carries dl (pi_db (pr_pipe w'))) ∧
  (∀ h t, pr_dialled w !! h = Some t → pr_dialled w' !! h = Some t).

Definition pr_quiet (w w' : proc) : Prop := pr_keeps w w' ∧ pr_open w' = pr_open w.

Lemma advances_keeps w w' :
  advances w w' → (∀ h t, pr_dialled w !! h = Some t → pr_dialled w' !! h = Some t) → pr_keeps w w'.
Proof.
  intros Ha Hd Hr. destruct (advances_kept _ _ Ha Hr) as [Hr' Hk]. split_and!; [done| |apply Hk|done].
  intros t ev. by eapply kept_published.
Qed.

Lemma advances_quiet w w' : advances w w' → pr_open w' = pr_open w → pr_dialled w' = pr_dialled w → pr_quiet w w'.
Proof. intros Ha Ho Hd. split; [|done]. apply advances_keeps; [done|]. by rewrite Hd. Qed.

#[export] Instance pr_frame : Frame pr_quiet.
Proof.
  split.
  - intros w. by apply advances_quiet.
  - intros w1 w2 w3 [K12 E12] [K23 E23]. split; [|congruence]. intros R1.
    destruct (K12 R1) as (R2 & ? & ? & ?). destruct (K23 R2) as (R3 & ? & ? & ?). auto 10.
  - intros m w. by apply advances_quiet; [by intros _|..].
  - intros n w. cbn. destruct (draw n (pr_sim w)) as [z s]. by apply advances_quiet; [by intros _|..].
  - intros c d w. cbn. destruct (select_timer c d (pr_sim w)) as [b s]. by apply advances_quiet; [by intros _|..].
Qed.

(** The steps the store's calls are. *)
Lemma claim_steps env t lease token p : rtc step p (pi_set_db (Claim env t lease token (pi_db p)).2 p).
Proof. destruct (Claim env t lease token (pi_db p)) as [res d] eqn:E. eapply rtc_once, ps_claim, E. Qed.

Lemma retry_steps env dl delay p : rtc step p (pi_set_db (Retry env dl delay (pi_db p)).2 p).
Proof. destruct (Retry env dl delay (pi_db p)) as [res d] eqn:E. eapply rtc_once, ps_retry, E. Qed.

Lemma pr_claim_ok c t lease w :
  ∃ d err w', o_Claim c t lease w = Some ((d, err), w') ∧ pr_quiet w w' ∧
    (runs w → err = None → ∀ dl, d = Some dl →
       carries dl (pi_db (pr_pipe w')) ∧ d_Target dl = t ∧ d_Attempts dl <= max_int64).
Proof.
  destruct (advances_on_db (λ n, Claim (en_st n) t lease (en_token n)) w) as ([d err] & w' & E & Ha & Ho & Hd & d' & Ec & Hdb);
    [intros n p _; apply claim_steps|].
  exists d, err, w'. split; [exact E|]. split; [by apply advances_quiet|]. intros _ -> dl ->.
  destruct (Claim_carries _ _ _ _ _ _ _ Ec) as (? & ? & ?). by rewrite Hdb.
Qed.

Lemma pr_complete_ok c dl w :
  carries dl (pi_db (pr_pipe w)) → published (d_Target dl) (d_Event dl) (pr_pipe w) →
  ∃ err w', o_Complete c dl w = Some (err, w') ∧ pr_quiet w w'.
Proof.
  intros Hc Hp. cbn [o_Complete pr_store]. unfold on_db.
  edestruct (@advances_call (option error)) as (a & p' & E & Ha & _);
    [|exists a; eexists; split; [exact E|by apply advances_quiet]].
  intros _ Hr Hk. cbv beta. destruct (Complete _ dl _) as [res d] eqn:Eco. cbn [snd].
  eapply rtc_once, ps_complete; [by apply Hk|by eapply kept_published|exact Eco].
Qed.

Lemma pr_factory_ok t w :
  ∃ p err w', Some (pr_factory t w) = Some ((p, err), w') ∧ pr_keeps w w' ∧
    match p with
    | Some h => h ∉ pr_open w ∧ pr_open w' = {[h]} ∪ pr_open w ∧ pr_dialled w' !! h = Some t
    | None => pr_open w' = pr_open w
    end.
Proof.
  unfold pr_factory. destruct (en_dial _) as [[|] err]; eexists _, _, _; (split; [done|]).
  - set (h := fresh _). assert (h ∉ pr_open w ∪ dom (pr_dialled w)) as Hf by apply is_fresh. split.
    + apply advances_keeps; [apply advances_meanwhile|]. intros h' t' Hh. cbn. rewrite lookup_insert_ne; [done|].
      intros <-. apply elem_of_dom_2 in Hh. set_solver.
    + cbn. rewrite lookup_insert_eq. set_solver.
  - split; [|done]. apply advances_keeps; [apply advances_meanwhile|done].
Qed.

Lemma pr_publish_ok h dl w :
  runs w → carries dl (pi_db (pr_pipe w)) → pr_dialled w !! h = Some (d_Target dl) →
  ∃ err w', Some (pr_publish h (d_Event dl) w) = Some (err, w') ∧ pr_quiet w w' ∧
    (err = None → published (d_Target dl) (d_Event dl) (pr_pipe w')).
Proof.
  intros Hr Hc Hh. destruct (advances_kept _ _ (advances_meanwhile w) Hr) as [Hr' Hk].
  assert (pr_quiet w (meanwhile w)) as Hq by (apply advances_quiet; [apply advances_meanwhile|done..]).
  unfold pr_publish. cbn [pr_dialled meanwhile]. rewrite Hh.
  destruct (marshal (d_Event dl)) as [payload|] eqn:Em; [|by eexists _, _].
  destruct (took_effect (en_fate (pr_tick w))) eqn:Et; [|destruct (en_fate _); [done| |done]; by eexists _, _].
  eexists _, _. split; [done|]. set (n := fresh _).
  assert (pi_queue (pr_pipe (meanwhile w)) !! n = None) as Hn by (apply not_elem_of_dom, is_fresh). split.
  - eapply (frame_trans (R := pr_quiet)); [exact Hq|]. apply advances_quiet; [|done..]. intros _.
    apply rtc_once, ps_publish; [by apply Hk|done|exact Hn].
  - intros _. exists n, payload. cbn. rewrite lookup_insert_eq. split; [done|].
    apply unmarshal_marshal; [|done]. apply (carries_storable _ (pi_db (pr_pipe w))); [apply (pv_db _ _ _ (runs_inv _ Hr))|done].
Qed.

(** The store and the brokers of the pipeline keep the promises the worker relies
    on. *)
#[export] Instance pr_outbox : OutboxSpec proc.
Proof.
  refine {| accepted w t e := published t e (pr_pipe w); claimed w dl := carries dl (pi_db (pr_pipe w));
            speaks w h t := pr_dialled w !! h = Some t; live := pr_open; safe := runs |}.
  - apply pr_claim_ok.
  - intros c d delay w. destruct (advances_on_db (λ n, Retry (en_st n) d delay) w) as (err & w' & E & Ha & Ho & Hd & _);
      [intros n p _; apply retry_steps|]. exists err, w'. split; [exact E|by apply advances_quiet].
  - intros c t w. destruct (advances_on_db (λ n d, (OutboxStats (en_st n) t d, d)) w) as ([s err] & w' & E & Ha & Ho & Hd & _).
    { intros n p _. cbn. by destruct p. }
    exists s, err, w'. split; [exact E|by apply advances_quiet].
  - apply pr_complete_ok.
  - intros c t w. apply pr_factory_ok.
  - intros c h d w Hs Hc Hh _. by apply pr_publish_ok.
  - intros h t w _ _. eexists _, _. split; [done|]. split; [|done]. apply advances_keeps; [apply advances_meanwhile|done].
Defined.

(** ** The consumers *)

Definition pr_handled (w : proc) (ev : MessageCreated) : Prop :=
  message_event (pr_pipe w) ev ∧ stored (cfg_of has_events idx) ev (pr_pipe w).

Definition pr_fetched (w : proc) (d : delivery) : Prop := pi_queue (pr_pipe w) !! dv_id d = Some (broker, dv_body d).

Definition pr_reads (w w' : proc) : Prop := runs w → runs w' ∧
  (∀ ev, pr_handled w ev → pr_handled w' ev) ∧ (∀ d, pr_fetched w d → pr_fetched w' d).

Lemma advances_reads w w' : advances w w' → pr_reads w w'.
Proof.
  intros Ha Hr. destruct (advances_kept _ _ Ha Hr) as [Hr' Hk]. split_and!; [done| |].
  - intros ev [Hm Hs]. split; [by eapply kp_message|by eapply kp_stored].
  - intros d Hd. eapply lookup_weaken; [exact Hd|by eapply kp_queue].
Qed.

#[export] Instance pr_reads_frame : Frame pr_reads.
Proof.
  split.
  - intros w. by apply advances_reads.
  - intros w1 w2 w3 K12 K23 R1. destruct (K12 R1) as (R2 & ? & ?). destruct (K23 R2) as (R3 & ? & ?). auto.
  - intros m w. apply advances_reads. by intros _.
  - intros n w. cbn. destruct (draw n (pr_sim w)) as [z s]. apply advances_reads. by intros _.
  - intros c d w. cbn. destruct (select_timer c d (pr_sim w)) as [b s]. apply advances_reads. by intros _.
Qed.

(** A call that leaves the state alone. *)
Lemma call_reads {A} (f : nat → pipe → A) w :
  ∃ w', call (λ n p, (f n p, p)) w = Some (f (pr_tick w) (pr_pipe w'), w') ∧ advances w w'.
Proof. eexists. split; [done|]. apply advances_meanwhile. Qed.

Lemma offered_fetched n w d : offered n (pr_pipe w) = Some d → pr_fetched w d.
Proof.
  unfold offered, pr_fetched. intros ([b payload] & Hq & Hd)%bind_Some. cbn in Hd. case_bool_decide; [|done].
  injection Hd as <-. by subst.
Qed.

(** The event of a message fetched is that of a stored message. *)
Lemma fetched_event w d ev : runs w → pr_fetched w d → unmarshal (dv_body d) = Some ev → message_event (pr_pipe w) ev.
Proof.
  intros Hr Hf Hu. destruct (pv_queue _ _ _ (runs_inv _ Hr) _ _ _ Hf) as (ev' & Hu' & Hev). congruence.
Qed.

Section Handler.
Context (d : delivery) (ev : MessageCreated).
Hypothesis Hu : unmarshal (dv_body d) = Some ev.

Lemma save_ok c w :
  runs w → pr_fetched w d →
  ∃ err w', sink_Save c ev broker w = Some (err, w') ∧ advances w w' ∧
    (err = None → saved (cfg_of has_events idx) ev (pr_pipe w')).
Proof.
  intros Hr Hf. cbn [sink_Save pr_sink]. destruct (advances_kept _ _ (advances_meanwhile w) Hr) as [Hr' Hk].
  destruct (Save_run true (en_fate (pr_tick w)) ev broker (pr_sim (meanwhile w)) (pi_tables (pr_pipe (meanwhile w))) eq_refl)
    as [s' E]. rewrite E. eexists _, _. split; [done|].
  destruct (took_effect (en_fate (pr_tick w))) eqn:Et.
  - split; [|intros _ _; apply in_tables_saved]. intros _. etransitivity; [by apply advances_meanwhile|].
    eapply rtc_once, ps_save; [|exact Hu]. eapply lookup_weaken; [exact Hf|apply Hk].
  - split; [|intros He; by destruct (en_fate (pr_tick w))]. intros _. etransitivity; [by apply advances_meanwhile|].
    cbn. by destruct (en_rest _ _).
Qed.

(** Writing the document. *)
Lemma put_ok i c body refresh w :
  idx = Some i → doc_marshal (document_of ev broker) = Some body →
  runs w → pr_fetched w d → saved (cfg_of has_events idx) ev (pr_pipe w) →
  ∃ r w', es_Index c (ix_msgIndex i) body (FormatInt (ev_ID ev)) refresh w = Some (r, w') ∧ advances w w' ∧
    ∀ res, r = inl res → IsError res = false → pr_handled w' ev.
Proof.
  intros Ei Eb Hr Hf Hsv. cbn [es_Index pr_elastic]. destruct (advances_kept _ _ (advances_meanwhile w) Hr) as [Hr' Hk].
  pose proof (fetched_event _ _ _ Hr Hf Hu) as Hev. pose proof (kp_message _ _ _ Hk _ Hev) as Hev'.
  pose proof (kp_saved _ _ _ Hk _ Hev Hsv) as Hsv'.
  edestruct (@advances_call (es_response + error)) as (r & p' & E & Ha & Ef); [|exists r; eexists; split; [exact E|split; [exact Ha|]]].
  { intros _ _ _. cbv beta. cbn [snd]. destruct (took_effect _); [|done].
    eapply rtc_once, ps_index; [eapply lookup_weaken; [exact Hf|apply Hk]|exact Hu|exact Hsv'|cbn; by rewrite Ei|exact Eb]. }
  intros res -> Hok. cbv beta in Ef.
  destruct (en_fate (pr_tick w)); cbn [took_effect] in Ef; simplify_eq; [|unfold IsError in Hok; cbn in Hok; lia].
  split; [exact Hev'|]. split; [exact Hsv'|]. intros index Hi. cbn in Hi. rewrite Ei in Hi. injection Hi as <-.
  eapply (in_index_put targets (cfg_of has_events idx)); [by apply runs_inv|cbn; by rewrite Ei|done..|by right].
Qed.

Lemma index_ok i c w :
  idx = Some i → runs w → pr_fetched w d → saved (cfg_of has_events idx) ev (pr_pipe w) →
  ∃ err w', sink_Index c ev broker w = Some (err, w') ∧ advances w w' ∧ (err = None → pr_handled w' ev).
Proof.
  intros Ei Hr Hf Hsv. cbn [sink_Index pr_sink]. unfold IndexMessage, observed. rewrite Ei, gom_gets_bind.
  unfold index_doc. cbn [e_ID document_of]. destruct (doc_marshal (document_of ev broker)) as [body|] eqn:Eb;
    [|eexists _, _; split; [done|]; split; [by intros _|done]].
  destruct (put_ok i c body (refreshValue (ix_refreshAll i)) w Ei Eb Hr Hf Hsv) as (r & w1 & E & Ha & Hd).
  unfold mbind, gom_bind. rewrite E. destruct r as [res|e]; (eexists _, _; split; [done|]; split; [exact Ha|]); [|done].
  intros He. destruct (IsError res) eqn:Eo; [done|]. exact (Hd res eq_refl Eo).
Qed.

Lemma pr_handle_ok c w :
  runs w → pr_fetched w d →
  ∃ err w', pr_handle c ev w = Some (err, w') ∧ pr_reads w w' ∧ (err = None → pr_handled w' ev).
Proof.
  intros Hr Hf. unfold pr_handle, consumer_handle. rewrite gom_gets_bind.
  assert (∀ b, b = has_events → ∃ err w1, (if b then sink_Save (with_timeout c (10 * Second) w) ev broker else mret None) w = Some (err, w1) ∧
    advances w w1 ∧ (err = None → saved (cfg_of has_events idx) ev (pr_pipe w1))) as Hsave.
  { intros [|] Hb; [by apply save_ok|]. eexists _, _. split; [done|]. split; [by intros _|]. intros _ Ht. cbn in Ht. congruence. }
  destruct (Hsave has_events eq_refl) as (err & w1 & E & Ha & Hsv).
  rewrite (gom_bind_run _ _ _ _ _ E). pose proof (advances_reads _ _ Ha) as Hrd. destruct err as [e|]; [by eexists _, _|].
  destruct (Hrd Hr) as (Hr1 & _ & Hf1). case_bool_decide as Hi.
  - destruct Hi as [i Ei]. destruct (index_ok i (with_timeout c (10 * Second) w) w1 Ei Hr1 (Hf1 _ Hf) (Hsv eq_refl))
      as (err & w2 & E2 & Ha2 & Hd). exists err, w2. split; [exact E2|]. split; [|exact Hd].
    eapply (frame_trans (R := pr_reads)); [exact Hrd|by apply advances_reads].
  - eexists _, _. split; [done|]. split; [exact Hrd|]. intros _.
    split; [by eapply fetched_event; [| |exact Hu]; auto|]. split; [by apply Hsv|]. intros index Hx. cbn in Hx.
    apply fmap_Some in Hx as (i & Hx & _). destruct Hi. by exists i.
Qed.

End Handler.

(** The brokers and the handler keep the promises the [Consume] loops rely on. *)
#[export] Instance pr_consume : ConsumeSpec proc pr_handle.
Proof.
  refine {| handled := pr_handled; fetched := pr_fetched; acks_safe := runs |}.
  - intros c w. destruct (call_reads (λ n p, match offered n p with Some d => inl d | None => inr (ErrText "no message") end) w)
      as (w' & E & Ha). eexists _, w'. split; [exact E|]. split; [by apply advances_reads|]. intros _ d Hd.
    apply (offered_fetched (pr_tick w)). destruct (offered _ _); [by injection Hd as ->|done].
  - intros d w. eexists. split; [done|]. apply advances_reads. intros _. apply en_rest_steps.
  - intros d w. destruct (call_reads (λ n p, ()) w) as (w' & E & Ha). exists w'. split; [exact E|by apply advances_reads].
  - intros c d ev w Hr Hf Hu. by eapply pr_handle_ok.
  - intros c d ev w Hr Hf Hu [Hev Hs]. destruct (advances_kept _ _ (advances_meanwhile w) Hr) as [Hr' Hk].
    edestruct (@advances_call (option error)) as (r & p' & E & Ha & _); [|exists r; eexists; split; [exact E|by apply advances_reads]].
    intros _ _ _. cbv beta. cbn [snd]. destruct (took_effect _); [|done].
    eapply rtc_once, ps_ack; [eapply lookup_weaken; [exact Hf|apply Hk]|exact Hu|by eapply kp_stored].
Defined.

Lemma call_quiet {A} (f : nat → pipe → A) w : runs w → ∃ r w', call (λ n p, (f n p, p)) w = Some (r, w') ∧ pr_reads w w'.
Proof. intros _. destruct (call_reads f w) as (w' & E & Ha). eexists _, w'. split; [exact E|by apply advances_reads]. Qed.

#[export] Instance pr_rabbit_quiet : RabbitQuiet (handle := pr_handle).
Proof.
  split; cbn [r_channel r_Qos r_Subscribe r_reset pr_rabbit]; intros;
    [by eapply (call_quiet (λ n p, _))|by eapply (call_quiet (λ n p, _))|by eapply (call_quiet (λ n p, _))| |by eapply (call_quiet (λ n p, _))].
  destruct (call_reads (λ n p, offered n p) w) as (w' & E & Ha). eexists _, w'. split; [exact E|].
  split; [by apply advances_reads|]. intros d. apply offered_fetched.
Defined.

End Process.

