(* ===== verification/PipelineSim.v ===== *)
(** * PipelineSim: a message goes through

    One message on its way from the request to the stores, step by step and by the
    programs themselves: the states at which the theorems on the pipeline are
    applied. *)

From stdpp Require Import base option list strings gmap relations.
From Stdlib Require Import ZArith Lia.
From S2P Require Import Prelude GoStrings GoPaths Messaging Storage StorageProps Retry OutboxWorker PostgresWorker FileStores FilesApi SearchJson SearchClient Consumers Cassandra.
From S2P Require Import SearchSim Pipeline PipelineProps PipelineLive PipelineCode.
Local Open Scope Z_scope.

#[local] Existing Instance utc_codec.

(** ** The steps *)

Definition ex_to : list string := ["kafka"].
Definition ex_cfg : stores := cfg_of true (Some ex_index).

(** Empty; with the message; its row leased; its event in the queue; in Cassandra;
    in the index. *)
Definition q0 : pipe := mkPipe db_empty ∅ ∅ tables0 {["otus-messages" := mkEsIndex messagesMapping ∅]}.
Definition q1 : pipe := pi_set_db (Create (ex_tx 10) ex_to "hi" "k1" (pi_db q0)).2 q0.
Definition q2 : pipe := pi_set_db (Claim (ex_st 30) "kafka" (45 * Second) "A" (pi_db q1)).2 q1.
Definition ex_dl : Delivery := ex_delivery "A" 1.
Definition ex_payload : string := event_text (d_Event ex_dl).
Definition q3 : pipe := pi_enqueue 0 "kafka" ex_payload q2.
Definition q4 : pipe := pi_save (d_Event ex_dl) "kafka" q3.
Definition ex_body : string := default "" (@doc_marshal utc (document_of (d_Event ex_dl) "kafka")).
Definition q5 : pipe := pi_put "otus-messages" (FormatInt 1) ex_body q4.

Notation ex_step := (pipe_step ex_to ex_cfg).

Lemma q0_start : pipe0 ex_cfg q0.
Proof. split_and!; [done..|]. intros index [= <-]. split; [by eexists|done]. Qed.

Lemma q0_q3 : rtc ex_step q0 q3.
Proof.
  eapply rtc_l; [exact (ps_create _ _ (ex_tx 10) "hi" "k1" _ q0 _ (surjective_pairing _))|].
  eapply rtc_l; [exact (ps_claim _ _ (ex_st 30) "kafka" (45 * Second) "A" _ q1 _ (surjective_pairing _))|].
  apply rtc_once. apply (ps_publish _ _ ex_dl ex_payload 0 q2); [|vm_compute; reflexivity|reflexivity].
  unfold carries. vm_compute. reflexivity.
Qed.

Lemma q3_queue : pi_queue q3 !! 0%nat = Some ("kafka", ex_payload).
Proof. reflexivity. Qed.

Lemma q3_event : unmarshal ex_payload = Some (d_Event ex_dl).
Proof. vm_compute. reflexivity. Qed.

Lemma q3_q5 : rtc ex_step q3 q5.
Proof.
  eapply rtc_l; [exact (ps_save _ _ _ _ _ _ q3 q3_queue q3_event)|]. apply rtc_once.
  apply (ps_index _ _ 0 "kafka" ex_payload (d_Event ex_dl) "otus-messages" ex_body q4); [reflexivity|exact q3_event| |reflexivity|reflexivity].
  intros _. apply in_tables_saved.
Qed.

Lemma q3_reachable : reachable ex_to ex_cfg q3.
Proof. exists q0. split; [apply q0_start|apply q0_q3]. Qed.

Lemma q5_reachable : reachable ex_to ex_cfg q5.
Proof. eapply reachable_step; [apply q3_reachable|apply q3_q5]. Qed.

Lemma q3_row : db_messages (pi_db q3) !! 1 = Some ex_row.
Proof. vm_compute. reflexivity. Qed.

(** ** Witnesses *)

Lemma pipeline_invents_nothing_witness :
  ∃ r producer, db_messages (pi_db q5) !! 1 = Some r ∧
    tb_by_id (pi_tables q5) !! 1 = Some ((mr_text r, mr_hash r, producer), to_ms (mr_created r)).
Proof.
  destruct (pipeline_invents_nothing ex_to ex_cfg q5 q5_reachable) as (_ & Hid & _).
  assert (is_Some (tb_by_id (pi_tables q5) !! 1)) as [v Hv] by (vm_compute; eauto).
  destruct (Hid 1 v Hv) as (r & producer & Hr & ->). exists r, producer. split; [exact Hr|exact Hv].
Defined.

Lemma pipeline_loses_nothing_witness :
  (∃ o, db_outbox (pi_db q3) !! (1, "kafka") = Some o ∧ ob_delivered o = None) ∨
  (∃ n payload, pi_queue q3 !! n = Some ("kafka", payload) ∧ n ∉ pi_acked q3 ∧ unmarshal payload = Some (row_event ex_row)) ∨
  stored ex_cfg (row_event ex_row) q3.
Proof.
  apply (pipeline_loses_nothing ex_to ex_cfg q3 1 ex_row "kafka");
    [exact q3_reachable|exact q3_row|apply list_elem_of_singleton; reflexivity].
Defined.

Lemma pipeline_refines_spec_witness :
  rtc spec_step (mkSpec ∅ ∅ ∅) (abstract q3) ∧ rtc spec_step (abstract q3) (abstract q5) ∧ abstract q3 ≠ abstract q5.
Proof.
  destruct (pipeline_refines_spec ex_to ex_cfg q3 q5 q3_reachable q3_q5) as (H1 & H2 & _).
  split; [exact H1|]. split; [exact H2|]. intros E. apply (f_equal (λ s, sp_stored s !! 1)) in E. vm_compute in E. discriminate E.
Defined.


(** ** The programs *)

(** Before its third call, another client posts the same request again. *)
#[local] Instance ex_environment : Environment ex_to ex_cfg.
Proof.
  refine {| en_st n := ex_st 30; en_token n := "A"; en_fate n := Ran; en_dial n := (true, None);
            en_offer n := 0%nat; en_status n := 0;
            en_rest n p := if bool_decide (n = 2%nat) then pi_set_db (Create (ex_tx 20) ex_to "hi" "k1" (pi_db p)).2 p else p |}.
  intros n p. case_bool_decide; [|done]. apply rtc_once. eapply ps_create, surjective_pairing.
Defined.

Definition ex_proc (p : pipe) : proc := mkProc sim0 p ∅ ∅ 0.

Lemma q1_reachable : reachable ex_to ex_cfg q1.
Proof. exists q0. split; [apply q0_start|]. apply rtc_once. exact (ps_create _ _ (ex_tx 10) "hi" "k1" _ q0 _ (surjective_pairing _)). Qed.


(** One iteration of the worker and one of the consumer carry the message from the
    request to the stores. *)
Definition after_worker : option proc :=
  match @run proc _ (pr_store ex_to true (Some ex_index)) (pr_publishers ex_to true (Some ex_index)) Background "kafka" 1
    (ex_proc q1, wk0) with
  | Some (_, (w, _)) => Some w
  | None => None
  end.

Definition after_consumer : option proc :=
  w ← after_worker;
  match @kafka_Consume proc _ (pr_source ex_to true (Some ex_index) "kafka") Background
    (pr_handle ex_to true (Some ex_index) "kafka") 1 w with
  | Some (_, w) => Some w
  | None => None
  end.

Example message_goes_through :
  (w ← after_consumer; tb_by_id (pi_tables (pr_pipe w)) !! 1) = Some (("hi", Checksum "hi", "kafka"), 0) ∧
  (w ← after_consumer; docs_in "otus-messages" (pi_index (pr_pipe w)) !! "1") = Some ex_body ∧
  (elements ∘ pi_acked ∘ pr_pipe) <$> after_consumer = Some [0%nat] ∧
  (w ← after_consumer; ob_delivered <$> db_outbox (pi_db (pr_pipe w)) !! (1, "kafka")) = Some (Some 30).
Proof. vm_compute. done. Qed.
