(* ===== verification/Router.v ===== *)
(** * Router: the application as one handler

    [handlers.New] of [internal/handlers/handlers.go], [apidocs.Handler], and the
    routes of the gateway, the consumer and the proxy: the muxes they register,
    and the application's handler from a request to its reply, through the
    wrapper, the middlewares and the handlers of the components. *)

From stdpp Require Import base option list strings gmap.
From Stdlib Require Import ZArith Lia Ascii.
From S2P Require Import Prelude GoStrings GoSort GoPaths ServeMux Env Messaging EventJson Storage Breaker Http RateLimit Jwt TCache Coord.
From S2P Require Import FileStores RequestJson FilesApi SearchClient MessagesApi OpenApi ApiDocs AuditLogs StatusApi Brokers Gateway Connect Startup ChaosProxy.
Local Open Scope Z_scope.

(** ** The routes *)

(** What the application's patterns lead to. *)
Inductive target := TPublic (ws : list wrapper) (h : endpoint) | TDocs | TMetrics | THello.

#[export] Instance target_eq_dec : EqDecision target.
Proof. solve_decision. Defined.

(** The calls of [mux.Handle] in [New]. *)
Definition app_routes : list (string * target) :=
  ((λ x : string * string * list wrapper * endpoint, (x.1.1.1 +:+ " " +:+ x.1.1.2, TPublic x.1.2 x.2)) <$> publicRoutes) ++
  [("GET /swagger/", TDocs); ("GET /swagger", TDocs); ("GET /metrics", TMetrics); ("GET /", THello)].

(** [apidocs.Handler] *)
Inductive docs_target := DIndex | DYaml | DMoved.

Definition docs_routes : list (string * docs_target) :=
  [("GET /swagger/{$}", DIndex); ("GET /swagger/openapi.yaml", DYaml); ("GET /swagger", DMoved)].

(** [gateway.routes] *)
Inductive gw_target := GWHealth | GWMetrics | GWPublic (h : gw_endpoint).

Definition gw_routes : list (string * gw_target) :=
  [("GET /health", GWHealth); ("GET /metrics", GWMetrics)] ++
  ((λ x : string * gw_endpoint, (x.1, GWPublic x.2)) <$> gw_publicRoutes).

(** The muxes of [metricsServer] in [cmd/consumer] and of the control server in
    [cmd/chaosproxy]. *)
Inductive small_target := SHealth | SMetrics | SControlGet | SControlSet.

Definition consumer_routes : list (string * small_target) := [("GET /metrics", SMetrics); ("GET /health", SHealth)].
Definition control_routes : list (string * small_target) :=
  [("GET /health", SHealth); ("GET /control", SControlGet); ("POST /control", SControlSet); ("GET /metrics", SMetrics)].

(** ** Replies *)

(** The bodies of all handlers. *)
Inductive page :=
| PMsg (b : msg_body)
| PFile (b : files_body)
| PInfo (b : info_body)
| PStatus (d : statusData)
| PText (s : string)
| PMetrics (s : string).

Definition reply_map {A B} (f : A → B) (r : reply A) : reply B :=
  mkReply (rp_status r) (rp_headers r) (match rp_body r with ErrBody m => ErrBody m | OkBody b => OkBody (f b) end).

Definition StatusMovedPermanently : Z := 301.
Definition StatusTemporaryRedirect : Z := 307.
Definition StatusMethodNotAllowed : Z := 405.

(** [http.Redirect] to a path of this server; the note with a link that it writes
    as the body is left out. *)
Definition http_Redirect (location : string) (status : Z) : reply page :=
  mkReply status [("Location", location)] (OkBody (PText "")).

(** [http.Error] *)
Definition http_Error (msg : string) (status : Z) (headers : list (string * string)) : reply page :=
  mkReply status (headers ++ [("Content-Type", "text/plain; charset=utf-8"); ("X-Content-Type-Options", "nosniff")])
    (OkBody (PText msg)).

Fixpoint join_comma (l : list string) : string :=
  match l with
  | [] => ""
  | [x] => x
  | x :: rest => x +:+ ", " +:+ join_comma rest
  end.

(** The mux's own answers; a redirect keeps the query of the request. *)
Definition mux_reply {A} (f : found A) : reply page :=
  match f with
  | Redirect path _ => http_Redirect path StatusTemporaryRedirect
  | NotAllowed ms => http_Error "Method Not Allowed" StatusMethodNotAllowed [("Allow", join_comma ms)]
  | _ => http_Error "404 page not found" StatusNotFound []
  end.

Definition found_pattern {A} (f : found A) : string :=
  match f with Serve _ pat _ => pat | Redirect _ pat => pat | _ => "" end.

(** The pages of the documentation. *)
Definition docs_page (t : docs_target) : reply page :=
  match t with
  | DIndex => mkReply StatusOK [("Content-Type", "text/html; charset=utf-8")] (OkBody (PText indexHTML))
  | DYaml => mkReply StatusOK [("Content-Type", "application/yaml")] (OkBody (PText openapiYAML))
  | DMoved => http_Redirect "/swagger/" StatusMovedPermanently
  end.

(** The handler of [apidocs.Handler]: its mux, entered from the application's. *)
Definition docs_serve (m : mux docs_target) (method path : string) : reply page :=
  match findHandler m method path with
  | Serve t _ _ => docs_page t
  | f => mux_reply f
  end.

(** A request as the server hands it to the mux: its path is
    [r.URL.EscapedPath()]. *)
Record wire := mkWire {
  wq_method : string;
  wq_path : string;
  wq_req : http_request;
  wq_body : stream;
  wq_length : Z
}.

(** [r.PathValue] *)
Definition path_value (values : list (string * string)) (name : string) : string :=
  default "" (snd <$> List.find (λ p, bool_decide (p.1 = name)) values).

Definition with_values (values : list (string * string)) (r : http_request) : http_request :=
  mkReq (hq_ctx r) (hq_remote r) (hq_header r) (hq_query r) (path_value values).

(** ** The application *)

(** The key server next to the limiter's breaker. *)
#[export] Instance key_server_pair {W L} `{KeyServer W} : KeyServer (W * L) := { Get_jwks := on_fst Get_jwks }.

Section App.
Context `{Runtime W, MessageStore W, AuditLog W, MessagesCache W, LocalZone, Blobs W, Files W, Search_ W, Events W}.
Context `{MessageSearcher W, Counter W, KeyServer W, JwtLibrary ((W * Breaker) * Auth)}.
(** The readiness check, [promhttp.Handler], the environment and the start time. *)
Variable ready : ctx → GoM W (option error).
Variable metrics_page : GoM W string.
Variable e : environ.
Variable startedAt : Z.
Variable a : ApiState.

(** The handler behind a route. *)
Definition handle (h : endpoint) (q : wire) (r : http_request) : GoM W (reply page) :=
  let msg (m : GoM W (reply msg_body)) : GoM W (reply page) := x ← m; mret (reply_map PMsg x) in
  let file (m : GoM W (reply files_body)) : GoM W (reply page) := x ← m; mret (reply_map PFile x) in
  let body := mkBodyReq r (wq_body q) (wq_length q) in
  match h with
  | Ereadiness => msg (readiness (msg_api a) ready r)
  | Ehealth => mret (reply_map PInfo health)
  | EversionInfo => mret (reply_map PInfo versionInfo)
  | Ehello => mret (reply_map PMsg (hello r))
  | EstatusPage =>
      d ← statusPage e startedAt (as_authEnabled a) r;
      mret (mkReply StatusOK [("Content-Type", "text/html; charset=utf-8")] (OkBody (PStatus d)))
  | ElistAudit => msg (listAudit (msg_api a) r)
  | ElistMessages => msg (listMessages (msg_api a) r)
  | EcreateMessage => msg (createMessage (msg_api a) r (wq_body q))
  | EsearchMessages => file (searchMessages (files_api a) r)
  | ElistEvents => file (listEvents (files_api a) r)
  | EgetEvent => file (getEvent (files_api a) r)
  | ElistFiles => file (listFiles (files_api a) r)
  | EuploadFile => file (uploadFile (files_api a) body)
  | EdownloadFile => file (downloadFile (files_api a) r)
  | ElistVersions => file (listVersions (files_api a) r)
  | EupdateTags => file (updateTags (files_api a) body)
  end.

(** The state of the process that the middlewares share: the limiter's breaker
    and the key cache. *)
Definition server : Type := (W * Breaker) * Auth.

(** A handler below the limiter. *)
Definition limited (ws : list wrapper) (h : endpoint) (q : wire) (r : http_request) : GoM (W * Breaker) (reply page) :=
  match ws with
  | WLimiter :: _ => RateLimit.Middleware (as_limiter a) (λ r, on_fst (handle h q r)) r
  | _ => on_fst (handle h q r)
  end.

(** A handler below all its middlewares. *)
Definition guarded (ws : list wrapper) (h : endpoint) (q : wire) (r : http_request) : GoM server (reply page) :=
  match ws with
  | WAuth :: rest => Jwt.Middleware (as_authEnabled a) (λ r, on_fst (limited rest h q r)) r
  | _ => on_fst (limited ws h q r)
  end.

(** What a pattern leads to. *)
Definition serve_target (dm : mux docs_target) (t : target) (q : wire) (r : http_request) : GoM server (reply page) :=
  match t with
  | TPublic ws h => guarded ws h q r
  | TDocs => mret (docs_serve dm (wq_method q) (wq_path q))
  | TMetrics => text ← on_fst (on_fst metrics_page); mret (mkReply StatusOK [] (OkBody (PMetrics text)))
  | THello => mret (reply_map PMsg (hello r))
  end.

(** [mux.ServeHTTP] *)
Definition serve (m : mux target) (dm : mux docs_target) (q : wire) : GoM server (reply page) :=
  match findHandler m (wq_method q) (wq_path q) with
  | Serve t _ values => serve_target dm t q (with_values values (wq_req q))
  | f => mret (mux_reply f)
  end.

(** The [r.Pattern] left behind, which an inner mux overwrites. *)
Definition served_pattern (m : mux target) (dm : mux docs_target) (q : wire) : string :=
  match findHandler m (wq_method q) (wq_path q) with
  | Serve TDocs _ _ => found_pattern (findHandler dm (wq_method q) (wq_path q))
  | f => found_pattern f
  end.

(** The muxes of [New]; registration panics on a bad or conflicting pattern. *)
Definition New : option (mux target * mux docs_target) :=
  m ← register app_routes []; dm ← register docs_routes []; mret (m, dm).

(** The handler [New] returns: the mux in its wrapper. *)
Definition app_handler (encode : body_of page → string) (m : mux target) (dm : mux docs_target) (q : wire) : GoM server (list wr) :=
  WrapHTTP (wq_method q) (served_pattern m dm q) (rep ← serve m dm q; mret (writes_of encode rep)).

End App.

(** ** The gateway *)

Record gw_wire := mkGwWire {
  gq_method : string;
  gq_path : string;
  gq_req : gw_request
}.

Section GatewayRoutes.
Context `{Runtime W, Upstream W, GrpcUnary W, GrpcStreams W}.
Variables (appURL : string) (url_ok : string → bool) (metrics_page : GoM W string).

(** The handler of a route; [n] bounds the receives of [grpcList]. *)
Definition gw_handle (n : nat) (h : gw_endpoint) (q : gw_wire) : GoM W gw_reply :=
  match h with
  | GproxyCreate => proxyCreate appURL url_ok (gq_req q)
  | GproxyList => proxyList appURL url_ok (gq_req q)
  | GgrpcCreate => grpcCreate (gq_req q)
  | GgrpcList => x ← grpcList n (gq_req q); mret x.1
  | GgrpcBatch => grpcBatch (gq_req q)
  | GgrpcChat => grpcChat (gq_req q)
  end.

(** The mux of [gateway.routes]; the answers of the mux itself are on the right. *)
Definition gw_serve (n : nat) (m : mux gw_target) (q : gw_wire) : GoM W (gw_reply + reply page) :=
  match findHandler m (gq_method q) (gq_path q) with
  | Serve GWHealth _ _ => mret (inl gw_health)
  | Serve GWMetrics _ _ => text ← metrics_page; mret (inl (mkGwReply StatusOK ∅ (GRaw text)))
  | Serve (GWPublic h) _ _ => rep ← gw_handle n h q; mret (inl rep)
  | f => mret (inr (mux_reply f))
  end.

End GatewayRoutes.

(** ** The control server of the proxy *)

Definition control_serve {W} `{Runtime W} (metrics_page : GoM W string) (m : mux small_target) (method path : string)
    (body : option faults) : GoM (W * faults) (reply control_body + reply page) :=
  match findHandler m method path with
  | Serve SHealth _ _ => mret (inl controlHealth)
  | Serve SControlGet _ _ => rep ← controlGet; mret (inl rep)
  | Serve SControlSet _ _ => rep ← controlSet body; mret (inl rep)
  | Serve SMetrics _ _ => text ← on_fst metrics_page; mret (inr (mkReply StatusOK [] (OkBody (PMetrics text))))
  | f => mret (inr (mux_reply f))
  end.

(** ** The metrics server of the consumer *)

Definition consumer_serve_metrics {W} (metrics_page : GoM W string) (m : mux small_target) (method path : string) : GoM W (reply page) :=
  match findHandler m method path with
  | Serve SHealth _ _ => mret (mkReply StatusOK [("Content-Type", "application/json")] (OkBody (PInfo (IStatus "работает"))))
  | Serve SMetrics _ _ => text ← metrics_page; mret (mkReply StatusOK [] (OkBody (PMetrics text)))
  | f => mret (mux_reply f)
  end.
