(* ===== verification/RouterProps.v ===== *)
(** * RouterProps: every route is reached, and only tokens change anything

    The muxes of [Router]: they register in every order, each route is reached
    under every value of its wildcards, and the application as a whole changes
    nothing for a request without a verified token. *)

From stdpp Require Import base option list strings gmap.
From Stdlib Require Import ZArith Lia Ascii.
From S2P Require Import Prelude Framed GoStrings Metrics Metered GoSort GoPaths ServeMux Env Messaging EventJson Storage Breaker Http RateLimit Jwt JwtFrame TCache Coord.
From S2P Require Import FileStores FilesApi SearchClient MessagesApi OpenApi ApiDocs AuditLogs StatusApi Brokers Gateway Connect Startup.
From S2P Require Import ChaosProxy Router.
Local Open Scope Z_scope.

(** ** The muxes *)

Definition app_mux : mux target := Eval vm_compute in default [] (register app_routes []).
Definition docs_mux : mux docs_target := Eval vm_compute in default [] (register docs_routes []).
Definition gw_mux : mux gw_target := Eval vm_compute in default [] (register gw_routes []).
Definition control_mux : mux small_target := Eval vm_compute in default [] (register control_routes []).

Lemma app_registers : register app_routes [] = Some app_mux.
Proof. vm_compute. reflexivity. Qed.
Lemma docs_registers : register docs_routes [] = Some docs_mux.
Proof. vm_compute. reflexivity. Qed.
Lemma gw_registers : register gw_routes [] = Some gw_mux.
Proof. vm_compute. reflexivity. Qed.
Lemma control_registers : register control_routes [] = Some control_mux.
Proof. vm_compute. reflexivity. Qed.

(** The routes come out of Go maps, whose order is random: registering them
    succeeds in every order, and the mux finds the same whatever the order was;
    for the application and for the gateway. *)
Theorem routing_order_free :
  (∀ routes, routes ≡ₚ app_routes → ∃ m, register routes [] = Some m ∧
     ∀ method path, findHandler m method path = findHandler app_mux method path) ∧
  (∀ routes, routes ≡ₚ gw_routes → ∃ m, register routes [] = Some m ∧
     ∀ method path, findHandler m method path = findHandler gw_mux method path).
Proof.
  split; intros routes Hp; symmetry in Hp; eapply register_perm in Hp as (m & Hm & Hperm);
    [|apply app_registers| |apply gw_registers]; exists m; (split; [done|]); intros method path; symmetry;
    (apply findHandler_perm; [|done]); eapply register_no_conflict; [apply app_registers|apply gw_registers].
Qed.

(** ** Reaching routes *)

Section Reach.
Context {A : Type}.
Implicit Types ps : list (list seg * A).

Lemma matchPath_lit_hit s ps rest ms x :
  matchPath (lit_child s ps) rest ms = Some x → matchPath ps (s :: rest) ms = Some x.
Proof. intros E. cbn [matchPath]. by rewrite E. Qed.

Lemma matchPath_nil path ms : matchPath (A := A) [] path ms = None.
Proof. revert ms. induction path as [|s path IH]; intros ms; [done|]. cbn. rewrite !IH. by case_bool_decide. Qed.

Lemma matchPath_wild_hit s ps rest ms x :
  s ≠ "/" → lit_child s ps = [] → matchPath (wild_child ps) rest (ms ++ [s]) = Some x →
  matchPath ps (s :: rest) ms = Some x.
Proof. intros Hs El E. cbn [matchPath]. rewrite El, matchPath_nil, bool_decide_false, E by done. done. Qed.

End Reach.

Section Client.
Context {A : Type}.

Lemma match_mux_hit (m : mux A) method path x :
  matchPath (of_method method m) (path_segs path) [] = Some x → match_mux m method path = Some x.
Proof. intros E. unfold match_mux. by rewrite E. Qed.

Lemma match_mux_head (m : mux A) path x :
  of_method "HEAD" m = [] → matchPath (of_method "GET" m) (path_segs path) [] = Some x →
  match_mux m "HEAD" path = Some x.
Proof. intros E0 E. unfold match_mux. by rewrite E0, matchPath_nil, bool_decide_true. Qed.

(** A client's path that matches a pattern without a trailing slash is served. *)
Lemma findHandler_client (m : mux A) method segs p h vs :
  method ≠ "CONNECT" → Forall segment segs → segs ≠ [] →
  match_mux m method (client_path segs) = Some (p, h, vs) → ends_multi (pt_segs p) = false →
  findHandler m method (client_path segs) = Serve h (pt_str p) (zip (wild_names (pt_segs p)) vs).
Proof.
  intros Hm Hs Hne E He. unfold findHandler. rewrite bool_decide_false by done.
  destruct (client_path_clean segs Hs Hne) as [-> Hslash]. rewrite E. cbn [exactMatch]. rewrite He. cbn [negb andb].
  by rewrite bool_decide_true.
Qed.

End Client.

Ltac reach :=
  match goal with
  | |- matchPath _ [] _ = _ => reflexivity
  | |- matchPath _ _ _ = _ =>
      first [ apply matchPath_wild_hit; [assumption|reflexivity|]; reach | apply matchPath_lit_hit; reach ]
  end.

Ltac route_cases H :=
  unfold publicRoutes in H; rewrite !elem_of_cons, elem_of_nil in H; destruct_or! H; try done; injection H as -> -> -> ->.


(** ** Who may change what *)

(** The operations that only read keep [R]: all of the interfaces but creating
    messages, putting files and tags, indexing, recording and invalidating. *)
Class ReadsKeep {W} `{Runtime W, MessageStore W, AuditLog W, MessagesCache W, Blobs W, Files W, Search_ W, Events W,
    MessageSearcher W, Counter W, KeyServer W} (R : W → W → Prop) := {
  rk_metered :: Metered R;
  rk_List : ∀ c, framed R (store_List c);
  rk_Last : ∀ c n, framed R (al_Last c n);
  rk_cGet : ∀ c k, framed R (mc_Get c k);
  rk_cSet : ∀ c k v, framed R (mc_Set c k v);
  rk_bGet : ∀ c k v o l, framed R (b_Get c k v o l);
  rk_bList : ∀ c p, framed R (b_List c p);
  rk_bVersions : ∀ c k, framed R (b_Versions c k);
  rk_bStat : ∀ c k v, framed R (b_Stat c k v);
  rk_bFind : ∀ c k v p, framed R (b_FindByTag c k v p);
  rk_bClose : ∀ rd, framed R (b_Close rd);
  rk_fGet : ∀ c n o l, framed R (fs_Get c n o l);
  rk_fList : ∀ c, framed R (fs_List c);
  rk_fStat : ∀ c n, framed R (fs_Stat c n);
  rk_fClose : ∀ rd, framed R (fs_Close rd);
  rk_sMessages : ∀ c q n, framed R (se_SearchMessages c q n);
  rk_sFiles : ∀ c k v b n, framed R (se_SearchFiles c k v b n);
  rk_Recent : ∀ c d n, framed R (ev_Recent c d n);
  rk_ByID : ∀ c i, framed R (ev_ByID c i);
  rk_Scan : ∀ c q n, framed R (ev_Scan c q n);
  rk_Search : ∀ c q n, framed R (ms_Search c q n);
  rk_Hit : ∀ c k n, framed R (Hit c k n);
  rk_jwks : framed R Get_jwks
}.

#[export] Hint Resolve rk_List rk_Last rk_cGet rk_cSet rk_bGet rk_bList rk_bVersions rk_bStat rk_bFind rk_bClose
  rk_fGet rk_fList rk_fStat rk_fClose rk_sMessages rk_sFiles rk_Recent rk_ByID rk_Scan rk_Search rk_Hit rk_jwks : framed.

(** The endpoints that change something. *)
Definition changes (h : endpoint) : bool :=
  match h with EcreateMessage | EuploadFile | EupdateTags => true | _ => false end.

Section Reading.
Context `{ReadsKeep W R} `{!LocalZone} `{!JwtLibrary ((W * Breaker) * Auth), !JwtPure ((W * Breaker) * Auth)}.
Variable ready : ctx → GoM W (option error).
Variable metrics_page : GoM W string.
Hypothesis ready_keeps : ∀ c, framed R (ready c).
Hypothesis metrics_keep : framed R metrics_page.
Variables (e : environ) (startedAt : Z) (a : ApiState).

#[local] Hint Resolve ready_keeps metrics_keep : framed.

Lemma handle_reads h q r : changes h = false → framed R (handle ready e startedAt a h q r).
Proof.
  destruct h; intros Hc; try discriminate Hc; cbn [handle];
    unfold readiness, statusPage, Service_List, listAudit, listMessages, list_from_store, searchMessages, listEvents, getEvent,
      listFiles, downloadFile, listVersions, elapsed_ms; framed_go.
Qed.

(** The world below the breaker and the key cache. *)
Notation R2 := (on_first (L := Breaker) R).
Notation R3 := (on_first (L := Auth) (on_first (L := Breaker) R)).

Lemma hit_keeps c key window : framed (on_first (L := Breaker) (on_first (L := Z) R)) (hit_call c key window).
Proof.
  intros [[w n] b] x w' E. unfold hit_call in E. cbn in E. destruct (Hit c key window w) as [[[count err] w1]|] eqn:Hh; [|done].
  injection E as _ <-. unfold on_first. cbn. by eapply rk_Hit.
Qed.

Lemma check_keeps l r : framed R2 (check l r).
Proof.
  intros [w b] x [w' b']. unfold check. destruct (_ =? 0); [done|]. cbn [fst snd].
  destruct (Breaker_Do _ _ _) as [[err [[w1 count] b1]]|] eqn:E; [|done]. intros [= _ <- _].
  apply (metered_Breaker_Do (on_first (L := Z) R)) in E; [exact E|apply hit_keeps].
Qed.

Lemma limited_keeps ws h q r : framed R (handle ready e startedAt a h q r) → framed R2 (limited ready e startedAt a ws h q r).
Proof.
  intros Hh. unfold limited, RateLimit.Middleware. pose proof check_keeps.
  destruct ws as [|[] ws]; [eauto with framed..|]. destruct (as_limiter a); framed_go; eauto with framed.
Qed.

Lemma Validate_keeps raw : framed R3 (Validate raw).
Proof. apply Validate_framed; try typeclasses eauto. cbn. eauto with framed. Qed.

Lemma guarded_keeps ws h q r : framed R (handle ready e startedAt a h q r) → framed R3 (guarded ready e startedAt a ws h q r).
Proof.
  intros Hh. pose proof (λ ws, limited_keeps ws h q r Hh) as Hl. pose proof Validate_keeps.
  unfold guarded, Jwt.Middleware. destruct ws as [|[] ws]; [eauto with framed| |eauto with framed].
  destruct (negb _); [eauto with framed|]. framed_go; eauto with framed.
Qed.

(** A request without a verified token does not get past the authentication. *)
Definition authenticated (q : wire) (s : (W * Breaker) * Auth) `{!JwtLaws ((W * Breaker) * Auth)} : Prop :=
  ∃ raw tok kid key s1, hq_header (wq_req q) "Authorization" = "Bearer " +:+ raw ∧ raw ≠ "" ∧
    header_of raw = Some tok ∧ tok_kid tok = Some kid ∧ kid ≠ "" ∧ verified (jwt_opts s.2) key raw ∧
    a_keys s1.2 !! kid = Some key ∧
    (s1 = s ∨ ∃ body doc, Get_jwks s.1 = Some (inl (StatusOK, body), s1.1) ∧
      decode_jwks body = Some doc ∧ a_keys s1.2 = jwks_keys doc).

Lemma guarded_needs_token `{!JwtLaws ((W * Breaker) * Auth)} ws h q r (s s' : (W * Breaker) * Auth) rep :
  as_authEnabled a = true → hq_header r = hq_header (wq_req q) →
  guarded ready e startedAt a (WAuth :: ws) h q r s = Some (rep, s') →
  R s.1.1 s'.1.1 ∧ rp_status rep = StatusUnauthorized ∨ authenticated q s.
Proof.
  intros Ha Hr. cbn [guarded]. unfold Jwt.Middleware. rewrite Ha, Hr. cbn [negb].
  destruct (CutPrefix _ _) as [raw found] eqn:Hcut.
  destruct (negb found || bool_decide (raw = "")) eqn:Hbad; [intros [= <- <-]; left; split; [reflexivity|done]|].
  apply orb_false_iff in Hbad as [Hf Hraw]. apply negb_false_iff in Hf as ->.
  apply bool_decide_eq_false in Hraw. apply CutPrefix_true in Hcut.
  intros (err & s1 & Hv & Hrest)%gom_bind_Some. destruct err as [e'|].
  - injection Hrest as <- <-. left. split; [|done]. by apply Validate_keeps in Hv.
  - right. destruct s as [w au], s1 as [w1 au1].
    apply Validate_sound in Hv as (tok & kid & key & ? & ? & ? & ? & ? & ?).
    by exists raw, tok, kid, key, (w1, au1).
Qed.

Lemma target_keeps ws h :
  (∃ p, (p, TPublic ws h) ∈ app_mux) → changes h = true → ∃ ws', ws = WAuth :: ws'.
Proof.
  intros [p Hin]. unfold app_mux in Hin. rewrite !elem_of_cons, elem_of_nil in Hin.
  destruct_or! Hin; try done; injection Hin as _ -> ->; intros Hc; try discriminate Hc; eauto.
Qed.

End Reading.

(** C14: End to end, nothing changes without a token.  With authentication on, take
    any request, whatever its method, path, headers and body.  Either it carries
    a bearer token that was verified as RS256 under the configured options with a
    key the key server published, or the world ends related to where it began by
    every relation that reading keeps (so no message is created, no file or tag
    put, nothing indexed, recorded or invalidated), and if the request was for a
    route that changes something the reply is 401. *)
Theorem mutation_needs_token `{ReadsKeep W R} `{!LocalZone} `{!JwtLibrary ((W * Breaker) * Auth)}
    `{!JwtPure ((W * Breaker) * Auth), !JwtLaws ((W * Breaker) * Auth)}
    (ready : ctx → GoM W (option error)) (metrics_page : GoM W string) (e : environ) (startedAt : Z) (a : ApiState)
    (q : wire) (s s' : (W * Breaker) * Auth) (rep : reply page) :
  (∀ c, framed R (ready c)) → framed R metrics_page → as_authEnabled a = true →
  serve ready metrics_page e startedAt a app_mux docs_mux q s = Some (rep, s') →
  (R s.1.1 s'.1.1 ∧
   ∀ ws h pat values, findHandler app_mux (wq_method q) (wq_path q) = Serve (TPublic ws h) pat values →
     changes h = true → rp_status rep = StatusUnauthorized) ∨
  authenticated q s.
Proof.
  intros Hready Hmetrics Ha. unfold serve.
  destruct (findHandler app_mux (wq_method q) (wq_path q)) as [t pat values|path pat|ms|] eqn:Hf;
    [|intros [= <- <-]; left; split; [reflexivity|done]..].
  destruct t as [ws h| | |]; cbn [serve_target].
  - destruct (changes h) eqn:Hc.
    + destruct (target_keeps ws h) as [ws' ->]; [|done|].
      { apply findHandler_serves in Hf as (p & vs & Hin & _); [eauto|]. eapply register_no_conflict, app_registers. }
      intros [[HR Hst]|Hauth]%(guarded_needs_token _ _ _ _); [|by right|done|done].
      left. split; [done|]. by intros ????[= <- <- _ _].
    + intros Hrun. left. split; [|intros ????[= <- <- _ _]; congruence].
      revert Hrun. apply guarded_keeps. by apply handle_reads.
  - intros [= <- <-]. left. split; [reflexivity|done].
  - intros Hrun. left. split; [|done]. revert Hrun. apply (framed_bind (on_first (on_first R))); eauto with framed.
  - intros [= <- <-]. left. split; [reflexivity|done].
Qed.
