(* ===== verification/RouterSim.v ===== *)
(** * RouterSim: the application in a simulated environment

    The router over the tables of [Storage] and empty other stores, with a key
    server and a JWT library that know one token: the witnesses of
    [RouterProps]. *)

From stdpp Require Import base option list strings gmap.
From Stdlib Require Import ZArith Lia Ascii.
From S2P Require Import Prelude Framed Metrics GoStrings GoSort GoPaths ServeMux Env Messaging EventJson Storage StorageProps Breaker Http RateLimit Jwt JwtFrame.
From S2P Require Import FileStores RequestJson FilesApi SearchClient MessagesApi OpenApi ApiDocs AuditLogs PostgresStore StatusApi Brokers Gateway Connect.
From S2P Require Import TCache Coord Startup ChaosProxy Router RouterProps.
Local Open Scope Z_scope.

(** ** The world *)

Definition rw : Type := sim * db.

#[local] Existing Instance utc_codec.
#[local] Instance rw_store : MessageStore rw := pg_store ["kafka"].
#[local] Instance rw_audit : AuditLog rw := {| al_Record c ev text := mret (); al_Last c n := mret (inl []) |}.
#[local] Instance rw_cache : MessagesCache rw :=
  {| mc_Get c k := mret ("", false); mc_Set c k v := mret (); mc_Delete c k := mret () |}.
#[local] Instance rw_codec : LocalZone := utc.
#[local] Instance rw_blobs : Blobs rw := {|
  b_Put c name s n ct tags := mret (zero_Object, None);
  b_Get c key version offset length := mret (inr (ErrText "no such key"));
  b_List c prefix := mret (inl []);
  b_Versions c key := mret (inl []);
  b_SetTags c key tags := mret None;
  b_Stat c key version := mret (inr (ErrText "no such key"));
  b_FindByTag c key value prefix := mret (inl []);
  b_Bucket := "files";
  b_Close rd := mret ()
|}.
#[local] Instance rw_files : Files rw := {|
  fs_Put c name s := mret (zero_File, None);
  fs_Get c name offset length := mret (inr (ErrText "no such file"));
  fs_List c := mret (inl []);
  fs_Stat c name := mret (inr (ErrText "no such file"));
  fs_Close rd := mret ()
|}.
#[local] Instance rw_search : Search_ rw := {|
  se_SearchMessages c q n := mret (inl (mkResult 0 0 [] []));
  se_SearchFiles c k v b n := mret (inl (mkResult 0 0 [] []));
  se_IndexFile c doc := mret None
|}.
#[local] Instance rw_events : Events rw := {|
  ev_Recent c d n := mret (inl []);
  ev_ByID c i := mret (inr (ErrText "not found"));
  ev_Scan c q n := mret (inl ([], 0))
|}.
#[local] Instance rw_searcher : MessageSearcher rw := {| ms_Search c q n := mret (inl []) |}.
#[local] Instance rw_counter : Counter rw := {| Hit c k n := mret (1, None) |}.
#[local] Instance rw_keys : KeyServer rw := {|
  Get_jwks := mret (inl (200, ex_jwks))
|}.

(** Reading leaves the tables as they are. *)
Definition same_db (w w' : rw) : Prop := w'.2 = w.2.

#[local] Instance same_db_frame : Frame same_db := frame_same_snd.

#[local] Instance rw_reads : ReadsKeep same_db.
Proof. split; [apply frame_metered, same_db_frame|..]; intros; intros w x w' E; by injection E as _ <-. Defined.

(** A library that knows the token "good". *)
#[local] Instance rw_jwt : JwtLibrary ((rw * Breaker) * Auth) := {|
  jwt_Parse opts kf raw :=
    match ex_header_of raw with
    | None => mret (Some (ErrText "malformed"))
    | Some tok =>
        r ← kf tok;
        match r with
        | inl key => mret (if pk_E key =? 65537 then None else Some (ErrText "signature is invalid"))
        | inr e => mret (Some e)
        end
    end
|}.

#[local] Instance rw_jwt_laws : JwtLaws ((rw * Breaker) * Auth).
Proof.
  refine {| header_of := ex_header_of; verified opts key raw := raw = "good" ∧ pk_E key = 65537 |}.
  intros opts kf raw s s'. cbn. unfold ex_header_of. case_bool_decide as Hr; [|done].
  intros (r & s1 & Hk & Hrest)%gom_bind_Some. destruct r as [key|e]; [|done].
  destruct (pk_E key =? 65537) eqn:E; [|done]. injection Hrest as <-.
  exists (mkToken (Some "k1")), key. split_and!; [done..|lia].
Defined.

#[local] Instance rw_jwt_pure : JwtPure ((rw * Breaker) * Auth).
Proof.
  split. intros P opts kf raw Hrefl Htrans Hkf s x s'. cbn. destruct (ex_header_of raw) as [tok|].
  - intros (r & s1 & Hk & Hrest)%gom_bind_Some. apply Hkf in Hk. by destruct r as [key|e]; injection Hrest as <- <-.
  - intros [= <- <-]. apply Hrefl.
Defined.

Definition rw_api : ApiState :=
  mkApi (mkPostgres 0 ["kafka"]) true false (Some (mkLimiter 100 Minute)) None None None None None None.

Definition rw_wire (method path auth : string) : wire :=
  mkWire method path
    (mkReq Background "10.0.0.1:5" (λ h, if bool_decide (h = "Authorization") then auth else "") (λ _, "") (λ _, ""))
    (mkStream (text_body "hi") None) 13.

Definition rw_start : (rw * Breaker) * Auth := (((sim0, db_empty), new_breaker "redis" 0), mkAuth "" ∅ (-60 * Second)).

Definition rw_serve (q : wire) : option (reply page * ((rw * Breaker) * Auth)) :=
  serve (λ _, mret None) (mret "") (λ _, "") 0 rw_api app_mux docs_mux q rw_start.

(** ** Witnesses *)

Lemma mutation_needs_token_witness :
  ∃ rep s', rw_serve (rw_wire "POST" "/messages" "") = Some (rep, s') ∧ rp_status rep = 401 ∧ s'.1.1.2 = db_empty.
Proof.
  destruct (rw_serve (rw_wire "POST" "/messages" "")) as [[rep s']|] eqn:E; [|vm_compute in E; discriminate E].
  destruct (mutation_needs_token (R := same_db) (λ _, mret None) (mret "") (λ _, "") 0 rw_api
    (rw_wire "POST" "/messages" "") rw_start s' rep) as [[HR Hst]|Hauth].
  - intros c. apply framed_ret, (@frame_preorder _ _ same_db same_db_frame).
  - apply framed_ret, (@frame_preorder _ _ same_db same_db_frame).
  - reflexivity.
  - exact E.
  - exists rep, s'. split; [reflexivity|]. split; [|exact HR].
    apply (Hst [WAuth; WLimiter] EcreateMessage "POST /messages" []); vm_compute; reflexivity.
  - exfalso. destruct Hauth as (raw & tok & kid & key & s1 & Hh & _). vm_compute in Hh. discriminate Hh.
Defined.

(** With the token the message is stored. *)
Example token_creates :
  (λ x, (rp_status x.1, db_seq x.2.1.1.2)) <$> rw_serve (rw_wire "POST" "/messages" "Bearer good") = Some (201, 1).
Proof. vm_compute. reflexivity. Qed.

(** The other ways through the mux: a page, the catch-all, a wrong method, a path
    to clean, and a document that is not there. *)
Example mux_answers :
  (λ q, (λ x, (rp_status x.1, hd ("", "") (rp_headers x.1))) <$> rw_serve q) <$>
    [rw_wire "GET" "/swagger/openapi.yaml" ""; rw_wire "HEAD" "/no/such/page" ""; rw_wire "DELETE" "/messages" "";
     rw_wire "GET" "/files/../messages" ""; rw_wire "GET" "/swagger/other" ""; rw_wire "GET" "/swagger" ""] =
  [Some (200, ("Content-Type", "application/yaml")); Some (200, ("Content-Type", "application/json"));
   Some (405, ("Allow", "GET, HEAD, POST")); Some (307, ("Location", "/messages"));
   Some (404, ("Content-Type", "text/plain; charset=utf-8")); Some (301, ("Location", "/swagger/"))].
Proof. vm_compute. reflexivity. Qed.


Lemma routing_order_free_witness :
  ∃ m, register (reverse app_routes) [] = Some m ∧
    findHandler m "GET" "/health" = findHandler app_mux "GET" "/health".
Proof.
  destruct routing_order_free as [Happ _]. destruct (Happ (reverse app_routes)) as (m & Hm & Hf).
  - apply reverse_Permutation.
  - exists m. split; [exact Hm|apply Hf].
Defined.
