(* ===== verification/MetricsProps.v ===== *)
(** * MetricsProps: no use of a metric panics

    The programs as a whole, against libraries that leave the program's metrics
    alone: the worker, the consumers with their handler, the application's HTTP
    handler and the gRPC methods make only valid updates. *)

From stdpp Require Import base option list strings gmap.
From Stdlib Require Import ZArith Lia.
From S2P Require Import Prelude Framed GoStrings Metrics Metered Env Messaging EventJson Storage Retry Breaker OutboxWorker Http RateLimit Jwt JwtFrame.
From S2P Require Import FileStores FilesApi SearchClient MessagesApi StatusApi GrpcServer Consumers Cassandra Connect Startup Router RouterProps.
From S2P Require Import ServeMux.
Local Open Scope Z_scope.

(** ** The worker *)

(** What the worker calls. *)
Class WorkerKeeps {W} `{OutboxStore W, Publishers W} (R : W → W → Prop) := {
  ok_claim : ∀ c t l, framed R (o_Claim c t l);
  ok_complete : ∀ c d, framed R (o_Complete c d);
  ok_retry : ∀ c d n, framed R (o_Retry c d n);
  ok_stats : ∀ c t, framed R (o_OutboxStats c t);
  ok_factory : ∀ c t, framed R (p_factory c t);
  ok_publish : ∀ h c ev, framed R (p_Publish h c ev);
  ok_close : ∀ h, framed R (p_Close h)
}.

#[export] Hint Resolve ok_claim ok_complete ok_retry ok_stats ok_factory ok_publish ok_close : framed.

Section Worker.
Context `{Runtime W, OutboxStore W, Publishers W} (R : W → W → Prop) `{!Metered R, !WorkerKeeps R}.
Variables (c : ctx) (target : string).

Notation R' := (on_first (L := wk) R).

Lemma metered_upd f : framed R' (upd f).
Proof. apply framed_modify. intros w. unfold on_first. cbn. reflexivity. Qed.

Lemma metered_locals : framed R' locals.
Proof. unfold locals. framed_go. Qed.

#[local] Hint Resolve metered_upd metered_locals : framed.

Lemma metered_run n : framed R' (run c target n).
Proof.
  induction n as [|n IH]; cbn [run]; unfold run_body, run_claimed, run_claim_failed, run_stats, run_claim, run_publish, run_failed,
    run_published, run_deferred, inc; framed_go.
Qed.

End Worker.

(** ** The consumers *)

(** What the consumers call: the brokers and the two stores. *)
Class ConsumerKeeps {W} `{Source W, RabbitSource W, EventSink W} (R : W → W → Prop) := {
  ok_fetch : ∀ c, framed R (src_Fetch c);
  ok_ack : ∀ c d, framed R (src_Ack c d);
  ok_nak : ∀ d, framed R (src_Nak d);
  ok_sleep : ∀ d, framed R (src_Sleep d);
  ok_channel : ∀ c, framed R (r_channel c);
  ok_qos : ∀ ch, framed R (r_Qos ch);
  ok_subscribe : ∀ c ch, framed R (r_Subscribe c ch);
  ok_next : ∀ sub, framed R (r_Next sub);
  ok_reset : framed R r_reset;
  ok_save : ∀ c ev b, framed R (sink_Save c ev b);
  ok_index : ∀ c ev b, framed R (sink_Index c ev b)
}.

#[export] Hint Resolve ok_fetch ok_ack ok_nak ok_sleep ok_channel ok_qos ok_subscribe ok_next ok_reset ok_save ok_index : framed.

Section Consumers.
Context `{EventCodec, Runtime W, Source W, RabbitSource W, EventSink W} (R : W → W → Prop) `{!Metered R, !ConsumerKeeps R}.
Variables (has_events has_index : bool) (broker : string) (c : ctx).

Notation handle := (consumer_handle has_events has_index broker).

Lemma metered_handle c' ev : framed R (handle c' ev).
Proof. unfold consumer_handle. framed_go. Qed.
#[local] Hint Resolve metered_handle : framed.

Lemma metered_kafka n : framed R (kafka_Consume c handle n).
Proof. induction n as [|n IH]; cbn [kafka_Consume]; unfold consumed, lag; framed_go. Qed.

Lemma metered_nats closed n : framed R (nats_loop c handle closed n).
Proof. induction n as [|n IH]; cbn [nats_loop]; unfold consumed, lag; framed_go. Qed.

Lemma metered_rabbit n sub : framed R (rabbit_Consume c handle n sub).
Proof. revert sub. induction n as [|n IH]; intros sub; cbn [rabbit_Consume]; unfold consumed, lag; framed_go. Qed.

End Consumers.

(** ** The application *)

(** The operations that change something. *)
Class WritesKeep {W} `{MessageStore W, AuditLog W, MessagesCache W, Blobs W, Files W, Search_ W} (R : W → W → Prop) := {
  wk_Create : ∀ c t k, framed R (store_Create c t k);
  wk_Record : ∀ c e t, framed R (al_Record c e t);
  wk_Delete : ∀ c k, framed R (mc_Delete c k);
  wk_bPut : ∀ c k b n ct t, framed R (b_Put c k b n ct t);
  wk_SetTags : ∀ c k t, framed R (b_SetTags c k t);
  wk_fPut : ∀ c n b, framed R (fs_Put c n b);
  wk_Index : ∀ c d, framed R (se_IndexFile c d)
}.

#[export] Hint Resolve wk_Create wk_Record wk_Delete wk_bPut wk_SetTags wk_fPut wk_Index : framed.

Section App.
Context `{ReadsKeep W R} `{!WritesKeep R} `{!LocalZone} `{!JwtLibrary ((W * Breaker) * Auth), !JwtPure ((W * Breaker) * Auth)}.
Variable ready : ctx → GoM W (option error).
Variable metrics_page : GoM W string.
Hypothesis ready_keeps : ∀ c, framed R (ready c).
Hypothesis metrics_keep : framed R metrics_page.
Variables (e : environ) (startedAt : Z) (a : ApiState).

Lemma metered_handler h q r : framed R (Router.handle ready e startedAt a h q r).
Proof.
  destruct (changes h) eqn:Hc; [|by apply handle_reads]. destruct h; try discriminate Hc; cbn [Router.handle];
    unfold createMessage, Service_Create, uploadFile, updateTags, indexFile; framed_go.
Qed.

Notation R3 := (on_first (L := Auth) (on_first (L := Breaker) R)).

Lemma metered_guarded ws h q r : framed R3 (guarded ready e startedAt a ws h q r).
Proof. apply guarded_keeps, metered_handler. Qed.
#[local] Hint Resolve metered_guarded metrics_keep : framed.

Lemma metered_serve m dm q : framed R3 (serve ready metrics_page e startedAt a m dm q).
Proof. unfold serve, serve_target. destruct (findHandler m _ _) as [[ws h| | |]| | |]; framed_go. Qed.
#[local] Hint Resolve metered_serve : framed.

Lemma metered_app encode m dm q : framed R3 (app_handler ready metrics_page e startedAt a encode m dm q).
Proof. unfold app_handler, WrapHTTP. framed_go. Qed.

Lemma metered_CreateMessage c md text : framed R (CreateMessage c md text).
Proof. unfold CreateMessage, Service_Create. framed_go. Qed.

Lemma metered_BatchCreate c ids recvs : framed R (BatchCreate c ids recvs).
Proof. revert ids. induction recvs as [|[t|err] recvs IH]; intros ids; cbn [BatchCreate]; unfold Service_Create; framed_go. Qed.

End App.

(** ** The stores

    The operations behind the consumers' interfaces report to the metrics
    themselves. *)

Section Stores.
Context `{Runtime W} (R : W → W → Prop) `{!Metered R}.

Lemma metered_ObserveStorage backend op start failed : framed R (ObserveStorage backend op start failed).
Proof. unfold ObserveStorage. framed_go. Qed.

Lemma metered_IndexMessage `{!Elastic W, !LocalZone} i c doc :
  (∀ c index body id refresh, framed R (es_Index c index body id refresh)) → (∀ r, framed R (es_Close r)) →
  framed R (IndexMessage i c doc).
Proof.
  intros Hi Hc. pose proof metered_ObserveStorage. unfold IndexMessage, observed, index_doc. framed_go.
Qed.

Lemma metered_Save enabled fate ev producer : framed (on_first (L := tables) R) (Save enabled fate ev producer).
Proof.
  unfold Save, observe, ObserveStorage. framed_go. apply framed_modify. intros w. unfold on_first. cbn. reflexivity.
Qed.

End Stores.

(** ** Properties *)

(** The loops report only what is registered.  Whatever the store, the brokers and
    the stores answer, every update that the outbox worker, the three [Consume]
    loops and the consumer's handler make is of a registered metric, by a method of
    its kind and with a value for each of its labels, so that none of them panics:
    every relation that such updates and the library calls keep is kept. *)
Theorem loops_metrics_valid `{EventCodec, Runtime W, OutboxStore W, Publishers W, Source W, RabbitSource W, EventSink W}
    (R : W → W → Prop) `{!Metered R, !WorkerKeeps R, !ConsumerKeeps R}
    (c : ctx) (target broker : string) (has_events has_index : bool) (closed : error → bool) (n : nat) :
  framed (on_first R) (run c target n) ∧
  framed R (kafka_Consume c (consumer_handle has_events has_index broker) n) ∧
  framed R (nats_loop c (consumer_handle has_events has_index broker) closed n) ∧
  framed R (rabbit_Consume c (consumer_handle has_events has_index broker) n None).
Proof. split_and!; [by apply metered_run|by apply metered_kafka|by apply metered_nats|by apply metered_rabbit]. Qed.

(** C40: The application reports only what is registered.  For every request, through
    the wrapper, the middlewares and the handlers, and for the gRPC methods that
    create messages, every update is of a registered metric, by a method of its
    kind and with a value for each of its labels. *)
Theorem app_metrics_valid `{ReadsKeep W R} `{!WritesKeep R} `{!LocalZone} `{!JwtLibrary ((W * Breaker) * Auth), !JwtPure ((W * Breaker) * Auth)}
    (ready : ctx → GoM W (option error)) (metrics_page : GoM W string) (e : environ) (startedAt : Z) (a : ApiState)
    (encode : body_of page → string) (m : mux target) (dm : mux docs_target) (q : wire)
    (c : ctx) (md : metadata) (text : string) (recvs : list (string + error)) :
  (∀ c, framed R (ready c)) → framed R metrics_page →
  framed (on_first (on_first R)) (app_handler ready metrics_page e startedAt a encode m dm q) ∧
  framed R (CreateMessage c md text) ∧ framed R (BatchCreate c [] recvs).
Proof.
  intros Hr Hm. split_and!; [by apply metered_app|apply metered_CreateMessage|apply metered_BatchCreate].
Qed.
