(* ===== verification/MetricsSim.v ===== *)
(** * MetricsSim: the metrics of concrete runs

    The programs on the simulated worlds of [PipelineSim] and [RouterSim]: the
    witnesses of [MetricsProps]. *)

From stdpp Require Import base option list strings gmap.
From Stdlib Require Import ZArith Lia.
From S2P Require Import Prelude Framed GoStrings Metrics Metered Messaging Storage StorageProps Retry Breaker OutboxWorker Http Jwt.
From S2P Require Import FileStores FilesApi SearchClient SearchSim MessagesApi StatusApi GrpcServer Consumers Cassandra Router RouterProps RouterSim.
From S2P Require Import Pipeline PipelineCode PipelineSim MetricsProps.
Local Open Scope Z_scope.

#[local] Existing Instances utc_codec ex_environment.

(** ** The loops *)

Definition pr_logged (w w' : proc) : Prop := logged (pr_sim w) (pr_sim w').

#[local] Instance pr_metered : Metered pr_logged.
Proof.
  split.
  - split; [intros w; unfold pr_logged; reflexivity|]. intros w1 w2 w3. unfold pr_logged. apply transitivity.
  - intros m w Hm. by apply (mt_emit (R := logged)).
  - intros n w. exact (mt_draw (R := logged) n (pr_sim w)).
  - intros c d w. exact (mt_select (R := logged) c d (pr_sim w)).
Qed.

(** A call of the pipeline leaves the runtime alone. *)
Lemma call_logged {A} (f : nat → pipe → A * pipe) : framed pr_logged (call ex_to true (Some ex_index) f).
Proof.
  intros w x w'. unfold call. destruct (f _ _) as [a p]. intros [= <- <-]. unfold pr_logged. cbn. reflexivity.
Qed.

#[local] Hint Resolve call_logged : framed.

#[local] Instance ex_store : OutboxStore proc := pr_store ex_to true (Some ex_index).
#[local] Instance ex_publishers : Publishers proc := pr_publishers ex_to true (Some ex_index).
#[local] Instance ex_source : Source proc := pr_source ex_to true (Some ex_index) "kafka".
#[local] Instance ex_rabbit : RabbitSource proc := pr_rabbit ex_to true (Some ex_index) "kafka".
#[local] Instance ex_elastic : Elastic proc := pr_elastic ex_to true (Some ex_index).
#[local] Instance ex_sink : EventSink proc := pr_sink ex_to true (Some ex_index).

#[local] Instance ex_worker_keeps : WorkerKeeps pr_logged.
Proof.
  split; intros; try apply call_logged; intros w x w' E; cbn in E.
  - injection E as E. unfold pr_factory in E. repeat case_match; simplify_eq; unfold pr_logged; cbn; reflexivity.
  - injection E as E. unfold pr_publish in E. repeat case_match; simplify_eq; unfold pr_logged; cbn; reflexivity.
  - injection E as _ <-. unfold pr_logged. cbn. reflexivity.
Qed.

#[local] Instance ex_consumer_keeps : ConsumerKeeps pr_logged.
Proof.
  split; intros; try apply call_logged.
  - intros w x w' E. cbn in E. injection E as _ <-. unfold pr_logged. cbn. by exists []; rewrite app_nil_r.
  - intros w x w' E. cbn [sink_Save ex_sink pr_sink] in E. destruct (Save _ _ _ _ _) as [[err [s tb]]|] eqn:Es; [|done].
    apply (inj Some), pair_eq in E as [_ <-]. apply (metered_Save logged) in Es. exact Es.
  - apply metered_IndexMessage; [apply _|intros; apply call_logged|intros r; apply framed_ret, _].
Qed.

(** One iteration of the worker, and of a consumer, report only what is
    registered. *)
Lemma loops_metrics_valid_witness :
  (∃ b w' l, run Background "kafka" 1 (ex_proc q1, wk0) = Some (b, (w', l)) ∧
     Forall (λ m, described m = true) (sim_metrics (pr_sim w'))) ∧
  (∃ r w', kafka_Consume Background (consumer_handle true true "kafka") 1 (ex_proc q3) = Some (r, w') ∧
     Forall (λ m, described m = true) (sim_metrics (pr_sim w'))).
Proof.
  destruct (loops_metrics_valid pr_logged Background "kafka" "kafka" true true (λ _, false) 1) as (Hrun & Hkafka & _). split.
  - destruct (run Background "kafka" 1 (ex_proc q1, wk0)) as [[b [w' l]]|] eqn:Er; [|vm_compute in Er; discriminate Er].
    exists b, w', l. split; [reflexivity|]. destruct (Hrun _ _ _ Er) as (l1 & E1 & H1). cbn in E1. rewrite E1. exact H1.
  - destruct (kafka_Consume Background (consumer_handle true true "kafka") 1 (ex_proc q3)) as [[r w']|] eqn:Ek;
      [|vm_compute in Ek; discriminate Ek].
    exists r, w'. split; [reflexivity|]. destruct (Hkafka _ _ _ Ek) as (l1 & E1 & H1). cbn in E1. rewrite E1. exact H1.
Defined.

(** What they report. *)
Example loops_report :
  (λ w, omap (λ m, match m with MInc n ls => Some (n, ls) | _ => None end) (sim_metrics (pr_sim w))) <$> after_consumer =
  Some [("otus_outbox_deliveries_total", ["kafka"; "ok"]); ("otus_storage_ops_total", ["cassandra"; "save"; "ok"]);
        ("otus_storage_ops_total", ["elasticsearch"; "index_message"; "ok"]); ("otus_broker_consumed_total", ["kafka"; "ok"])].
Proof. vm_compute. reflexivity. Qed.

(** ** The application *)

#[local] Existing Instances rw_store rw_audit rw_cache rw_codec rw_blobs rw_files rw_search rw_events rw_searcher rw_counter rw_keys rw_jwt rw_jwt_pure.

Definition rw_logged : rw → rw → Prop := on_first logged.

#[local] Instance rw_log_reads : ReadsKeep rw_logged.
Proof. split; [apply metered_on_first, _|..]; intros; intros w x w' E; injection E as _ <-; unfold rw_logged, on_first; cbn; reflexivity. Qed.

#[local] Instance rw_log_writes : WritesKeep rw_logged.
Proof.
  split; intros; intros w x w' E; try (injection E as _ <-; unfold rw_logged, on_first; reflexivity).
  cbn in E. destruct (Create _ _ _ _ _) as [res d']. injection E as _ <-. unfold rw_logged, on_first. cbn. reflexivity.
Qed.

Lemma app_metrics_valid_witness :
  ∃ ws s', app_handler (λ _, mret None) (mret "") (λ _, "") 0 rw_api (λ _, "{}") app_mux docs_mux
      (rw_wire "POST" "/messages" "Bearer good") rw_start = Some (ws, s') ∧
    Forall (λ m, described m = true) (sim_metrics s'.1.1.1).
Proof.
  destruct (app_metrics_valid (R := rw_logged) (λ _, mret None) (mret "") (λ _, "") 0 rw_api (λ _, "{}") app_mux docs_mux
    (rw_wire "POST" "/messages" "Bearer good") Background (λ _, []) "" []) as (Happ & _).
  - intros c. apply framed_ret, _.
  - apply framed_ret, _.
  - destruct (app_handler _ _ _ _ _ _ _ _ _ rw_start) as [[ws s']|] eqn:E; [|vm_compute in E; discriminate E].
    exists ws, s'. split; [reflexivity|]. destruct (Happ _ _ _ E) as (l & El & Hl). cbn in El. rewrite El. exact Hl.
Defined.
